(** * The discrete-event simulation core of sim/core: pending-action queue,
      aura state machine, phase ladder and randomness manager.

    The Go sources embedded here are [sim/core/sim.go] (the [Simulation]
    driver) and the aura file of the same package ([Aura], [auraTracker]).
    Go structs become records, pointers become indices into a store,
    callbacks become small programs over the exported API, a [panic]
    becomes the result [Panic]. *)

From stdpp Require Import base option list strings gmap sorting.
From Stdlib Require Import ZArith Lia.

Local Open Scope Z_scope.

(** ** Machine integers *)

(** [time.Duration] is an [int64]; additions wrap around. *)
Definition wrap64 (z : Z) : Z := (z + 2 ^ 63) mod 2 ^ 64 - 2 ^ 63.
Definition add64 (a b : Z) : Z := wrap64 (a + b).
Definition sub64 (a b : Z) : Z := wrap64 (a - b).
Definition neg64 (a : Z) : Z := wrap64 (- a).
(** [uint64(x)] for an [int64] [x], and [int64(u)] for a [uint64] [u]. *)
Definition to_uint64 (z : Z) : Z := z mod 2 ^ 64.
Definition to_int64 (z : Z) : Z := wrap64 z.

(** [const NeverExpires = time.Duration(math.MaxInt64)] *)
Definition NeverExpires : Z := 2 ^ 63 - 1.
(** [const Inactive = -1] *)
Definition Inactive : Z := -1.
Definition Second : Z := 1000000000.

(** ** Results of running Go code *)

Inductive Res (A : Type) : Type :=
| Ok (a : A)
| Panic (msg : string)
| OutOfFuel
| Unmodelled (why : string).
Arguments Ok {A} a.
Arguments Panic {A} msg.
Arguments OutOfFuel {A}.
Arguments Unmodelled {A} why.

Definition bindR {A B : Type} (r : Res A) (k : A -> Res B) : Res B :=
  match r with
  | Ok a => k a
  | Panic m => Panic m
  | OutOfFuel => OutOfFuel
  | Unmodelled m => Unmodelled m
  end.

Notation "'let*' x := r 'in' k" := (bindR r (fun x => k))
  (at level 10, x name, r at level 100, k at level 200).
Notation "'let*' ' p := r 'in' k" := (bindR r (fun p => k))
  (at level 10, p pattern, r at level 100, k at level 200).

Definition is_panic {A : Type} (r : Res A) : bool :=
  match r with Panic _ => true | _ => false end.

(** ** The platform: float64 and the state of external collaborators

    [float64] values are only compared and passed around by the engine; the
    thresholds are products computed in floating point.  The operations are
    kept abstract: every result below holds for any interpretation of them,
    IEEE 754 included.  [ExtState] is whatever the external ability code
    keeps outside the engine (closure variables, exclusive-effect
    categories). *)
Class Platform : Type := {
  float64 : Type;
  f_lit : Z -> float64;            (* the literal n/100: [f_lit 90] is 0.90 *)
  f_ge : float64 -> float64 -> bool;
  f_gt : float64 -> float64 -> bool;
  f_lt : float64 -> float64 -> bool;
  f_le : float64 -> float64 -> bool;
  f_eq : float64 -> float64 -> bool;
  f_add : float64 -> float64 -> float64;
  f_sub : float64 -> float64 -> float64;
  f_mul : float64 -> float64 -> float64;
  MaxFloat64 : float64;
  float64_of_duration : Z -> float64;   (* float64(d) *)
  duration_of_float64 : float64 -> Z;   (* time.Duration(x) *)
  ExtState : Type
}.

(** ** Data model *)

(** Pointers are positions in a store; callbacks and exclusive effects are
    named by numbers. *)
Abbreviation AuraId := nat (only parsing).
Abbreviation UnitId := nat (only parsing).
Abbreviation PAId := nat (only parsing).
Abbreviation CbId := nat (only parsing).
Abbreviation EEId := nat (only parsing).

(** The dispatch arrays of an [auraTracker]: [activeAuras] and one array per
    event category.  The source repeats the same code for each of them. *)
Inductive Slot : Type :=
| SlotActive
| SlotApplyEffects
| SlotCastComplete
| SlotSpellHitDealt
| SlotSpellHitTaken
| SlotPeriodicDamageDealt
| SlotPeriodicDamageTaken
| SlotHealDealt
| SlotHealTaken
| SlotPeriodicHealDealt
| SlotPeriodicHealTaken
| SlotEncounterStart.

#[global] Instance Slot_eq_dec : EqDecision Slot.
Proof. solve_decision. Defined.

Definition all_slots : list Slot :=
  [SlotActive; SlotApplyEffects; SlotCastComplete; SlotSpellHitDealt;
   SlotSpellHitTaken; SlotPeriodicDamageDealt; SlotPeriodicDamageTaken;
   SlotHealDealt; SlotHealTaken; SlotPeriodicHealDealt;
   SlotPeriodicHealTaken; SlotEncounterStart].

(** [type Aura struct].  [index s] is [activeIndex], [onApplyEffectsIndex],
    ...; [handler s] is the event handler of category [s] ([OnApplyEffects],
    [OnCastComplete], ...; [SlotActive] has none).  A callback field holds
    [None] for [nil] and the name of an external function otherwise. *)
Record Aura : Type := mkAura {
  Label : string;
  Tag : string;
  hasActionID : bool;            (* [!aura.ActionID.IsEmptyAction()] *)
  Duration : Z;
  startTime : Z;
  expires : Z;
  fadeTime : Z;
  Unit : UnitId;
  active : bool;
  index : Slot -> Z;
  stacks : Z;
  MaxStacks : Z;
  ExclusiveEffects : list EEId;
  OnInit : option CbId;
  OnReset : option CbId;
  OnGain : option CbId;
  OnExpire : option CbId;
  OnStacksChange : option CbId;
  handler : Slot -> option CbId;
  Procs : Z;                     (* [metrics.Procs] *)
  Uptime : Z;                    (* [metrics.Uptime] *)
  initialized : bool
}.

(** The [auraTracker] embedded in a [Unit]. *)
Record UnitT : Type := mkUnit {
  ULabel : string;
  hasEnv : bool;                 (* [unit.Env != nil] *)
  auras : list AuraId;           (* all registered auras *)
  arrays : Slot -> list AuraId;  (* [activeAuras], [onApplyEffectsAuras], ... *)
  minExpires : Z
}.

(** The function a [PendingAction] holds in [OnAction] or [CleanUp]. *)
Inductive ActionFn : Type :=
| FnNil
| FnSentinel                     (* panics: "running sentinel pending action" *)
| FnCb (cb : CbId).

(** [type PendingAction struct], with the fields sim.go reads and writes. *)
Record PendingAction : Type := mkPA {
  NextActionAt : Z;
  Priority : Z;
  OnAction : ActionFn;
  CleanUp : ActionFn;
  cancelled : bool;
  consumed : bool;
  canPool : bool
}.

(** What the engine does that an observer can see: every call of the aura
    API, and every invocation of a callback.  This trace is ghost state. *)
Inductive Event : Type :=
| EvActivate (a : AuraId)
| EvDeactivate (a : AuraId)
| EvSetStacks (a : AuraId) (n : Z)
| EvOnInit (a : AuraId)
| EvOnReset (a : AuraId)
| EvOnGain (a : AuraId)
| EvOnExpire (a : AuraId)
| EvOnStacksChange (a : AuraId) (oldStacks newStacks : Z)
| EvOnAction (p : PAId)
| EvCleanUp (p : PAId)
| EvPhase (i : nat) (cb : CbId) (phase : Z).

(** Field updates ([aura.expires = e] and the like). *)
Definition set_startTime (v : _) (r : Aura) : Aura :=
  mkAura (Label r) (Tag r) (hasActionID r) (Duration r) v (expires r)
    (fadeTime r) (Unit r) (active r) (index r) (stacks r) (MaxStacks r)
    (ExclusiveEffects r) (OnInit r) (OnReset r) (OnGain r) (OnExpire r)
    (OnStacksChange r) (handler r) (Procs r) (Uptime r) (initialized r).

Definition set_expires (v : _) (r : Aura) : Aura :=
  mkAura (Label r) (Tag r) (hasActionID r) (Duration r) (startTime r) v
    (fadeTime r) (Unit r) (active r) (index r) (stacks r) (MaxStacks r)
    (ExclusiveEffects r) (OnInit r) (OnReset r) (OnGain r) (OnExpire r)
    (OnStacksChange r) (handler r) (Procs r) (Uptime r) (initialized r).

Definition set_fadeTime (v : _) (r : Aura) : Aura :=
  mkAura (Label r) (Tag r) (hasActionID r) (Duration r) (startTime r)
    (expires r) v (Unit r) (active r) (index r) (stacks r) (MaxStacks r)
    (ExclusiveEffects r) (OnInit r) (OnReset r) (OnGain r) (OnExpire r)
    (OnStacksChange r) (handler r) (Procs r) (Uptime r) (initialized r).

Definition set_Unit (v : _) (r : Aura) : Aura :=
  mkAura (Label r) (Tag r) (hasActionID r) (Duration r) (startTime r)
    (expires r) (fadeTime r) v (active r) (index r) (stacks r) (MaxStacks r)
    (ExclusiveEffects r) (OnInit r) (OnReset r) (OnGain r) (OnExpire r)
    (OnStacksChange r) (handler r) (Procs r) (Uptime r) (initialized r).

Definition set_active (v : _) (r : Aura) : Aura :=
  mkAura (Label r) (Tag r) (hasActionID r) (Duration r) (startTime r)
    (expires r) (fadeTime r) (Unit r) v (index r) (stacks r) (MaxStacks r)
    (ExclusiveEffects r) (OnInit r) (OnReset r) (OnGain r) (OnExpire r)
    (OnStacksChange r) (handler r) (Procs r) (Uptime r) (initialized r).

Definition set_index (v : _) (r : Aura) : Aura :=
  mkAura (Label r) (Tag r) (hasActionID r) (Duration r) (startTime r)
    (expires r) (fadeTime r) (Unit r) (active r) v (stacks r) (MaxStacks r)
    (ExclusiveEffects r) (OnInit r) (OnReset r) (OnGain r) (OnExpire r)
    (OnStacksChange r) (handler r) (Procs r) (Uptime r) (initialized r).

Definition set_stacks (v : _) (r : Aura) : Aura :=
  mkAura (Label r) (Tag r) (hasActionID r) (Duration r) (startTime r)
    (expires r) (fadeTime r) (Unit r) (active r) (index r) v (MaxStacks r)
    (ExclusiveEffects r) (OnInit r) (OnReset r) (OnGain r) (OnExpire r)
    (OnStacksChange r) (handler r) (Procs r) (Uptime r) (initialized r).

Definition set_Procs (v : _) (r : Aura) : Aura :=
  mkAura (Label r) (Tag r) (hasActionID r) (Duration r) (startTime r)
    (expires r) (fadeTime r) (Unit r) (active r) (index r) (stacks r)
    (MaxStacks r) (ExclusiveEffects r) (OnInit r) (OnReset r) (OnGain r)
    (OnExpire r) (OnStacksChange r) (handler r) v (Uptime r) (initialized r).

Definition set_Uptime (v : _) (r : Aura) : Aura :=
  mkAura (Label r) (Tag r) (hasActionID r) (Duration r) (startTime r)
    (expires r) (fadeTime r) (Unit r) (active r) (index r) (stacks r)
    (MaxStacks r) (ExclusiveEffects r) (OnInit r) (OnReset r) (OnGain r)
    (OnExpire r) (OnStacksChange r) (handler r) (Procs r) v (initialized r).

Definition set_initialized (v : _) (r : Aura) : Aura :=
  mkAura (Label r) (Tag r) (hasActionID r) (Duration r) (startTime r)
    (expires r) (fadeTime r) (Unit r) (active r) (index r) (stacks r)
    (MaxStacks r) (ExclusiveEffects r) (OnInit r) (OnReset r) (OnGain r)
    (OnExpire r) (OnStacksChange r) (handler r) (Procs r) (Uptime r) v.

Definition set_auras (v : _) (r : UnitT) : UnitT :=
  mkUnit (ULabel r) (hasEnv r) v (arrays r) (minExpires r).

Definition set_arrays (v : _) (r : UnitT) : UnitT :=
  mkUnit (ULabel r) (hasEnv r) (auras r) v (minExpires r).

Definition set_minExpires (v : _) (r : UnitT) : UnitT :=
  mkUnit (ULabel r) (hasEnv r) (auras r) (arrays r) v.

Definition set_cancelled (v : _) (r : PendingAction) : PendingAction :=
  mkPA (NextActionAt r) (Priority r) (OnAction r) (CleanUp r) v (consumed r)
    (canPool r).

Definition set_consumed (v : _) (r : PendingAction) : PendingAction :=
  mkPA (NextActionAt r) (Priority r) (OnAction r) (CleanUp r) (cancelled r) v
    (canPool r).

Definition set_CleanUp (v : _) (r : PendingAction) : PendingAction :=
  mkPA (NextActionAt r) (Priority r) (OnAction r) v (cancelled r) (consumed r)
    (canPool r).

Section WithPlatform.
Context {PF : Platform}.

(** [type Simulation struct] together with the objects it points to: the
    stores of auras, units and pending actions, the encounter fields the
    engine reads, and the pool. *)
Record World : Type := mkWorld {
  (* stores *)
  aurasH : list Aura;
  unitsH : list UnitT;
  actionsH : list PendingAction;
  (* Simulation *)
  pendingActions : list PAId;
  pool : list PAId;
  CurrentTime : Z;
  simDuration : Z;               (* [sim.Duration] *)
  executePhase : Z;
  executePhaseCallbacks : list CbId;
  nextExecuteDuration : Z;
  nextExecuteDamage : float64;
  endOfCombatDuration : Z;
  endOfCombatDamage : float64;
  minTrackerTime : Z;
  trackers : list UnitId;
  minWeaponAttackTime : Z;
  weaponAttacks : list nat;
  minTaskTime : Z;
  tasks : list nat;
  (* Environment / Encounter *)
  finalized : bool;              (* [Env.IsFinalized()] *)
  DamageTaken : float64;
  EndFightAtHealth : float64;
  ExecuteProportion : Z -> float64;  (* [ExecuteProportion_90], [_45], ... *)
  (* external state and the ghost trace *)
  ext : ExtState;
  log : list Event
}.

Definition set_aurasH (v : _) (r : World) : World :=
  mkWorld v (unitsH r) (actionsH r) (pendingActions r) (pool r)
    (CurrentTime r) (simDuration r) (executePhase r) (executePhaseCallbacks r)
    (nextExecuteDuration r) (nextExecuteDamage r) (endOfCombatDuration r)
    (endOfCombatDamage r) (minTrackerTime r) (trackers r)
    (minWeaponAttackTime r) (weaponAttacks r) (minTaskTime r) (tasks r)
    (finalized r) (DamageTaken r) (EndFightAtHealth r) (ExecuteProportion r)
    (ext r) (log r).

Definition set_unitsH (v : _) (r : World) : World :=
  mkWorld (aurasH r) v (actionsH r) (pendingActions r) (pool r)
    (CurrentTime r) (simDuration r) (executePhase r) (executePhaseCallbacks r)
    (nextExecuteDuration r) (nextExecuteDamage r) (endOfCombatDuration r)
    (endOfCombatDamage r) (minTrackerTime r) (trackers r)
    (minWeaponAttackTime r) (weaponAttacks r) (minTaskTime r) (tasks r)
    (finalized r) (DamageTaken r) (EndFightAtHealth r) (ExecuteProportion r)
    (ext r) (log r).

Definition set_actionsH (v : _) (r : World) : World :=
  mkWorld (aurasH r) (unitsH r) v (pendingActions r) (pool r) (CurrentTime r)
    (simDuration r) (executePhase r) (executePhaseCallbacks r)
    (nextExecuteDuration r) (nextExecuteDamage r) (endOfCombatDuration r)
    (endOfCombatDamage r) (minTrackerTime r) (trackers r)
    (minWeaponAttackTime r) (weaponAttacks r) (minTaskTime r) (tasks r)
    (finalized r) (DamageTaken r) (EndFightAtHealth r) (ExecuteProportion r)
    (ext r) (log r).

Definition set_pendingActions (v : _) (r : World) : World :=
  mkWorld (aurasH r) (unitsH r) (actionsH r) v (pool r) (CurrentTime r)
    (simDuration r) (executePhase r) (executePhaseCallbacks r)
    (nextExecuteDuration r) (nextExecuteDamage r) (endOfCombatDuration r)
    (endOfCombatDamage r) (minTrackerTime r) (trackers r)
    (minWeaponAttackTime r) (weaponAttacks r) (minTaskTime r) (tasks r)
    (finalized r) (DamageTaken r) (EndFightAtHealth r) (ExecuteProportion r)
    (ext r) (log r).

Definition set_pool (v : _) (r : World) : World :=
  mkWorld (aurasH r) (unitsH r) (actionsH r) (pendingActions r) v
    (CurrentTime r) (simDuration r) (executePhase r) (executePhaseCallbacks r)
    (nextExecuteDuration r) (nextExecuteDamage r) (endOfCombatDuration r)
    (endOfCombatDamage r) (minTrackerTime r) (trackers r)
    (minWeaponAttackTime r) (weaponAttacks r) (minTaskTime r) (tasks r)
    (finalized r) (DamageTaken r) (EndFightAtHealth r) (ExecuteProportion r)
    (ext r) (log r).

Definition set_CurrentTime (v : _) (r : World) : World :=
  mkWorld (aurasH r) (unitsH r) (actionsH r) (pendingActions r) (pool r) v
    (simDuration r) (executePhase r) (executePhaseCallbacks r)
    (nextExecuteDuration r) (nextExecuteDamage r) (endOfCombatDuration r)
    (endOfCombatDamage r) (minTrackerTime r) (trackers r)
    (minWeaponAttackTime r) (weaponAttacks r) (minTaskTime r) (tasks r)
    (finalized r) (DamageTaken r) (EndFightAtHealth r) (ExecuteProportion r)
    (ext r) (log r).

Definition set_simDuration (v : _) (r : World) : World :=
  mkWorld (aurasH r) (unitsH r) (actionsH r) (pendingActions r) (pool r)
    (CurrentTime r) v (executePhase r) (executePhaseCallbacks r)
    (nextExecuteDuration r) (nextExecuteDamage r) (endOfCombatDuration r)
    (endOfCombatDamage r) (minTrackerTime r) (trackers r)
    (minWeaponAttackTime r) (weaponAttacks r) (minTaskTime r) (tasks r)
    (finalized r) (DamageTaken r) (EndFightAtHealth r) (ExecuteProportion r)
    (ext r) (log r).

Definition set_executePhase (v : _) (r : World) : World :=
  mkWorld (aurasH r) (unitsH r) (actionsH r) (pendingActions r) (pool r)
    (CurrentTime r) (simDuration r) v (executePhaseCallbacks r)
    (nextExecuteDuration r) (nextExecuteDamage r) (endOfCombatDuration r)
    (endOfCombatDamage r) (minTrackerTime r) (trackers r)
    (minWeaponAttackTime r) (weaponAttacks r) (minTaskTime r) (tasks r)
    (finalized r) (DamageTaken r) (EndFightAtHealth r) (ExecuteProportion r)
    (ext r) (log r).

Definition set_executePhaseCallbacks (v : _) (r : World) : World :=
  mkWorld (aurasH r) (unitsH r) (actionsH r) (pendingActions r) (pool r)
    (CurrentTime r) (simDuration r) (executePhase r) v (nextExecuteDuration r)
    (nextExecuteDamage r) (endOfCombatDuration r) (endOfCombatDamage r)
    (minTrackerTime r) (trackers r) (minWeaponAttackTime r) (weaponAttacks r)
    (minTaskTime r) (tasks r) (finalized r) (DamageTaken r)
    (EndFightAtHealth r) (ExecuteProportion r) (ext r) (log r).

Definition set_nextExecuteDuration (v : _) (r : World) : World :=
  mkWorld (aurasH r) (unitsH r) (actionsH r) (pendingActions r) (pool r)
    (CurrentTime r) (simDuration r) (executePhase r) (executePhaseCallbacks r)
    v (nextExecuteDamage r) (endOfCombatDuration r) (endOfCombatDamage r)
    (minTrackerTime r) (trackers r) (minWeaponAttackTime r) (weaponAttacks r)
    (minTaskTime r) (tasks r) (finalized r) (DamageTaken r)
    (EndFightAtHealth r) (ExecuteProportion r) (ext r) (log r).

Definition set_nextExecuteDamage (v : _) (r : World) : World :=
  mkWorld (aurasH r) (unitsH r) (actionsH r) (pendingActions r) (pool r)
    (CurrentTime r) (simDuration r) (executePhase r) (executePhaseCallbacks r)
    (nextExecuteDuration r) v (endOfCombatDuration r) (endOfCombatDamage r)
    (minTrackerTime r) (trackers r) (minWeaponAttackTime r) (weaponAttacks r)
    (minTaskTime r) (tasks r) (finalized r) (DamageTaken r)
    (EndFightAtHealth r) (ExecuteProportion r) (ext r) (log r).

Definition set_minTrackerTime (v : _) (r : World) : World :=
  mkWorld (aurasH r) (unitsH r) (actionsH r) (pendingActions r) (pool r)
    (CurrentTime r) (simDuration r) (executePhase r) (executePhaseCallbacks r)
    (nextExecuteDuration r) (nextExecuteDamage r) (endOfCombatDuration r)
    (endOfCombatDamage r) v (trackers r) (minWeaponAttackTime r)
    (weaponAttacks r) (minTaskTime r) (tasks r) (finalized r) (DamageTaken r)
    (EndFightAtHealth r) (ExecuteProportion r) (ext r) (log r).

Definition set_minWeaponAttackTime (v : _) (r : World) : World :=
  mkWorld (aurasH r) (unitsH r) (actionsH r) (pendingActions r) (pool r)
    (CurrentTime r) (simDuration r) (executePhase r) (executePhaseCallbacks r)
    (nextExecuteDuration r) (nextExecuteDamage r) (endOfCombatDuration r)
    (endOfCombatDamage r) (minTrackerTime r) (trackers r) v (weaponAttacks r)
    (minTaskTime r) (tasks r) (finalized r) (DamageTaken r)
    (EndFightAtHealth r) (ExecuteProportion r) (ext r) (log r).

Definition set_minTaskTime (v : _) (r : World) : World :=
  mkWorld (aurasH r) (unitsH r) (actionsH r) (pendingActions r) (pool r)
    (CurrentTime r) (simDuration r) (executePhase r) (executePhaseCallbacks r)
    (nextExecuteDuration r) (nextExecuteDamage r) (endOfCombatDuration r)
    (endOfCombatDamage r) (minTrackerTime r) (trackers r)
    (minWeaponAttackTime r) (weaponAttacks r) v (tasks r) (finalized r)
    (DamageTaken r) (EndFightAtHealth r) (ExecuteProportion r) (ext r) (log r).

Definition set_DamageTaken (v : _) (r : World) : World :=
  mkWorld (aurasH r) (unitsH r) (actionsH r) (pendingActions r) (pool r)
    (CurrentTime r) (simDuration r) (executePhase r) (executePhaseCallbacks r)
    (nextExecuteDuration r) (nextExecuteDamage r) (endOfCombatDuration r)
    (endOfCombatDamage r) (minTrackerTime r) (trackers r)
    (minWeaponAttackTime r) (weaponAttacks r) (minTaskTime r) (tasks r)
    (finalized r) v (EndFightAtHealth r) (ExecuteProportion r) (ext r) (log r).

Definition set_ext (v : _) (r : World) : World :=
  mkWorld (aurasH r) (unitsH r) (actionsH r) (pendingActions r) (pool r)
    (CurrentTime r) (simDuration r) (executePhase r) (executePhaseCallbacks r)
    (nextExecuteDuration r) (nextExecuteDamage r) (endOfCombatDuration r)
    (endOfCombatDamage r) (minTrackerTime r) (trackers r)
    (minWeaponAttackTime r) (weaponAttacks r) (minTaskTime r) (tasks r)
    (finalized r) (DamageTaken r) (EndFightAtHealth r) (ExecuteProportion r) v
    (log r).

Definition set_log (v : _) (r : World) : World :=
  mkWorld (aurasH r) (unitsH r) (actionsH r) (pendingActions r) (pool r)
    (CurrentTime r) (simDuration r) (executePhase r) (executePhaseCallbacks r)
    (nextExecuteDuration r) (nextExecuteDamage r) (endOfCombatDuration r)
    (endOfCombatDamage r) (minTrackerTime r) (trackers r)
    (minWeaponAttackTime r) (weaponAttacks r) (minTaskTime r) (tasks r)
    (finalized r) (DamageTaken r) (EndFightAtHealth r) (ExecuteProportion r)
    (ext r) v.

Definition set_endOfCombatDuration (v : _) (r : World) : World :=
  mkWorld (aurasH r) (unitsH r) (actionsH r) (pendingActions r) (pool r)
    (CurrentTime r) (simDuration r) (executePhase r) (executePhaseCallbacks r)
    (nextExecuteDuration r) (nextExecuteDamage r) v (endOfCombatDamage r)
    (minTrackerTime r) (trackers r) (minWeaponAttackTime r) (weaponAttacks r)
    (minTaskTime r) (tasks r) (finalized r) (DamageTaken r)
    (EndFightAtHealth r) (ExecuteProportion r) (ext r) (log r).

Definition set_endOfCombatDamage (v : _) (r : World) : World :=
  mkWorld (aurasH r) (unitsH r) (actionsH r) (pendingActions r) (pool r)
    (CurrentTime r) (simDuration r) (executePhase r) (executePhaseCallbacks r)
    (nextExecuteDuration r) (nextExecuteDamage r) (endOfCombatDuration r) v
    (minTrackerTime r) (trackers r) (minWeaponAttackTime r) (weaponAttacks r)
    (minTaskTime r) (tasks r) (finalized r) (DamageTaken r)
    (EndFightAtHealth r) (ExecuteProportion r) (ext r) (log r).

Definition set_trackers (v : _) (r : World) : World :=
  mkWorld (aurasH r) (unitsH r) (actionsH r) (pendingActions r) (pool r)
    (CurrentTime r) (simDuration r) (executePhase r) (executePhaseCallbacks r)
    (nextExecuteDuration r) (nextExecuteDamage r) (endOfCombatDuration r)
    (endOfCombatDamage r) (minTrackerTime r) v (minWeaponAttackTime r)
    (weaponAttacks r) (minTaskTime r) (tasks r) (finalized r) (DamageTaken r)
    (EndFightAtHealth r) (ExecuteProportion r) (ext r) (log r).

Definition set_weaponAttacks (v : _) (r : World) : World :=
  mkWorld (aurasH r) (unitsH r) (actionsH r) (pendingActions r) (pool r)
    (CurrentTime r) (simDuration r) (executePhase r) (executePhaseCallbacks r)
    (nextExecuteDuration r) (nextExecuteDamage r) (endOfCombatDuration r)
    (endOfCombatDamage r) (minTrackerTime r) (trackers r)
    (minWeaponAttackTime r) v (minTaskTime r) (tasks r) (finalized r)
    (DamageTaken r) (EndFightAtHealth r) (ExecuteProportion r) (ext r) (log r).

Definition set_tasks (v : _) (r : World) : World :=
  mkWorld (aurasH r) (unitsH r) (actionsH r) (pendingActions r) (pool r)
    (CurrentTime r) (simDuration r) (executePhase r) (executePhaseCallbacks r)
    (nextExecuteDuration r) (nextExecuteDamage r) (endOfCombatDuration r)
    (endOfCombatDamage r) (minTrackerTime r) (trackers r)
    (minWeaponAttackTime r) (weaponAttacks r) (minTaskTime r) v (finalized r)
    (DamageTaken r) (EndFightAtHealth r) (ExecuteProportion r) (ext r) (log r).

(** The exported API that a callback can call. *)
Inductive Cmd : Type :=
| CActivate (a : AuraId)
| CDeactivate (a : AuraId)
| CSetStacks (a : AuraId) (newStacks : Z)
| CRefresh (a : AuraId)
| CUpdateExpires (a : AuraId) (newExpires : Z)
| CNewPendingAction (pa : PendingAction)   (* [sim.AddPendingAction(&PendingAction{...})] *)
| CAddPendingAction (p : PAId)
| CCancel (p : PAId)
| CRegisterExecutePhaseCallback (cb : CbId)
| CSetDamageTaken (d : float64)
| CExt (f : ExtState -> ExtState)
| CPanic (msg : string).

(** A callback: it returns a value, or calls the API and goes on according
    to the state it then sees. *)
Inductive Prog : Type :=
| Ret (v : Z)
| Call (c : Cmd) (k : World -> Prog).

(** The external code the engine calls back into. *)
Class Program : Type := {
  code : CbId -> list Z -> Prog;     (* hooks, actions, phase callbacks *)
  eeActivate : EEId -> Prog;         (* [ee.Activate(sim)]: 0 is false *)
  eeDeactivate : EEId -> Prog;       (* [ee.Deactivate(sim)] *)
  trySwing : nat -> Prog;            (* [wa.trySwing(sim)] *)
  RunTask : nat -> Prog;             (* [t.RunTask(sim)] *)
  (* the end of an iteration: [sim.Raid.doneIteration(sim)],
     [sim.Encounter.doneIteration(sim)], [unit.Metrics.doneIteration(unit,
     sim)], and the lists [sim.Raid.AllUnits] and
     [sim.Encounter.AllTargetUnits], which sim.go only reads *)
  raidDoneIteration : Prog;
  encounterDoneIteration : Prog;
  metricsDoneIteration : UnitId -> Prog;
  AllUnits : list UnitId;
  AllTargetUnits : list UnitId
}.


(** ** The aura state machine *)

Section Engine.
Context {PG : Program}.

Definition panic_nil {A : Type} : Res A :=
  Panic "invalid memory address or nil pointer dereference".
Definition panic_index {A : Type} : Res A :=
  Panic "index out of range".

(** Dereferencing a pointer. *)
Definition getAura (a : AuraId) (w : World) : Res Aura :=
  match aurasH w !! a with Some A => Ok A | None => panic_nil end.
Definition getUnit (u : UnitId) (w : World) : Res UnitT :=
  match unitsH w !! u with Some U => Ok U | None => panic_nil end.
Definition getAction (p : PAId) (w : World) : Res PendingAction :=
  match actionsH w !! p with Some PA => Ok PA | None => panic_nil end.

(** Writing through a pointer. *)
Definition updAura (a : AuraId) (f : Aura -> Aura) (w : World) : World :=
  set_aurasH (alter f a (aurasH w)) w.
Definition updUnit (u : UnitId) (f : UnitT -> UnitT) (w : World) : World :=
  set_unitsH (alter f u (unitsH w)) w.
Definition updAction (p : PAId) (f : PendingAction -> PendingAction)
    (w : World) : World :=
  set_actionsH (alter f p (actionsH w)) w.

Definition emit (e : Event) (w : World) : World := set_log (log w ++ [e]) w.

(** [sim.rescheduleTracker] *)
Definition rescheduleTracker (trackerTime : Z) (w : World) : World :=
  set_minTrackerTime (Z.min (minTrackerTime w) trackerTime) w.

(** [aura.IsActive()] and [aura.GetStacks()], on a pointer that may be nil. *)
Definition IsActive (aura : option Aura) : bool :=
  match aura with
  | None => false
  | Some A => active A
  end.

Definition GetStacks (aura : option Aura) : Z :=
  match aura with
  | None => 0
  | Some A => stacks A
  end.

(** [aura.ExpiresAt()] *)
Definition ExpiresAt (A : Aura) : Z := expires A.

(** Whether [Activate] puts the aura into the array of slot [s]:
    [aura.Duration != NeverExpires] for [activeAuras], a handler that is not
    nil for the others. *)
Definition registers (A : Aura) (s : Slot) : bool :=
  match s with
  | SlotActive => negb (Duration A =? NeverExpires)
  | _ => bool_decide (is_Some (handler A s))
  end.

(** [removeBySwappingToBack(arr, removeIdx)], within bounds. *)
Definition removeBySwappingToBack (arr : list AuraId) (removeIdx : nat)
    : list AuraId :=
  match last arr with
  | Some x => take (length arr - 1)%nat (<[removeIdx := x]> arr)
  | None => arr
  end.

Section Bodies.
(** The functions below call each other through callbacks; [call] stands
    for a call of the API one level further down. *)
Variable call : Cmd -> World -> Res World.

(** Running a callback. *)
Fixpoint runProg (p : Prog) (w : World) : Res (Z * World) :=
  match p with
  | Ret v => Ok (v, w)
  | Call c k => let* w' := call c w in runProg (k w') w'
  end.

(** Invoking a hook that may be nil: [if aura.OnGain != nil { ... }]. *)
Definition runHook (cb : option CbId) (args : list Z) (e : Event)
    (w : World) : Res World :=
  match cb with
  | None => Ok w
  | Some c => let* '(_, w') := runProg (code c args) (emit e w) in Ok w'
  end.

(** [aura.Refresh(sim)] *)
Definition Refresh (a : AuraId) (w : World) : Res World :=
  let* A := getAura a w in
  if Duration A =? NeverExpires then
    Ok (updAura a (set_expires NeverExpires) w)
  else
    let e := add64 (CurrentTime w) (Duration A) in
    let w1 := updAura a (set_expires e) w in
    let* U := getUnit (Unit A) w1 in
    if e <? minExpires U then
      Ok (rescheduleTracker e (updUnit (Unit A) (set_minExpires e) w1))
    else Ok w1.

(** [aura.SetStacks(sim, newStacks)] *)
Definition SetStacks (a : AuraId) (newStacks : Z) (w : World) : Res World :=
  let* A := getAura a w in
  if negb (active A) && negb (newStacks =? 0) then
    Panic "Trying to set non-zero stacks on inactive aura!"
  else if newStacks <? 0 then
    Panic "SetStacks newStacks cannot be negative"
  else if MaxStacks A =? 0 then
    Panic "MaxStacks required to set Aura stacks"
  else
    let oldStacks := stacks A in
    let newStacks := Z.min newStacks (MaxStacks A) in
    if oldStacks =? newStacks then Ok w
    else
      let w1 := updAura a (set_stacks newStacks) w in
      let* w2 := runHook (OnStacksChange A) [Z.of_nat a; oldStacks; newStacks]
                   (EvOnStacksChange a oldStacks newStacks) w1 in
      let* A2 := getAura a w2 in
      if stacks A2 =? 0 then call (CDeactivate a) w2 else Ok w2.

(** [for _, ee := range effects { ee.Deactivate(sim) }] *)
Fixpoint deactivateEffects (effects : list EEId) (w : World) : Res World :=
  match effects with
  | [] => Ok w
  | ee :: rest =>
      let* '(_, w') := runProg (eeDeactivate ee) w in
      deactivateEffects rest w'
  end.

(** The loop over [aura.ExclusiveEffects] in [Activate]: [acquired] are the
    effects activated so far; when one refuses they are deactivated again
    and the result is [false]. *)
Fixpoint activateEffects (acquired todo : list EEId) (w : World)
    : Res (bool * World) :=
  match todo with
  | [] => Ok (true, w)
  | ee :: rest =>
      let* '(r, w1) := runProg (eeActivate ee) w in
      if r =? 0 then
        let* w2 := deactivateEffects acquired w1 in Ok (false, w2)
      else activateEffects (acquired ++ [ee]) rest w1
  end.

(** The twelve blocks of [Activate] that append the aura to a dispatch
    array and record its position:
    [aura.xIndex = int32(len(aura.Unit.xAuras)); aura.Unit.xAuras =
    append(aura.Unit.xAuras, aura)].  The blocks write disjoint fields, so
    they are taken together, slot by slot.  A dispatch array holds each
    registered aura of the unit at most once and [registerAura] caps their
    number, so [int32(len(..))] does not wrap. *)
Definition register (a : AuraId) (w : World) : Res World :=
  let* A := getAura a w in
  if forallb (fun s => negb (registers A s)) all_slots then Ok w
  else
    let* U := getUnit (Unit A) w in
    let idx s :=
      if registers A s then Z.of_nat (length (arrays U s)) else index A s in
    let arr s :=
      if registers A s then arrays U s ++ [a] else arrays U s in
    Ok (updUnit (Unit A) (set_arrays arr) (updAura a (set_index idx) w)).

(** Slot [s] of aura [A] can be removed from the arrays of [U] without an
    index panic. *)
Definition removable (A : Aura) (U : UnitT) (s : Slot) : bool :=
  (index A s =? Inactive)
  || ((0 <=? index A s) && (index A s <? Z.of_nat (length (arrays U s)))).

(** The aura that [removeBySwappingToBack] moves into the freed position of
    slot [s], if any: the last one, unless the freed position is the last. *)
Definition moved (A : Aura) (U : UnitT) (s : Slot) : option AuraId :=
  if index A s =? Inactive then None
  else if index A s <? Z.of_nat (length (arrays U s)) - 1
       then last (arrays U s) else None.

(** The twelve blocks of [Deactivate] that take the aura out of a dispatch
    array:
    [if aura.xIndex != Inactive { removeIdx := aura.xIndex;
       aura.Unit.xAuras = removeBySwappingToBack(aura.Unit.xAuras, removeIdx);
       if removeIdx < len(aura.Unit.xAuras) {
         aura.Unit.xAuras[removeIdx].xIndex = removeIdx };
       aura.xIndex = Inactive }]. *)
Definition unregister (a : AuraId) (w : World) : Res World :=
  let* A := getAura a w in
  if forallb (fun s => index A s =? Inactive) all_slots then Ok w
  else
    let* U := getUnit (Unit A) w in
    if negb (forallb (removable A U) all_slots) then panic_index
    else if negb (forallb (fun s => match moved A U s with
                                    | Some b => bool_decide (is_Some (aurasH w !! b))
                                    | None => true
                                    end) all_slots) then panic_nil
    else
      let arr s :=
        if index A s =? Inactive then arrays U s
        else removeBySwappingToBack (arrays U s) (Z.to_nat (index A s)) in
      let fix_index (b : AuraId) (B : Aura) : Aura :=
        set_index (fun s =>
          if bool_decide (b = a) then Inactive
          else if bool_decide (moved A U s = Some b) then index A s
          else index B s) B in
      Ok (updUnit (Unit A) (set_arrays arr)
            (set_aurasH (imap fix_index (aurasH w)) w)).

(** [aura.Activate(sim)] *)
Definition Activate (a : AuraId) (w : World) : Res World :=
  let* A := getAura a w in
  let w := updAura a (set_Procs (Procs A + 1)) w in
  if active A then Refresh a w
  else if Duration A =? 0 then Panic "Aura with 0 duration"
  else
    let* '(acquired, w1) := activateEffects [] (ExclusiveEffects A) w in
    if negb acquired then Ok w1
    else
      let w2 := updAura a (fun A => set_startTime (CurrentTime w1)
                                      (set_active true A)) w1 in
      let* w3 := Refresh a w2 in
      let* w4 := register a w3 in
      let* A4 := getAura a w4 in
      runHook (OnGain A4) [Z.of_nat a] (EvOnGain a) w4.

(** [aura.Deactivate(sim)]; on the nil pointer [aura.IsActive()] is false
    and the method returns at once. *)
Definition Deactivate (a : AuraId) (w : World) : Res World :=
  match aurasH w !! a with
  | None => Ok w
  | Some A =>
  if negb (active A) then Ok w
  else
    let uptime :=
      if hasActionID A then
        if expires A <? CurrentTime w
        then add64 (Uptime A) (sub64 (expires A) (Z.max (startTime A) 0))
        else add64 (Uptime A) (sub64 (CurrentTime w) (Z.max (startTime A) 0))
      else Uptime A in
    let w1 := updAura a (fun A => set_fadeTime (CurrentTime w)
                           (set_expires 0 (set_Uptime uptime
                              (set_active false A)))) w in
    let* w2 := unregister a w1 in
    (* don't invoke possible callbacks until the internal state is consistent *)
    let* A2 := getAura a w2 in
    let* w3 := (if stacks A2 =? 0 then Ok w2 else call (CSetStacks a 0) w2) in
    let* A3 := getAura a w3 in
    let* w4 := deactivateEffects (ExclusiveEffects A3) w3 in
    let* A4 := getAura a w4 in
    runHook (OnExpire A4) [Z.of_nat a] (EvOnExpire a) w4
  end.


(** ** The pending-action queue *)

(** [sentinelPendingAction]: a package-level object; its address is 0 in the
    store of pending actions. *)
Definition sentinelPendingAction : PendingAction :=
  mkPA NeverExpires 0 FnSentinel FnNil false false false.
Definition sentinel : PAId := 0%nat.

(** The loop of [AddPendingAction] over [sim.pendingActions[1:]]: the new
    action goes in front of the first [v] that is due earlier, or is due
    at the same time with a priority at least as high. *)
Fixpoint insertAction (h : list PendingAction) (PA : PendingAction)
    (p : PAId) (l : list PAId) : Res (list PAId) :=
  match l with
  | [] => Ok [p]
  | v :: rest =>
      match h !! v with
      | None => panic_nil
      | Some V =>
          if (NextActionAt V <? NextActionAt PA)
             || ((NextActionAt V =? NextActionAt PA)
                 && (Priority PA <=? Priority V))
          then Ok (p :: v :: rest)
          else let* r := insertAction h PA p rest in Ok (v :: r)
      end
  end.

(** [sim.AddPendingAction(pa)] *)
Definition AddPendingAction (p : PAId) (w : World) : Res World :=
  let* _ := getAction p w in
  let w1 := updAction p (set_consumed false) w in
  let* PA := getAction p w1 in
  match pendingActions w1 with
  | [] => Panic "slice bounds out of range"
  | s :: rest =>
      let* rest' := insertAction (actionsH w1) PA p rest in
      Ok (set_pendingActions (s :: rest') w1)
  end.

(** Modelled from the spec: [PendingAction.Cancel], which these sources only
    call, with the simulation as argument (rotation.go:39).
    "[Cancel(action)] marks it cancelled in O(1) without removing it from
    the structure", and "a cancelled action's callback never runs, but its
    cleanup always runs exactly once".  [Step] disposes of a cancelled
    action without running its clean-up, and [Cleanup] runs whatever
    clean-up an action still holds: so it is [Cancel] that runs the
    clean-up, and takes it out of the action.  The spec does not say in
    which order; here the action is marked and its clean-up taken out
    before the clean-up runs, so that a clean-up which cancels its own
    action again finds nothing left to run. *)
Definition Cancel (p : PAId) (w : World) : Res World :=
  let* PA := getAction p w in
  let w1 := updAction p (fun X => set_CleanUp FnNil (set_cancelled true X)) w in
  match CleanUp PA with
  | FnNil => Ok w1
  | FnSentinel => Panic "running sentinel pending action"
  | FnCb cb => let* '(_, w') := runProg (code cb []) (emit (EvCleanUp p) w1) in
               Ok w'
  end.

(** Modelled from the spec: [PendingAction.dispose], which these sources only
    call.  "Dispose returns pooled actions to the pool." *)
Definition dispose (p : PAId) (w : World) : World :=
  match actionsH w !! p with
  | Some PA => if canPool PA then set_pool (p :: pool w) w else w
  | None => w
  end.

(** One API call, given the API one level further down. *)
Definition step_cmd (c : Cmd) (w : World) : Res World :=
  match c with
  | CActivate a => Activate a (emit (EvActivate a) w)
  | CDeactivate a => Deactivate a (emit (EvDeactivate a) w)
  | CSetStacks a n => SetStacks a n (emit (EvSetStacks a n) w)
  | CRefresh a => Refresh a w
  | CUpdateExpires a t =>
      let* _ := getAura a w in Ok (updAura a (set_expires t) w)
  | CNewPendingAction pa =>
      AddPendingAction (length (actionsH w))
        (set_actionsH (actionsH w ++ [pa]) w)
  | CAddPendingAction p => AddPendingAction p w
  | CCancel p => Cancel p w
  | CRegisterExecutePhaseCallback cb =>
      Ok (set_executePhaseCallbacks (executePhaseCallbacks w ++ [cb]) w)
  | CSetDamageTaken d => Ok (set_DamageTaken d w)
  | CExt f => Ok (set_ext (f (ext w)) w)
  | CPanic msg => Panic msg
  end.

End Bodies.

(** The API, to a given depth of nested calls. *)
Fixpoint exec (fuel : nat) (c : Cmd) (w : World) : Res World :=
  match fuel with
  | O => OutOfFuel
  | S n => step_cmd (exec n) c w
  end.

(** ** Registration and per-iteration reset of auras *)

(** [at.GetAura(label)] *)
Fixpoint GetAura (h : list Aura) (l : list AuraId) (label : string)
    : Res (option AuraId) :=
  match l with
  | [] => Ok None
  | a :: rest =>
      match h !! a with
      | None => panic_nil
      | Some A => if bool_decide (Label A = label) then Ok (Some a)
                  else GetAura h rest label
      end
  end.

(** [at.registerAura(unit, aura)], [at] being the tracker of [unit].  The
    index of aurasByTag is not modelled. *)
Definition registerAura (u : UnitId) (aura : Aura) (w : World)
    : Res (AuraId * World) :=
  let* U := getUnit u w in
  if hasEnv U && finalized w then
    Panic "Tried to add new aura in a finalized environment!"
  else if bool_decide (Label aura = "") then Panic "Aura label is required!"
  else
    let* found := GetAura (aurasH w) (auras U) (Label aura) in
    if bool_decide (is_Some found) then
      Panic ("Aura " +:+ Label aura +:+ " already registered!")
    else if 200 <? Z.of_nat (length (auras U)) then
      Panic ("Over 200 registered auras when registering " +:+ Label aura
             +:+ "! There is probably an aura being registered every iteration.")
    else
      let newAura := set_index (fun _ => Inactive) (set_Unit u aura) in
      let a := length (aurasH w) in
      Ok (a, updUnit u (fun U => set_auras (auras U ++ [a]) U)
               (set_aurasH (aurasH w ++ [newAura]) w)).

(** [aura.init(sim)] *)
Definition aura_init (fuel : nat) (a : AuraId) (w : World) : Res World :=
  let* A := getAura a w in
  if initialized A then Ok w
  else
    runHook (exec fuel) (OnInit A) [Z.of_nat a] (EvOnInit a)
      (updAura a (set_initialized true) w).

(** [aura.reset(sim)]; [metrics.reset()] and [Dpm.Reset()] belong to types
    outside these sources. *)
Definition aura_reset (fuel : nat) (a : AuraId) (w : World) : Res World :=
  let* w1 := aura_init fuel a w in
  let* A := getAura a w1 in
  if active A then
    let* U := getUnit (Unit A) w1 in
    Panic ("Active aura during reset: " +:+ Label A +:+ " on " +:+ ULabel U)
  else if negb (stacks A =? 0) then
    Panic ("Aura nonzero stacks during reset: " +:+ Label A)
  else
    let w2 := updAura a (set_fadeTime (neg64 NeverExpires)) w1 in
    runHook (exec fuel) (OnReset A) [Z.of_nat a] (EvOnReset a) w2.

(** ** Phases *)

(** The closure [setup] of [nextExecutePhase]. *)
Definition setup (phase : Z) (damage health : float64) (w : World) : World :=
  let w := set_executePhase phase w in
  if f_gt (EndFightAtHealth w) (f_lit 0) then
    set_nextExecuteDamage
      (f_mul (f_sub (f_lit 100) damage) (EndFightAtHealth w)) w
  else
    set_nextExecuteDuration
      (duration_of_float64
         (f_mul (f_sub (f_lit 100) health)
                (float64_of_duration (simDuration w)))) w.

(** [sim.nextExecutePhase()] *)
Definition nextExecutePhase (w : World) : Res World :=
  let ph := executePhase w in
  let w := set_nextExecuteDamage MaxFloat64
             (set_nextExecuteDuration NeverExpires w) in
  if ph =? 0 then Ok (setup 100 (f_lit 90) (ExecuteProportion w 90) w)
  else if ph =? 100 then Ok (setup 90 (f_lit 45) (ExecuteProportion w 45) w)
  else if ph =? 90 then Ok (setup 45 (f_lit 35) (ExecuteProportion w 35) w)
  else if ph =? 45 then Ok (setup 35 (f_lit 25) (ExecuteProportion w 25) w)
  else if ph =? 35 then Ok (setup 25 (f_lit 20) (ExecuteProportion w 20) w)
  else if ph =? 25 then Ok (set_executePhase 20 w)
  else Panic "executePhase invalid".

(** [for _, callback := range sim.executePhaseCallbacks
       { callback(sim, sim.executePhase) }]; [i] counts the registrations. *)
Fixpoint runPhaseCallbacks (fuel : nat) (i : nat) (cbs : list CbId)
    (w : World) : Res World :=
  match cbs with
  | [] => Ok w
  | cb :: rest =>
      let ph := executePhase w in
      let* '(_, w') := runProg (exec fuel) (code cb [ph])
                         (emit (EvPhase i cb ph) w) in
      runPhaseCallbacks fuel (S i) rest w'
  end.

(** The [for] loop of [advance] over the execute phases; [n] bounds the
    number of rounds. *)
Fixpoint phaseLoop (fuel : nat) (n : nat) (w : World) : Res World :=
  if (nextExecuteDuration w <=? CurrentTime w)
     || f_ge (DamageTaken w) (nextExecuteDamage w)
  then
    match n with
    | O => OutOfFuel
    | S n' =>
        let* w1 := nextExecutePhase w in
        let* w2 := runPhaseCallbacks fuel 0 (executePhaseCallbacks w1) w1 in
        phaseLoop fuel n' w2
    end
  else Ok w.

(** [sim.reset()], from the reset of the queue on; the draw of the duration
    before it, [Environment.reset] and [initManaTickAction] after it are
    outside these sources. *)
Definition reset (w : World) : Res World :=
  let w := set_pendingActions [sentinel] w in
  let* w := nextExecutePhase (set_executePhase 0 w) in
  let w := set_executePhaseCallbacks [] w in
  let w := set_endOfCombatDamage MaxFloat64
             (set_endOfCombatDuration (simDuration w) w) in
  let w := if f_gt (EndFightAtHealth w) (f_lit 0)
           then set_endOfCombatDamage (EndFightAtHealth w)
                  (set_endOfCombatDuration NeverExpires w)
           else w in
  let w := set_CurrentTime 0 w in
  let w := set_minTrackerTime NeverExpires (set_trackers [] w) in
  let w := set_minWeaponAttackTime NeverExpires (set_weaponAttacks [] w) in
  let w := set_minTaskTime NeverExpires (set_tasks [] w) in
  Ok w.

(** [sim.addTracker(tracker)] *)
Definition addTracker (u : UnitId) (w : World) : Res World :=
  let* U := getUnit u w in
  Ok (rescheduleTracker (minExpires U) (set_trackers (trackers w ++ [u]) w)).

(** ** Lazy expiration *)

(** One pass of the [range] loop of [auraTracker.advance] over
    [at.activeAuras]: it stops at the first expired aura, and lowers
    [at.minExpires] on the way. *)
Fixpoint scanActive (u : UnitId) (l : list AuraId) (w : World)
    : Res (option AuraId * World) :=
  match l with
  | [] => Ok (None, w)
  | a :: rest =>
      let* A := getAura a w in
      if expires A <=? CurrentTime w then Ok (Some a, w)
      else
        scanActive u rest
          (updUnit u (fun U => set_minExpires
                                 (Z.min (minExpires U) (expires A)) U) w)
  end.

(** [at.advance(sim)]: every [goto restart] takes one unit of [n]. *)
Fixpoint at_advance (fuel : nat) (n : nat) (u : UnitId) (w : World)
    : Res (Z * World) :=
  let* U := getUnit u w in
  let w0 := updUnit u (set_minExpires NeverExpires) w in
  let* '(found, w1) := scanActive u (arrays U SlotActive) w0 in
  match found with
  | None => let* U1 := getUnit u w1 in Ok (minExpires U1, w1)
  | Some a =>
      match n with
      | O => OutOfFuel
      | S n' =>
          let* w2 := exec fuel (CDeactivate a) w1 in
          at_advance fuel n' u w2
      end
  end.

(** [at.tryAdvance(sim)] *)
Definition tryAdvance (fuel : nat) (u : UnitId) (w : World)
    : Res (Z * World) :=
  let* U := getUnit u w in
  if CurrentTime w <? minExpires U then Ok (minExpires U, w)
  else at_advance fuel fuel u w.

(** [for _, t := range sim.trackers
       { sim.minTrackerTime = min(sim.minTrackerTime, t.tryAdvance(sim)) }].
    Go leaves open whether [sim.minTrackerTime] is read before or after the
    call; the gc compiler makes the call first, and so does this loop. *)
Fixpoint advanceTrackers (fuel : nat) (l : list UnitId) (w : World)
    : Res World :=
  match l with
  | [] => Ok w
  | t :: rest =>
      let* '(m, w') := tryAdvance fuel t w in
      advanceTrackers fuel rest
        (set_minTrackerTime (Z.min (minTrackerTime w') m) w')
  end.

(** [sim.advance(nextTime)] *)
Definition advance (fuel : nat) (nextTime : Z) (w : World) : Res World :=
  let w := set_CurrentTime nextTime w in
  let* w1 := phaseLoop fuel fuel w in
  if minTrackerTime w1 <=? CurrentTime w1 then
    advanceTrackers fuel (trackers w1) (set_minTrackerTime NeverExpires w1)
  else Ok w1.

(** ** The driver *)

(** [for _, wa := range sim.weaponAttacks { sim.minWeaponAttackTime =
       min(sim.minWeaponAttackTime, wa.trySwing(sim)) }].  The callbacks
    modelled here cannot change the list of weapon attacks. *)
Fixpoint swingAll (fuel : nat) (l : list nat) (w : World) : Res World :=
  match l with
  | [] => Ok w
  | wa :: rest =>
      let* '(t, w') := runProg (exec fuel) (trySwing wa) w in
      swingAll fuel rest
        (set_minWeaponAttackTime (Z.min (minWeaponAttackTime w') t) w')
  end.

(** [sim.advanceWeaponAttacks()] *)
Definition advanceWeaponAttacks (fuel : nat) (w : World) : Res World :=
  let* w1 := (if CurrentTime w <? minWeaponAttackTime w
              then advance fuel (minWeaponAttackTime w) w else Ok w) in
  swingAll fuel (weaponAttacks w1) (set_minWeaponAttackTime NeverExpires w1).

(** The loop of [advanceTasks]; the callbacks modelled here cannot change the
    list of tasks. *)
Fixpoint runTasks (fuel : nat) (l : list nat) (w : World) : Res World :=
  match l with
  | [] => Ok w
  | t :: rest =>
      let* '(d, w') := runProg (exec fuel) (RunTask t) w in
      runTasks fuel rest (set_minTaskTime (Z.min (minTaskTime w') d) w')
  end.

(** [sim.advanceTasks()] *)
Definition advanceTasks (fuel : nat) (w : World) : Res World :=
  let* w1 := (if CurrentTime w <? minTaskTime w
              then advance fuel (minTaskTime w) w else Ok w) in
  runTasks fuel (tasks w1) (set_minTaskTime NeverExpires w1).

(** Calling [pa.OnAction(sim)] or [pa.CleanUp(sim)]. *)
Definition runAction (fuel : nat) (f : ActionFn) (e : Event) (w : World)
    : Res World :=
  match f with
  | FnNil => panic_nil
  | FnSentinel => Panic "running sentinel pending action"
  | FnCb cb => let* '(_, w') := runProg (exec fuel) (code cb []) (emit e w) in
               Ok w'
  end.

(** The combat-end test of [Step]:
    [t > sim.endOfCombatDuration || sim.Encounter.DamageTaken >
     sim.endOfCombatDamage]. *)
Definition combatOver (t : Z) (w : World) : bool :=
  (endOfCombatDuration w <? t) || f_gt (DamageTaken w) (endOfCombatDamage w).

(** [sim.Step()] *)
Definition Step (fuel : nat) (w : World) : Res (bool * World) :=
  match last (pendingActions w) with
  | None => panic_index
  | Some p =>
      let* PA := getAction p w in
      if (minWeaponAttackTime w <=? NextActionAt PA)
         && (minWeaponAttackTime w <=? minTaskTime w) then
        if combatOver (minWeaponAttackTime w) w then Ok (true, w)
        else let* w' := advanceWeaponAttacks fuel w in Ok (false, w')
      else if minTaskTime w <=? NextActionAt PA then
        if combatOver (minTaskTime w) w then Ok (true, w)
        else let* w' := advanceTasks fuel w in Ok (false, w')
      else
        let w1 := updAction p (set_consumed true)
                    (set_pendingActions
                       (take (length (pendingActions w) - 1)%nat
                             (pendingActions w)) w) in
        if cancelled PA then Ok (false, dispose p w1)
        else if combatOver (NextActionAt PA) w1 then Ok (true, dispose p w1)
        else
          let* w2 := (if CurrentTime w1 <? NextActionAt PA
                      then advance fuel (NextActionAt PA) w1 else Ok w1) in
          let* PA2 := getAction p w2 in
          if cancelled PA2 then Ok (false, dispose p w2)
          else
            let* w3 := runAction fuel (OnAction PA2) (EvOnAction p) w2 in
            Ok (false, dispose p w3)
  end.

(** [sim.runPendingActions()]; [n] bounds the number of steps. *)
Fixpoint runPendingActions (fuel : nat) (n : nat) (w : World) : Res World :=
  match n with
  | O => OutOfFuel
  | S n' =>
      let* '(finished, w') := Step fuel w in
      if finished then Ok w' else runPendingActions fuel n' w'
  end.

(** The loop of [Cleanup] over [sim.pendingActions].  The [range] reads the
    slice as it was when the loop started; a clean-up callback that inserts
    into the queue would write into the backing array under the loop, which
    lists do not model: such a run is reported as [Unmodelled]. *)
Fixpoint cleanupAll (fuel : nat) (l : list PAId) (w : World) : Res World :=
  match l with
  | [] => Ok w
  | p :: rest =>
      let* PA := getAction p w in
      let* w1 := (match CleanUp PA with
                  | FnNil => Ok w
                  | f => runAction fuel f (EvCleanUp p) w
                  end) in
      if bool_decide (pendingActions w1 = pendingActions w) then
        cleanupAll fuel rest (dispose p w1)
      else Unmodelled "queue changed under the range loop of Cleanup"
  end.

(** [for _, unit := range units { unit.Metrics.doneIteration(unit, sim) }] *)
Fixpoint metricsDone (fuel : nat) (l : list UnitId) (w : World) : Res World :=
  match l with
  | [] => Ok w
  | u :: rest =>
      let* '(_, w') := runProg (exec fuel) (metricsDoneIteration u) w in
      metricsDone fuel rest w'
  end.

(** [sim.Cleanup()].  What raid, encounter and unit metrics do at the end of
    an iteration is external code. *)
Definition Cleanup (fuel : nat) (w : World) : Res World :=
  let w1 := if f_eq (EndFightAtHealth w) (f_lit 0)
            then set_CurrentTime (simDuration w) w
            else set_simDuration (CurrentTime w) w in
  let* w2 := cleanupAll fuel (pendingActions w1) w1 in
  let* '(_, w3) := runProg (exec fuel) raidDoneIteration w2 in
  let* '(_, w4) := runProg (exec fuel) encounterDoneIteration w3 in
  let* w5 := metricsDone fuel AllUnits w4 in
  metricsDone fuel AllTargetUnits w5.

End Engine.

(** ** The randomness manager *)

(** The [Rand] interface and its implementation ([NewSplitMix]), [hash] and
    [strconv.FormatInt] are outside these sources; they are parameters. *)
Class RandImpl : Type := {
  Rand : Type;                       (* the state of one generator *)
  NewSplitMix : Z -> Rand;           (* [NewSplitMix(seed uint64)] *)
  Seed : Z -> Rand -> Rand;          (* [rng.Seed(seed int64)] *)
  GetSeed : Rand -> Z;               (* [rng.GetSeed()] *)
  NextFloat64 : Rand -> float64 * Rand;
  hash : string -> Z;
  FormatInt : Z -> Z -> string
}.

Section Randomness.
Context {RI : RandImpl}.

(** The fields of [Simulation] that the randomness functions use;
    [RandomSeed] is [sim.Options.RandomSeed]. *)
Record RandManager : Type := mkRands {
  rand : Rand;
  isTest : bool;
  testRands : gmap string Rand;
  RandomSeed : Z
}.

(** [makeTestRandSeed(rseed, label)] *)
Definition makeTestRandSeed (rseed : Z) (label : string) : Z :=
  to_int64 (hash (label +:+ FormatInt rseed 16)).

(** [sim.reseedRands(i)] *)
Definition reseedRands (i : Z) (m : RandManager) : RandManager :=
  let rseed := add64 (RandomSeed m) i in
  let r := Seed rseed (rand m) in
  if isTest m then
    mkRands r (isTest m)
      (map_imap (fun label rng => Some (Seed (makeTestRandSeed rseed label) rng))
                (testRands m))
      (RandomSeed m)
  else mkRands r (isTest m) (testRands m) (RandomSeed m).

(** [sim.RandomFloat(label)]: [sim.labelRand(label).NextFloat64()].  The
    generators are objects; drawing from one changes it in place. *)
Definition RandomFloat (label : string) (m : RandManager)
    : float64 * RandManager :=
  if negb (isTest m) then
    let '(x, r) := NextFloat64 (rand m) in
    (x, mkRands r (isTest m) (testRands m) (RandomSeed m))
  else
    let labelRng :=
      match testRands m !! label with
      | Some rng => rng
      | None =>
          NewSplitMix (to_uint64 (makeTestRandSeed (GetSeed (rand m)) label))
      end in
    let '(x, r) := NextFloat64 labelRng in
    (x, mkRands (rand m) (isTest m) (<[label := r]> (testRands m))
          (RandomSeed m)).

(** [sim.RollWithLabel(min, max, label)] *)
Definition RollWithLabel (min max : float64) (label : string)
    (m : RandManager) : float64 * RandManager :=
  let '(x, m') := RandomFloat label m in
  (f_add min (f_mul (f_sub max min) x), m').

(** [sim.Roll(min, max)] *)
Definition Roll (min max : float64) (m : RandManager)
    : float64 * RandManager :=
  RollWithLabel min max "Damage Roll" m.

(** [sim.Proc(p, label)] *)
Definition Proc (p : float64) (label : string) (m : RandManager)
    : bool * RandManager :=
  if f_ge p (f_lit 100) then (true, m)
  else if f_le p (f_lit 0) then (false, m)
  else let '(x, m') := RandomFloat label m in (f_lt x p, m').

(** A call of one of the random-draw primitives, and what it returns. *)
Inductive Draw : Type :=
| DRandomFloat (label : string)
| DRoll (min max : float64)
| DRollWithLabel (min max : float64) (label : string)
| DProc (p : float64) (label : string).

Inductive Drawn : Type :=
| DrawnFloat (x : float64)
| DrawnBool (b : bool).

Definition draw (d : Draw) (m : RandManager) : Drawn * RandManager :=
  match d with
  | DRandomFloat l => let '(x, m') := RandomFloat l m in (DrawnFloat x, m')
  | DRoll lo hi => let '(x, m') := Roll lo hi m in (DrawnFloat x, m')
  | DRollWithLabel lo hi l =>
      let '(x, m') := RollWithLabel lo hi l m in (DrawnFloat x, m')
  | DProc p l => let '(b, m') := Proc p l m in (DrawnBool b, m')
  end.

Fixpoint draws (ds : list Draw) (m : RandManager)
    : list Drawn * RandManager :=
  match ds with
  | [] => ([], m)
  | d :: rest =>
      let '(x, m1) := draw d m in
      let '(xs, m2) := draws rest m1 in
      (x :: xs, m2)
  end.

(** The label a draw is made under. *)
Definition label_of (d : Draw) : string :=
  match d with
  | DRandomFloat l => l
  | DRoll _ _ => "Damage Roll"
  | DRollWithLabel _ _ l => l
  | DProc _ l => l
  end.

(** The values that the draws made under [label] return, in order. *)
Fixpoint drawn_under (label : string) (ds : list Draw) (m : RandManager)
    : list Drawn :=
  match ds with
  | [] => []
  | d :: rest =>
      let '(x, m1) := draw d m in
      if bool_decide (label_of d = label)
      then x :: drawn_under label rest m1
      else drawn_under label rest m1
  end.

(** The generator that [labelRand(label)] returns. *)
Definition labelRand (label : string) (m : RandManager) : Rand :=
  if negb (isTest m) then rand m
  else match testRands m !! label with
       | Some rng => rng
       | None =>
           NewSplitMix (to_uint64 (makeTestRandSeed (GetSeed (rand m)) label))
       end.

(** One draw, from a given generator. *)
Definition draw_from (d : Draw) (r : Rand) : Drawn * Rand :=
  let '(x, r') := NextFloat64 r in
  match d with
  | DRandomFloat _ => (DrawnFloat x, r')
  | DRoll lo hi => (DrawnFloat (f_add lo (f_mul (f_sub hi lo) x)), r')
  | DRollWithLabel lo hi _ => (DrawnFloat (f_add lo (f_mul (f_sub hi lo) x)), r')
  | DProc p _ =>
      if f_ge p (f_lit 100) then (DrawnBool true, r)
      else if f_le p (f_lit 0) then (DrawnBool false, r)
      else (DrawnBool (f_lt x p), r')
  end.

(** The values of a sequence of draws that all use one generator. *)
Fixpoint stream (ds : list Draw) (r : Rand) : list Drawn :=
  match ds with
  | [] => []
  | d :: rest => let '(x, r') := draw_from d r in x :: stream rest r'
  end.

(** The draws of [ds] made under [label]. *)
Definition under (label : string) (ds : list Draw) : list Draw :=
  List.filter (fun d => bool_decide (label_of d = label)) ds.

(** Two managers from which every draw comes out the same. *)
Definition same_generators (m1 m2 : RandManager) : Prop :=
  isTest m1 = isTest m2
  /\ forall label, labelRand label m1 = labelRand label m2.

(** What the code assumes of the generator type, which is not among these
    sources: seeding forgets the old state, as [NewSplitMix] does, and
    [GetSeed] returns the seed last set. *)
Definition seeding_resets : Prop :=
  forall s r, Seed s r = NewSplitMix (to_uint64 s).
Definition seed_is_kept : Prop :=
  forall s r, GetSeed (Seed (wrap64 s) r) = wrap64 s.

End Randomness.

End WithPlatform.

(** ** Queries on the execute phase *)

Section PhaseQueries.
Context {PF : Platform}.

(** [sim.IsExecutePhase20()], [...25()], [...35()], [...45()]:
    [sim.executePhase <= 20] and so on. *)
Definition IsExecutePhase20 (w : World) : bool := executePhase w <=? 20.
Definition IsExecutePhase25 (w : World) : bool := executePhase w <=? 25.
Definition IsExecutePhase35 (w : World) : bool := executePhase w <=? 35.
Definition IsExecutePhase45 (w : World) : bool := executePhase w <=? 45.
(** [sim.IsExecutePhase90()]: [sim.executePhase > 90]. *)
Definition IsExecutePhase90 (w : World) : bool := 90 <? executePhase w.

End PhaseQueries.

(** ** The lists of trackers, weapon attacks and tasks *)

(** [slices.Index(s, v)]: the first position of [v], if any. *)
Fixpoint slices_Index (s : list nat) (v : nat) : option nat :=
  match s with
  | [] => None
  | x :: rest => if bool_decide (x = v) then Some O
                 else S <$> slices_Index rest v
  end.

Section Lists.
Context {PF : Platform}.

(** [sim.removeTracker(tracker)] *)
Definition removeTracker (u : UnitId) (w : World) : World :=
  match slices_Index (trackers w) u with
  | Some idx => set_trackers (removeBySwappingToBack (trackers w) idx) w
  | None => w
  end.

(** [sim.rescheduleWeaponAttack(t)], [sim.addWeaponAttack(wa)],
    [sim.removeWeaponAttack(wa)] *)
Definition rescheduleWeaponAttack (t : Z) (w : World) : World :=
  set_minWeaponAttackTime (Z.min (minWeaponAttackTime w) t) w.
Definition addWeaponAttack (wa : nat) (w : World) : World :=
  set_weaponAttacks (weaponAttacks w ++ [wa]) w.
Definition removeWeaponAttack (wa : nat) (w : World) : World :=
  match slices_Index (weaponAttacks w) wa with
  | Some idx => set_weaponAttacks (removeBySwappingToBack (weaponAttacks w) idx) w
  | None => w
  end.

(** [sim.RescheduleTask(t)], [sim.AddTask(task)], [sim.RemoveTask(task)] *)
Definition RescheduleTask (t : Z) (w : World) : World :=
  set_minTaskTime (Z.min (minTaskTime w) t) w.
Definition AddTask (task : nat) (w : World) : World :=
  set_tasks (tasks w ++ [task]) w.
Definition RemoveTask (task : nat) (w : World) : World :=
  match slices_Index (tasks w) task with
  | Some idx => set_tasks (removeBySwappingToBack (tasks w) idx) w
  | None => w
  end.

End Lists.

(** ** Stack helpers, time queries and saved states of an aura *)

(** [int32] arithmetic wraps around. *)
Definition wrap32 (z : Z) : Z := (z + 2 ^ 31) mod 2 ^ 32 - 2 ^ 31.

(** [type AuraState struct] *)
Record AuraState : Type := mkAuraState {
  RemainingDurationOf : Z;
  StacksOf : Z
}.

Section AuraHelpers.
Context {PF : Platform} {PG : Program}.

(** [aura.AddStack(sim)]: [aura.SetStacks(sim, aura.stacks+1)] *)
Definition AddStack (fuel : nat) (a : AuraId) (w : World) : Res World :=
  let* A := getAura a w in
  exec fuel (CSetStacks a (wrap32 (stacks A + 1))) w.

(** [aura.AddStacks(sim, stacks)] *)
Definition AddStacks (fuel : nat) (a : AuraId) (n : Z) (w : World)
    : Res World :=
  let* A := getAura a w in
  exec fuel (CSetStacks a (wrap32 (stacks A + n))) w.

(** [aura.RemoveStack(sim)]: [aura.SetStacks(sim, max(0, aura.stacks-1))] *)
Definition RemoveStack (fuel : nat) (a : AuraId) (w : World) : Res World :=
  let* A := getAura a w in
  exec fuel (CSetStacks a (Z.max 0 (wrap32 (stacks A - 1)))) w.

(** [aura.RemoveStacks(sim, stacks)] *)
Definition RemoveStacks (fuel : nat) (a : AuraId) (n : Z) (w : World)
    : Res World :=
  let* A := getAura a w in
  exec fuel (CSetStacks a (Z.max 0 (wrap32 (stacks A - n)))) w.

(** [aura.TimeActive(sim)]; the receiver may be nil. *)
Definition TimeActive (aura : option Aura) (w : World) : Z :=
  match aura with
  | Some A => if active A then sub64 (CurrentTime w) (startTime A) else 0
  | None => 0
  end.

(** [aura.TimeInactive(sim)]; the receiver may be nil. *)
Definition TimeInactive (aura : option Aura) (w : World) : Z :=
  match aura with
  | Some A =>
      if active A then 0
      else if fadeTime A <? 0 then NeverExpires
      else sub64 (CurrentTime w) (fadeTime A)
  | None => NeverExpires
  end.

(** [aura.RemainingDuration(sim)] *)
Definition RemainingDuration (A : Aura) (w : World) : Z :=
  if expires A =? NeverExpires then NeverExpires
  else sub64 (expires A) (CurrentTime w).

(** [aura.StartedAt()] *)
Definition StartedAt (A : Aura) : Z := startTime A.

(** [aura.SaveState(sim)] *)
Definition SaveState (a : AuraId) (w : World) : Res AuraState :=
  let* A := getAura a w in
  if negb (active A) then Ok (mkAuraState 0 0)
  else Ok (mkAuraState (sub64 (expires A) (CurrentTime w)) (stacks A)).

(** [aura.RestoreState(state, sim)] *)
Definition RestoreState (fuel : nat) (a : AuraId) (state : AuraState)
    (w : World) : Res World :=
  let* A := getAura a w in
  let* w1 := (if negb (active A) then exec fuel (CActivate a) w else Ok w) in
  let* w2 := exec fuel (CUpdateExpires a
                 (add64 (RemainingDurationOf state) (CurrentTime w1))) w1 in
  let* A2 := getAura a w2 in
  if 0 <? MaxStacks A2 then exec fuel (CSetStacks a (StacksOf state)) w2
  else Ok w2.

End AuraHelpers.

(** ** Looking auras up by label *)

Definition set_handler (v : Slot -> option CbId) (r : Aura) : Aura :=
  mkAura (Label r) (Tag r) (hasActionID r) (Duration r) (startTime r)
    (expires r) (fadeTime r) (Unit r) (active r) (index r) (stacks r)
    (MaxStacks r) (ExclusiveEffects r) (OnInit r) (OnReset r) (OnGain r)
    (OnExpire r) (OnStacksChange r) v (Procs r) (Uptime r) (initialized r).

Section Labels.
Context {PF : Platform}.

(** [at.HasAura(label)] *)
Definition HasAura (h : list Aura) (l : list AuraId) (label : string)
    : Res bool :=
  let* aura := GetAura h l label in
  Ok (bool_decide (is_Some aura)).

(** [at.HasActiveAura(label)] *)
Definition HasActiveAura (h : list Aura) (l : list AuraId) (label : string)
    : Res bool :=
  let* aura := GetAura h l label in
  match aura with
  | None => Ok false
  | Some a => Ok (IsActive (h !! a))
  end.

(** [unit.RegisterAura(aura)] *)
Definition RegisterAura (u : UnitId) (aura : Aura) (w : World)
    : Res (AuraId * World) :=
  registerAura u aura w.

(** The assignments [curAura.OnCastComplete = aura.OnCastComplete] to
    [curAura.OnEncounterStart = aura.OnEncounterStart] of
    [GetOrRegisterAura]; [OnApplyEffects] is not assigned, and [Icd] is not
    among the fields of these auras. *)
Definition takeHandlers (aura cur : Aura) : Aura :=
  set_handler
    (fun s => match s with
              | SlotActive => handler cur SlotActive
              | SlotApplyEffects => handler cur SlotApplyEffects
              | SlotCastComplete => handler aura SlotCastComplete
              | SlotSpellHitDealt => handler aura SlotSpellHitDealt
              | SlotSpellHitTaken => handler aura SlotSpellHitTaken
              | SlotPeriodicDamageDealt => handler aura SlotPeriodicDamageDealt
              | SlotPeriodicDamageTaken => handler aura SlotPeriodicDamageTaken
              | SlotHealDealt => handler aura SlotHealDealt
              | SlotHealTaken => handler aura SlotHealTaken
              | SlotPeriodicHealDealt => handler aura SlotPeriodicHealDealt
              | SlotPeriodicHealTaken => handler aura SlotPeriodicHealTaken
              | SlotEncounterStart => handler aura SlotEncounterStart
              end) cur.

(** [unit.GetOrRegisterAura(aura)] *)
Definition GetOrRegisterAura (u : UnitId) (aura : Aura) (w : World)
    : Res (AuraId * World) :=
  let* U := getUnit u w in
  let* curAura := GetAura (aurasH w) (auras U) (Label aura) in
  match curAura with
  | None => RegisterAura u aura w
  | Some a =>
      Ok (a, updAura a (takeHandlers aura) w)
  end.

End Labels.

(** ** The index of auras by tag *)

(** [at.aurasByTag], a [map[string][]*Aura]; the slice under a key that is
    missing is nil. *)
Definition byTag (m : gmap string (list AuraId)) (tag : string)
    : list AuraId :=
  default [] (m !! tag).

Section Tags.
Context {PF : Platform}.

(** [at.registerAura(unit, aura)] with its last step, the entry in
    [at.aurasByTag]; [m] is the index of the tracker of [u]. *)
Definition registerAuraTagged (u : UnitId) (aura : Aura) (w : World)
    (m : gmap string (list AuraId))
    : Res (AuraId * World * gmap string (list AuraId)) :=
  let* '(a, w') := registerAura u aura w in
  if negb (bool_decide (Tag aura = "")) then
    Ok (a, w', <[Tag aura := byTag m (Tag aura) ++ [a]]> m)
  else Ok (a, w', m).

(** [at.GetAurasWithTag(tag)] *)
Definition GetAurasWithTag (m : gmap string (list AuraId)) (tag : string)
    : list AuraId :=
  byTag m tag.

(** [at.HasAuraWithTag(tag)] *)
Definition HasAuraWithTag (m : gmap string (list AuraId)) (tag : string)
    : bool :=
  0 <? Z.of_nat (length (byTag m tag)).

(** [at.GetActiveAuraWithTag(tag)] *)
Fixpoint firstActive (h : list Aura) (l : list AuraId)
    : Res (option AuraId) :=
  match l with
  | [] => Ok None
  | a :: rest =>
      match h !! a with
      | None => panic_nil
      | Some A => if active A then Ok (Some a) else firstActive h rest
      end
  end.
Definition GetActiveAuraWithTag (h : list Aura)
    (m : gmap string (list AuraId)) (tag : string)
    : Res (option AuraId) :=
  firstActive h (byTag m tag).

(** [at.NumActiveAurasWithTag(tag)]; the count is an [int32]. *)
Fixpoint countActive (h : list Aura) (l : list AuraId) (count : Z) : Res Z :=
  match l with
  | [] => Ok count
  | a :: rest =>
      match h !! a with
      | None => panic_nil
      | Some A =>
          countActive h rest (if active A then wrap32 (count + 1) else count)
      end
  end.
Definition NumActiveAurasWithTag (h : list Aura)
    (m : gmap string (list AuraId))
    (tag : string) : Res Z :=
  countActive h (byTag m tag) 0.

(** [at.HasActiveAuraWithTag(tag)] *)
Fixpoint anyActive (h : list Aura) (l : list AuraId) : Res bool :=
  match l with
  | [] => Ok false
  | a :: rest =>
      match h !! a with
      | None => panic_nil
      | Some A => if active A then Ok true else anyActive h rest
      end
  end.
Definition HasActiveAuraWithTag (h : list Aura)
    (m : gmap string (list AuraId)) (tag : string)
    : Res bool :=
  anyActive h (byTag m tag).

(** [at.HasActiveAuraWithTagExcludingAura(tag, excludeAura)]; the auras are
    compared as pointers, and [excludeAura] may be nil. *)
Fixpoint anyActiveBut (h : list Aura) (l : list AuraId)
    (excludeAura : option AuraId) : Res bool :=
  match l with
  | [] => Ok false
  | a :: rest =>
      match h !! a with
      | None => panic_nil
      | Some A =>
          if active A && negb (bool_decide (Some a = excludeAura))
          then Ok true
          else anyActiveBut h rest excludeAura
      end
  end.
Definition HasActiveAuraWithTagExcludingAura (h : list Aura)
    (m : gmap string (list AuraId))
    (tag : string) (excludeAura : option AuraId) : Res bool :=
  anyActiveBut h (byTag m tag) excludeAura.

End Tags.

(** The index by tag holds, under every tag but the empty one, the
    registered auras of the tracker that carry the tag, in the order of
    their registration, and nothing under the empty tag; the registered
    auras exist. *)
Definition tagged (h : list Aura) (tag : string) (a : AuraId) : Prop :=
  Tag <$> h !! a = Some tag.
#[global] Instance tagged_dec h tag a : Decision (tagged h tag a).
Proof. unfold tagged. apply _. Defined.

Definition tags_exact (h : list Aura) (l : list AuraId)
    (m : gmap string (list AuraId))
    : Prop :=
  (forall a, a ∈ l -> is_Some (h !! a))
  /\ forall tag, byTag m tag
                 = if bool_decide (tag = "") then []
                   else filter (tagged h tag) l.

(** ** Expiring every timed aura of a unit *)

Section ExpireAll.
Context {PF : Platform} {PG : Program}.

(** [at.expireAll(sim)]: every [goto restart] takes one unit of [n]. *)
Fixpoint expireAll (fuel : nat) (n : nat) (u : UnitId) (w : World)
    : Res World :=
  let* U := getUnit u w in
  match arrays U SlotActive with
  | [] => Ok (updUnit u (set_minExpires NeverExpires) w)
  | a :: _ =>
      match n with
      | O => OutOfFuel
      | S n' =>
          let* w1 := exec fuel (CDeactivate a) w in
          expireAll fuel n' u w1
      end
  end.

End ExpireAll.

(** ** Arrays of auras, one for each unit *)

(** [type AuraArray []*Aura]: a slice that may be nil, of pointers that may
    be nil. *)
Definition AuraArray : Type := option (list (option AuraId)).

(** [for _, aura := range auras]: a nil slice has no elements. *)
Definition elements (auras : AuraArray) : list (option AuraId) :=
  default [] auras.

Section AuraArrays.

(** [auras.Get(target)], with [target.UnitIndex] for [target]. *)
Definition AuraArray_Get (auras : AuraArray) (target : nat)
    : Res (option AuraId) :=
  match auras with
  | None => Ok None
  | Some l => match l !! target with
              | Some aura => Ok aura
              | None => panic_index
              end
  end.

(** [auras.IsEmpty()] *)
Fixpoint allNil (l : list (option AuraId)) : bool :=
  match l with
  | [] => true
  | Some _ :: _ => false
  | None :: rest => allNil rest
  end.
Definition AuraArray_IsEmpty (auras : AuraArray) : bool :=
  allNil (elements auras).

(** [auras.FindLabel()] *)
Fixpoint firstLabel (h : list Aura) (l : list (option AuraId))
    : Res string :=
  match l with
  | [] => Panic "No valid auras in array!"
  | Some a :: _ => match h !! a with
                   | Some A => Ok (Label A)
                   | None => panic_nil
                   end
  | None :: rest => firstLabel h rest
  end.
Definition AuraArray_FindLabel (h : list Aura) (auras : AuraArray)
    : Res string :=
  firstLabel h (elements auras).

(** [auras.ToMap()]; a [LabeledAuraArrays] is a map that may be nil. *)
Definition AuraArray_ToMap (h : list Aura) (auras : AuraArray)
    : Res (option (gmap string AuraArray)) :=
  if AuraArray_IsEmpty auras then Ok None
  else
    let* label := AuraArray_FindLabel h auras in
    Ok (Some {[ label := auras ]}).

(** [auraArrays.Append(auras)] *)
Definition LabeledAuraArrays_Append (h : list Aura)
    (auraArrays : option (gmap string AuraArray)) (auras : AuraArray)
    : Res (option (gmap string AuraArray)) :=
  if AuraArray_IsEmpty auras then Ok auraArrays
  else
    let m := match auraArrays with
             | None => ∅
             | Some m => m
             end in
    let* label := AuraArray_FindLabel h auras in
    Ok (Some (<[label := auras]> m)).

(** [auras.Get(target).IsActive()] *)
Definition activeAt (h : list Aura) (auras : AuraArray) (target : nat)
    : Res bool :=
  let* aura := AuraArray_Get auras target in
  match aura with
  | None => Ok false
  | Some a => match h !! a with
              | Some A => Ok (active A)
              | None => panic_nil
              end
  end.

(** [auraArrays.AnyActive(target)]: Go walks a map in an order it does not
    specify; [order] lists the arrays of the map in the order of one
    walk. *)
Fixpoint AnyActive_in (h : list Aura) (order : list AuraArray)
    (target : nat) : Res bool :=
  match order with
  | [] => Ok false
  | auras :: rest =>
      let* r := activeAt h auras target in
      if r then Ok true else AnyActive_in h rest target
  end.

(** The orders in which a map may be walked. *)
Definition walks (auraArrays : option (gmap string AuraArray))
    (order : list AuraArray) : Prop :=
  order ≡ₚ match auraArrays with
           | None => []
           | Some m => (map_to_list m).*2
           end.

(** The array holds pointers to auras of the store, and has an element for
    the unit [target]. *)
Definition array_ok (h : list Aura) (target : nat) (auras : AuraArray)
    : Prop :=
  (forall a, Some a ∈ elements auras -> is_Some (h !! a))
  /\ (auras <> None -> (target < length (elements auras))%nat).

End AuraArrays.

(** ** The reset of a tracker *)

Section TrackerReset.
Context {PF : Platform} {PG : Program}.

(** [for _, resetEffect := range at.resetEffects { resetEffect(sim) }] *)
Fixpoint runResetEffects (fuel : nat) (l : list CbId) (w : World)
    : Res World :=
  match l with
  | [] => Ok w
  | cb :: rest =>
      let* '(_, w') := runProg (exec fuel) (code cb []) w in
      runResetEffects fuel rest w'
  end.

(** [for _, aura := range at.auras { aura.reset(sim) }] *)
Fixpoint resetAuras (fuel : nat) (l : list AuraId) (w : World) : Res World :=
  match l with
  | [] => Ok w
  | a :: rest =>
      let* w' := aura_reset fuel a w in
      resetAuras fuel rest w'
  end.

(** [at.reset(sim)] for the tracker of unit [u]; [resetEffects] are the
    callbacks that [RegisterResetEffect] has collected in
    [at.resetEffects]. *)
Definition at_reset (fuel : nat) (u : UnitId) (resetEffects : list CbId)
    (w : World) : Res World :=
  let* _ := getUnit u w in
  let w1 := updUnit u (set_arrays (fun _ => [])) w in
  let* w2 := runResetEffects fuel resetEffects w1 in
  let* _ := getUnit u w2 in
  let w3 := updUnit u (set_minExpires NeverExpires) w2 in
  let* U3 := getUnit u w3 in
  resetAuras fuel (auras U3) w3.

End TrackerReset.

(** What [aura.reset] writes. *)
Definition was_reset (A : Aura) : Aura :=
  set_fadeTime (neg64 NeverExpires) (set_initialized true A).

(** ** Invariants *)

Section Invariants.
Context {PF : Platform}.

(** The stack count of an aura: zero while inactive, within the cap. *)
Definition aura_inv (A : Aura) : Prop :=
  (active A = false -> stacks A = 0) /\ 0 <= stacks A <= MaxStacks A.

Definition StacksInv (w : World) : Prop := Forall aura_inv (aurasH w).

(** The dispatch arrays and the positions recorded in the auras agree:
    an aura has a position in an array exactly when it is active and
    registers there.  [Activate] and [Deactivate] break the last part for
    the aura [x] they work on, and restore it before any callback runs. *)
Record WFx (x : option nat) (w : World) : Prop := mkWF {
  wf_unit : forall a A, aurasH w !! a = Some A -> is_Some (unitsH w !! Unit A);
  wf_arr : forall u U s i a,
      unitsH w !! u = Some U -> arrays U s !! i = Some a ->
      exists A, aurasH w !! a = Some A /\ Unit A = u
                /\ index A s = Z.of_nat i;
  wf_idx : forall a A s,
      aurasH w !! a = Some A -> index A s <> Inactive ->
      exists U i, unitsH w !! Unit A = Some U /\ index A s = Z.of_nat i
                  /\ arrays U s !! i = Some a;
  wf_act : forall a A s,
      x <> Some a -> aurasH w !! a = Some A ->
      (index A s <> Inactive <-> active A = true /\ registers A s = true)
}.

Definition WF (w : World) : Prop := WFx None w.

(** Partial correctness: what holds of the result when there is one. *)
Definition post {A : Type} (r : Res A) (Q : A -> Prop) : Prop :=
  match r with Ok a => Q a | _ => True end.

(** Everything in a world but the stores of auras and units. *)
Definition outside_auras (w : World) : World :=
  set_aurasH [] (set_unitsH [] w).

(** The positions after [unregister] of aura [a]: [a] has none, the aura
    moved into its place takes it over. *)
Definition index_after_unregister (a : nat) (A : Aura) (U : UnitT)
    (b : nat) (B : Aura) (s : Slot) : Z :=
  if bool_decide (b = a) then Inactive
  else if bool_decide (moved A U s = Some b) then index A s
  else index B s.

Definition arrays_after_unregister (A : Aura) (U : UnitT) (s : Slot)
    : list nat :=
  if index A s =? Inactive then arrays U s
  else removeBySwappingToBack (arrays U s) (Z.to_nat (index A s)).

(** An update of an aura that leaves its positions, its unit and what it
    registers for alone. *)
Definition keeps_positions (F : Aura -> Aura) : Prop :=
  forall B, index (F B) = index B /\ Unit (F B) = Unit B
            /\ forall s, registers (F B) s = registers B s.

(** The events of the aura machine. *)
Definition aura_event (e : Event) : bool :=
  match e with
  | EvOnAction _ | EvCleanUp _ | EvPhase _ _ _ => false
  | _ => true
  end.

(** [w'] differs from [w] on the side of the auras only: the stores of
    auras and units, the tracker time, and events of the aura machine. *)
Definition aura_side (w w' : World) : Prop :=
  set_log [] (set_minTrackerTime 0 (outside_auras w'))
  = set_log [] (set_minTrackerTime 0 (outside_auras w))
  /\ exists evs, log w' = log w ++ evs /\ forallb aura_event evs = true.

Definition aura_blind (J : World -> Prop) : Prop :=
  forall w w', aura_side w w' -> J w -> J w'.

(** The commands that are not operations of the aura machine and run no
    callback. *)
Definition outer_cmd (c : Cmd) : bool :=
  match c with
  | CActivate _ | CDeactivate _ | CSetStacks _ _ | CRefresh _
  | CUpdateExpires _ _ | CCancel _ => false
  | _ => true
  end.

(** What [Cancel] itself writes: the mark, the clean-up taken out, and the
    event of the clean-up when there is one to run. *)
Definition cancel_writes (p : nat) (w : World) : World :=
  let w1 := updAction p (fun X => set_CleanUp FnNil (set_cancelled true X)) w in
  match actionsH w !! p with
  | Some PA => match CleanUp PA with
               | FnNil => w1
               | _ => emit (EvCleanUp p) w1
               end
  | None => w1
  end.

(** A property that no callback can disturb. *)
Definition exec_stable {PG : Program} (J : World -> Prop) : Prop :=
  aura_blind J
  /\ (forall call c w, outer_cmd c = true -> J w -> post (step_cmd call c w) J)
  /\ (forall p w, J w -> J (cancel_writes p w)).

Definition driver_event (e : Event) : bool :=
  match e with
  | EvOnAction _ | EvCleanUp _ => false
  | _ => true
  end.

Definition outside_driver (w : World) : World :=
  set_pool [] (set_minTaskTime 0 (set_minWeaponAttackTime 0
    (set_nextExecuteDamage MaxFloat64 (set_nextExecuteDuration 0
      (set_executePhase 0 (set_CurrentTime 0 (set_log []
        (set_minTrackerTime 0 (outside_auras w))))))))).

(** [w'] differs from [w] only in what the clock advance and the periodic
    attacks and tasks write, callbacks apart. *)
Definition driver_side (w w' : World) : Prop :=
  outside_driver w' = outside_driver w
  /\ exists evs, log w' = log w ++ evs /\ forallb driver_event evs = true.

Definition driver_stable {PG : Program} (J : World -> Prop) : Prop :=
  (forall w w', driver_side w w' -> J w -> J w')
  /\ (forall call c w, outer_cmd c = true -> J w -> post (step_cmd call c w) J)
  /\ (forall p w, J w -> J (cancel_writes p w)).

(** The fields of a pending action that nothing in the engine writes. *)
Definition same_action (PA PA' : PendingAction) : Prop :=
  NextActionAt PA' = NextActionAt PA /\ Priority PA' = Priority PA
  /\ OnAction PA' = OnAction PA /\ canPool PA' = canPool PA
  /\ (cancelled PA = true -> cancelled PA' = true).

(** The store of pending actions only grows, and a cancelled action stays
    cancelled. *)
Definition actions_grow (h h' : list PendingAction) : Prop :=
  forall p PA, h !! p = Some PA -> exists PA', h' !! p = Some PA' /\ same_action PA PA'.

(** The events selected by [f] are [L]. *)
Definition selected (f : Event -> bool) (L : list Event) (w : World) : Prop :=
  List.filter f (log w) = L.

Definition isAnyOnAction (e : Event) : bool :=
  match e with EvOnAction _ => true | _ => false end.

(** The pop of [Step]: [sim.pendingActions = sim.pendingActions[:last];
    pa.consumed = true]. *)
Definition popped (p : nat) (w : World) : World :=
  updAction p (set_consumed true)
    (set_pendingActions
       (take (length (pendingActions w) - 1)%nat (pendingActions w)) w).

(** Whether the action at [p] has a clean-up callback. *)
Definition has_cleanup (h : list PendingAction) (p : nat) : bool :=
  match h !! p with
  | Some PA => match CleanUp PA with FnNil => false | _ => true end
  | None => false
  end.


(** The test of the loop of [AddPendingAction], for [v := Q] and [pa := P]:
    [Q] is due earlier than [P], or at the same time with a priority at least
    as high. *)
Definition due_before (Q P : PendingAction) : bool :=
  (NextActionAt Q <? NextActionAt P)
  || ((NextActionAt Q =? NextActionAt P) && (Priority P <=? Priority Q)).

(** The order of the queue, on pointers: [q] fires before [p] does. *)
Definition fires_first (h : list PendingAction) (q p : nat) : Prop :=
  exists Q P, h !! q = Some Q /\ h !! p = Some P /\ due_before Q P = true.

(** The queue behind the sentinel is ordered: every action fires after the
    ones that follow it in the slice. *)
Definition sortedQ (w : World) : Prop :=
  StronglySorted (fun x y => fires_first (actionsH w) y x)
    (tail (pendingActions w))
  /\ Forall (fun q => is_Some (actionsH w !! q)) (tail (pendingActions w)).

(** A callback that only observes: it returns without calling the API. *)
Definition observer (p : Prog) : Prop := exists v, p = Ret v.

(** All external code only observes. *)
Definition all_observers {PG : Program} : Prop :=
  (forall cb args, observer (code cb args))
  /\ (forall ee, observer (eeActivate ee))
  /\ (forall ee, observer (eeDeactivate ee))
  /\ (forall x, observer (trySwing x))
  /\ (forall x, observer (RunTask x)).

(** The stack counts while [Deactivate] works on aura [a]: [a] may still
    hold stacks although it is no longer active. *)
Definition StacksInvX (a : nat) (w : World) : Prop :=
  forall b B, aurasH w !! b = Some B ->
    0 <= stacks B <= MaxStacks B
    /\ (b <> a -> active B = false -> stacks B = 0).

Definition inactive (a : nat) (w : World) : Prop :=
  forall A, aurasH w !! a = Some A -> active A = false.

(** What the calls one level down guarantee. *)
Record stacks_safe (call : Cmd -> World -> Res World) : Prop := {
  ss_inv : forall c w, StacksInv w -> post (call c w) StacksInv;
  ss_zero : forall a w, StacksInvX a w -> inactive a w ->
              post (call (CSetStacks a 0) w) StacksInv
}.

(** The event of a hook, when the hook is set. *)
Definition hook_event (cb : option nat) (e : Event) : list Event :=
  match cb with Some _ => [e] | None => [] end.

(** The trace of [Deactivate] on an active aura whose hooks only observe:
    the nested [SetStacks(0)], when there are stacks left, with its hook and
    its [Deactivate] that returns at once, and then the expiry hook. *)
Definition deactivation_events (a : nat) (A : Aura) : list Event :=
  (if stacks A =? 0 then []
   else [EvSetStacks a 0]
        ++ hook_event (OnStacksChange A) (EvOnStacksChange a (stacks A) 0)
        ++ [EvDeactivate a])
  ++ hook_event (OnExpire A) (EvOnExpire a).

(** What [Deactivate] leaves of an aura's configuration. *)
Definition same_config (A A' : Aura) : Prop :=
  Unit A' = Unit A /\ Duration A' = Duration A /\ MaxStacks A' = MaxStacks A
  /\ OnStacksChange A' = OnStacksChange A /\ OnExpire A' = OnExpire A
  /\ OnGain A' = OnGain A /\ ExclusiveEffects A' = ExclusiveEffects A
  /\ forall s, registers A' s = registers A s.
(** No aura of unit [u] that is active and of finite duration has reached
    its expiration. *)
Definition no_expired (u : nat) (w : World) : Prop :=
  forall a A, aurasH w !! a = Some A -> Unit A = u -> active A = true ->
    Duration A <> NeverExpires -> CurrentTime w < expires A.

Definition expiry_of (w : World) (a : nat) : Z :=
  match aurasH w !! a with Some A => expires A | None => NeverExpires end.

(** The least expiration among the auras of [l], or [NeverExpires]. *)
Definition fresh_minimum (w : World) (l : list nat) : Z :=
  foldl (fun m a => Z.min m (expiry_of w a)) NeverExpires l.

(** The auras that are active in [w] and have not reached their expiration
    are still so in [w']. *)
Definition unexpired_kept (w w' : World) : Prop :=
  forall b B, aurasH w !! b = Some B -> active B = true ->
    CurrentTime w < expires B ->
    exists B', aurasH w' !! b = Some B' /\ active B' = true
               /\ expires B' = expires B.
(** A phase event. *)
Definition isPhase (e : Event) : bool :=
  match e with EvPhase _ _ _ => true | _ => false end.

(** The phase that follows a phase in the [switch] of [nextExecutePhase]. *)
Definition next_phase (p : Z) : option Z :=
  if p =? 0 then Some 100
  else if p =? 100 then Some 90
  else if p =? 90 then Some 45
  else if p =? 45 then Some 35
  else if p =? 35 then Some 25
  else if p =? 25 then Some 20
  else None.

Definition ladder : list Z := [100; 90; 45; 35; 25; 20].

(** [qs] are the phases entered one after the other, from phase [p] on. *)
Fixpoint ladder_path (p : Z) (qs : list Z) : Prop :=
  match qs with
  | [] => True
  | q :: rest => next_phase p = Some q /\ ladder_path q rest
  end.

(** The phase events of one round of callbacks: phase [q] delivered to each
    callback of [cbs], in the order of registration. *)
Definition round_events (q : Z) (cbs : list nat) : list Event :=
  imap (fun i cb => EvPhase i cb q) cbs.

(** The condition of the loop of [advance]. *)
Definition crossed (w : World) : bool :=
  (nextExecuteDuration w <=? CurrentTime w)
  || f_ge (DamageTaken w) (nextExecuteDamage w).

(** Nothing about the phases has happened between [w] and [w']: same phase,
    no phase delivered, no callback lost. *)
Definition same_view (w w' : World) : Prop :=
  executePhase w' = executePhase w
  /\ List.filter isPhase (log w') = List.filter isPhase (log w)
  /\ executePhaseCallbacks w `prefix_of` executePhaseCallbacks w'.

(** Between [w] and [w'] the phases of [rounds] were entered one after the
    other, each delivered once to every callback registered by then. *)
Definition phase_rounds (rounds : list (Z * list nat)) (w w' : World) : Prop :=
  List.filter isPhase (log w')
  = List.filter isPhase (log w)
    ++ flat_map (fun r => round_events r.1 r.2) rounds
  /\ ladder_path (executePhase w) (map fst rounds)
  /\ executePhase w' = List.last (map fst rounds) (executePhase w)
  /\ Forall (fun r => executePhaseCallbacks w `prefix_of` r.2) rounds
  /\ executePhaseCallbacks w `prefix_of` executePhaseCallbacks w'.

(** The operations of one iteration that concern the phases: the clock
    advances, and the program calls the API. *)
Definition clock_or_call {PG : Program} (fuel : nat)
    (op : World -> Res World) : Prop :=
  (exists t, op = advance fuel t) \/ (exists c, op = exec fuel c).
(** Every exclusive effect of the list accepts the activation, without
    calling back into the API. *)
Definition effects_accept {PG : Program} (l : list nat) : Prop :=
  Forall (fun ee => exists v, eeActivate ee = Ret v /\ v <> 0) l.

(** What the lazy expiration reads of a world: of each aura whether it is
    active, its duration, its unit and its expiration; of each unit the
    cached minimum; the trackers, their cached minimum and the clock. *)
Definition key (A : Aura) : bool * Z * nat * Z :=
  (active A, Duration A, Unit A, expires A).
Definition sview (w : World)
    : list (bool * Z * nat * Z) * list Z * list nat * Z * Z :=
  (key <$> aurasH w, minExpires <$> unitsH w, trackers w, minTrackerTime w,
   CurrentTime w).

(** The caches of the lazy expiration are sound: the unit of every aura is
    among the trackers of the simulation, the cached minimum of the
    simulation is not after the cached minimum of any tracker, and the
    cached minimum of a unit is not after the expiration of any of its
    active auras of finite duration.  [Activate] breaks the last part for
    the aura [x] it works on, until [Refresh] has run. *)
Definition tracked (w : World) : Prop :=
  forall a A, aurasH w !! a = Some A -> Unit A ∈ trackers w.
Definition cached_low (w : World) : Prop :=
  forall u U, u ∈ trackers w -> unitsH w !! u = Some U ->
    minTrackerTime w <= minExpires U.
Definition cached_min (x : option nat) (w : World) : Prop :=
  forall a A U, x <> Some a -> aurasH w !! a = Some A -> active A = true ->
    Duration A <> NeverExpires -> unitsH w !! Unit A = Some U ->
    minExpires U <= expires A.
Definition SchedX (x : option nat) (w : World) : Prop :=
  tracked w /\ cached_low w /\ cached_min x w.
Definition Sched (w : World) : Prop := SchedX None w.

(** From [w] to [w'] auras were deactivated at most: no aura became active
    or changed its expiration while active, and the caches, but for the one
    of unit [x], the trackers and the clock are the same. *)
Definition shrinks_but (x : option nat) (w w' : World) : Prop :=
  trackers w' = trackers w /\ minTrackerTime w' = minTrackerTime w
  /\ CurrentTime w' = CurrentTime w
  /\ (forall v, x <> Some v ->
        minExpires <$> unitsH w' !! v = minExpires <$> unitsH w !! v)
  /\ length (aurasH w') = length (aurasH w)
  /\ forall a A A', aurasH w !! a = Some A -> aurasH w' !! a = Some A' ->
       Unit A' = Unit A /\ Duration A' = Duration A
       /\ (active A' = true -> active A = true /\ expires A' = expires A).

(** The commands that deactivate at most, and those that keep the caches
    sound: [UpdateExpires] writes an expiration without telling the
    tracker. *)
Definition shrink_cmd (c : Cmd) : bool :=
  match c with
  | CDeactivate _ | CSetStacks _ _ => true
  | _ => false
  end.
Definition keeps_schedule (c : Cmd) : bool :=
  match c with
  | CUpdateExpires _ _ => false
  | _ => true
  end.
Definition sched_op {PG : Program} (fuel : nat) (op : World -> Res World)
    : Prop :=
  (exists t, op = advance fuel t)
  \/ (exists c, keeps_schedule c = true /\ op = exec fuel c).
(** The loop of [advance] over the trackers: the units done have nothing
    expired, and the cached minimum of the simulation is not after theirs. *)
Definition loop_inv (T done : list nat) (w : World) : Prop :=
  WF w /\ tracked w /\ cached_min None w /\ trackers w = T
  /\ forall u, u ∈ done ->
       no_expired u w
       /\ forall U, unitsH w !! u = Some U -> minTrackerTime w <= minExpires U.






(** [l'] is [l] without the first occurrence of [x], in some order. *)
Definition first_removed (x : nat) (l l' : list nat) : Prop :=
  exists i, l !! i = Some x
            /\ (forall j, (j < i)%nat -> l !! j <> Some x)
            /\ l' ≡ₚ delete i l.

(** The thresholds of phase [q], as the closure [setup] of
    [nextExecutePhase] computes them when the phase before [q] is entered:
    the time [(1 - ExecuteProportion_q) * Duration], and the damage
    [(1 - q/100) * EndFightAtHealth]. *)
Definition time_threshold (w : World) (q : Z) : Z :=
  duration_of_float64
    (f_mul (f_sub (f_lit 100) (ExecuteProportion w q))
           (float64_of_duration (simDuration w))).
Definition damage_threshold (w : World) (q : Z) : float64 :=
  f_mul (f_sub (f_lit 100) (f_lit q)) (EndFightAtHealth w).

(** The thresholds held by the simulation are those of the phase that
    follows the current one: the damage in a fight that ends at a health,
    the time otherwise, the other one being out of reach; both are out of
    reach in the last phase. *)
Definition armed (w : World) : Prop :=
  match next_phase (executePhase w) with
  | Some q =>
      if f_gt (EndFightAtHealth w) (f_lit 0)
      then nextExecuteDuration w = NeverExpires
           /\ nextExecuteDamage w = damage_threshold w q
      else nextExecuteDuration w = time_threshold w q
           /\ nextExecuteDamage w = MaxFloat64
  | None =>
      nextExecuteDuration w = NeverExpires /\ nextExecuteDamage w = MaxFloat64
  end.

(** The threshold of phase [q] is reached. *)
Definition reached (w : World) (q : Z) : bool :=
  if f_gt (EndFightAtHealth w) (f_lit 0)
  then f_ge (DamageTaken w) (damage_threshold w q)
  else time_threshold w q <=? CurrentTime w.

(** The phases that follow [p], in the order of [nextExecutePhase]. *)
Fixpoint descent (n : nat) (p : Z) : list Z :=
  match n with
  | O => []
  | S n' => match next_phase p with
            | Some q => q :: descent n' q
            | None => []
            end
  end.
Definition below (p : Z) : list Z := descent 6 p.

(** The longest run of phases from the front of [qs] whose thresholds are
    all reached. *)
Fixpoint reached_prefix (w : World) (qs : list Z) : list Z :=
  match qs with
  | [] => []
  | q :: rest => if reached w q then q :: reached_prefix w rest else []
  end.

(** The phases that an advance of the clock to [t] enters. *)
Definition entered (t : Z) (w : World) : list Z :=
  reached_prefix (set_CurrentTime t w) (below (executePhase w)).

(** What the loop over the phases does not write: everything but the
    phase, its thresholds and the trace. *)
Definition phase_frame (w : World) : World :=
  set_log [] (set_nextExecuteDamage MaxFloat64
    (set_nextExecuteDuration 0 (set_executePhase 0 w))).

(** What [armed] reads. *)
Definition phase_view (w : World)
    : Z * Z * float64 * float64 * Z * (Z -> float64) :=
  (executePhase w, nextExecuteDuration w, nextExecuteDamage w,
   EndFightAtHealth w, simDuration w, ExecuteProportion w).

End Invariants.

(** ** Concrete instances, for the examples *)

(** A fixed-point reading of float64: [x] stands for [x/100]. *)
Definition FixedPoint : Platform := {|
  float64 := Z;
  f_lit n := n;
  f_ge a b := b <=? a;
  f_gt a b := b <? a;
  f_lt a b := a <? b;
  f_le a b := a <=? b;
  f_eq a b := a =? b;
  f_add a b := a + b;
  f_sub a b := a - b;
  f_mul a b := Z.quot (a * b) 100;
  MaxFloat64 := 2 ^ 1030;
  float64_of_duration d := d * 100;
  duration_of_float64 x := Z.quot x 100;
  ExtState := unit
|}.

(** External code that only observes. *)
Definition Quiet : @Program FixedPoint := {|
  code _ _ := Ret 0;
  eeActivate _ := Ret 1;
  eeDeactivate _ := Ret 0;
  trySwing _ := Ret NeverExpires;
  RunTask _ := Ret NeverExpires;
  raidDoneIteration := Ret 0;
  encounterDoneIteration := Ret 0;
  metricsDoneIteration _ := Ret 0;
  AllUnits := [0%nat];
  AllTargetUnits := []
|}.

(** A five-second aura with three stacks at most and all lifecycle hooks. *)
Definition buff : Aura :=
  mkAura "Buff" "" true (5 * Second) 0 0 0 0%nat false (fun _ => Inactive)
    0 3 [] None None (Some 1%nat) (Some 2%nat) (Some 3%nat) (fun _ => None)
    0 0 true.

(** An aura that never expires. *)
Definition stance : Aura :=
  mkAura "Stance" "" true NeverExpires 0 0 0 0%nat false (fun _ => Inactive)
    0 0 [] None None (Some 1%nat) (Some 2%nat) None (fun _ => None) 0 0 true.

(** An aura configured with a negative maximum of stacks. *)
Definition jinx : Aura :=
  mkAura "Jinx" "" true (5 * Second) 0 0 0 0%nat false (fun _ => Inactive)
    0 (-1) [] None None None None None (fun _ => None) 0 0 true.

Definition player (registered : list AuraId) : UnitT :=
  mkUnit "Player" true registered (fun _ => []) NeverExpires.

(** A simulation that has just been reset: a time-based fight of 180s, one
    unit with the given auras, nothing queued but the sentinel. *)
Definition fresh (auras : list Aura) (actions : list PendingAction)
    : @World FixedPoint :=
  @mkWorld FixedPoint auras [player (seq 0 (length auras))]
    (sentinelPendingAction :: actions) [sentinel] [] 0 (180 * Second)
    100 [] (162 * Second) (2 ^ 1030) (180 * Second) (2 ^ 1030)
    NeverExpires [0%nat] NeverExpires [] NeverExpires [] true 0 0
    (fun _ => 10) tt [].

(** External code that schedules and cancels: callback 7 schedules an
    action of priority 5 at 10s, callback 9 cancels the action at address 2;
    every other callback only observes. *)
Definition Busy : @Program FixedPoint := {|
  code cb _ :=
    match cb with
    | 7%nat => Call (CNewPendingAction
                       (mkPA (10 * Second) 5 (FnCb 8%nat) FnNil
                             false false false))
                    (fun _ => Ret 0)
    | 9%nat => Call (CCancel 2%nat) (fun _ => Ret 0)
    | _ => Ret 0
    end;
  eeActivate _ := Ret 1;
  eeDeactivate _ := Ret 0;
  trySwing _ := Ret NeverExpires;
  RunTask _ := Ret NeverExpires;
  raidDoneIteration := Ret 0;
  encounterDoneIteration := Ret 0;
  metricsDoneIteration _ := Ret 0;
  AllUnits := [0%nat];
  AllTargetUnits := []
|}.

(** An action at 10s, priority 1, that runs callback 7. *)
Definition low_priority_action : PendingAction :=
  mkPA (10 * Second) 1 (FnCb 7%nat) FnNil false false false.
(** An action at 1s that runs callback 9. *)
Definition canceller : PendingAction :=
  mkPA (1 * Second) 0 (FnCb 9%nat) FnNil false false false.

(** Four actions: one due at 5s, and three due at 3s, the last two of them
    with the same, higher priority. *)
Definition due_at_5s : PendingAction :=
  mkPA (5 * Second) 0 (FnCb 8%nat) FnNil false false false.
Definition due_at_3s : PendingAction :=
  mkPA (3 * Second) 0 (FnCb 8%nat) FnNil false false false.
Definition urgent_at_3s : PendingAction :=
  mkPA (3 * Second) 2 (FnCb 8%nat) FnNil false false false.
Definition four_actions : @World FixedPoint :=
  fresh [] [due_at_5s; due_at_3s; urgent_at_3s; urgent_at_3s].


(** Running a list of top-level operations in order. *)
Fixpoint sequence {PF : Platform} (ops : list (World -> Res World))
    (w : World) : Res World :=
  match ops with
  | [] => Ok w
  | op :: rest => let* w' := op w in sequence rest w'
  end.

(** The expiration that [Refresh] writes at time [now]. *)
Definition refreshed_expiry (A : Aura) (now : Z) : Z :=
  if Duration A =? NeverExpires then NeverExpires
  else add64 now (Duration A).

(** A stand-in for the generator type and the string functions, which are
    outside these sources: a linear congruential generator, a polynomial
    hash and hexadecimal digits. *)
Fixpoint toy_hash (s : string) : Z :=
  match s with
  | EmptyString => 5381
  | String c rest => (33 * toy_hash rest + Z.of_N (Ascii.N_of_ascii c)) mod 2 ^ 64
  end.

Definition hex_digit (d : Z) : string :=
  match String.get (Z.to_nat d) "0123456789abcdef" with
  | Some c => String c EmptyString
  | None => EmptyString
  end.

Fixpoint hex (digits : nat) (z : Z) : string :=
  match digits with
  | O => EmptyString
  | S n => if z <? 16 then hex_digit z
           else hex n (z / 16) +:+ hex_digit (z mod 16)
  end.

Definition Lcg : @RandImpl FixedPoint := {|
  Rand := Z;
  NewSplitMix s := s;
  Seed s _ := to_uint64 s;
  GetSeed r := to_int64 r;
  NextFloat64 r :=
    (((r / 2 ^ 32) mod 100 : @float64 FixedPoint),
     (6364136223846793005 * r + 1442695040888963407) mod 2 ^ 64);
  hash := toy_hash;
  FormatInt z _ := if z <? 0 then "-" +:+ hex 17 (- z) else hex 17 z
|}.

(** Two sequences of draws that agree on the draws under "crit". *)
Definition swing_draws : list (@Draw FixedPoint) :=
  [@DProc FixedPoint 50 "crit"; @DRoll FixedPoint 100 200;
   @DRandomFloat FixedPoint "crit"].
Definition swing_draws_with_miss : list (@Draw FixedPoint) :=
  [@DRandomFloat FixedPoint "miss"; @DProc FixedPoint 50 "crit";
   @DRandomFloat FixedPoint "crit"; @DRoll FixedPoint 1 2].

(** Two managers in test mode with the same base seed: a new one, and one
    that has drawn under "crit" before. *)
Definition new_manager : @RandManager FixedPoint Lcg :=
  @mkRands FixedPoint Lcg 1 true ∅ 42.
Definition used_manager : @RandManager FixedPoint Lcg :=
  @mkRands FixedPoint Lcg 99 true {[ "crit" := 12345 ]} 42.

(** A unit that is not attached to an environment yet, without auras. *)
Definition detached : @World FixedPoint :=
  set_unitsH [mkUnit "Player" false [] (fun _ => []) NeverExpires]
    (fresh [] []).

(** Two auras that share a tag, and one without a tag. *)
Definition sealA : Aura :=
  mkAura "Seal of Truth" "Seal" true (30 * Second) 0 0 0 0%nat false
    (fun _ => Inactive) 0 0 [] None None None None None (fun _ => None)
    0 0 true.
Definition sealB : Aura :=
  mkAura "Seal of Insight" "Seal" true (30 * Second) 0 0 0 0%nat false
    (fun _ => Inactive) 0 0 [] None None None None None (fun _ => None)
    0 0 true.

(** A unit outside a finalized environment with 201 registered auras. *)
Definition crowded : @World FixedPoint :=
  set_unitsH [mkUnit "Player" false (replicate 201 0%nat) (fun _ => [])
                NeverExpires]
    (fresh [sealA] []).

(** A simulation with four tasks, one of them listed twice, three weapon
    attacks and three trackers. *)
Definition scheduled : @World FixedPoint :=
  set_tasks [4; 7; 5; 7]%nat
    (set_weaponAttacks [1; 2; 3]%nat
       (set_trackers [0; 1; 2]%nat
          (set_unitsH [player []; player []; player []; player []]
             (fresh [] [])))).

(** The configuration of [buff] with a handler for completed casts and
    one for applied effects. *)
Definition buff_with_handlers : Aura :=
  set_handler (fun s => match s with
                        | SlotCastComplete => Some 4%nat
                        | SlotApplyEffects => Some 6%nat
                        | _ => None
                        end) buff.

(** External code that acts on the auras: callback 20 activates the auras
    0 and 1 and gives aura 0 two stacks; callback 21 activates aura 0 and
    gives it three stacks; callback 22 activates aura 0; a swing leaves
    aura 0 one stack; at the end of an iteration the raid deactivates the
    auras 0 and 1. *)
Definition Lively : @Program FixedPoint := {|
  code cb _ :=
    match cb with
    | 20%nat => Call (CActivate 0%nat) (fun _ =>
                Call (CActivate 1%nat) (fun _ =>
                Call (CSetStacks 0%nat 2) (fun _ => Ret 0)))
    | 21%nat => Call (CActivate 0%nat) (fun _ =>
                Call (CSetStacks 0%nat 3) (fun _ => Ret 0))
    | 22%nat => Call (CActivate 0%nat) (fun _ => Ret 0)
    | _ => Ret 0
    end;
  eeActivate _ := Ret 1;
  eeDeactivate _ := Ret 0;
  trySwing _ := Call (CSetStacks 0%nat 1) (fun _ => Ret NeverExpires);
  RunTask _ := Ret NeverExpires;
  raidDoneIteration :=
    Call (CDeactivate 0%nat) (fun _ =>
    Call (CDeactivate 1%nat) (fun _ => Ret 0));
  encounterDoneIteration := Ret 0;
  metricsDoneIteration _ := Ret 0;
  AllUnits := [0%nat];
  AllTargetUnits := []
|}.

(** An action at 1s that runs callback 20, an action past the end of the
    fight, and one further out whose clean-up is callback 21. *)
Definition opener : PendingAction :=
  mkPA (1 * Second) 0 (FnCb 20%nat) FnNil false false false.
Definition straggler : PendingAction :=
  mkPA (200 * Second) 0 (FnCb 8%nat) FnNil false false false.
Definition leftover : PendingAction :=
  mkPA (300 * Second) 0 (FnCb 8%nat) (FnCb 21%nat) false false false.

(** A fight with a buff and a stance, a weapon attack due at 2s, a task
    due at 4s, and the three actions above, not queued yet. *)
Definition battle : @World FixedPoint :=
  set_minTaskTime (4 * Second) (set_tasks [0%nat]
    (set_minWeaponAttackTime (2 * Second) (set_weaponAttacks [0%nat]
       (fresh [buff; stance] [opener; straggler; leftover])))).

(** A simulation before its reset: a fight of 180s, or one that ends when
    the damage reaches [health], with the proportions [ep]. *)
Definition arena (ep : Z -> Z) (health : Z) : @World FixedPoint :=
  @mkWorld FixedPoint [] [player []] [sentinelPendingAction] [] [] 0
    (180 * Second) 20 [7%nat] 0 0 0 0 0 [] 0 [] 0 [] true 0 health ep tt [].

(** ** Theorems *)

Section AuraQueries.

(** C10: [IsActive()] and [GetStacks()] are total on every aura pointer; on
    the nil pointer they return [false] and [0], and on any other pointer
    the fields [active] and [stacks]. *)
Theorem nil_aura_queries :
  IsActive None = false /\ GetStacks None = 0
  /\ forall A : Aura, IsActive (Some A) = active A
                      /\ GetStacks (Some A) = stacks A.
Proof. split; [ | split ]; [ reflexivity .. | intros A; split; reflexivity ]. Qed.

End AuraQueries.

Section Fatal.
Context {PF : Platform} {PG : Program}.

Lemma GetAura_total h l label :
  (exists r, GetAura h l label = Ok r) \/ (exists m, GetAura h l label = Panic m).
Proof.
  induction l as [|b l IH]; simpl; [ eauto | ].
  destruct (h !! b) as [B|]; [ | unfold panic_nil; eauto ].
  case_bool_decide; eauto.
Qed.

Lemma GetAura_finds h l label a A :
  a ∈ l -> h !! a = Some A -> Label A = label ->
  GetAura h l label <> Ok None.
Proof.
  induction l as [|b l IH]; intros Hin Ha HL.
  - inversion Hin.
  - simpl. destruct (h !! b) as [B|] eqn:Hb; [ | discriminate ].
    case_bool_decide; [ discriminate | ].
    apply IH; auto. inversion Hin; subst; auto. congruence.
Qed.

Lemma registerAura_duplicate u U cfg w a A :
  unitsH w !! u = Some U -> a ∈ auras U -> aurasH w !! a = Some A ->
  Label A = Label cfg -> is_panic (registerAura u cfg w) = true.
Proof.
  intros HU Hin Ha HL. unfold registerAura, getUnit. rewrite HU. simpl.
  destruct (hasEnv U && finalized w); [ reflexivity | ].
  case_bool_decide; [ reflexivity | ].
  pose proof (GetAura_finds _ _ _ _ _ Hin Ha HL) as Hne.
  destruct (GetAura_total (aurasH w) (auras U) (Label cfg)) as [[r Hr]|[m Hr]];
    rewrite Hr in *; simpl; [ | reflexivity ].
  destruct r as [b|]; [ reflexivity | congruence ].
Qed.

Lemma registerAura_finalized u U cfg w :
  unitsH w !! u = Some U -> hasEnv U = true -> finalized w = true ->
  is_panic (registerAura u cfg w) = true.
Proof.
  intros HU HE HF. unfold registerAura, getUnit. rewrite HU. simpl.
  rewrite HE, HF. reflexivity.
Qed.

Lemma registerAura_cap u U cfg w :
  unitsH w !! u = Some U -> (200 < length (auras U))%nat ->
  is_panic (registerAura u cfg w) = true.
Proof.
  intros HU Hlen. unfold registerAura, getUnit. rewrite HU. simpl.
  destruct (hasEnv U && finalized w); [ reflexivity | ].
  case_bool_decide; [ reflexivity | ].
  destruct (GetAura_total (aurasH w) (auras U) (Label cfg)) as [[r Hr]|[m Hr]];
    rewrite Hr in *; simpl; [ | reflexivity ].
  case_bool_decide; [ reflexivity | ].
  destruct (200 <? Z.of_nat (length (auras U))) eqn:E; [ reflexivity | ].
  apply Z.ltb_ge in E. lia.
Qed.

Lemma SetStacks_negative call a n w :
  n < 0 -> is_panic (SetStacks call a n w) = true.
Proof.
  intros Hn. unfold SetStacks, getAura.
  destruct (aurasH w !! a) as [A|]; [ simpl | reflexivity ].
  destruct (negb (active A) && negb (n =? 0)); [ reflexivity | ].
  destruct (n <? 0) eqn:E; [ reflexivity | ].
  apply Z.ltb_ge in E. lia.
Qed.

Lemma SetStacks_over_cap call a A n w :
  aurasH w !! a = Some A -> 0 < MaxStacks A <= n ->
  SetStacks call a n w = SetStacks call a (MaxStacks A) w.
Proof.
  intros Ha Hn. unfold SetStacks, getAura. rewrite Ha. simpl.
  replace (n =? 0) with false by (symmetry; apply Z.eqb_neq; lia).
  replace (MaxStacks A =? 0) with false by (symmetry; apply Z.eqb_neq; lia).
  replace (n <? 0) with false by (symmetry; apply Z.ltb_ge; lia).
  replace (MaxStacks A <? 0) with false by (symmetry; apply Z.ltb_ge; lia).
  rewrite Z.min_r by lia. rewrite Z.min_id. reflexivity.
Qed.

Lemma GetAura_hits h l label a A :
  a ∈ l -> h !! a = Some A -> Label A = label ->
  Forall (fun b => is_Some (h !! b)) l ->
  exists b, GetAura h l label = Ok (Some b).
Proof.
  intros Hin Ha HL Hv.
  destruct (GetAura_total h l label) as [[[b|] Hr]|[m Hr]].
  - eauto.
  - exfalso. exact (GetAura_finds _ _ _ _ _ Hin Ha HL Hr).
  - exfalso. clear Hin. induction Hv as [|b l [B HB] Hv IH]; simpl in Hr; [ discriminate | ].
    rewrite HB in Hr. case_bool_decide; [ discriminate | auto ].
Qed.

Lemma registerAura_duplicate_message u U cfg w a A :
  unitsH w !! u = Some U -> a ∈ auras U -> aurasH w !! a = Some A ->
  Label A = Label cfg ->
  hasEnv U && finalized w = false -> Label cfg <> "" ->
  Forall (fun b => is_Some (aurasH w !! b)) (auras U) ->
  registerAura u cfg w = Panic ("Aura " +:+ Label cfg +:+ " already registered!").
Proof.
  intros HU Hin Ha HL HF Hne Hv. unfold registerAura, getUnit. rewrite HU. simpl.
  rewrite HF. rewrite bool_decide_eq_false_2 by exact Hne.
  destruct (GetAura_hits _ _ _ _ _ Hin Ha HL Hv) as (b & ->). reflexivity.
Qed.

Lemma registerAura_cap_message u U cfg w :
  unitsH w !! u = Some U -> (200 < length (auras U))%nat ->
  hasEnv U && finalized w = false -> Label cfg <> "" ->
  GetAura (aurasH w) (auras U) (Label cfg) = Ok None ->
  registerAura u cfg w
  = Panic ("Over 200 registered auras when registering " +:+ Label cfg
           +:+ "! There is probably an aura being registered every iteration.").
Proof.
  intros HU Hlen HF Hne HG. unfold registerAura, getUnit. rewrite HU. simpl.
  rewrite HF, HG. rewrite bool_decide_eq_false_2 by exact Hne. simpl.
  destruct (200 <? Z.of_nat (length (auras U))) eqn:E; [ reflexivity | ].
  apply Z.ltb_ge in E. lia.
Qed.

Lemma SetStacks_negative_message call a A n w :
  n < 0 -> aurasH w !! a = Some A -> active A = true ->
  SetStacks call a n w = Panic "SetStacks newStacks cannot be negative".
Proof.
  intros Hn Ha Hact. unfold SetStacks, getAura. rewrite Ha. simpl. rewrite Hact. simpl.
  destruct (n <? 0) eqn:E; [ reflexivity | ]. apply Z.ltb_ge in E. lia.
Qed.

Lemma aura_reset_finds fuel a A U w w1 :
  aura_init fuel a w = Ok w1 -> aurasH w1 !! a = Some A ->
  unitsH w1 !! Unit A = Some U ->
  (active A = true ->
   aura_reset fuel a w
   = Panic ("Active aura during reset: " +:+ Label A +:+ " on " +:+ ULabel U))
  /\ (active A = false -> stacks A <> 0 ->
      aura_reset fuel a w
      = Panic ("Aura nonzero stacks during reset: " +:+ Label A)).
Proof.
  intros Hi Ha HU. unfold aura_reset, getAura, getUnit. rewrite Hi. simpl. rewrite Ha. simpl.
  split.
  - intros ->. rewrite HU. reflexivity.
  - intros -> Hs.
    replace (stacks A =? 0) with false by (symmetry; apply Z.eqb_neq; lia).
    reflexivity.
Qed.

(** C9 (amended): each of these aborts the run with a panic, and with the
    panic of its own check when no earlier check of the function fires:
    registering an aura whose label a registered aura of the unit already
    has ("Aura ... already registered!"); calling [SetStacks] with a
    negative count (on an active aura: "SetStacks newStacks cannot be
    negative"); registering an aura on a unit whose environment is
    finalized; registering an aura on a unit that already has more than
    200 registered auras; and a reset that, once the aura is initialized,
    finds it active or, when inactive, with stacks.  A stack count above
    [MaxStacks] is not an error: [SetStacks] behaves as if called with
    [MaxStacks]. *)
Theorem fatal_structural_errors :
  (forall u U cfg w a A,
      unitsH w !! u = Some U -> a ∈ auras U -> aurasH w !! a = Some A ->
      Label A = Label cfg ->
      is_panic (registerAura u cfg w) = true
      /\ (hasEnv U && finalized w = false -> Label cfg <> "" ->
          Forall (fun b => is_Some (aurasH w !! b)) (auras U) ->
          registerAura u cfg w
          = Panic ("Aura " +:+ Label cfg +:+ " already registered!")))
  /\ (forall call a n w,
      n < 0 ->
      is_panic (SetStacks call a n w) = true
      /\ forall A, aurasH w !! a = Some A -> active A = true ->
           SetStacks call a n w
           = Panic "SetStacks newStacks cannot be negative")
  /\ (forall u U cfg w,
      unitsH w !! u = Some U -> hasEnv U = true -> finalized w = true ->
      registerAura u cfg w
      = Panic "Tried to add new aura in a finalized environment!")
  /\ (forall u U cfg w,
      unitsH w !! u = Some U -> (200 < length (auras U))%nat ->
      is_panic (registerAura u cfg w) = true
      /\ (hasEnv U && finalized w = false -> Label cfg <> "" ->
          GetAura (aurasH w) (auras U) (Label cfg) = Ok None ->
          registerAura u cfg w
          = Panic ("Over 200 registered auras when registering "
                   +:+ Label cfg
                   +:+ "! There is probably an aura being registered every iteration.")))
  /\ (forall fuel a A U w w1,
      aura_init fuel a w = Ok w1 -> aurasH w1 !! a = Some A ->
      unitsH w1 !! Unit A = Some U ->
      (active A = true ->
       aura_reset fuel a w
       = Panic ("Active aura during reset: " +:+ Label A +:+ " on "
                +:+ ULabel U))
      /\ (active A = false -> stacks A <> 0 ->
          aura_reset fuel a w
          = Panic ("Aura nonzero stacks during reset: " +:+ Label A)))
  /\ (forall call a A n w,
      aurasH w !! a = Some A -> 0 < MaxStacks A <= n ->
      SetStacks call a n w = SetStacks call a (MaxStacks A) w).
Proof.
  split; [ | split; [ | split; [ | split; [ | split ] ] ] ].
  - intros u U cfg w a A HU Hin Ha HL. split.
    + eapply registerAura_duplicate; eauto.
    + intros. eapply registerAura_duplicate_message; eauto.
  - intros call a n w Hn. split.
    + apply SetStacks_negative. exact Hn.
    + intros A Ha Hact. eapply SetStacks_negative_message; eauto.
  - intros u U cfg w HU HE HF. unfold registerAura, getUnit. rewrite HU. simpl.
    rewrite HE, HF. reflexivity.
  - intros u U cfg w HU Hlen. split.
    + eapply registerAura_cap; eauto.
    + intros. eapply registerAura_cap_message; eauto.
  - intros fuel a A U w w1. apply aura_reset_finds.
  - apply SetStacks_over_cap.
Qed.

End Fatal.

(** C9, as stated, fails: assigning five stacks to an active aura whose cap
    is three is no error; the aura ends up with three stacks. *)
Lemma over_cap_stacks_not_fatal :
  exists w1 w2,
    exec (PG := Quiet) 3 (CActivate 0%nat) (fresh [buff] []) = Ok w1
    /\ MaxStacks <$> aurasH w1 !! 0%nat = Some 3
    /\ exec (PG := Quiet) 3 (CSetStacks 0%nat 5) w1 = Ok w2
    /\ is_panic (exec (PG := Quiet) 3 (CSetStacks 0%nat 5) w1) = false
    /\ stacks <$> aurasH w2 !! 0%nat = Some 3.
Proof.
  eexists; eexists.
  split; [ vm_compute; reflexivity | ].
  split; [ reflexivity | ].
  split; [ vm_compute; reflexivity | ].
  split; reflexivity.
Qed.

(** The parts of [fatal_structural_errors] at concrete inputs, each on the
    path of its own check: a second "Buff" on a unit outside a finalized
    environment; minus one stack on an active aura; a registration in a
    finalized environment; a registration on a unit with 201 auras; the
    reset of an aura that is active, and of one that is inactive with two
    stacks; five stacks on an active aura whose maximum is three. *)
Lemma fatal_structural_errors_witness :
  (exists a w1,
     registerAura 0%nat buff detached = Ok (a, w1)
     /\ registerAura 0%nat buff w1 = Panic "Aura Buff already registered!")
  /\ (exists w1,
        exec (PG := Quiet) 3 (CActivate 0%nat) (fresh [buff] []) = Ok w1
        /\ exec (PG := Quiet) 3 (CSetStacks 0%nat (-1)) w1
           = Panic "SetStacks newStacks cannot be negative"
        /\ aura_reset (PG := Quiet) 3 0%nat w1
           = Panic "Active aura during reset: Buff on Player"
        /\ SetStacks (PG := Quiet) (exec (PG := Quiet) 2) 0%nat 5 w1
           = SetStacks (PG := Quiet) (exec (PG := Quiet) 2) 0%nat 3 w1)
  /\ registerAura 0%nat buff (fresh [] [])
     = Panic "Tried to add new aura in a finalized environment!"
  /\ registerAura 0%nat buff crowded
     = Panic "Over 200 registered auras when registering Buff! There is probably an aura being registered every iteration."
  /\ aura_reset (PG := Quiet) 3 0%nat (fresh [set_stacks 2 buff] [])
     = Panic "Aura nonzero stacks during reset: Buff".
Proof.
  destruct (fatal_structural_errors (PF := FixedPoint) (PG := Quiet))
    as (H1 & H2 & H3 & H4 & H5 & H6).
  split; [ | split; [ | split; [ | split ] ] ].
  - eexists; eexists. split; [ vm_compute; reflexivity | ].
    match goal with |- registerAura _ _ ?w = _ => pose (W := w) end.
    apply (proj2 (H1 0%nat (mkUnit "Player" false [0%nat] (fun _ => []) NeverExpires)
                    buff W 0%nat
                    (set_index (fun _ => Inactive) (set_Unit 0%nat buff))
                    eq_refl (list_elem_of_here _ _) eq_refl eq_refl));
      [ reflexivity | discriminate | ].
    constructor; [ eexists; reflexivity | constructor ].
  - eexists. split; [ vm_compute; reflexivity | ].
    match goal with |- exec _ _ ?w = _ /\ _ => pose (W := w) end.
    pose (A0 := match aurasH W !! 0%nat with Some A => A | None => buff end).
    split; [ | split ].
    + exact (proj2 (H2 (exec (PG := Quiet) 2) 0%nat (-1)
                      (emit (EvSetStacks 0%nat (-1)) W) ltac:(lia))
                   A0 eq_refl eq_refl).
    + pose (U0 := match unitsH W !! 0%nat with Some U => U | None => player [] end).
      exact (proj1 (H5 3%nat 0%nat A0 U0 W W eq_refl eq_refl eq_refl) eq_refl).
    + exact (H6 (exec (PG := Quiet) 2) 0%nat A0 5 W
                eq_refl ltac:(vm_compute; split; [ reflexivity | discriminate ])).
  - apply (H3 0%nat (player []) buff (fresh [] [])); reflexivity.
  - apply (proj2 (H4 0%nat
             (mkUnit "Player" false (replicate 201 0%nat) (fun _ => []) NeverExpires)
             buff crowded eq_refl ltac:(cbn; lia)));
      [ reflexivity | discriminate | vm_compute; reflexivity ].
  - exact (proj2 (H5 3%nat 0%nat (set_stacks 2 buff) (player [0%nat])
                    (fresh [set_stacks 2 buff] []) (fresh [set_stacks 2 buff] [])
                    eq_refl eq_refl eq_refl) eq_refl ltac:(discriminate)).
Defined.

Section Refresh.
Context {PF : Platform} {PG : Program}.

(** C6 (amended): [Activate] on an aura that is already active writes its
    expiration, [NeverExpires] when the duration is [NeverExpires] and the
    current time plus the duration (in int64) otherwise, and counts one more
    proc; it changes no other aura, leaves every dispatch array as it is, and
    invokes no hook: the trace grows by the call alone. *)
Theorem reactivate_refreshes fuel a A (w : World) :
  aurasH w !! a = Some A -> active A = true ->
  (Duration A = NeverExpires \/ is_Some (unitsH w !! Unit A)) ->
  exists w',
    exec (S fuel) (CActivate a) w = Ok w'
    /\ aurasH w' !! a
       = Some (set_expires (refreshed_expiry A (CurrentTime w))
                 (set_Procs (Procs A + 1) A))
    /\ (forall b, b <> a -> aurasH w' !! b = aurasH w !! b)
    /\ (forall u U, unitsH w !! u = Some U ->
          exists U', unitsH w' !! u = Some U' /\ arrays U' = arrays U)
    /\ log w' = log w ++ [EvActivate a].
Proof.
  intros Ha Hact HU. cbn [exec step_cmd]. unfold Activate, getAura. simpl. rewrite Ha. simpl.
  rewrite Hact. unfold Refresh, getAura. simpl.
  rewrite list_lookup_alter_eq. rewrite Ha. simpl.
  unfold refreshed_expiry.
  destruct (Duration A =? NeverExpires) eqn:HD.
  - eexists; split; [ reflexivity | ]. simpl.
    repeat split.
    + rewrite !list_lookup_alter_eq, Ha. reflexivity.
    + intros b Hb. rewrite !list_lookup_alter_ne by congruence. reflexivity.
    + intros u U Hu. eauto.
  - destruct HU as [HU|[U0 HU]]; [ apply Z.eqb_neq in HD; congruence | ].
    unfold getUnit. simpl. rewrite HU. simpl.
    destruct (add64 (CurrentTime w) (Duration A) <? minExpires U0).
    + eexists; split; [ reflexivity | ]. simpl. repeat split.
      * rewrite !list_lookup_alter_eq, Ha. reflexivity.
      * intros b Hb. rewrite !list_lookup_alter_ne by congruence. reflexivity.
      * intros u U Hu. destruct (decide (u = Unit A)) as [->|Hne].
        -- rewrite list_lookup_alter_eq, HU. simpl. eexists; split; [ reflexivity | ].
           rewrite HU in Hu. injection Hu as <-. reflexivity.
        -- rewrite list_lookup_alter_ne by congruence. eauto.
    + eexists; split; [ reflexivity | ]. simpl. repeat split.
      * rewrite !list_lookup_alter_eq, Ha. reflexivity.
      * intros b Hb. rewrite !list_lookup_alter_ne by congruence. reflexivity.
      * intros u U Hu. eauto.
Qed.

End Refresh.

(** ** The dispatch arrays under [Activate] and [Deactivate] *)

Section AuraInvariants.
Context {PF : Platform} {PG : Program}.


Lemma post_bind {A B : Type} (r : Res A) (k : A -> Res B) (Q : B -> Prop) :
  post r (fun a => post (k a) Q) -> post (bindR r k) Q.
Proof. destruct r; simpl; auto. Qed.

Lemma post_mono {A : Type} (r : Res A) (P Q : A -> Prop) :
  (forall a, P a -> Q a) -> post r P -> post r Q.
Proof. destruct r; simpl; auto. Qed.

Lemma post_Ok {A : Type} (r : Res A) (Q : A -> Prop) a :
  post r Q -> r = Ok a -> Q a.
Proof. intros H ->. exact H. Qed.

Lemma set_index_id (B : Aura) : set_index (index B) B = B.
Proof. destruct B; reflexivity. Qed.

Lemma removeBySwappingToBack_lookup (arr : list nat) k i x :
  last arr = Some x -> (k < length arr)%nat -> (i < length arr - 1)%nat ->
  removeBySwappingToBack arr k !! i = if decide (i = k) then Some x else arr !! i.
Proof.
  intros Hl Hk Hi. unfold removeBySwappingToBack. rewrite Hl.
  rewrite lookup_take_lt by lia.
  destruct (decide (i = k)) as [->|Hne].
  - rewrite list_lookup_insert_eq by lia. reflexivity.
  - rewrite list_lookup_insert_ne by congruence. reflexivity.
Qed.

Lemma removeBySwappingToBack_length (arr : list nat) k :
  arr <> [] -> length (removeBySwappingToBack arr k) = (length arr - 1)%nat.
Proof.
  intros Hne. unfold removeBySwappingToBack.
  destruct (last arr) eqn:Hl.
  - rewrite length_take, length_insert. lia.
  - apply last_None in Hl. congruence.
Qed.


Lemma all_slots_complete (s : Slot) : In s all_slots.
Proof. destruct s; simpl; tauto. Qed.

Lemma forallb_slots (f : Slot -> bool) :
  forallb f all_slots = true <-> forall s, f s = true.
Proof.
  rewrite forallb_forall. split; intros H s; [ | intros _ ]; apply H.
  apply all_slots_complete.
Qed.

Lemma set_arrays_id (U : UnitT) : set_arrays (arrays U) U = U.
Proof. destruct U; reflexivity. Qed.


Lemma unregister_spec a A U (w : World) :
  aurasH w !! a = Some A -> unitsH w !! Unit A = Some U ->
  (forall s, index A s <> Inactive ->
     exists i, index A s = Z.of_nat i /\ arrays U s !! i = Some a) ->
  (forall s b, last (arrays U s) = Some b -> is_Some (aurasH w !! b)) ->
  exists w',
    unregister a w = Ok w'
    /\ (forall b B, aurasH w !! b = Some B ->
          exists f, aurasH w' !! b = Some (set_index f B)
                    /\ forall s, f s = index_after_unregister a A U b B s)
    /\ (forall b, aurasH w !! b = None -> aurasH w' !! b = None)
    /\ (forall u, u <> Unit A -> unitsH w' !! u = unitsH w !! u)
    /\ (exists g, unitsH w' !! Unit A = Some (set_arrays g U)
                  /\ forall s, g s = arrays_after_unregister A U s)
    /\ outside_auras w' = outside_auras w.
Proof.
  intros Ha HU Hidx Hlast. unfold unregister, getAura, getUnit. rewrite Ha. cbn [bindR].
  destruct (forallb (fun s => index A s =? Inactive) all_slots) eqn:Hall.
  - rewrite forallb_slots in Hall.
    exists w. split; [ reflexivity | ]. repeat split.
    + intros b B Hb. exists (index B). rewrite set_index_id. split; [ exact Hb | ].
      intros s. unfold index_after_unregister, moved. specialize (Hall s).
      rewrite Hall. case_bool_decide as Hba.
      * subst b. rewrite Ha in Hb. injection Hb as <-. apply Z.eqb_eq in Hall. exact Hall.
      * rewrite bool_decide_eq_false_2 by discriminate. reflexivity.
    + auto.
    + exists (arrays U). rewrite set_arrays_id. split; [ exact HU | ].
      intros s. unfold arrays_after_unregister. rewrite Hall. reflexivity.
  - rewrite HU. cbn [bindR].
    assert (Hrem : forallb (removable A U) all_slots = true).
    { apply forallb_slots. intros s. unfold removable.
      destruct (index A s =? Inactive) eqn:E; [ reflexivity | ].
      apply Z.eqb_neq in E. destruct (Hidx s E) as (i & Hi & Hl).
      apply lookup_lt_Some in Hl. simpl.
      apply andb_true_intro. split; [ apply Z.leb_le | apply Z.ltb_lt ]; lia. }
    rewrite Hrem. cbn [negb].
    assert (Hmv : forallb (fun s => match moved A U s with
                                    | Some b => bool_decide (is_Some (aurasH w !! b))
                                    | None => true end) all_slots = true).
    { apply forallb_slots. intros s. unfold moved.
      destruct (index A s =? Inactive); [ reflexivity | ].
      destruct (index A s <? Z.of_nat (length (arrays U s)) - 1); [ | reflexivity ].
      destruct (last (arrays U s)) as [b|] eqn:El; [ | reflexivity ].
      apply bool_decide_eq_true_2. eapply Hlast; eauto. }
    rewrite Hmv. cbn [negb].
    eexists. split; [ reflexivity | ]. cbn [aurasH unitsH updUnit set_unitsH set_aurasH]. repeat split.
    + intros b B Hb. eexists. rewrite list_lookup_imap, Hb. simpl.
      split; [ reflexivity | ]. intros s. reflexivity.
    + intros b Hb. rewrite list_lookup_imap, Hb. reflexivity.
    + intros u Hu. rewrite list_lookup_alter_ne by congruence. reflexivity.
    + eexists. rewrite list_lookup_alter_eq, HU. simpl. split; [ reflexivity | ].
      intros s. reflexivity.
Qed.


Lemma last_lookup_Some (l : list nat) x :
  last l = Some x -> l !! (length l - 1)%nat = Some x /\ (0 < length l)%nat.
Proof.
  intros H. rewrite last_lookup in H. split.
  - replace (length l - 1)%nat with (Nat.pred (length l)) by lia. exact H.
  - apply lookup_lt_Some in H. destruct l; simpl in *; lia.
Qed.

Lemma moved_Some a A U s b (w : World) :
  WFx (Some a) w ->
  unitsH w !! Unit A = Some U -> aurasH w !! a = Some A ->
  moved A U s = Some b ->
  exists k, index A s = Z.of_nat k /\ (k < length (arrays U s) - 1)%nat
            /\ arrays U s !! k = Some a
            /\ last (arrays U s) = Some b /\ b <> a
            /\ exists B, aurasH w !! b = Some B /\ Unit B = Unit A
               /\ index B s = Z.of_nat (length (arrays U s) - 1).
Proof.
  intros HW HU Ha Hm. unfold moved in Hm.
  destruct (index A s =? Inactive) eqn:E1; [ discriminate | ].
  destruct (index A s <? Z.of_nat (length (arrays U s)) - 1) eqn:E2; [ | discriminate ].
  apply Z.ltb_lt in E2. apply Z.eqb_neq in E1.
  destruct (wf_idx _ _ HW _ _ _ Ha E1) as (U' & k & HU' & Hk & Hlk).
  rewrite HU in HU'. injection HU' as <-.
  destruct (last_lookup_Some _ _ Hm) as [Hl Hpos].
  destruct (wf_arr _ _ HW _ _ _ _ _ HU Hl) as (B & HB & HuB & HiB).
  exists k. repeat split; auto; try lia.
  - intros ->. rewrite Ha in HB. injection HB as <-. lia.
  - exists B. repeat split; auto.
Qed.

Lemma unregister_WF a A (w w' : World) :
  WFx (Some a) w -> aurasH w !! a = Some A -> active A = false ->
  unregister a w = Ok w' ->
  WF w' /\ outside_auras w' = outside_auras w
  /\ (forall b B, aurasH w !! b = Some B ->
        exists f, aurasH w' !! b = Some (set_index f B))
  /\ (forall b, aurasH w !! b = None -> aurasH w' !! b = None)
  /\ (forall u U, unitsH w !! u = Some U ->
        exists g, unitsH w' !! u = Some (set_arrays g U)).
Proof.
  intros HW Ha Hact Hun.
  destruct (wf_unit _ _ HW _ _ Ha) as [U HU].
  destruct (unregister_spec a A U w Ha HU) as (w2 & Hok & Hau & Hnone & Hun' & (g & Hg & Hgs) & Hout).
  { intros s Hs. destruct (wf_idx _ _ HW _ _ _ Ha Hs) as (U' & i & HU' & Hi & Hl).
    rewrite HU in HU'. injection HU' as <-. eauto. }
  { intros s b Hl. destruct (last_lookup_Some _ _ Hl) as [Hl' _].
    destruct (wf_arr _ _ HW _ _ _ _ _ HU Hl') as (B & HB & _). eauto. }
  rewrite Hok in Hun. injection Hun as <-.
  assert (Hback : forall b B', aurasH w2 !! b = Some B' ->
            exists B f, aurasH w !! b = Some B /\ B' = set_index f B
                        /\ forall s, f s = index_after_unregister a A U b B s).
  { intros b B' Hb. destruct (aurasH w !! b) as [B|] eqn:HB.
    - destruct (Hau _ _ HB) as (f & Hf & Hfs). rewrite Hf in Hb. injection Hb as <-. eauto.
    - rewrite (Hnone _ HB) in Hb. discriminate. }
  assert (Hunits : forall u U', unitsH w2 !! u = Some U' ->
            (u <> Unit A /\ unitsH w !! u = Some U') \/ (u = Unit A /\ U' = set_arrays g U)).
  { intros u U' Hu. destruct (decide (u = Unit A)) as [->|Hne].
    - right. rewrite Hg in Hu. injection Hu as <-. auto.
    - left. rewrite Hun' in Hu by auto. auto. }
  split; [ | split; [ exact Hout | split; [ | split; [ exact Hnone | ] ] ] ].
  2: { intros b B HB. destruct (Hau _ _ HB) as (f & Hf & _). eauto. }
  2: { intros u U0 Hu. destruct (decide (u = Unit A)) as [->|Hne].
       - rewrite HU in Hu. injection Hu as <-. eauto.
       - exists (arrays U0). rewrite set_arrays_id, Hun' by auto. exact Hu. }
  constructor.
  - (* wf_unit *)
    intros b B' Hb. destruct (Hback _ _ Hb) as (B & f & HB & -> & _). cbn.
    destruct (wf_unit _ _ HW _ _ HB) as [UB HUB].
    destruct (decide (Unit B = Unit A)) as [e|Hne].
    + rewrite e, Hg. eauto.
    + rewrite Hun' by auto. eauto.
  - (* wf_arr *)
    intros u U' s i b Hu Hi.
    destruct (Hunits _ _ Hu) as [[Hne Hu0]|[-> ->]].
    + destruct (wf_arr _ _ HW _ _ _ _ _ Hu0 Hi) as (B & HB & HuB & HiB).
      destruct (Hau _ _ HB) as (f & Hf & Hfs). exists (set_index f B). cbn.
      repeat split; auto. rewrite Hfs. unfold index_after_unregister.
      rewrite bool_decide_eq_false_2.
      2: { intros ->. rewrite Ha in HB. injection HB as <-. congruence. }
      rewrite bool_decide_eq_false_2; auto.
      intros Hm. destruct (moved_Some _ _ _ _ _ _ HW HU Ha Hm) as (k & _ & _ & _ & _ & _ & B2 & HB2 & HuB2 & _).
      rewrite HB in HB2. injection HB2 as <-. congruence.
    + cbn in Hi. rewrite Hgs in Hi. unfold arrays_after_unregister in Hi.
      destruct (index A s =? Inactive) eqn:E.
      * destruct (wf_arr _ _ HW _ _ _ _ _ HU Hi) as (B & HB & HuB & HiB).
        destruct (Hau _ _ HB) as (f & Hf & Hfs). exists (set_index f B). cbn.
        repeat split; auto. rewrite Hfs. unfold index_after_unregister, moved.
        rewrite E. apply Z.eqb_eq in E.
        rewrite bool_decide_eq_false_2.
        2: { intros ->. rewrite Ha in HB. injection HB as <-. unfold Inactive in E. lia. }
        rewrite bool_decide_eq_false_2 by discriminate. exact HiB.
      * apply Z.eqb_neq in E.
        destruct (wf_idx _ _ HW _ _ _ Ha E) as (U' & k & HU' & Hk & Hlk).
        rewrite HU in HU'. injection HU' as <-.
        rewrite Hk, Nat2Z.id in Hi.
        pose proof (lookup_lt_Some _ _ _ Hlk) as Hklt.
        destruct (last (arrays U s)) as [x|] eqn:Hlast.
        2: { apply last_None in Hlast. rewrite Hlast in Hklt. simpl in Hklt. lia. }
        destruct (last_lookup_Some _ _ Hlast) as [Hlx Hpos].
        pose proof (lookup_lt_Some _ _ _ Hi) as Hilt.
        rewrite removeBySwappingToBack_length in Hilt.
        2: { intros e. rewrite e in Hpos. simpl in Hpos. lia. }
        rewrite (removeBySwappingToBack_lookup _ _ _ x) in Hi by (auto; lia).
        destruct (wf_arr _ _ HW _ _ _ _ _ HU Hlx) as (X & HX & HuX & HiX).
        destruct (decide (i = k)) as [->|Hik].
        -- injection Hi as <-.
           destruct (Hau _ _ HX) as (f & Hf & Hfs). exists (set_index f X). cbn.
           repeat split; auto. rewrite Hfs. unfold index_after_unregister.
           assert (x <> a).
           { intros ->. rewrite Ha in HX. injection HX as <-. lia. }
           rewrite bool_decide_eq_false_2 by auto.
           rewrite bool_decide_eq_true_2; [ exact Hk | ].
           unfold moved. rewrite (proj2 (Z.eqb_neq _ _) E).
           rewrite (proj2 (Z.ltb_lt _ _)) by lia. exact Hlast.
        -- destruct (wf_arr _ _ HW _ _ _ _ _ HU Hi) as (B & HB & HuB & HiB).
           destruct (Hau _ _ HB) as (f & Hf & Hfs). exists (set_index f B). cbn.
           repeat split; auto. rewrite Hfs. unfold index_after_unregister.
           rewrite bool_decide_eq_false_2.
           2: { intros ->. rewrite Ha in HB. injection HB as <-. lia. }
           rewrite bool_decide_eq_false_2; auto.
           intros Hm. destruct (moved_Some _ _ _ _ _ _ HW HU Ha Hm) as (k' & _ & _ & _ & Hl' & _ & B2 & HB2 & _ & HiB2).
           rewrite HB in HB2. injection HB2 as <-. lia.
  - (* wf_idx *)
    intros b B' s Hb Hs. destruct (Hback _ _ Hb) as (B & f & HB & -> & Hfs).
    cbn in Hs |- *. rewrite Hfs in Hs |- *. unfold index_after_unregister in Hs |- *.
    case_bool_decide as Hba; [ congruence | ].
    case_bool_decide as Hm.
    + destruct (moved_Some _ _ _ _ _ _ HW HU Ha Hm) as (k & Hk & Hklt & Hka & Hl & _ & B2 & HB2 & HuB2 & HiB2).
      rewrite HB in HB2. injection HB2 as <-.
      exists (set_arrays g U), k. rewrite HuB2, Hg. cbn. repeat split; auto.
      rewrite Hgs. unfold arrays_after_unregister.
      rewrite (proj2 (Z.eqb_neq _ _)) by (rewrite Hk; unfold Inactive; lia).
      rewrite Hk, Nat2Z.id.
      rewrite (removeBySwappingToBack_lookup _ _ _ b) by (auto; lia).
      rewrite decide_True by auto. reflexivity.
    + destruct (wf_idx _ _ HW _ _ _ HB Hs) as (UB & i & HUB & Hi & Hli).
      destruct (decide (Unit B = Unit A)) as [e|Hne].
      * rewrite e in HUB. rewrite HU in HUB. injection HUB as <-.
        exists (set_arrays g U), i. rewrite e, Hg. cbn. repeat split; auto.
        rewrite Hgs. unfold arrays_after_unregister.
        destruct (index A s =? Inactive) eqn:E; [ exact Hli | ].
        apply Z.eqb_neq in E.
        destruct (wf_idx _ _ HW _ _ _ Ha E) as (U' & k & HU' & Hk & Hlk).
        rewrite HU in HU'. injection HU' as <-.
        rewrite Hk, Nat2Z.id.
        pose proof (lookup_lt_Some _ _ _ Hlk) as Hklt.
        pose proof (lookup_lt_Some _ _ _ Hli) as Hilt.
        destruct (last (arrays U s)) as [x|] eqn:Hlast.
        2: { apply last_None in Hlast. rewrite Hlast in Hklt. simpl in Hklt. lia. }
        destruct (last_lookup_Some _ _ Hlast) as [Hlx Hpos].
        assert (i <> k) by (intros ->; congruence).
        assert (i <> (length (arrays U s) - 1)%nat).
        { intros ->. rewrite Hlx in Hli. injection Hli as ->.
          apply Hm. unfold moved. rewrite (proj2 (Z.eqb_neq _ _) E).
          rewrite (proj2 (Z.ltb_lt _ _)) by lia. exact Hlast. }
        rewrite (removeBySwappingToBack_lookup _ _ _ x) by (auto; lia).
        rewrite decide_False by auto. exact Hli.
      * exists UB, i. rewrite Hun' by auto. auto.
  - (* wf_act *)
    intros b B' s _ Hb. destruct (Hback _ _ Hb) as (B & f & HB & -> & Hfs).
    cbn. rewrite Hfs. unfold index_after_unregister.
    case_bool_decide as Hba.
    + subst b. rewrite Ha in HB. injection HB as <-. rewrite Hact.
      split; [ congruence | intros [? _]; discriminate ].
    + rewrite <- (wf_act _ _ HW b B s) by (auto; congruence).
      case_bool_decide as Hm; [ | reflexivity ].
      destruct (moved_Some _ _ _ _ _ _ HW HU Ha Hm) as (k & Hk & Hklt & Hka & Hl & _ & B2 & HB2 & HuB2 & HiB2).
      rewrite HB in HB2. injection HB2 as <-.
      rewrite Hk, HiB2. unfold Inactive. split; intros _; lia.
Qed.


Lemma registers_set_index f (A : Aura) s :
  registers (set_index f A) s = registers A s.
Proof. destruct s; reflexivity. Qed.

Lemma register_spec a A U (w : World) :
  aurasH w !! a = Some A -> unitsH w !! Unit A = Some U ->
  exists w' f g,
    register a w = Ok w'
    /\ aurasH w' !! a = Some (set_index f A)
    /\ (forall s, f s = if registers A s then Z.of_nat (length (arrays U s))
                        else index A s)
    /\ (forall b, b <> a -> aurasH w' !! b = aurasH w !! b)
    /\ (forall u, u <> Unit A -> unitsH w' !! u = unitsH w !! u)
    /\ unitsH w' !! Unit A = Some (set_arrays g U)
    /\ (forall s, g s = if registers A s then arrays U s ++ [a] else arrays U s)
    /\ outside_auras w' = outside_auras w.
Proof.
  intros Ha HU. unfold register, getAura, getUnit. rewrite Ha. cbn [bindR].
  destruct (forallb (fun s => negb (registers A s)) all_slots) eqn:Hall.
  - rewrite forallb_slots in Hall.
    assert (Hno : forall s, registers A s = false).
    { intros s. specialize (Hall s). destruct (registers A s); auto; discriminate. }
    exists w, (index A), (arrays U). rewrite set_index_id, set_arrays_id.
    repeat split; auto; intros s; rewrite Hno; reflexivity.
  - rewrite HU. cbn [bindR]. do 3 eexists. split; [ reflexivity | ].
    cbn [aurasH unitsH updUnit updAura set_unitsH set_aurasH].
    rewrite !list_lookup_alter_eq, Ha, HU. cbn.
    repeat split; auto.
    + intros b Hb. rewrite list_lookup_alter_ne by congruence. reflexivity.
    + intros u Hu. rewrite list_lookup_alter_ne by congruence. reflexivity.
Qed.

Lemma register_WF a A (w w' : World) :
  WFx (Some a) w -> aurasH w !! a = Some A -> active A = true ->
  (forall s, index A s = Inactive) ->
  register a w = Ok w' ->
  WF w' /\ outside_auras w' = outside_auras w
  /\ (exists f, aurasH w' !! a = Some (set_index f A))
  /\ (forall b, b <> a -> aurasH w' !! b = aurasH w !! b)
  /\ (forall u U, unitsH w !! u = Some U ->
        exists g, unitsH w' !! u = Some (set_arrays g U)).
Proof.
  intros HW Ha Hact Hnone Hreg.
  destruct (wf_unit _ _ HW _ _ Ha) as [U HU].
  destruct (register_spec a A U w Ha HU)
    as (w2 & f & g & Hok & Hfa & Hfs & Hoth & Hun & Hg & Hgs & Hout).
  rewrite Hok in Hreg. injection Hreg as <-.
  assert (Hnotin : forall s i, arrays U s !! i = Some a -> False).
  { intros s i Hi. destruct (wf_arr _ _ HW _ _ _ _ _ HU Hi) as (A' & HA' & _ & Hidx).
    rewrite Ha in HA'. injection HA' as <-. rewrite Hnone in Hidx. unfold Inactive in Hidx. lia. }
  assert (Hunits : forall u U', unitsH w2 !! u = Some U' ->
            (u <> Unit A /\ unitsH w !! u = Some U') \/ (u = Unit A /\ U' = set_arrays g U)).
  { intros u U' Hu. destruct (decide (u = Unit A)) as [->|Hne].
    - right. rewrite Hg in Hu. injection Hu as <-. auto.
    - left. rewrite Hun in Hu by auto. auto. }
  split; [ | split; [ exact Hout | split; [ eauto | split; [ exact Hoth | ] ] ] ].
  2: { intros u U0 Hu. destruct (decide (u = Unit A)) as [->|Hne].
       - rewrite HU in Hu. injection Hu as <-. eauto.
       - exists (arrays U0). rewrite set_arrays_id, Hun by auto. exact Hu. }
  constructor.
  - intros b B' Hb. destruct (decide (b = a)) as [->|Hne].
    + rewrite Hfa in Hb. injection Hb as <-. cbn. rewrite Hg. eauto.
    + rewrite Hoth in Hb by auto. destruct (wf_unit _ _ HW _ _ Hb) as [UB HUB].
      destruct (decide (Unit B' = Unit A)) as [e|Hne'].
      * rewrite e, Hg. eauto.
      * rewrite Hun by auto. eauto.
  - intros u U' s i b Hu Hi.
    assert (Hold : forall U0, unitsH w !! u = Some U0 -> arrays U0 s !! i = Some b ->
              exists B, aurasH w2 !! b = Some B /\ Unit B = u /\ index B s = Z.of_nat i).
    { intros U0 Hu0 Hi0.
      destruct (wf_arr _ _ HW _ _ _ _ _ Hu0 Hi0) as (B & HB & HuB & HiB).
      assert (b <> a).
      { intros ->. rewrite Ha in HB. injection HB as <-. rewrite Hnone in HiB.
        unfold Inactive in HiB. lia. }
      exists B. rewrite Hoth by auto. auto. }
    destruct (Hunits _ _ Hu) as [[Hne Hu0]|[-> ->]]; [ eauto | ].
    cbn in Hi. rewrite Hgs in Hi.
    destruct (registers A s) eqn:Hr; [ | eauto ].
    destruct (decide (i < length (arrays U s))%nat) as [Hlt|Hge].
    + rewrite lookup_app_l in Hi by auto. eauto.
    + rewrite lookup_app_r in Hi by lia.
      destruct (i - length (arrays U s))%nat as [|n] eqn:En; [ | destruct n; discriminate ].
      injection Hi as <-. exists (set_index f A). cbn. rewrite Hfs, Hr.
      repeat split; auto. f_equal. lia.
  - intros b B' s Hb Hs. destruct (decide (b = a)) as [->|Hne].
    + rewrite Hfa in Hb. injection Hb as <-. cbn in Hs |- *.
      rewrite Hfs in Hs |- *.
      destruct (registers A s) eqn:Hr; [ | rewrite Hnone in Hs; congruence ].
      exists (set_arrays g U), (length (arrays U s)). rewrite Hg. cbn.
      repeat split; auto. rewrite Hgs, Hr.
      rewrite lookup_app_r by lia. rewrite Nat.sub_diag. reflexivity.
    + rewrite Hoth in Hb by auto.
      destruct (wf_idx _ _ HW _ _ _ Hb Hs) as (UB & i & HUB & Hi & Hli).
      destruct (decide (Unit B' = Unit A)) as [e|Hne'].
      * rewrite e in HUB. rewrite HU in HUB. injection HUB as <-.
        exists (set_arrays g U), i. rewrite e, Hg. cbn. repeat split; auto.
        rewrite Hgs. destruct (registers A s); [ | exact Hli ].
        apply lookup_app_l_Some. exact Hli.
      * exists UB, i. rewrite Hun by auto. auto.
  - intros b B' s _ Hb. destruct (decide (b = a)) as [->|Hne].
    + rewrite Hfa in Hb. injection Hb as <-.
      rewrite registers_set_index. cbn [index set_index active].
      rewrite Hfs, Hact.
      destruct (registers A s).
      * unfold Inactive. split; [ auto | intros _; lia ].
      * rewrite Hnone. split; [ congruence | intros [_ ?]; discriminate ].
    + rewrite Hoth in Hb by auto. apply (wf_act _ _ HW b B' s); auto; congruence.
Qed.


(** *** Field updates that the invariants do not see *)

Lemma lookup_updAura a F (w : World) b B' :
  aurasH (updAura a F w) !! b = Some B' ->
  exists B, aurasH w !! b = Some B /\ B' = if decide (b = a) then F B else B.
Proof.
  cbn. intros H. destruct (decide (b = a)) as [->|Hne].
  - rewrite list_lookup_alter_eq in H. destruct (aurasH w !! a) as [B|]; [ | discriminate ].
    injection H as <-. eauto.
  - rewrite list_lookup_alter_ne in H by congruence. eauto.
Qed.

Lemma lookup_updAura_Some a F (w : World) b B :
  aurasH w !! b = Some B ->
  aurasH (updAura a F w) !! b = Some (if decide (b = a) then F B else B).
Proof.
  cbn. intros H. destruct (decide (b = a)) as [->|Hne].
  - rewrite list_lookup_alter_eq, H. reflexivity.
  - rewrite list_lookup_alter_ne by congruence. exact H.
Qed.

Lemma lookup_updUnit u G (w : World) v U' :
  unitsH (updUnit u G w) !! v = Some U' ->
  exists U, unitsH w !! v = Some U /\ U' = if decide (v = u) then G U else U.
Proof.
  cbn. intros H. destruct (decide (v = u)) as [->|Hne].
  - rewrite list_lookup_alter_eq in H. destruct (unitsH w !! u) as [U|]; [ | discriminate ].
    injection H as <-. eauto.
  - rewrite list_lookup_alter_ne in H by congruence. eauto.
Qed.

Lemma lookup_updUnit_Some u G (w : World) v U :
  unitsH w !! v = Some U ->
  unitsH (updUnit u G w) !! v = Some (if decide (v = u) then G U else U).
Proof.
  cbn. intros H. destruct (decide (v = u)) as [->|Hne].
  - rewrite list_lookup_alter_eq, H. reflexivity.
  - rewrite list_lookup_alter_ne by congruence. exact H.
Qed.


Lemma WFx_outside x (w w' : World) :
  aurasH w' = aurasH w -> unitsH w' = unitsH w -> WFx x w -> WFx x w'.
Proof.
  intros Ha Hu [H1 H2 H3 H4]. constructor; rewrite ?Ha, ?Hu; auto.
Qed.

Lemma WFx_weaken a (w : World) : WF w -> WFx (Some a) w.
Proof.
  intros [H1 H2 H3 H4]. constructor; auto. intros b B s _. apply H4. discriminate.
Qed.

Lemma WFx_updAura x a F (w : World) :
  keeps_positions F ->
  (x = Some a \/ forall B, active (F B) = active B) ->
  WFx x w -> WFx x (updAura a F w).
Proof.
  intros HF Hact HW. constructor.
  - intros b B' Hb. destruct (lookup_updAura _ _ _ _ _ Hb) as (B & HB & ->).
    cbn [unitsH updAura set_aurasH].
    replace (Unit (if decide (b = a) then F B else B)) with (Unit B)
      by (destruct (decide (b = a)); [ symmetry; apply HF | reflexivity ]).
    eapply wf_unit; eauto.
  - intros u U s i b Hu Hi. cbn [unitsH updAura set_aurasH] in Hu.
    destruct (wf_arr _ _ HW _ _ _ _ _ Hu Hi) as (B & HB & HuB & HiB).
    eexists. split; [ apply lookup_updAura_Some; exact HB | ].
    destruct (decide (b = a)); [ | auto ].
    destruct (HF B) as (-> & -> & _). auto.
  - intros b B' s Hb Hs. destruct (lookup_updAura _ _ _ _ _ Hb) as (B & HB & ->).
    cbn [unitsH updAura set_aurasH].
    assert (Hi : index (if decide (b = a) then F B else B) = index B)
      by (destruct (decide (b = a)); [ apply HF | reflexivity ]).
    assert (Hu : Unit (if decide (b = a) then F B else B) = Unit B)
      by (destruct (decide (b = a)); [ apply HF | reflexivity ]).
    rewrite Hi in Hs |- *. rewrite Hu. eapply wf_idx; eauto.
  - intros b B' s Hx Hb. destruct (lookup_updAura _ _ _ _ _ Hb) as (B & HB & ->).
    destruct (decide (b = a)) as [->|Hne]; [ | apply (wf_act _ _ HW b B s); auto ].
    destruct (HF B) as (-> & _ & ->).
    destruct Hact as [->|Hact]; [ congruence | ].
    rewrite Hact. apply (wf_act _ _ HW a B s); auto.
Qed.

Lemma WFx_updUnit x u G (w : World) :
  (forall U, arrays (G U) = arrays U) -> WFx x w -> WFx x (updUnit u G w).
Proof.
  intros HG HW. constructor.
  - intros b B Hb. cbn [aurasH updUnit set_unitsH] in Hb.
    destruct (wf_unit _ _ HW _ _ Hb) as [U HU].
    rewrite (lookup_updUnit_Some _ _ _ _ _ HU). eauto.
  - intros v U' s i b Hv Hi. destruct (lookup_updUnit _ _ _ _ _ Hv) as (U & HU & ->).
    cbn [aurasH updUnit set_unitsH].
    assert (Ha : arrays (if decide (v = u) then G U else U) = arrays U)
      by (destruct (decide (v = u)); [ apply HG | reflexivity ]).
    rewrite Ha in Hi. eapply wf_arr; eauto.
  - intros b B s Hb Hs. cbn [aurasH updUnit set_unitsH] in Hb.
    destruct (wf_idx _ _ HW _ _ _ Hb Hs) as (U & i & HU & Hi & Hli).
    eexists _, i. split; [ apply lookup_updUnit_Some; exact HU | ].
    split; [ exact Hi | ].
    destruct (decide (Unit B = u)); [ rewrite HG | ]; exact Hli.
  - intros b B s Hx Hb. cbn [aurasH updUnit set_unitsH] in Hb.
    apply (wf_act _ _ HW b B s); auto.
Qed.

Lemma StacksInv_outside (w w' : World) :
  aurasH w' = aurasH w -> StacksInv w -> StacksInv w'.
Proof. unfold StacksInv. intros ->. auto. Qed.

Lemma StacksInv_updAura a F (w : World) :
  (forall B, aurasH w !! a = Some B -> aura_inv B -> aura_inv (F B)) ->
  StacksInv w -> StacksInv (updAura a F w).
Proof.
  unfold StacksInv. intros HF H. cbn. rewrite Forall_lookup in H |- *.
  intros b B' Hb.
  destruct (decide (b = a)) as [->|Hne].
  - rewrite list_lookup_alter_eq in Hb. destruct (aurasH w !! a) as [B|] eqn:HB; [ | discriminate ].
    injection Hb as <-. apply HF; auto. eapply H; eauto.
  - rewrite list_lookup_alter_ne in Hb by congruence. eapply H; eauto.
Qed.

Lemma StacksInv_lookup (w : World) a A :
  StacksInv w -> aurasH w !! a = Some A -> aura_inv A.
Proof. unfold StacksInv. rewrite Forall_lookup. eauto. Qed.

(** Stores that differ in recorded positions only. *)
Lemma StacksInv_positions (w w' : World) :
  (forall b B, aurasH w !! b = Some B -> exists f, aurasH w' !! b = Some (set_index f B)) ->
  (forall b, aurasH w !! b = None -> aurasH w' !! b = None) ->
  StacksInv w -> StacksInv w'.
Proof.
  unfold StacksInv. rewrite !Forall_lookup. intros Hs Hn H b B' Hb.
  destruct (aurasH w !! b) as [B|] eqn:HB.
  - destruct (Hs _ _ HB) as (f & Hf). rewrite Hf in Hb. injection Hb as <-.
    exact (H _ _ HB).
  - rewrite (Hn _ HB) in Hb. discriminate.
Qed.


(** *** Properties that the aura machine cannot disturb *)


Lemma aura_side_refl (w : World) : aura_side w w.
Proof. split; [ reflexivity | ]. exists []. rewrite app_nil_r. auto. Qed.

Lemma aura_side_trans (w1 w2 w3 : World) :
  aura_side w1 w2 -> aura_side w2 w3 -> aura_side w1 w3.
Proof.
  intros [H1 (e1 & L1 & F1)] [H2 (e2 & L2 & F2)]. split; [ congruence | ].
  exists (e1 ++ e2). rewrite L2, L1, app_assoc. split; [ reflexivity | ].
  rewrite forallb_app, F1, F2. reflexivity.
Qed.

Lemma aura_side_updAura a F (w : World) : aura_side w (updAura a F w).
Proof. split; [ reflexivity | ]. exists []. cbn. rewrite app_nil_r. auto. Qed.

Lemma aura_side_updUnit u G (w : World) : aura_side w (updUnit u G w).
Proof. split; [ reflexivity | ]. exists []. cbn. rewrite app_nil_r. auto. Qed.

Lemma aura_side_reschedule t (w : World) : aura_side w (rescheduleTracker t w).
Proof. split; [ reflexivity | ]. exists []. cbn. rewrite app_nil_r. auto. Qed.

Lemma aura_side_emit e (w : World) : aura_event e = true -> aura_side w (emit e w).
Proof. intros He. split; [ reflexivity | ]. exists [e]. cbn. rewrite He. auto. Qed.

Lemma aura_side_outside (w w' : World) :
  outside_auras w' = outside_auras w -> aura_side w w'.
Proof.
  intros H. split; [ rewrite H; reflexivity | ].
  exists []. rewrite app_nil_r. split; [ | reflexivity ].
  change (log w') with (log (outside_auras w')). rewrite H. reflexivity.
Qed.

Lemma Refresh_aura_side a (w : World) : post (Refresh a w) (aura_side w).
Proof.
  unfold Refresh, getAura. destruct (aurasH w !! a) as [A|]; [ cbn [bindR] | exact I ].
  destruct (Duration A =? NeverExpires); [ apply aura_side_updAura | ].
  unfold getUnit.
  destruct (unitsH _ !! Unit A) as [U|]; [ cbn [bindR] | exact I ].
  destruct (_ <? _); cbn [post].
  - eapply aura_side_trans; [ apply aura_side_updAura | ].
    eapply aura_side_trans; [ apply aura_side_updUnit | apply aura_side_reschedule ].
  - apply aura_side_updAura.
Qed.

Lemma register_aura_side a (w : World) : post (register a w) (aura_side w).
Proof.
  unfold register, getAura. destruct (aurasH w !! a) as [A|]; [ cbn [bindR] | exact I ].
  destruct (forallb _ _); [ apply aura_side_refl | ].
  unfold getUnit. destruct (unitsH w !! Unit A) as [U|]; [ cbn [bindR post] | exact I ].
  eapply aura_side_trans; [ apply aura_side_updAura | apply aura_side_updUnit ].
Qed.

Lemma unregister_aura_side a (w : World) : post (unregister a w) (aura_side w).
Proof.
  unfold unregister, getAura. destruct (aurasH w !! a) as [A|]; [ cbn [bindR] | exact I ].
  destruct (forallb _ _); [ apply aura_side_refl | ].
  unfold getUnit. destruct (unitsH w !! Unit A) as [U|]; [ cbn [bindR post] | exact I ].
  destruct (negb _); [ exact I | ]. destruct (negb _); [ exact I | ].
  cbn [post]. apply aura_side_outside. reflexivity.
Qed.

Section Blind.
Variable J : World -> Prop.
Hypothesis J_blind : aura_blind J.
Variable call : Cmd -> World -> Res World.
Hypothesis J_call : forall c w, J w -> post (call c w) J.

Lemma runProg_blind p w : J w -> post (runProg call p w) (fun r => J r.2).
Proof.
  revert w. induction p as [v|c k IH]; intros w HJ; cbn [runProg]; [ exact HJ | ].
  apply post_bind. eapply post_mono; [ | apply J_call; exact HJ ].
  intros w' HJ'. apply IH. exact HJ'.
Qed.

Lemma Cancel_blind p w : J (cancel_writes p w) -> post (Cancel call p w) J.
Proof.
  intros HJ. unfold Cancel, getAction. unfold cancel_writes in HJ.
  destruct (actionsH w !! p) as [PA|]; [ cbn [bindR] | exact I ].
  destruct (CleanUp PA); cbn [post]; [ exact HJ | exact I | ].
  apply post_bind. eapply post_mono; [ | apply runProg_blind; exact HJ ].
  intros [v w'] H. exact H.
Qed.

Lemma runHook_blind cb args e w :
  aura_event e = true -> J w -> post (runHook call cb args e w) J.
Proof.
  intros He HJ. unfold runHook. destruct cb as [c|]; [ | exact HJ ].
  apply post_bind. eapply post_mono; [ | apply runProg_blind ].
  - intros [v w'] HJ'. exact HJ'.
  - eapply J_blind; [ apply aura_side_emit; exact He | exact HJ ].
Qed.

Lemma deactivateEffects_blind l w :
  J w -> post (deactivateEffects call l w) J.
Proof.
  revert w. induction l as [|ee l IH]; intros w HJ; cbn [deactivateEffects]; [ exact HJ | ].
  apply post_bind. eapply post_mono; [ | apply runProg_blind; exact HJ ].
  intros [v w'] HJ'. apply IH. exact HJ'.
Qed.

Lemma activateEffects_blind acq l w :
  J w -> post (activateEffects call acq l w) (fun r => J r.2).
Proof.
  revert acq w. induction l as [|ee l IH]; intros acq w HJ; cbn [activateEffects]; [ exact HJ | ].
  apply post_bind. eapply post_mono; [ | apply runProg_blind; exact HJ ].
  intros [v w'] HJ'. cbn in HJ'. destruct (v =? 0).
  - apply post_bind. eapply post_mono; [ | apply deactivateEffects_blind; exact HJ' ].
    intros w2 HJ2. exact HJ2.
  - apply IH. exact HJ'.
Qed.

Lemma post_getAura a w (Q : Aura -> Prop) :
  (forall A, aurasH w !! a = Some A -> Q A) -> post (getAura a w) Q.
Proof. intros H. unfold getAura. destruct (aurasH w !! a); [ apply H; reflexivity | exact I ]. Qed.

Lemma J_post_side {w} (r : Res World) :
  J w -> post r (aura_side w) -> post r J.
Proof. intros HJ. apply post_mono. intros w' Hs. eapply J_blind; eauto. Qed.

Lemma SetStacks_blind a n w : J w -> post (SetStacks call a n w) J.
Proof.
  intros HJ. unfold SetStacks. apply post_bind, post_getAura. intros A _.
  destruct (_ && _); [ exact I | ]. destruct (_ <? _); [ exact I | ].
  destruct (_ =? _); [ exact I | ]. cbv zeta. destruct (_ =? _); [ exact HJ | ].
  apply post_bind. eapply post_mono; [ | apply runHook_blind; [ reflexivity | ] ].
  2: { eapply J_blind; [ apply aura_side_updAura | exact HJ ]. }
  intros w2 HJ2. apply post_bind, post_getAura. intros A2 _.
  destruct (_ =? _); [ apply J_call; exact HJ2 | exact HJ2 ].
Qed.

Lemma Activate_blind a w : J w -> post (Activate call a w) J.
Proof.
  intros HJ. unfold Activate. apply post_bind, post_getAura. intros A _.
  assert (HJ1 : J (updAura a (set_Procs (Procs A + 1)) w))
    by (eapply J_blind; [ apply aura_side_updAura | exact HJ ]).
  destruct (active A); [ eapply J_post_side; [ exact HJ1 | apply Refresh_aura_side ] | ].
  destruct (_ =? _); [ exact I | ].
  apply post_bind. eapply post_mono; [ | apply activateEffects_blind; exact HJ1 ].
  intros [acq w1] HJ2. cbn in HJ2. destruct (negb acq); [ exact HJ2 | ].
  apply post_bind.
  eapply post_mono; [ | eapply J_post_side; [ | apply Refresh_aura_side ] ].
  2: { eapply J_blind; [ apply aura_side_updAura | exact HJ2 ]. }
  intros w3 HJ3. apply post_bind.
  eapply post_mono; [ | eapply J_post_side; [ exact HJ3 | apply register_aura_side ] ].
  intros w4 HJ4. apply post_bind, post_getAura. intros A4 _.
  apply runHook_blind; [ reflexivity | exact HJ4 ].
Qed.

Lemma Deactivate_blind a w : J w -> post (Deactivate call a w) J.
Proof.
  intros HJ. unfold Deactivate. destruct (aurasH w !! a) as [A|]; [ | exact HJ ].
  destruct (negb (active A)); [ exact HJ | ]. cbv zeta.
  apply post_bind.
  eapply post_mono; [ | eapply J_post_side; [ | apply unregister_aura_side ] ].
  2: { eapply J_blind; [ apply aura_side_updAura | exact HJ ]. }
  intros w2 HJ2. apply post_bind, post_getAura. intros A2 _.
  apply post_bind.
  eapply post_mono with (P := J).
  2: { destruct (_ =? _); [ exact HJ2 | apply J_call; exact HJ2 ]. }
  intros w3 HJ3. apply post_bind, post_getAura. intros A3 _.
  apply post_bind. eapply post_mono; [ | apply deactivateEffects_blind; exact HJ3 ].
  intros w4 HJ4. apply post_bind, post_getAura. intros A4 _.
  apply runHook_blind; [ reflexivity | exact HJ4 ].
Qed.

End Blind.


End AuraInvariants.

(** ** What callbacks cannot disturb *)

Section Frames.
Context {PF : Platform} {PG : Program}.

Lemma exec_preserves (J : World -> Prop) :
  exec_stable J -> forall fuel c w, J w -> post (exec fuel c w) J.
Proof.
  intros (Hb & Ho & Hc). induction fuel as [|n IH]; intros c w HJ; [ exact I | ].
  cbn [exec]. destruct c; try (apply Ho; [ reflexivity | exact HJ ]); cbn [step_cmd].
  - apply Activate_blind; auto. eapply Hb; [ apply aura_side_emit; reflexivity | exact HJ ].
  - apply Deactivate_blind; auto. eapply Hb; [ apply aura_side_emit; reflexivity | exact HJ ].
  - apply SetStacks_blind; auto. eapply Hb; [ apply aura_side_emit; reflexivity | exact HJ ].
  - eapply J_post_side; eauto. apply Refresh_aura_side.
  - apply post_bind, post_getAura. intros A _. cbn [post].
    eapply Hb; [ apply aura_side_updAura | exact HJ ].
  - apply Cancel_blind; auto.
Qed.

Lemma run_preserves (J : World -> Prop) :
  exec_stable J ->
  forall fuel p w, J w -> post (runProg (exec fuel) p w) (fun r => J r.2).
Proof.
  intros HJ fuel p w Hw. apply runProg_blind; auto.
  intros c w0. apply exec_preserves. exact HJ.
Qed.

Lemma aura_side_driver_side (w w' : World) : aura_side w w' -> driver_side w w'.
Proof.
  intros [H (evs & Hl & Hf)]. split.
  - unfold outside_driver.
    change (set_log [] (set_minTrackerTime 0 (outside_auras w')))
      with (set_log [] (set_minTrackerTime 0 (outside_auras w'))).
    apply (f_equal (fun x => set_pool [] (set_minTaskTime 0 (set_minWeaponAttackTime 0
             (set_nextExecuteDamage MaxFloat64 (set_nextExecuteDuration 0
               (set_executePhase 0 (set_CurrentTime 0 x)))))))) in H.
    exact H.
  - exists evs. split; [ exact Hl | ].
    rewrite forallb_forall in Hf |- *. intros e He. specialize (Hf e He).
    destruct e; try discriminate; reflexivity.
Qed.

Lemma driver_stable_exec_stable (J : World -> Prop) :
  driver_stable J -> exec_stable J.
Proof.
  intros (Hb & Ho). split; [ | exact Ho ].
  intros w w' Hs. apply Hb. apply aura_side_driver_side. exact Hs.
Qed.

Lemma driver_side_refl (w : World) : driver_side w w.
Proof. split; [ reflexivity | ]. exists []. rewrite app_nil_r. auto. Qed.

Lemma driver_side_trans (w1 w2 w3 : World) :
  driver_side w1 w2 -> driver_side w2 w3 -> driver_side w1 w3.
Proof.
  intros [H1 (e1 & L1 & F1)] [H2 (e2 & L2 & F2)]. split; [ congruence | ].
  exists (e1 ++ e2). rewrite L2, L1, app_assoc. split; [ reflexivity | ].
  rewrite forallb_app, F1, F2. reflexivity.
Qed.

(** A step that writes only fields on the driver's side and emits nothing. *)
Lemma driver_side_fields (w w' : World) :
  outside_driver w' = outside_driver w -> log w' = log w -> driver_side w w'.
Proof.
  intros H Hl. split; [ exact H | ]. exists []. rewrite app_nil_r. auto.
Qed.

Lemma driver_side_emit e (w : World) :
  driver_event e = true -> driver_side w (emit e w).
Proof. intros He. split; [ reflexivity | ]. exists [e]. cbn. rewrite He. auto. Qed.

Lemma nextExecutePhase_side (w : World) :
  post (nextExecutePhase w) (driver_side w).
Proof.
  unfold nextExecutePhase, setup. cbv zeta.
  repeat (destruct (_ =? _); [ cbn [post];
    try (destruct (f_gt _ _)); apply driver_side_fields; reflexivity | ]).
  exact I.
Qed.

Section Stable.
Variable J : World -> Prop.
Hypothesis HJ : driver_stable J.

Lemma J_side (w w' : World) : driver_side w w' -> J w -> J w'.
Proof. destruct HJ as [Hb _]. apply Hb. Qed.

Lemma J_fields (w w' : World) :
  J w -> outside_driver w' = outside_driver w -> log w' = log w -> J w'.
Proof. intros Hw H1 H2. eapply J_side; [ apply driver_side_fields; eauto | exact Hw ]. Qed.

Lemma J_post (w : World) (r : Res World) :
  J w -> post r (driver_side w) -> post r J.
Proof. intros Hw. apply post_mono. intros w' Hs. eapply J_side; eauto. Qed.

Lemma J_run fuel p w : J w -> post (runProg (exec fuel) p w) (fun r => J r.2).
Proof. apply run_preserves, driver_stable_exec_stable, HJ. Qed.

Lemma runPhaseCallbacks_preserves fuel i cbs w :
  J w -> post (runPhaseCallbacks fuel i cbs w) J.
Proof.
  revert i w. induction cbs as [|cb cbs IH]; intros i w Hw; cbn [runPhaseCallbacks]; [ exact Hw | ].
  apply post_bind. eapply post_mono; [ | apply J_run ].
  - intros [v w'] Hw'. apply IH. exact Hw'.
  - eapply J_side; [ apply driver_side_emit; reflexivity | exact Hw ].
Qed.

Lemma phaseLoop_preserves fuel n w : J w -> post (phaseLoop fuel n w) J.
Proof.
  revert w. induction n as [|n IH]; intros w Hw; cbn [phaseLoop];
    destruct (_ || _); try exact Hw; try exact I.
  apply post_bind. eapply post_mono; [ | eapply J_post; [ exact Hw | apply nextExecutePhase_side ] ].
  intros w1 Hw1. apply post_bind.
  eapply post_mono; [ | apply runPhaseCallbacks_preserves; exact Hw1 ].
  intros w2 Hw2. apply IH. exact Hw2.
Qed.

Lemma post_getUnit u w (Q : UnitT -> Prop) :
  (forall U, unitsH w !! u = Some U -> Q U) -> post (getUnit u w) Q.
Proof. intros H. unfold getUnit. destruct (unitsH w !! u); [ apply H; reflexivity | exact I ]. Qed.

Lemma scanActive_side u l (w : World) :
  post (scanActive u l w) (fun r => aura_side w r.2).
Proof.
  revert w. induction l as [|a l IH]; intros w; cbn [scanActive]; [ apply aura_side_refl | ].
  apply post_bind, post_getAura. intros A _.
  destruct (_ <=? _); [ apply aura_side_refl | ].
  eapply post_mono; [ | apply IH ].
  intros [r w'] Hs. eapply aura_side_trans; [ apply aura_side_updUnit | exact Hs ].
Qed.

Lemma at_advance_preserves fuel n u w :
  J w -> post (at_advance fuel n u w) (fun r => J r.2).
Proof.
  revert w. induction n as [|n IH]; intros w Hw; cbn [at_advance].
  - apply post_bind, post_getUnit. intros U _. apply post_bind.
    eapply post_mono; [ | apply scanActive_side ].
    intros [[a|] w1] Hs; [ exact I | ].
    apply post_bind, post_getUnit. intros U1 _. cbn.
    eapply J_side; [ apply aura_side_driver_side; exact Hs | ].
    eapply J_side; [ apply aura_side_driver_side, aura_side_updUnit | exact Hw ].
  - apply post_bind, post_getUnit. intros U _. apply post_bind.
    eapply post_mono; [ | apply scanActive_side ].
    intros [[a|] w1] Hs.
    + assert (Hw1 : J w1).
      { eapply J_side; [ apply aura_side_driver_side; exact Hs | ].
        eapply J_side; [ apply aura_side_driver_side, aura_side_updUnit | exact Hw ]. }
      apply post_bind. eapply post_mono; [ | apply exec_preserves;
        [ apply driver_stable_exec_stable, HJ | exact Hw1 ] ].
      intros w2 Hw2. apply IH. exact Hw2.
    + apply post_bind, post_getUnit. intros U1 _. cbn.
      eapply J_side; [ apply aura_side_driver_side; exact Hs | ].
      eapply J_side; [ apply aura_side_driver_side, aura_side_updUnit | exact Hw ].
Qed.

Lemma tryAdvance_preserves fuel u w :
  J w -> post (tryAdvance fuel u w) (fun r => J r.2).
Proof.
  intros Hw. unfold tryAdvance. apply post_bind, post_getUnit. intros U _.
  destruct (_ <? _); [ exact Hw | apply at_advance_preserves; exact Hw ].
Qed.

Lemma advanceTrackers_preserves fuel l w :
  J w -> post (advanceTrackers fuel l w) J.
Proof.
  revert w. induction l as [|t l IH]; intros w Hw; cbn [advanceTrackers]; [ exact Hw | ].
  apply post_bind. eapply post_mono; [ | apply tryAdvance_preserves; exact Hw ].
  intros [m w'] Hw'. apply IH.
  apply (J_fields _ _ Hw'); reflexivity.
Qed.

Lemma advance_preserves fuel t w : J w -> post (advance fuel t w) J.
Proof.
  intros Hw. unfold advance. apply post_bind.
  eapply post_mono; [ | apply phaseLoop_preserves ].
  2: { apply (J_fields _ _ Hw); reflexivity. }
  intros w1 Hw1. destruct (_ <=? _); [ | exact Hw1 ].
  apply advanceTrackers_preserves.
  apply (J_fields _ _ Hw1); reflexivity.
Qed.

Lemma swingAll_preserves fuel l w : J w -> post (swingAll fuel l w) J.
Proof.
  revert w. induction l as [|x l IH]; intros w Hw; cbn [swingAll]; [ exact Hw | ].
  apply post_bind. eapply post_mono; [ | apply J_run; exact Hw ].
  intros [t w'] Hw'. apply IH.
  apply (J_fields _ _ Hw'); reflexivity.
Qed.

Lemma runTasks_preserves fuel l w : J w -> post (runTasks fuel l w) J.
Proof.
  revert w. induction l as [|x l IH]; intros w Hw; cbn [runTasks]; [ exact Hw | ].
  apply post_bind. eapply post_mono; [ | apply J_run; exact Hw ].
  intros [t w'] Hw'. apply IH.
  apply (J_fields _ _ Hw'); reflexivity.
Qed.

Lemma advanceWeaponAttacks_preserves fuel w :
  J w -> post (advanceWeaponAttacks fuel w) J.
Proof.
  intros Hw. unfold advanceWeaponAttacks. apply post_bind.
  eapply post_mono with (P := J).
  2: { destruct (_ <? _); [ apply advance_preserves; exact Hw | exact Hw ]. }
  intros w1 Hw1. apply swingAll_preserves.
  apply (J_fields _ _ Hw1); reflexivity.
Qed.

Lemma advanceTasks_preserves fuel w : J w -> post (advanceTasks fuel w) J.
Proof.
  intros Hw. unfold advanceTasks. apply post_bind.
  eapply post_mono with (P := J).
  2: { destruct (_ <? _); [ apply advance_preserves; exact Hw | exact Hw ]. }
  intros w1 Hw1. apply runTasks_preserves.
  apply (J_fields _ _ Hw1); reflexivity.
Qed.

Lemma dispose_preserves p w : J w -> J (dispose p w).
Proof.
  intros Hw. unfold dispose. destruct (actionsH w !! p) as [PA|]; [ | exact Hw ].
  destruct (canPool PA); [ | exact Hw ].
  apply (J_fields _ _ Hw); reflexivity.
Qed.

End Stable.

Lemma same_action_refl PA : same_action PA PA.
Proof. repeat split; auto. Qed.

Lemma same_action_trans PA1 PA2 PA3 :
  same_action PA1 PA2 -> same_action PA2 PA3 -> same_action PA1 PA3.
Proof.
  intros (a1 & a2 & a3 & a4 & a5) (b1 & b2 & b3 & b4 & b5).
  repeat split; try congruence. auto.
Qed.

Lemma actions_grow_refl h : actions_grow h h.
Proof. intros p PA H. eauto using same_action_refl. Qed.

Lemma actions_grow_trans h1 h2 h3 :
  actions_grow h1 h2 -> actions_grow h2 h3 -> actions_grow h1 h3.
Proof.
  intros H1 H2 p PA Hp. destruct (H1 _ _ Hp) as (PA2 & Hp2 & S1).
  destruct (H2 _ _ Hp2) as (PA3 & Hp3 & S2). eauto using same_action_trans.
Qed.

Lemma actions_grow_alter h p F :
  (forall PA, same_action PA (F PA)) -> actions_grow h (alter F p h).
Proof.
  intros HF q PA Hq. destruct (decide (q = p)) as [->|Hne].
  - rewrite list_lookup_alter_eq, Hq. cbn. eauto.
  - rewrite list_lookup_alter_ne by congruence. eauto using same_action_refl.
Qed.

Lemma actions_grow_app h l : actions_grow h (h ++ l).
Proof.
  intros q PA Hq. exists PA. split; [ | apply same_action_refl ].
  apply lookup_app_l_Some. exact Hq.
Qed.

Lemma AddPendingAction_shape p (w w' : World) :
  AddPendingAction p w = Ok w' ->
  exists q, w' = set_pendingActions q (updAction p (set_consumed false) w).
Proof.
  unfold AddPendingAction, getAction. destruct (actionsH w !! p); [ cbn [bindR] | discriminate ].
  destruct (actionsH _ !! p); [ cbn [bindR] | discriminate ].
  destruct (pendingActions _) as [|s rest]; [ discriminate | ].
  destruct (insertAction _ _ _ _); cbn [bindR]; try discriminate.
  intros [= <-]. eauto.
Qed.

(** What a command outside the aura machine can change. *)
Lemma outer_cmd_shape call c (w w' : World) :
  outer_cmd c = true -> step_cmd call c w = Ok w' ->
  log w' = log w /\ actions_grow (actionsH w) (actionsH w')
  /\ aurasH w' = aurasH w /\ unitsH w' = unitsH w
  /\ CurrentTime w' = CurrentTime w /\ executePhase w' = executePhase w
  /\ nextExecuteDuration w' = nextExecuteDuration w
  /\ nextExecuteDamage w' = nextExecuteDamage w
  /\ executePhaseCallbacks w `prefix_of` executePhaseCallbacks w'.
Proof.
  intros Ho H. destruct c; try discriminate; cbn [step_cmd] in H.
  - apply AddPendingAction_shape in H. destruct H as (q & ->). cbn.
    repeat split; auto.
    eapply actions_grow_trans; [ apply actions_grow_app | ].
    apply actions_grow_alter. intros PA. repeat split; auto.
  - apply AddPendingAction_shape in H. destruct H as (q & ->). cbn.
    repeat split; auto.
    apply actions_grow_alter. intros PA. repeat split; auto.
  - injection H as <-. cbn. repeat split; auto using actions_grow_refl.
    apply prefix_app_r. reflexivity.
  - injection H as <-. cbn. repeat split; auto using actions_grow_refl.
  - injection H as <-. cbn. repeat split; auto using actions_grow_refl.
Qed.


(** What [Cancel] writes before the clean-up runs, field by field. *)
Lemma cancel_writes_shape p (w : World) :
  exists evs,
    cancel_writes p w
    = set_log (log w ++ evs)
        (updAction p (fun X => set_CleanUp FnNil (set_cancelled true X)) w)
    /\ (evs = []
        \/ evs = [EvCleanUp p] /\ has_cleanup (actionsH w) p = true).
Proof.
  unfold cancel_writes, has_cleanup. cbv zeta.
  destruct (actionsH w !! p) as [PA|].
  - destruct (CleanUp PA).
    + exists []. split; [ | left; reflexivity ]. rewrite app_nil_r. destruct w; reflexivity.
    + exists [EvCleanUp p]. split; [ reflexivity | right; auto ].
    + exists [EvCleanUp p]. split; [ reflexivity | right; auto ].
  - exists []. split; [ | left; reflexivity ]. rewrite app_nil_r. destruct w; reflexivity.
Qed.

(** With a clean-up that only observes, [Cancel] is its own writes. *)
Lemma Cancel_observer call p (w w' : World) :
  (forall cb args, observer (code cb args)) ->
  Cancel call p w = Ok w' -> w' = cancel_writes p w.
Proof.
  intros Hcode. unfold Cancel, getAction, cancel_writes. cbv zeta.
  destruct (actionsH w !! p) as [PA|]; [ cbn [bindR] | discriminate ].
  destruct (CleanUp PA) as [| |cb]; try discriminate.
  - intros [= <-]. reflexivity.
  - destruct (Hcode cb []) as [v ->]. cbn. intros [= <-]. reflexivity.
Qed.

Lemma cancel_writes_stores p (w : World) :
  aurasH (cancel_writes p w) = aurasH w /\ unitsH (cancel_writes p w) = unitsH w.
Proof. destruct (cancel_writes_shape p w) as (evs & -> & _). split; reflexivity. Qed.

Lemma cancel_writes_grow p (w : World) :
  actions_grow (actionsH w) (actionsH (cancel_writes p w)).
Proof.
  destruct (cancel_writes_shape p w) as (evs & -> & _). cbn.
  apply actions_grow_alter. intros PA. repeat split; auto.
Qed.

Lemma driver_side_actions (w w' : World) :
  driver_side w w' -> actionsH w' = actionsH w /\ pendingActions w' = pendingActions w.
Proof.
  intros [H _]. split.
  - change (actionsH w') with (actionsH (outside_driver w')). rewrite H. reflexivity.
  - change (pendingActions w') with (pendingActions (outside_driver w')). rewrite H. reflexivity.
Qed.

Lemma driver_stable_and (J1 J2 : World -> Prop) :
  driver_stable J1 -> driver_stable J2 -> driver_stable (fun w => J1 w /\ J2 w).
Proof.
  intros (B1 & O1 & C1) (B2 & O2 & C2). split; [ | split ].
  - intros w w' Hs [H1 H2]. split; eauto.
  - intros call c w Ho [H1 H2].
    specialize (O1 call c w Ho H1). specialize (O2 call c w Ho H2).
    destruct (step_cmd call c w); cbn in *; auto.
  - intros p w [H1 H2]. split; auto.
Qed.

Lemma filter_driver_events f evs :
  (forall e, driver_event e = true -> f e = false) ->
  forallb driver_event evs = true -> List.filter f evs = [].
Proof.
  intros Hf. induction evs as [|e evs IH]; cbn; [ reflexivity | ].
  intros H. apply andb_prop in H. destruct H as [He Hevs].
  rewrite (Hf _ He). auto.
Qed.

Lemma selected_stable f L :
  (forall e, driver_event e = true -> f e = false) ->
  (forall p, f (EvCleanUp p) = false) -> driver_stable (selected f L).
Proof.
  intros Hf Hc. split; [ | split ].
  - intros w w' [_ (evs & Hl & Hevs)] Hw. unfold selected in *.
    rewrite Hl, List.filter_app, Hw, (filter_driver_events f evs Hf Hevs), app_nil_r.
    reflexivity.
  - intros call c w Ho Hw.
    destruct (step_cmd call c w) as [w'| | |] eqn:E; cbn; auto.
    destruct (outer_cmd_shape _ _ _ _ Ho E) as (Hl & _). unfold selected in *. rewrite Hl. exact Hw.
  - intros p w Hw. destruct (cancel_writes_shape p w) as (evs & -> & [->|[-> _]]);
      unfold selected in *; cbn; rewrite List.filter_app, Hw; cbn;
      rewrite ?Hc; apply app_nil_r.
Qed.


Lemma Step_frame (J J' : World -> Prop) fuel (w : World) :
  driver_stable J -> driver_stable J' ->
  (forall p, last (pendingActions w) = Some p -> J (popped p w)) ->
  (forall p w2 PA, last (pendingActions w) = Some p -> J w2 ->
     actionsH w2 !! p = Some PA -> cancelled PA = false ->
     J' (emit (EvOnAction p) w2)) ->
  J w -> post (Step fuel w) (fun r => J r.2 \/ J' r.2).
Proof.
  intros HJ HJ' Hpop Hfire Hw. unfold Step.
  destruct (last (pendingActions w)) as [p|] eqn:Hlast; [ | exact I ].
  unfold getAction. destruct (actionsH w !! p) as [PA|] eqn:HPA; [ cbn [bindR] | exact I ].
  destruct (_ && _).
  { destruct (combatOver _ _); [ left; exact Hw | ].
    apply post_bind. eapply post_mono; [ | apply (advanceWeaponAttacks_preserves J HJ); exact Hw ].
    intros w' Hw'. left. exact Hw'. }
  destruct (_ <=? _).
  { destruct (combatOver _ _); [ left; exact Hw | ].
    apply post_bind. eapply post_mono; [ | apply (advanceTasks_preserves J HJ); exact Hw ].
    intros w' Hw'. left. exact Hw'. }
  fold (popped p w). specialize (Hpop p eq_refl).
  destruct (cancelled PA); [ left; apply (dispose_preserves J HJ); auto | ].
  destruct (combatOver _ _); [ left; apply (dispose_preserves J HJ); auto | ].
  apply post_bind. eapply post_mono with (P := J).
  2: { destruct (_ <? _); [ apply (advance_preserves J HJ); auto | exact Hpop ]. }
  intros w2 Hw2. unfold getAction.
  destruct (actionsH w2 !! p) as [PA2|] eqn:HPA2; [ cbn [bindR] | exact I ].
  destruct (cancelled PA2) eqn:Hc; [ left; apply (dispose_preserves J HJ); auto | ].
  apply post_bind. unfold runAction.
  destruct (OnAction PA2); try exact I.
  apply post_bind. eapply post_mono; [ | apply (J_run J' HJ') ].
  2: { eapply Hfire; eauto. }
  intros [v w3] Hw3. cbn. right. apply (dispose_preserves J' HJ'); auto.
Qed.

Lemma due_before_total Q P : due_before Q P = false -> due_before P Q = true.
Proof.
  unfold due_before. intros H.
  apply orb_false_iff in H. destruct H as [H1 H2].
  apply Z.ltb_ge in H1. apply andb_false_iff in H2.
  apply orb_true_iff.
  destruct (Z.eq_dec (NextActionAt P) (NextActionAt Q)) as [e|ne].
  - right. apply andb_true_iff. split; [ apply Z.eqb_eq; auto | ].
    destruct H2 as [H2|H2]; [ apply Z.eqb_neq in H2; congruence | ].
    apply Z.leb_gt in H2. apply Z.leb_le. lia.
  - left. apply Z.ltb_lt. lia.
Qed.

Lemma due_before_trans A B C :
  due_before A B = true -> due_before B C = true -> due_before A C = true.
Proof.
  unfold due_before. intros H1 H2.
  apply orb_true_iff in H1. apply orb_true_iff in H2. apply orb_true_iff.
  rewrite !andb_true_iff, !Z.ltb_lt, !Z.eqb_eq, !Z.leb_le in *. lia.
Qed.

Lemma due_before_refl A : due_before A A = true.
Proof.
  unfold due_before. apply orb_true_iff. right.
  apply andb_true_iff. split; [ apply Z.eqb_refl | apply Z.leb_refl ].
Qed.

Lemma due_before_same (Q Q' P P' : PendingAction) :
  same_action Q Q' -> same_action P P' -> due_before Q' P' = due_before Q P.
Proof.
  intros (a1 & a2 & _) (b1 & b2 & _). unfold due_before. rewrite a1, a2, b1, b2. reflexivity.
Qed.

Lemma fires_first_grow h h' q p :
  actions_grow h h' -> fires_first h q p -> fires_first h' q p.
Proof.
  intros Hg (Q & P & HQ & HP & Hd).
  destruct (Hg _ _ HQ) as (Q' & HQ' & SQ). destruct (Hg _ _ HP) as (P' & HP' & SP).
  exists Q', P'. repeat split; auto. rewrite (due_before_same Q Q' P P'); auto.
Qed.

Lemma fires_first_trans h a b c :
  fires_first h a b -> fires_first h b c -> fires_first h a c.
Proof.
  intros (A & B & HA & HB & H1) (B' & C & HB' & HC & H2).
  rewrite HB in HB'. injection HB' as <-.
  exists A, C. repeat split; auto. eapply due_before_trans; eauto.
Qed.

Lemma insertAction_spec h PA p rest r :
  h !! p = Some PA ->
  StronglySorted (fun x y => fires_first h y x) rest ->
  insertAction h PA p rest = Ok r ->
  exists l1 l2, rest = l1 ++ l2 /\ r = l1 ++ p :: l2
    /\ Forall (fun q => fires_first h p q /\ ~ fires_first h q p) l1
    /\ Forall (fun q => fires_first h q p) l2.
Proof.
  intros Hp. revert r. induction rest as [|v rest IH]; intros r Hs H.
  - injection H as <-. exists [], []. repeat split; constructor.
  - cbn [insertAction] in H. destruct (h !! v) as [V|] eqn:HV; [ | discriminate ].
    apply StronglySorted_cons in Hs. destruct Hs as [Hv Hs].
    fold (due_before V PA) in H. destruct (due_before V PA) eqn:Hd.
    + injection H as <-. exists [], (v :: rest). repeat split; [ constructor | ].
      assert (Hvp : fires_first h v p) by (exists V, PA; auto).
      constructor; [ exact Hvp | ].
      eapply Forall_impl; [ exact Hv | ]. intros y Hy. cbn in Hy.
      eapply fires_first_trans; eauto.
    + destruct (insertAction h PA p rest) as [r'| | |] eqn:E; try discriminate.
      injection H as <-.
      destruct (IH r' Hs eq_refl) as (l1 & l2 & -> & -> & H1 & H2).
      exists (v :: l1), l2. repeat split; auto.
      constructor; [ | exact H1 ]. split.
      * exists PA, V. repeat split; auto. apply due_before_total. exact Hd.
      * intros (V' & PA' & HV' & HP' & Hd'). congruence.
Qed.

Lemma insertAction_sorted h p l1 l2 :
  StronglySorted (fun x y => fires_first h y x) (l1 ++ l2) ->
  Forall (fun q => fires_first h p q /\ ~ fires_first h q p) l1 ->
  Forall (fun q => fires_first h q p) l2 ->
  StronglySorted (fun x y => fires_first h y x) (l1 ++ p :: l2).
Proof.
  intros Hs H1 H2. apply StronglySorted_app in Hs. destruct Hs as (Hc & S1 & S2).
  apply StronglySorted_app_2; auto.
  - intros x y Hx Hy. apply elem_of_cons in Hy. destruct Hy as [->|Hy]; [ | auto ].
    rewrite Forall_forall in H1. apply H1. exact Hx.
  - constructor; auto.
Qed.

Lemma sortedQ_grow (w w' : World) :
  actions_grow (actionsH w) (actionsH w') -> pendingActions w' = pendingActions w ->
  sortedQ w -> sortedQ w'.
Proof.
  intros Hg Hq [Hs Hv]. unfold sortedQ. rewrite Hq. split.
  - clear Hv. induction Hs as [|x l Hs IH Hx]; constructor; auto.
    eapply Forall_impl; [ exact Hx | ]. intros y. apply fires_first_grow. exact Hg.
  - eapply Forall_impl; [ exact Hv | ]. intros q [Q HQ].
    destruct (Hg _ _ HQ) as (Q' & HQ' & _). eauto.
Qed.

Lemma AddPendingAction_sorted p (w w' : World) :
  sortedQ w -> AddPendingAction p w = Ok w' ->
  sortedQ w'
  /\ exists s l1 l2,
       pendingActions w = s :: l1 ++ l2
       /\ pendingActions w' = s :: l1 ++ p :: l2
       /\ Forall (fun q => fires_first (actionsH w') p q
                           /\ ~ fires_first (actionsH w') q p) l1
       /\ Forall (fun q => fires_first (actionsH w') q p) l2.
Proof.
  intros HS H. unfold AddPendingAction, getAction in H.
  destruct (actionsH w !! p) as [PA0|] eqn:HPA0; [ cbn [bindR] in H | discriminate ].
  set (w1 := updAction p (set_consumed false) w) in *.
  assert (Hg : actions_grow (actionsH w) (actionsH w1)).
  { apply actions_grow_alter. intros PA. repeat split; auto. }
  assert (HS1 : sortedQ w1) by (eapply sortedQ_grow; eauto).
  destruct (actionsH w1 !! p) as [PA|] eqn:HPA; [ cbn [bindR] in H | discriminate ].
  change (pendingActions w1) with (pendingActions w) in H.
  destruct (pendingActions w) as [|s rest] eqn:Hq; [ discriminate | ].
  destruct HS1 as [Hs Hv]. change (pendingActions w1) with (pendingActions w) in Hs, Hv.
  rewrite Hq in Hs, Hv. cbn [tail] in Hs, Hv.
  destruct (insertAction (actionsH w1) PA p rest) as [r| | |] eqn:E; try discriminate.
  injection H as <-.
  destruct (insertAction_spec _ _ _ _ _ HPA Hs E) as (l1 & l2 & -> & -> & H1 & H2).
  split.
  - split; cbn.
    + apply insertAction_sorted; auto.
    + apply Forall_app in Hv. destruct Hv as [V1 V2].
      apply Forall_app. split; [ exact V1 | ]. constructor; [ eauto | exact V2 ].
  - exists s, l1, l2. repeat split; auto.
Qed.

Lemma sortedQ_stable : driver_stable sortedQ.
Proof.
  split; [ | split ].
  - intros w w' Hs HS. destruct (driver_side_actions _ _ Hs) as [e1 e2].
    eapply sortedQ_grow; eauto. rewrite e1. apply actions_grow_refl.
  - intros call c w Ho HS.
    destruct (step_cmd call c w) as [w'| | |] eqn:E; cbn; auto.
    destruct c; try discriminate; cbn [step_cmd] in E.
    + apply AddPendingAction_sorted in E; [ tauto | ].
      eapply sortedQ_grow; [ | | exact HS ]; [ apply actions_grow_app | reflexivity ].
    + apply AddPendingAction_sorted in E; tauto.
    + injection E as <-. exact HS.
    + injection E as <-. exact HS.
    + injection E as <-. exact HS.
  - intros p w HS. eapply sortedQ_grow; [ apply cancel_writes_grow | | exact HS ].
    destruct (cancel_writes_shape p w) as (evs & -> & _). reflexivity.
Qed.

Lemma tail_take_pred (l : list nat) :
  tail (take (length l - 1)%nat l) = take (length (tail l) - 1)%nat (tail l).
Proof.
  destruct l as [|s rest]; [ reflexivity | ]. cbn [length tail].
  destruct rest as [|x rest]; [ reflexivity | ].
  cbn [length]. replace (S (S (length rest)) - 1)%nat with (S (S (length rest) - 1)) by lia.
  reflexivity.
Qed.

Lemma popped_sorted p (w : World) : sortedQ w -> sortedQ (popped p w).
Proof.
  intros HS.
  assert (H1 : sortedQ (set_pendingActions
             (take (length (pendingActions w) - 1)%nat (pendingActions w)) w)).
  { destruct HS as [Hs Hv]. split; cbn; rewrite tail_take_pred.
    - rewrite <- (take_drop (length (tail (pendingActions w)) - 1) (tail (pendingActions w))) in Hs.
      apply StronglySorted_app_1_l in Hs. exact Hs.
    - apply Forall_take. exact Hv. }
  eapply sortedQ_grow; [ | | exact H1 ]; [ | reflexivity ].
  apply actions_grow_alter. intros PA. repeat split; auto.
Qed.

Lemma last_fires_first (w : World) p s rest :
  sortedQ w -> pendingActions w = s :: rest -> last (pendingActions w) = Some p ->
  Forall (fun q => fires_first (actionsH w) p q) rest.
Proof.
  intros [Hs Hv] Hq Hl. rewrite Hq in Hs, Hv, Hl. cbn [tail] in Hs, Hv.
  destruct rest as [|x rest']; [ constructor | ].
  rewrite last_cons_cons in Hl. apply last_Some in Hl. destruct Hl as (l' & Hl).
  rewrite Hl in Hs, Hv |- *.
  apply StronglySorted_app in Hs. destruct Hs as (Hc & _ & _).
  apply Forall_app in Hv. destruct Hv as [_ Hp]. inversion Hp as [|? ? [P HP] _]; subst.
  apply Forall_app. split.
  - rewrite Forall_forall. intros q Hq'. apply Hc; [ exact Hq' | apply list_elem_of_here ].
  - constructor; [ | constructor ]. exists P, P. repeat split; auto. apply due_before_refl.
Qed.

Lemma Step_order fuel (w : World) :
  sortedQ w ->
  post (Step fuel w) (fun r =>
    sortedQ r.2
    /\ (List.filter isAnyOnAction (log r.2) = List.filter isAnyOnAction (log w)
        \/ exists p,
             List.filter isAnyOnAction (log r.2)
             = List.filter isAnyOnAction (log w) ++ [EvOnAction p]
             /\ last (pendingActions w) = Some p
             /\ forall s rest, pendingActions w = s :: rest ->
                  Forall (fun q => fires_first (actionsH w) p q) rest)).
Proof.
  intros HS.
  set (L := List.filter isAnyOnAction (log w)).
  set (J := fun w0 : World => sortedQ w0 /\ selected isAnyOnAction L w0).
  set (J' := fun w0 : World => sortedQ w0 /\
                exists p, selected isAnyOnAction (L ++ [EvOnAction p]) w0
                          /\ last (pendingActions w) = Some p).
  assert (Hsel : forall L0, driver_stable (selected isAnyOnAction L0)).
  { intros L0. apply selected_stable; [ | reflexivity ].
    intros e He. destruct e; try discriminate; reflexivity. }
  assert (HJ : driver_stable J) by (apply driver_stable_and; [ apply sortedQ_stable | apply Hsel ]).
  assert (HJ' : driver_stable J').
  { split; [ | split ].
    - intros w1 w2 Hs [H1 (p & H2 & H3)]. split; [ eapply sortedQ_stable; eauto | ].
      exists p. split; [ | exact H3 ]. eapply (proj1 (Hsel _)); eauto.
    - intros call c w1 Ho [H1 (p & H2 & H3)].
      pose proof (proj1 (proj2 sortedQ_stable) call c w1 Ho H1) as P1.
      pose proof (proj1 (proj2 (Hsel _)) call c w1 Ho H2) as P2.
      destruct (step_cmd call c w1) as [w2| | |]; cbn in *; auto.
      split; [ exact P1 | exists p; auto ].
    - intros q w1 [H1 (p & H2 & H3)].
      split; [ apply (proj2 (proj2 sortedQ_stable)); exact H1 | ].
      exists p. split; [ apply (proj2 (proj2 (Hsel _))); exact H2 | exact H3 ]. }
  eapply post_mono; [ | apply (Step_frame J J' fuel w HJ HJ') ].
  - intros r [[H1 H2]|[H1 (p & H2 & H3)]]; (split; [ exact H1 | ]).
    + left. exact H2.
    + right. exists p. repeat split; auto.
      intros s rest Hq. eapply last_fires_first; eauto.
  - intros p _. split; [ apply popped_sorted; exact HS | reflexivity ].
  - intros p w2 PA Hl [H1 H2] _ _. split.
    + eapply sortedQ_grow; [ | | exact H1 ]; [ apply actions_grow_refl | reflexivity ].
    + exists p. split; [ | exact Hl ]. unfold selected in *. cbn.
      rewrite List.filter_app, H2. reflexivity.
  - split; [ exact HS | reflexivity ].
Qed.

(** *** Cancelled actions *)
















End Frames.

(** ** The order of execution *)

Section QueueOrder.
Context {PF : Platform} {PG : Program}.

(** C1 (amended): the queue is kept ordered.  [AddPendingAction] puts the
    new action behind every queued action that is due earlier, or is due at
    the same time with a higher or the same priority (so ties keep their
    order of insertion), and in front of all others.  A [Step] that fires an
    action fires the last one of the slice, and that one is due no later
    than every action queued at that moment and, among those due at the same
    time, has the highest priority; the queue stays ordered through the
    step, whatever the callbacks do. *)
Theorem queue_order (w : World) :
  sortedQ w ->
  (forall p w', AddPendingAction p w = Ok w' ->
     sortedQ w'
     /\ exists s l1 l2,
          pendingActions w = s :: l1 ++ l2
          /\ pendingActions w' = s :: l1 ++ p :: l2
          /\ Forall (fun q => fires_first (actionsH w') p q
                              /\ ~ fires_first (actionsH w') q p) l1
          /\ Forall (fun q => fires_first (actionsH w') q p) l2)
  /\ (forall fuel finished w', Step fuel w = Ok (finished, w') ->
        sortedQ w'
        /\ (List.filter isAnyOnAction (log w')
            = List.filter isAnyOnAction (log w)
            \/ exists p,
                 List.filter isAnyOnAction (log w')
                 = List.filter isAnyOnAction (log w) ++ [EvOnAction p]
                 /\ last (pendingActions w) = Some p
                 /\ forall s rest, pendingActions w = s :: rest ->
                      Forall (fun q => fires_first (actionsH w) p q) rest)).
Proof.
  intros HS. split.
  - intros p w' H. apply AddPendingAction_sorted; auto.
  - intros fuel finished w' H. pose proof (Step_order fuel w HS) as HP.
    rewrite H in HP. exact HP.
Qed.


End QueueOrder.

(** C1, as stated, fails: the action at address 1 (due at 10s, priority 1)
    schedules, when it runs, an action due at the same time with priority 5;
    the action of higher priority runs after the one of lower priority. *)
Lemma later_action_runs_after_lower_priority :
  exists w1 w2,
    AddPendingAction 1%nat (fresh [] [low_priority_action]) = Ok w1
    /\ runPendingActions (PG := Busy) 5 10 w1 = Ok w2
    /\ List.filter isAnyOnAction (log w2) = [EvOnAction 1%nat; EvOnAction 2%nat]
    /\ NextActionAt <$> actionsH w2 !! 1%nat = Some (10 * Second)
    /\ NextActionAt <$> actionsH w2 !! 2%nat = Some (10 * Second)
    /\ Priority <$> actionsH w2 !! 1%nat = Some 1
    /\ Priority <$> actionsH w2 !! 2%nat = Some 5.
Proof.
  eexists; eexists.
  split; [ vm_compute; reflexivity | ].
  split; [ vm_compute; reflexivity | ].
  repeat split; reflexivity.
Qed.

(** [queue_order] at a concrete queue.  Four actions are inserted in the
    order of their addresses: the one due at 5s, then three due at 3s, of
    priority 0, 2 and 2.  The slice ends with the first of the two urgent
    ones, which [Step] fires: it is due before the action at 5s, has a
    higher priority than the other action at 3s, and was inserted before
    its equal. *)
Lemma queue_order_witness :
  exists w1 w2 w3 w4 w5,
    AddPendingAction 1%nat four_actions = Ok w1
    /\ AddPendingAction 2%nat w1 = Ok w2
    /\ AddPendingAction 3%nat w2 = Ok w3
    /\ AddPendingAction 4%nat w3 = Ok w4
    /\ pendingActions w4 = [sentinel; 1%nat; 2%nat; 4%nat; 3%nat]
    /\ sortedQ w4
    /\ Step (PG := Quiet) 5 w4 = Ok (false, w5)
    /\ sortedQ w5
    /\ (exists p,
          List.filter isAnyOnAction (log w5)
          = List.filter isAnyOnAction (log w4) ++ [EvOnAction p]
          /\ last (pendingActions w4) = Some p
          /\ Forall (fun q => fires_first (actionsH w4) p q)
               [1%nat; 2%nat; 4%nat; 3%nat])
    /\ log w5 = [EvOnAction 3%nat]
    /\ pendingActions w5 = [sentinel; 1%nat; 2%nat; 4%nat].
Proof.
  assert (H0 : sortedQ four_actions) by (split; constructor).
  eexists; eexists; eexists; eexists; eexists.
  split; [ vm_compute; reflexivity | ].
  match goal with |- AddPendingAction _ ?w = _ /\ _ => pose (W1 := w) end.
  assert (S1 : sortedQ W1).
  { apply (proj1 (queue_order (PG := Quiet) four_actions H0) 1%nat W1).
    vm_compute. reflexivity. }
  split; [ vm_compute; reflexivity | ].
  match goal with |- AddPendingAction _ ?w = _ /\ _ => pose (W2 := w) end.
  assert (S2 : sortedQ W2).
  { apply (proj1 (queue_order (PG := Quiet) W1 S1) 2%nat W2).
    vm_compute. reflexivity. }
  split; [ vm_compute; reflexivity | ].
  match goal with |- AddPendingAction _ ?w = _ /\ _ => pose (W3 := w) end.
  assert (S3 : sortedQ W3).
  { apply (proj1 (queue_order (PG := Quiet) W2 S2) 3%nat W3).
    vm_compute. reflexivity. }
  split; [ vm_compute; reflexivity | ].
  match goal with |- pendingActions ?w = _ /\ _ => pose (W4 := w) end.
  assert (S4 : sortedQ W4).
  { apply (proj1 (queue_order (PG := Quiet) W3 S3) 4%nat W4).
    vm_compute. reflexivity. }
  split; [ reflexivity | ].
  split; [ exact S4 | ].
  split; [ vm_compute; reflexivity | ].
  match goal with |- sortedQ ?w /\ _ => pose (W5 := w) end.
  destruct (proj2 (queue_order (PG := Quiet) W4 S4) 5%nat false W5) as [S5 Hf];
    [ vm_compute; reflexivity | ].
  split; [ exact S5 | ].
  split.
  { destruct Hf as [Hf|(p & Hl & Hp & Hall)]; [ discriminate Hf | ].
    exists p. split; [ exact Hl | ]. split; [ exact Hp | ].
    apply (Hall sentinel). reflexivity. }
  split; reflexivity.
Defined.



(** [reactivate_refreshes] on the scenario of the specification: a
    five-second aura activated at 0s and activated again at 3s expires at
    8s, and its gain hook has run once. *)
Lemma reactivate_scenario :
  exists w1,
    exec (PG := Quiet) 3 (CActivate 0%nat) (fresh [buff] []) = Ok w1
    /\ exists w2,
         advance (PG := Quiet) 3 (3 * Second) w1 = Ok w2
         /\ exists w3,
              exec (PG := Quiet) 3 (CActivate 0%nat) w2 = Ok w3
              /\ ExpiresAt <$> aurasH w3 !! 0%nat = Some (8 * Second)
              /\ log w3 = [EvActivate 0%nat; EvOnGain 0%nat; EvActivate 0%nat].
Proof.
  eexists. split; [ vm_compute; reflexivity | ].
  eexists. split; [ vm_compute; reflexivity | ].
  match goal with |- exists w3, exec _ _ ?w = _ /\ _ => pose (W := w) end.
  pose (A0 := match aurasH W !! 0%nat with Some A => A | None => buff end).
  destruct (reactivate_refreshes (PG := Quiet) 2%nat 0%nat A0 W)
    as (w3 & He & Ha & _ & _ & Hl);
    [ vm_compute; reflexivity | reflexivity | right; vm_compute; eauto | ].
  exists w3. split; [ exact He | ]. split.
  - rewrite Ha. reflexivity.
  - rewrite Hl. reflexivity.
Defined.

(** C6, as stated, fails: an aura that never expires, activated again at
    3s, has its expiration set to [NeverExpires], which is not the current
    time plus its duration, neither in int64 nor in the integers. *)
Lemma permanent_aura_reactivated :
  exists w1,
    exec (PG := Quiet) 3 (CActivate 0%nat) (fresh [stance] []) = Ok w1
    /\ exists w2,
         advance (PG := Quiet) 3 (3 * Second) w1 = Ok w2
         /\ exists w3,
              exec (PG := Quiet) 3 (CActivate 0%nat) w2 = Ok w3
              /\ IsActive (aurasH w2 !! 0%nat) = true
              /\ Duration <$> aurasH w2 !! 0%nat = Some NeverExpires
              /\ CurrentTime w2 = 3 * Second
              /\ ExpiresAt <$> aurasH w3 !! 0%nat = Some NeverExpires
              /\ NeverExpires <> add64 (3 * Second) NeverExpires
              /\ NeverExpires <> 3 * Second + NeverExpires.
Proof.
  eexists. split; [ vm_compute; reflexivity | ].
  eexists. split; [ vm_compute; reflexivity | ].
  eexists. split; [ vm_compute; reflexivity | ].
  repeat split; try reflexivity; vm_compute; discriminate.
Qed.

(** ** Stack counts *)

Section Stacks.
Context {PF : Platform} {PG : Program}.

(** Loops over callbacks keep whatever the calls and the trace keep. *)
Section Loops.
Variable J : World -> Prop.
Variable call : Cmd -> World -> Res World.
Hypothesis J_emit : forall e w, J w -> J (emit e w).
Hypothesis J_call : forall c w, J w -> post (call c w) J.

Lemma runProg_keeps p w : J w -> post (runProg call p w) (fun r => J r.2).
Proof.
  revert w. induction p as [v|c k IH]; intros w HJ; cbn [runProg]; [ exact HJ | ].
  apply post_bind. eapply post_mono; [ | apply J_call; exact HJ ].
  intros w' HJ'. apply IH. exact HJ'.
Qed.

Lemma runHook_keeps cb args e w : J w -> post (runHook call cb args e w) J.
Proof.
  intros HJ. unfold runHook. destruct cb as [c|]; [ | exact HJ ].
  apply post_bind. eapply post_mono; [ | apply runProg_keeps; apply J_emit; exact HJ ].
  intros [v w'] HJ'. exact HJ'.
Qed.

Lemma deactivateEffects_keeps l w : J w -> post (deactivateEffects call l w) J.
Proof.
  revert w. induction l as [|ee l IH]; intros w HJ; cbn [deactivateEffects]; [ exact HJ | ].
  apply post_bind. eapply post_mono; [ | apply runProg_keeps; exact HJ ].
  intros [v w'] HJ'. apply IH. exact HJ'.
Qed.

Lemma activateEffects_keeps acq l w :
  J w -> post (activateEffects call acq l w) (fun r => J r.2).
Proof.
  revert acq w. induction l as [|ee l IH]; intros acq w HJ; cbn [activateEffects]; [ exact HJ | ].
  apply post_bind. eapply post_mono; [ | apply runProg_keeps; exact HJ ].
  intros [v w'] HJ'. cbn in HJ'. destruct (v =? 0).
  - apply post_bind. eapply post_mono; [ | apply deactivateEffects_keeps; exact HJ' ].
    intros w2 HJ2. exact HJ2.
  - apply IH. exact HJ'.
Qed.
End Loops.

Lemma StacksInv_iff (w : World) :
  StacksInv w <-> forall b B, aurasH w !! b = Some B -> aura_inv B.
Proof. unfold StacksInv. apply Forall_lookup. Qed.

Lemma StacksInv_emit e (w : World) : StacksInv w -> StacksInv (emit e w).
Proof. apply StacksInv_outside. reflexivity. Qed.

Lemma StacksInv_keeps a F (w : World) :
  (forall B, aura_inv B -> aura_inv (F B)) -> StacksInv w -> StacksInv (updAura a F w).
Proof. intros HF. apply StacksInv_updAura. intros B _. apply HF. Qed.

Lemma Refresh_stacks a (w : World) : StacksInv w -> post (Refresh a w) StacksInv.
Proof.
  intros HS. unfold Refresh. apply post_bind, post_getAura. intros A _.
  assert (He : forall e, StacksInv (updAura a (set_expires e) w)).
  { intros e. apply StacksInv_keeps; [ | exact HS ]. intros B HB. exact HB. }
  destruct (_ =? _); [ apply He | ]. cbv zeta.
  apply post_bind, post_getUnit. intros U _.
  destruct (_ <? _); cbn [post]; [ | apply He ].
  eapply StacksInv_outside; [ | apply He ]. reflexivity.
Qed.

Lemma register_stacks a (w : World) : StacksInv w -> post (register a w) StacksInv.
Proof.
  intros HS. unfold register. apply post_bind, post_getAura. intros A _.
  destruct (forallb _ _); [ exact HS | ].
  apply post_bind, post_getUnit. intros U _. cbn [post].
  eapply StacksInv_outside; [ | apply StacksInv_keeps; [ | exact HS ] ]; [ reflexivity | ].
  intros B HB. exact HB.
Qed.

Lemma StacksInvX_keeps a b F (w : World) :
  (forall B, stacks (F B) = stacks B /\ MaxStacks (F B) = MaxStacks B
             /\ active (F B) = active B) ->
  StacksInvX a w -> StacksInvX a (updAura b F w).
Proof.
  intros HF HS c C' Hc. destruct (lookup_updAura _ _ _ _ _ Hc) as (C & HC & ->).
  destruct (HS _ _ HC) as [H1 H2].
  destruct (decide (c = b)); [ | auto ].
  destruct (HF C) as (-> & -> & ->). auto.
Qed.

Lemma unregister_stacks a (w : World) :
  StacksInvX a w -> inactive a w ->
  post (unregister a w) (fun w' => StacksInvX a w' /\ inactive a w').
Proof.
  intros HS Hi. unfold unregister. apply post_bind, post_getAura. intros A HA.
  destruct (forallb _ _); [ split; assumption | ].
  apply post_bind, post_getUnit. intros U _.
  destruct (negb _); [ exact I | ]. destruct (negb _); [ exact I | ]. cbn [post].
  assert (Hl : forall b B', aurasH (updUnit (Unit A) (set_arrays
              (fun s => if index A s =? Inactive then arrays U s
                        else removeBySwappingToBack (arrays U s) (Z.to_nat (index A s))))
              (set_aurasH (imap (fun b B => set_index (fun s =>
                 if bool_decide (b = a) then Inactive
                 else if bool_decide (moved A U s = Some b) then index A s
                 else index B s) B) (aurasH w)) w)) !! b = Some B' ->
            exists B f, aurasH w !! b = Some B /\ B' = set_index f B).
  { intros b B' Hb. cbn in Hb. rewrite list_lookup_imap in Hb.
    destruct (aurasH w !! b) as [B|]; [ | discriminate ].
    injection Hb as <-. eauto. }
  split.
  - intros b B' Hb. destruct (Hl _ _ Hb) as (B & f & HB & ->). exact (HS _ _ HB).
  - intros A' Ha'. destruct (Hl _ _ Ha') as (B & f & HB & ->). exact (Hi _ HB).
Qed.

Section Bodies.
Variable call : Cmd -> World -> Res World.
Hypothesis Hcall : stacks_safe call.

Lemma SetStacks_stacks a n w :
  StacksInv w -> post (SetStacks call a n w) StacksInv.
Proof.
  intros HS. unfold SetStacks. apply post_bind, post_getAura. intros A HA.
  destruct (negb (active A) && negb (n =? 0)) eqn:E1; [ exact I | ].
  destruct (n <? 0) eqn:E2; [ exact I | ].
  destruct (MaxStacks A =? 0) eqn:E3; [ exact I | ]. cbv zeta.
  destruct (stacks A =? Z.min n (MaxStacks A)); [ exact HS | ].
  apply Z.ltb_ge in E2. apply Z.eqb_neq in E3.
  pose proof (StacksInv_lookup _ _ _ HS HA) as [Hz Hr].
  apply post_bind. eapply post_mono; [ | apply (runHook_keeps StacksInv call StacksInv_emit (ss_inv _ Hcall)) ].
  2: { apply StacksInv_updAura; [ | exact HS ]. intros B HB _.
       rewrite HA in HB. injection HB as <-. split; cbn.
       - intros Hact. rewrite Hact in E1. cbn in E1.
         apply negb_false_iff, Z.eqb_eq in E1. subst n. apply Z.min_l. lia.
       - lia. }
  intros w2 HS2. apply post_bind, post_getAura. intros A2 _.
  destruct (stacks A2 =? 0); [ apply (ss_inv _ Hcall); exact HS2 | exact HS2 ].
Qed.

Lemma SetStacks_zero a w :
  StacksInvX a w -> inactive a w -> post (SetStacks call a 0 w) StacksInv.
Proof.
  intros HS Hi. unfold SetStacks. apply post_bind, post_getAura. intros A HA.
  destruct (negb (active A) && negb (0 =? 0)); [ exact I | ]. destruct (0 <? 0); [ exact I | ].
  destruct (MaxStacks A =? 0) eqn:E3; [ exact I | ]. cbv zeta.
  destruct (HS _ _ HA) as [Hr _].
  rewrite Z.min_l by lia.
  destruct (stacks A =? 0) eqn:E4.
  - apply Z.eqb_eq in E4. apply StacksInv_iff. intros b B HB.
    destruct (HS _ _ HB) as [H1 H2]. split; [ | exact H1 ].
    destruct (decide (b = a)) as [->|Hne]; [ | auto ].
    rewrite HA in HB. injection HB as <-. auto.
  - apply post_bind. eapply post_mono; [ | apply (runHook_keeps StacksInv call StacksInv_emit (ss_inv _ Hcall)) ].
    2: { apply StacksInv_iff. intros b B' Hb.
         destruct (lookup_updAura _ _ _ _ _ Hb) as (B & HB & ->).
         destruct (HS _ _ HB) as [H1 H2].
         destruct (decide (b = a)) as [->|Hne]; [ | split; auto ].
         split; cbn; [ reflexivity | lia ]. }
    intros w2 HS2. apply post_bind, post_getAura. intros A2 _.
    destruct (stacks A2 =? 0); [ apply (ss_inv _ Hcall); exact HS2 | exact HS2 ].
Qed.

Lemma Activate_stacks a w : StacksInv w -> post (Activate call a w) StacksInv.
Proof.
  intros HS. unfold Activate. apply post_bind, post_getAura. intros A _.
  assert (HS1 : StacksInv (updAura a (set_Procs (Procs A + 1)) w))
    by (apply StacksInv_keeps; auto).
  cbv zeta. destruct (active A); [ apply Refresh_stacks; exact HS1 | ].
  destruct (Duration A =? 0); [ exact I | ].
  apply post_bind.
  eapply post_mono; [ | apply (activateEffects_keeps StacksInv call (ss_inv _ Hcall)); exact HS1 ].
  intros [acq w1] HS2. cbn in HS2. destruct (negb acq); [ exact HS2 | ].
  apply post_bind. eapply post_mono; [ | apply Refresh_stacks ].
  2: { apply StacksInv_keeps; [ | exact HS2 ]. intros B [H1 H2]. split; cbn; [ discriminate | exact H2 ]. }
  intros w3 HS3. apply post_bind. eapply post_mono; [ | apply register_stacks; exact HS3 ].
  intros w4 HS4. apply post_bind, post_getAura. intros A4 _.
  apply (runHook_keeps StacksInv call StacksInv_emit (ss_inv _ Hcall)). exact HS4.
Qed.

Lemma Deactivate_stacks a w : StacksInv w -> post (Deactivate call a w) StacksInv.
Proof.
  intros HS. unfold Deactivate. destruct (aurasH w !! a) as [A|] eqn:HA; [ | exact HS ].
  destruct (negb (active A)); [ exact HS | ]. cbv zeta.
  apply post_bind. eapply post_mono; [ | apply unregister_stacks ].
  2: { intros b B' Hb. destruct (lookup_updAura _ _ _ _ _ Hb) as (B & HB & ->).
       destruct (StacksInv_lookup _ _ _ HS HB) as [H1 H2].
       destruct (decide (b = a)) as [->|Hne]; [ split; [ exact H2 | congruence ] | ].
       split; auto. }
  2: { intros A' Ha'. destruct (lookup_updAura _ _ _ _ _ Ha') as (B & HB & ->).
       rewrite decide_True by reflexivity. reflexivity. }
  intros w2 [HS2 Hi2]. apply post_bind, post_getAura. intros A2 HA2.
  apply post_bind. eapply post_mono with (P := StacksInv).
  2: { destruct (stacks A2 =? 0) eqn:E; [ | apply (ss_zero _ Hcall); auto ].
       apply Z.eqb_eq in E. cbn [post]. apply StacksInv_iff. intros b B HB.
       destruct (HS2 _ _ HB) as [H1 H2]. split; [ | exact H1 ].
       destruct (decide (b = a)) as [->|Hne]; [ | auto ].
       rewrite HA2 in HB. injection HB as <-. auto. }
  intros w3 HS3. apply post_bind, post_getAura. intros A3 _.
  apply post_bind.
  eapply post_mono; [ | apply (deactivateEffects_keeps StacksInv call (ss_inv _ Hcall)); exact HS3 ].
  intros w4 HS4. apply post_bind, post_getAura. intros A4 _.
  apply (runHook_keeps StacksInv call StacksInv_emit (ss_inv _ Hcall)). exact HS4.
Qed.

Lemma step_cmd_stacks c w : StacksInv w -> post (step_cmd call c w) StacksInv.
Proof.
  intros HS.
  assert (Ho : outer_cmd c = true -> post (step_cmd call c w) StacksInv).
  { intros Hc. destruct (step_cmd call c w) as [w'| | |] eqn:E; cbn [post]; auto.
    destruct (outer_cmd_shape call c w w' Hc E) as (_ & _ & Ha & _).
    eapply StacksInv_outside; eauto. }
  destruct c; try (apply Ho; reflexivity); cbn [step_cmd].
  - apply Activate_stacks, StacksInv_emit, HS.
  - apply Deactivate_stacks, StacksInv_emit, HS.
  - apply SetStacks_stacks, StacksInv_emit, HS.
  - apply Refresh_stacks, HS.
  - apply post_bind, post_getAura. intros A _. cbn [post].
    apply StacksInv_keeps; [ | exact HS ]. intros B HB. exact HB.
  - apply Cancel_blind; [ apply (ss_inv _ Hcall) | ].
    eapply StacksInv_outside; [ apply cancel_writes_stores | exact HS ].
Qed.

End Bodies.

Lemma exec_stacks_safe fuel : stacks_safe (exec fuel).
Proof.
  induction fuel as [|n IH]; split; intros; cbn [exec]; try exact I.
  - apply step_cmd_stacks; auto.
  - cbn [step_cmd]. apply SetStacks_zero; auto.
Qed.

End Stacks.

(** ** Dispatch arrays under arbitrary hooks *)

Section Positions.
Context {PF : Platform} {PG : Program}.

Lemma WFx_emit x e (w : World) : WFx x w -> WFx x (emit e w).
Proof. apply WFx_outside; reflexivity. Qed.

Lemma WF_emit e (w : World) : WF w -> WF (emit e w).
Proof. apply WFx_emit. Qed.

Lemma keeps_positions_expires e : keeps_positions (set_expires e).
Proof. intros B. repeat split. Qed.

Lemma Refresh_WFx x a (w : World) : WFx x w -> post (Refresh a w) (WFx x).
Proof.
  intros HW. unfold Refresh. apply post_bind, post_getAura. intros A _.
  assert (He : forall e, WFx x (updAura a (set_expires e) w)).
  { intros e. apply WFx_updAura; [ apply keeps_positions_expires | right; reflexivity | exact HW ]. }
  destruct (Duration A =? NeverExpires); [ apply He | ]. cbv zeta.
  apply post_bind, post_getUnit. intros U _.
  destruct (_ <? _); cbn [post]; [ | apply He ].
  eapply WFx_outside; [ | | apply WFx_updUnit; [ | apply He ] ];
    [ reflexivity | reflexivity | ].
  intros U0. reflexivity.
Qed.

(** [Refresh] writes no position and no [active] flag. *)
Lemma Refresh_lookup a (w : World) :
  post (Refresh a w) (fun w' => forall b B, aurasH w !! b = Some B ->
    exists B', aurasH w' !! b = Some B' /\ index B' = index B
               /\ active B' = active B).
Proof.
  unfold Refresh. apply post_bind, post_getAura. intros A _.
  assert (He : forall e b B, aurasH w !! b = Some B ->
            exists B', aurasH (updAura a (set_expires e) w) !! b = Some B'
                       /\ index B' = index B /\ active B' = active B).
  { intros e b B HB. eexists. split; [ apply lookup_updAura_Some; exact HB | ].
    destruct (decide (b = a)); split; reflexivity. }
  destruct (Duration A =? NeverExpires); [ exact (He _) | ]. cbv zeta.
  apply post_bind, post_getUnit. intros U _.
  destruct (_ <? _); cbn [post]; exact (He _).
Qed.

Section Bodies.
Variable call : Cmd -> World -> Res World.
Hypothesis Hcall : forall c w, WF w -> post (call c w) WF.
Hypothesis Hee : forall ee, observer (eeActivate ee).

Lemma SetStacks_WF a n w : WF w -> post (SetStacks call a n w) WF.
Proof.
  intros HW. unfold SetStacks. apply post_bind, post_getAura. intros A HA.
  destruct (negb (active A) && negb (n =? 0)); [ exact I | ].
  destruct (n <? 0); [ exact I | ].
  destruct (MaxStacks A =? 0); [ exact I | ]. cbv zeta.
  destruct (stacks A =? Z.min n (MaxStacks A)); [ exact HW | ].
  apply post_bind. eapply post_mono; [ | apply (runHook_keeps WF call WF_emit Hcall) ].
  2: { apply WFx_updAura; [ | right; reflexivity | exact HW ]. intros B. repeat split. }
  intros w2 HW2. apply post_bind, post_getAura. intros A2 _.
  destruct (stacks A2 =? 0); [ apply Hcall; exact HW2 | exact HW2 ].
Qed.

(** The exclusive effects either refuse, or leave the world as it was. *)
Lemma activateEffects_WF acq l w :
  WF w ->
  post (activateEffects call acq l w)
       (fun r => WF r.2 /\ (r.1 = true -> r.2 = w)).
Proof.
  revert acq. induction l as [|ee l IH]; intros acq HW; cbn [activateEffects].
  - split; [ exact HW | reflexivity ].
  - destruct (Hee ee) as [v ->]. cbn [runProg bindR].
    destruct (v =? 0); [ | apply IH; exact HW ].
    apply post_bind. eapply post_mono; [ | apply (deactivateEffects_keeps WF call Hcall); exact HW ].
    intros w2 HW2. split; [ exact HW2 | discriminate ].
Qed.

Lemma Activate_WF a w : WF w -> post (Activate call a w) WF.
Proof.
  intros HW. unfold Activate. apply post_bind, post_getAura. intros A HA. cbv zeta.
  assert (HW1 : WF (updAura a (set_Procs (Procs A + 1)) w)).
  { apply WFx_updAura; [ | right; reflexivity | exact HW ]. intros B. repeat split. }
  destruct (active A) eqn:Hact; [ apply Refresh_WFx; exact HW1 | ].
  destruct (Duration A =? 0); [ exact I | ].
  apply post_bind.
  eapply post_mono; [ | apply activateEffects_WF; exact HW1 ].
  intros [acq w1] [HWa Hsame]. cbn in HWa, Hsame.
  destruct acq; cbn [negb]; [ | exact HWa ].
  rewrite (Hsame eq_refl). clear w1 HWa Hsame.
  set (w1 := updAura a (set_Procs (Procs A + 1)) w) in *.
  set (w2 := updAura a _ w1).
  assert (HA2 : exists A2, aurasH w2 !! a = Some A2 /\ index A2 = index A
                           /\ active A2 = true).
  { eexists. split.
    - unfold w2, w1. apply lookup_updAura_Some, lookup_updAura_Some. exact HA.
    - rewrite !decide_True by reflexivity. split; reflexivity. }
  destruct HA2 as (A2 & HA2 & Hi2 & Ha2).
  assert (HW2 : WFx (Some a) w2).
  { apply WFx_updAura; [ | left; reflexivity | apply WFx_weaken; exact HW1 ].
    intros B. repeat split. }
  apply post_bind.
  pose proof (Refresh_WFx (Some a) a w2 HW2) as HR1.
  pose proof (Refresh_lookup a w2) as HR2.
  destruct (Refresh a w2) as [w3| | |]; cbn [post] in *; try exact I.
  destruct (HR2 _ _ HA2) as (A3 & HA3 & Hi3 & Ha3).
  apply post_bind.
  destruct (register a w3) as [w4| | |] eqn:Hreg; cbn [post]; try exact I.
  destruct (register_WF a A3 w3 w4 HR1 HA3) as (HW4 & _); [ congruence | | exact Hreg | ].
  { intros s. rewrite Hi3, Hi2.
    destruct (Z.eq_dec (index A s) Inactive) as [e|Hne]; [ exact e | ].
    apply (wf_act _ _ HW a A s) in Hne; [ | discriminate | exact HA ].
    destruct Hne as [Hne _]. congruence. }
  apply post_bind, post_getAura. intros A4 _.
  apply (runHook_keeps WF call WF_emit Hcall). exact HW4.
Qed.

Lemma Deactivate_WF a w : WF w -> post (Deactivate call a w) WF.
Proof.
  intros HW. unfold Deactivate. destruct (aurasH w !! a) as [A|] eqn:HA; [ | exact HW ].
  destruct (negb (active A)); [ exact HW | ]. cbv zeta.
  set (w1 := updAura a _ w).
  assert (HW1 : WFx (Some a) w1).
  { apply WFx_updAura; [ | left; reflexivity | apply WFx_weaken; exact HW ].
    intros B. repeat split. }
  assert (HA1 : exists A1, aurasH w1 !! a = Some A1 /\ active A1 = false).
  { eexists. split; [ apply lookup_updAura_Some; exact HA | ].
    rewrite decide_True by reflexivity. reflexivity. }
  destruct HA1 as (A1 & HA1 & Hact1).
  apply post_bind.
  destruct (unregister a w1) as [w2| | |] eqn:Hun; cbn [post]; try exact I.
  destruct (unregister_WF a A1 w1 w2 HW1 HA1 Hact1 Hun) as (HW2 & _).
  apply post_bind, post_getAura. intros A2 HA2.
  apply post_bind. eapply post_mono with (P := WF).
  2: { destruct (stacks A2 =? 0); [ exact HW2 | apply Hcall; exact HW2 ]. }
  intros w3 HW3. apply post_bind, post_getAura. intros A3 _.
  apply post_bind.
  eapply post_mono; [ | apply (deactivateEffects_keeps WF call Hcall); exact HW3 ].
  intros w4 HW4. apply post_bind, post_getAura. intros A4 _.
  apply (runHook_keeps WF call WF_emit Hcall). exact HW4.
Qed.

Lemma step_cmd_WF c w : WF w -> post (step_cmd call c w) WF.
Proof.
  intros HW.
  assert (Ho : outer_cmd c = true -> post (step_cmd call c w) WF).
  { intros Hc. destruct (step_cmd call c w) as [w'| | |] eqn:E; cbn [post]; auto.
    destruct (outer_cmd_shape call c w w' Hc E) as (_ & _ & Ha & Hu & _).
    eapply WFx_outside; eauto. }
  destruct c; try (apply Ho; reflexivity); cbn [step_cmd].
  - apply Activate_WF, WF_emit, HW.
  - apply Deactivate_WF, WF_emit, HW.
  - apply SetStacks_WF, WF_emit, HW.
  - apply Refresh_WFx, HW.
  - apply post_bind, post_getAura. intros A _. cbn [post].
    apply WFx_updAura; [ apply keeps_positions_expires | right; reflexivity | exact HW ].
  - apply Cancel_blind; [ exact Hcall | ].
    eapply WFx_outside; [ apply cancel_writes_stores | apply cancel_writes_stores | exact HW ].
Qed.

End Bodies.

Lemma exec_WF :
  (forall ee, observer (eeActivate ee)) ->
  forall fuel c w, WF w -> post (exec fuel c w) WF.
Proof.
  intros Hee. induction fuel as [|n IH]; intros c w HW; [ exact I | ].
  cbn [exec]. apply step_cmd_WF; auto.
Qed.

End Positions.

(** ** Hooks that only observe *)

Section Observed.
Context {PF : Platform} {PG : Program}.
Hypothesis Hobs : all_observers.

Lemma runHook_observer call cb args e (w : World) :
  exists w', runHook call cb args e w = Ok w'
    /\ log w' = log w ++ hook_event cb e
    /\ set_log [] w' = set_log [] w.
Proof.
  destruct cb as [c|]; cbn [runHook hook_event].
  - destruct Hobs as (Hc & _). destruct (Hc c args) as [v ->]. cbn.
    eexists. split; [ reflexivity | ]. split; reflexivity.
  - exists w. rewrite app_nil_r. repeat split.
Qed.

Lemma deactivateEffects_observer call l (w : World) :
  deactivateEffects call l w = Ok w.
Proof.
  induction l as [|ee l IH]; cbn [deactivateEffects]; [ reflexivity | ].
  destruct Hobs as (_ & _ & Hd & _). destruct (Hd ee) as [v ->]. cbn. exact IH.
Qed.


Lemma lookup_same_store (w w' : World) :
  set_log [] w' = set_log [] w ->
  aurasH w' = aurasH w /\ unitsH w' = unitsH w
  /\ outside_auras (set_log [] w') = outside_auras (set_log [] w).
Proof.
  intros H. split; [ | split ].
  - exact (f_equal aurasH H).
  - exact (f_equal unitsH H).
  - rewrite H. reflexivity.
Qed.

(** [SetStacks(0)] on an aura that [Deactivate] has just made inactive. *)
Lemma SetStacks_zero_observed fuel a A (w : World) :
  aurasH w !! a = Some A -> active A = false -> stacks A <> 0 ->
  0 <= stacks A <= MaxStacks A ->
  exists w', exec (S (S fuel)) (CSetStacks a 0) w = Ok w'
    /\ log w' = log w ++ [EvSetStacks a 0]
                 ++ hook_event (OnStacksChange A) (EvOnStacksChange a (stacks A) 0)
                 ++ [EvDeactivate a]
    /\ set_log [] w' = set_log [] (updAura a (set_stacks 0) w).
Proof.
  intros Ha Hact Hs Hr.
  change (exec (S (S fuel)) (CSetStacks a 0) w)
    with (SetStacks (exec (S fuel)) a 0 (emit (EvSetStacks a 0) w)).
  unfold SetStacks, getAura.
  cbn [aurasH emit set_log]. rewrite Ha. cbn [bindR]. rewrite Hact. cbn [negb andb Z.eqb Z.ltb Z.compare].
  destruct (MaxStacks A =? 0) eqn:Em; [ apply Z.eqb_eq in Em; lia | ].
  cbv zeta. rewrite Z.min_l by lia.
  destruct (stacks A =? 0) eqn:Es; [ apply Z.eqb_eq in Es; lia | ].
  destruct (runHook_observer (exec (S fuel)) (OnStacksChange A)
              [Z.of_nat a; stacks A; 0] (EvOnStacksChange a (stacks A) 0)
              (updAura a (set_stacks 0) (emit (EvSetStacks a 0) w)))
    as (w2 & -> & Hl2 & Hs2).
  cbn [bindR]. destruct (lookup_same_store _ _ Hs2) as (Ha2 & _ & _).
  rewrite Ha2. cbn [aurasH updAura set_aurasH emit set_log].
  rewrite list_lookup_alter_eq, Ha. cbn [fmap option_fmap option_map stacks set_stacks Z.eqb].
  change (exec (S fuel) (CDeactivate a) w2)
    with (Deactivate (exec fuel) a (emit (EvDeactivate a) w2)).
  unfold Deactivate, getAura. cbn [aurasH emit set_log bindR].
  rewrite Ha2. cbn [aurasH updAura set_aurasH emit set_log].
  rewrite list_lookup_alter_eq, Ha. cbn [fmap option_fmap option_map bindR active set_stacks].
  rewrite Hact. cbn [negb].
  eexists. split; [ reflexivity | ]. split.
  - cbn [log emit set_log]. rewrite Hl2. cbn [log updAura set_aurasH emit set_log].
    rewrite <- !app_assoc. reflexivity.
  - change (set_log [] (emit (EvDeactivate a) w2)) with (set_log [] w2).
    rewrite Hs2. reflexivity.
Qed.


(** [Deactivate] on an active aura, when all hooks only observe: it
    returns, and its effect is that of [unregister] on the dispatch arrays
    and of the reset of the aura's own fields. *)
Lemma Deactivate_active fuel a A (w : World) :
  WF w -> aurasH w !! a = Some A -> active A = true ->
  0 <= stacks A <= MaxStacks A ->
  exists w', Deactivate (exec (S (S fuel))) a w = Ok w'
    /\ log w' = log w ++ deactivation_events a A
    /\ outside_auras (set_log [] w') = outside_auras (set_log [] w)
    /\ (exists A', aurasH w' !! a = Some A' /\ active A' = false
                   /\ stacks A' = 0 /\ same_config A A')
    /\ (forall b B, b <> a -> aurasH w !! b = Some B ->
          exists f, aurasH w' !! b = Some (set_index f B))
    /\ (forall b, aurasH w !! b = None -> aurasH w' !! b = None)
    /\ (forall u, u <> Unit A -> unitsH w' !! u = unitsH w !! u)
    /\ (forall U, unitsH w !! Unit A = Some U ->
          exists g, unitsH w' !! Unit A = Some (set_arrays g U)
                    /\ forall s, g s = arrays_after_unregister A U s).
Proof.
  intros HW Ha Hact Hr.
  unfold Deactivate, getAura. rewrite Ha. cbn [bindR]. rewrite Hact. cbn [negb]. cbv zeta.
  match goal with |- context [unregister a (updAura a ?G w)] => set (F := G) end.
  set (w1 := updAura a F w).
  assert (HA1 : aurasH w1 !! a = Some (F A)).
  { unfold w1. rewrite (lookup_updAura_Some _ _ _ _ _ Ha), decide_True by reflexivity.
    reflexivity. }
  destruct (wf_unit _ _ HW _ _ Ha) as [U HU].
  destruct (unregister_spec a (F A) U w1 HA1 HU)
    as (w2 & Hun & Hlk & Hnone & Huo & (g & Hg & Hgs) & Hout).
  { intros s Hs. destruct (wf_idx _ _ HW _ _ _ Ha Hs) as (U' & i & HU' & Hi & Hl).
    rewrite HU in HU'. injection HU' as <-. eauto. }
  { intros s b Hl. destruct (last_lookup_Some _ _ Hl) as [Hl' _].
    destruct (wf_arr _ _ HW _ _ _ _ _ HU Hl') as (B & HB & _).
    unfold w1. rewrite (lookup_updAura_Some _ _ _ _ _ HB). eauto. }
  rewrite Hun. cbn [bindR].
  destruct (Hlk _ _ HA1) as (f & Hfa & _). rewrite Hfa. cbn [bindR].
  change (stacks (set_index f (F A))) with (stacks A).
  (* the nested SetStacks(0) *)
  assert (Hmid : exists w3 A3,
    (if stacks A =? 0 then Ok w2 else exec (S (S fuel)) (CSetStacks a 0) w2) = Ok w3
    /\ log w3 = log w2 ++ (if stacks A =? 0 then []
         else [EvSetStacks a 0]
              ++ hook_event (OnStacksChange A) (EvOnStacksChange a (stacks A) 0)
              ++ [EvDeactivate a])
    /\ outside_auras (set_log [] w3) = outside_auras (set_log [] w2)
    /\ aurasH w3 !! a = Some A3 /\ active A3 = false /\ stacks A3 = 0
    /\ same_config A A3
    /\ (forall b, b <> a -> aurasH w3 !! b = aurasH w2 !! b)
    /\ unitsH w3 = unitsH w2).
  { destruct (stacks A =? 0) eqn:Es.
    - apply Z.eqb_eq in Es. exists w2, (set_index f (F A)).
      rewrite app_nil_r. repeat split; auto.
    - apply Z.eqb_neq in Es.
      destruct (SetStacks_zero_observed fuel a (set_index f (F A)) w2 Hfa)
        as (w3 & He & Hl3 & Hs3); [ reflexivity | exact Es | exact Hr | ].
      destruct (lookup_same_store _ _ Hs3) as (Ha3 & Hu3 & Ho3).
      exists w3, (set_stacks 0 (set_index f (F A))).
      split; [ exact He | ]. split; [ exact Hl3 | ]. split; [ exact Ho3 | ].
      split; [ rewrite Ha3; cbn; rewrite list_lookup_alter_eq, Hfa; reflexivity | ].
      split; [ reflexivity | ]. split; [ reflexivity | ].
      split; [ repeat split | ].
      split; [ | exact Hu3 ].
      intros b Hb. rewrite Ha3. cbn. rewrite list_lookup_alter_ne by congruence. reflexivity. }
  destruct Hmid as (w3 & A3 & -> & Hl3 & Ho3 & HA3 & Hact3 & Hst3 & Hcfg & Hoth3 & Hu3).
  cbn [bindR]. rewrite HA3. cbn [bindR].
  rewrite deactivateEffects_observer. cbn [bindR]. rewrite HA3. cbn [bindR].
  destruct (runHook_observer (exec (S (S fuel))) (OnExpire A3) [Z.of_nat a]
              (EvOnExpire a) w3) as (w4 & -> & Hl4 & Hs4).
  destruct (lookup_same_store _ _ Hs4) as (Ha4 & Hu4 & Ho4).
  assert (Hlog12 : log w2 = log w).
  { change (log w2) with (log (outside_auras w2)). rewrite Hout. reflexivity. }
  exists w4. split; [ reflexivity | ]. split; [ | split; [ | split; [ | split ] ] ].
  - rewrite Hl4, Hl3, Hlog12. unfold deactivation_events.
    destruct Hcfg as (_ & _ & _ & _ & -> & _). rewrite <- app_assoc. reflexivity.
  - rewrite Ho4, Ho3.
    change (outside_auras (set_log [] w2)) with (set_log [] (outside_auras w2)).
    rewrite Hout. reflexivity.
  - exists A3. rewrite Ha4. auto.
  - intros b B Hb HB. rewrite Ha4, Hoth3 by exact Hb.
    assert (HB1 : aurasH w1 !! b = Some B).
    { unfold w1. rewrite (lookup_updAura_Some _ _ _ _ _ HB), decide_False by exact Hb.
      reflexivity. }
    destruct (Hlk _ _ HB1) as (fb & Hfb & _). eauto.
  - split; [ | split ].
    + intros b Hb. destruct (decide (b = a)) as [->|Hne]; [ congruence | ].
      rewrite Ha4, Hoth3 by exact Hne. apply Hnone. unfold w1. cbn.
      rewrite list_lookup_alter_ne by congruence. exact Hb.
    + intros u Hu. rewrite Hu4, Hu3. rewrite Huo by exact Hu. reflexivity.
    + intros U0 HU0. rewrite HU in HU0. injection HU0 as <-.
      exists g. rewrite Hu4, Hu3. split; [ exact Hg | ]. intros s. rewrite Hgs. reflexivity.
Qed.


(** C8: [SetStacks(0)] on an active aura that holds stacks (three, say),
    when the hooks only observe: the call returns; the stacks-changed hook
    runs once, with the old count and 0; then [Deactivate] is called, once,
    and after it the expiry hook runs, once; the aura ends inactive and
    without stacks. *)
Theorem set_stacks_to_zero fuel a A (w : World) :
  WF w -> aurasH w !! a = Some A -> active A = true ->
  0 < stacks A <= MaxStacks A ->
  exists w',
    exec (4 + fuel) (CSetStacks a 0) w = Ok w'
    /\ log w' = log w ++ [EvSetStacks a 0]
                 ++ hook_event (OnStacksChange A) (EvOnStacksChange a (stacks A) 0)
                 ++ [EvDeactivate a]
                 ++ hook_event (OnExpire A) (EvOnExpire a)
    /\ IsActive (aurasH w' !! a) = false
    /\ GetStacks (aurasH w' !! a) = 0.
Proof.
  intros HW Ha Hact Hr.
  change (exec (4 + fuel) (CSetStacks a 0) w)
    with (SetStacks (exec (S (S (S fuel)))) a 0 (emit (EvSetStacks a 0) w)).
  unfold SetStacks, getAura. cbn [aurasH emit set_log]. rewrite Ha. cbn [bindR].
  rewrite Hact. cbn [negb andb Z.ltb Z.compare].
  destruct (MaxStacks A =? 0) eqn:Em; [ apply Z.eqb_eq in Em; lia | ].
  cbv zeta. rewrite Z.min_l by lia.
  destruct (stacks A =? 0) eqn:Es; [ apply Z.eqb_eq in Es; lia | ].
  destruct (runHook_observer (exec (S (S (S fuel)))) (OnStacksChange A)
              [Z.of_nat a; stacks A; 0] (EvOnStacksChange a (stacks A) 0)
              (updAura a (set_stacks 0) (emit (EvSetStacks a 0) w)))
    as (w2 & -> & Hl2 & Hs2).
  cbn [bindR]. destruct (lookup_same_store _ _ Hs2) as (Ha2 & Hu2 & _).
  assert (HA2 : aurasH w2 !! a = Some (set_stacks 0 A)).
  { rewrite Ha2. cbn. rewrite list_lookup_alter_eq, Ha. reflexivity. }
  rewrite HA2. cbn [stacks set_stacks Z.eqb].
  change (exec (S (S (S fuel))) (CDeactivate a) w2)
    with (Deactivate (exec (S (S fuel))) a (emit (EvDeactivate a) w2)).
  destruct (Deactivate_active fuel a (set_stacks 0 A) (emit (EvDeactivate a) w2))
    as (w3 & -> & Hl3 & _ & (A3 & HA3 & Hact3 & Hst3 & _) & _).
  - apply WF_emit. eapply WFx_outside; [ exact Ha2 | exact Hu2 | ].
    apply WFx_updAura; [ | right; reflexivity | apply WF_emit; exact HW ].
    intros B. repeat split.
  - exact HA2.
  - exact Hact.
  - cbn. lia.
  - exists w3. split; [ reflexivity | ]. split; [ | rewrite HA3; auto ].
    rewrite Hl3. cbn [log emit set_log]. rewrite Hl2.
    cbn [log updAura set_aurasH emit set_log].
    unfold deactivation_events. cbn [stacks set_stacks Z.eqb app OnExpire].
    rewrite <- !app_assoc. reflexivity.
Qed.

End Observed.

Section Sequences.
Context {PF : Platform} {PG : Program}.

Lemma sequence_WF fuel ops (w w' : World) :
  (forall ee, observer (eeActivate ee)) ->
  WF w -> sequence (map (exec fuel) ops) w = Ok w' -> WF w'.
Proof.
  intros Hee. revert w. induction ops as [|c ops IH]; intros w HW Hrun; cbn in Hrun.
  - injection Hrun as <-. exact HW.
  - pose proof (exec_WF Hee fuel c w HW) as Hc.
    destruct (exec fuel c w) as [w1| | |]; try discriminate.
    cbn in Hrun. eapply IH; eauto.
Qed.

End Sequences.

(** ** Lazy expiration *)

Section Expiry.
Context {PF : Platform} {PG : Program}.

Lemma exec_time fuel c (w w' : World) :
  exec fuel c w = Ok w' -> CurrentTime w' = CurrentTime w.
Proof.
  intros H.
  assert (Hs : exec_stable (fun w0 => CurrentTime w0 = CurrentTime w)).
  { split; [ | split ].
    - intros w1 w2 [Ho _] H1. rewrite <- H1.
      exact (f_equal CurrentTime Ho).
    - intros call c0 w0 Hc H0.
      destruct (step_cmd call c0 w0) as [w1| | |] eqn:E; cbn [post]; auto.
      destruct (outer_cmd_shape call c0 w0 w1 Hc E) as (_ & _ & _ & _ & Ht & _).
      congruence.
    - intros p w0 H0. destruct (cancel_writes_shape p w0) as (evs & -> & _). exact H0. }
  exact (post_Ok _ _ _ (exec_preserves _ Hs fuel c w eq_refl) H).
Qed.

Lemma scanActive_spec u l (w : World) r w1 :
  scanActive u l w = Ok (r, w1) ->
  aurasH w1 = aurasH w /\ CurrentTime w1 = CurrentTime w /\ log w1 = log w
  /\ (WF w -> WF w1)
  /\ (forall U, unitsH w !! u = Some U ->
        exists U1, unitsH w1 !! u = Some U1 /\ arrays U1 = arrays U
          /\ match r with
             | None =>
                 minExpires U1
                 = foldl (fun m a => Z.min m (expiry_of w a)) (minExpires U) l
                 /\ forall a, a ∈ l ->
                      exists A, aurasH w !! a = Some A /\ CurrentTime w < expires A
             | Some a =>
                 a ∈ l /\ exists A, aurasH w !! a = Some A
                                    /\ expires A <= CurrentTime w
             end).
Proof.
  revert w. induction l as [|a l IH]; intros w H; cbn [scanActive] in H.
  - injection H as <- <-.
    split; [ reflexivity | ]. split; [ reflexivity | ]. split; [ reflexivity | ].
    split; [ auto | ].
    intros U HU. exists U. split; [ exact HU | ]. split; [ reflexivity | ].
    split; [ reflexivity | ]. intros a Ha. inversion Ha.
  - unfold getAura in H. destruct (aurasH w !! a) as [A|] eqn:Ha; [ | discriminate ].
    cbn [bindR] in H. destruct (expires A <=? CurrentTime w) eqn:E.
    + injection H as <- <-. apply Z.leb_le in E.
      split; [ reflexivity | ]. split; [ reflexivity | ]. split; [ reflexivity | ].
      split; [ auto | ].
      intros U HU. exists U. split; [ exact HU | ]. split; [ reflexivity | ].
      split; [ left | eauto ].
    + apply Z.leb_gt in E.
      destruct (IH _ H) as (H1 & H2 & H3 & H4 & H5). clear IH.
      split; [ exact H1 | ]. split; [ exact H2 | ]. split; [ exact H3 | ].
      split.
      { intros HW. apply H4. apply WFx_updUnit; [ | exact HW ]. reflexivity. }
      intros U HU.
      destruct (H5 _ (lookup_updUnit_Some u _ w u U HU)) as (U1 & HU1 & Harr & Hr).
      rewrite decide_True in Harr, Hr by reflexivity.
      exists U1. split; [ exact HU1 | ]. split; [ exact Harr | ].
      destruct r as [b|].
      * destruct Hr as (Hb & B & HB & HeB). split; [ right; exact Hb | eauto ].
      * destruct Hr as (Hm & Hall). split.
        -- rewrite Hm. cbn [foldl minExpires set_minExpires].
           unfold expiry_of at 3. rewrite Ha. reflexivity.
        -- intros b Hb. inversion Hb; subst; [ eauto | ]. apply Hall. assumption.
Qed.

Lemma foldl_min_ext (f g : nat -> Z) l m :
  (forall a, a ∈ l -> f a = g a) ->
  foldl (fun m a => Z.min m (f a)) m l = foldl (fun m a => Z.min m (g a)) m l.
Proof.
  revert m. induction l as [|a l IH]; intros m H; cbn; [ reflexivity | ].
  rewrite H by left. apply IH. intros b Hb. apply H. right. exact Hb.
Qed.

Section Partial.
Hypothesis Hee : forall ee, observer (eeActivate ee).

(** When the scan finds nothing expired, nothing of the unit is. *)
Lemma scan_clean u U U1 (w w1 : World) :
  WF w1 -> aurasH w1 = aurasH w -> CurrentTime w1 = CurrentTime w ->
  unitsH w1 !! u = Some U1 -> arrays U1 = arrays U ->
  (forall a, a ∈ arrays U SlotActive ->
     exists A, aurasH w !! a = Some A /\ CurrentTime w < expires A) ->
  no_expired u w1.
Proof.
  intros HW1 Ha1 Ht1 HU1 Harr Hall a A HA HuA Hact Hdur.
  assert (Hreg : registers A SlotActive = true)
    by (cbn; apply negb_true_iff, Z.eqb_neq; exact Hdur).
  assert (Hidx : index A SlotActive <> Inactive).
  { apply (wf_act _ _ HW1 a A SlotActive); [ discriminate | exact HA | auto ]. }
  destruct (wf_idx _ _ HW1 _ _ _ HA Hidx) as (U' & i & HU' & _ & Hi).
  rewrite HuA, HU1 in HU'. injection HU' as <-. rewrite Harr in Hi.
  destruct (Hall a) as (A' & HA' & Hlt); [ eapply list_elem_of_lookup_2; exact Hi | ].
  rewrite Ha1, HA' in HA. injection HA as <-. rewrite Ht1. exact Hlt.
Qed.

Lemma at_advance_post fuel n u (w : World) m w' :
  WF w -> at_advance fuel n u w = Ok (m, w') ->
  WF w' /\ CurrentTime w' = CurrentTime w /\ no_expired u w'
  /\ exists U', unitsH w' !! u = Some U' /\ minExpires U' = m
                /\ m = fresh_minimum w' (arrays U' SlotActive).
Proof.
  revert w. induction n as [|n IH]; intros w HW H; cbn [at_advance] in H;
    unfold getUnit in H;
    (destruct (unitsH w !! u) as [U|] eqn:HU; [ | discriminate ]);
    cbn [bindR] in H;
    (destruct (scanActive u (arrays U SlotActive)
                (updUnit u (set_minExpires NeverExpires) w))
       as [[found w1]| | |] eqn:Hscan; try discriminate);
    cbn [bindR] in H;
    destruct (scanActive_spec _ _ _ _ _ Hscan) as (Ha1 & Ht1 & _ & HW1 & HU1);
    specialize (HW1 (WFx_updUnit None u (set_minExpires NeverExpires) w (fun _ => eq_refl) HW));
    destruct (HU1 _ (lookup_updUnit_Some u _ w u U HU)) as (U1 & HU1' & Harr & Hr);
    rewrite decide_True in Harr, Hr by reflexivity;
    destruct found as [a|]; try discriminate.
  1, 3: unfold getUnit in H; rewrite HU1' in H; cbn [bindR] in H;
      injection H as <- <-; destruct Hr as (Hm & Hall);
      (split; [ exact HW1 | ]); (split; [ exact Ht1 | ]); (split;
      [ eapply scan_clean; eauto
      | exists U1; split; [ exact HU1' | ]; split; [ reflexivity | ];
        rewrite Hm; unfold fresh_minimum; rewrite Harr;
        apply foldl_min_ext; intros a _; unfold expiry_of; rewrite Ha1; reflexivity ]).
  destruct (exec fuel (CDeactivate a) w1) as [w2| | |] eqn:Hd; try discriminate.
  cbn [bindR] in H.
  pose proof (post_Ok _ _ _ (exec_WF Hee fuel _ _ HW1) Hd) as HW2.
  destruct (IH _ HW2 H) as (HW' & Ht' & Hno & HU').
  split; [ exact HW' | ]. split; [ | split; assumption ].
  rewrite Ht', (exec_time _ _ _ _ Hd). exact Ht1.
Qed.

End Partial.

Section Total.
Hypothesis Hobs : all_observers.

Lemma scanActive_total u l (w : World) :
  (forall a, a ∈ l -> is_Some (aurasH w !! a)) ->
  exists r w1, scanActive u l w = Ok (r, w1).
Proof.
  revert w. induction l as [|a l IH]; intros w H; cbn [scanActive]; [ eauto | ].
  unfold getAura. destruct (H a) as [A HA]; [ left | ]. rewrite HA. cbn [bindR].
  destruct (expires A <=? CurrentTime w); [ eauto | ].
  apply IH. intros b Hb. apply H. right. exact Hb.
Qed.

Lemma at_advance_total fuel n u U (w : World) :
  WF w -> StacksInv w -> unitsH w !! u = Some U ->
  (length (arrays U SlotActive) < n)%nat ->
  exists m w', at_advance (3 + fuel) n u w = Ok (m, w') /\ unexpired_kept w w'.
Proof.
  assert (Hee : forall ee, observer (eeActivate ee)) by apply Hobs.
  revert w U. induction n as [|n IH]; intros w U HW HS HU Hlen; [ lia | ].
  cbn [at_advance]. unfold getUnit. rewrite HU. cbn [bindR].
  set (w0 := updUnit u (set_minExpires NeverExpires) w).
  assert (HW0 : WF w0) by (apply WFx_updUnit; [ reflexivity | exact HW ]).
  assert (HU0 : unitsH w0 !! u = Some (set_minExpires NeverExpires U)).
  { unfold w0. rewrite (lookup_updUnit_Some _ _ _ _ _ HU), decide_True by reflexivity.
    reflexivity. }
  destruct (scanActive_total u (arrays U SlotActive) w0) as (found & w1 & Hscan).
  { intros a Ha. apply list_elem_of_lookup_1 in Ha as [i Hi].
    destruct (wf_arr _ _ HW0 _ _ _ _ _ HU0 Hi) as (A & HA & _). eauto. }
  rewrite Hscan. cbn [bindR].
  destruct (scanActive_spec _ _ _ _ _ Hscan) as (Ha1 & Ht1 & _ & HW1 & HU1).
  specialize (HW1 HW0). destruct (HU1 _ HU0) as (U1 & HU1' & Harr & Hr).
  assert (HS1 : StacksInv w1) by (eapply StacksInv_outside; [ exact Ha1 | exact HS ]).
  destruct found as [a|].
  - destruct Hr as (Hin & A & HA & Hexp).
    apply list_elem_of_lookup_1 in Hin as [i Hi].
    destruct (wf_arr _ _ HW0 _ _ _ _ _ HU0 Hi) as (A' & HA' & HuA & HiA).
    rewrite HA in HA'. injection HA' as <-.
    assert (Hidx : index A SlotActive <> Inactive) by (rewrite HiA; unfold Inactive; lia).
    assert (HA1 : aurasH w1 !! a = Some A) by (rewrite Ha1; exact HA).
    destruct (proj1 (wf_act _ _ HW1 a A SlotActive ltac:(discriminate) HA1) Hidx)
      as [Hact _].
    change (exec (3 + fuel) (CDeactivate a) w1)
      with (Deactivate (exec (S (S fuel))) a (emit (EvDeactivate a) w1)).
    destruct (Deactivate_active Hobs fuel a A (emit (EvDeactivate a) w1))
      as (w2 & Hd & _ & Hout & _ & Hoth & _ & _ & Hun);
      [ apply WF_emit; exact HW1 | exact HA1 | exact Hact
      | apply (StacksInv_lookup _ _ _ HS1 HA1) | ].
    rewrite Hd. cbn [bindR].
    assert (Hd' : exec (3 + fuel) (CDeactivate a) w1 = Ok w2) by exact Hd.
    pose proof (post_Ok _ _ _ (exec_WF Hee _ _ _ HW1) Hd') as HW2.
    pose proof (post_Ok _ _ _ (ss_inv _ (exec_stacks_safe _) _ _ HS1) Hd') as HS2.
    rewrite HuA in Hun. destruct (Hun U1 HU1') as (g & Hg & Hgs).
    destruct (IH w2 _ HW2 HS2 Hg) as (m & w' & Hrun & Hkept).
    { cbn [arrays set_arrays]. rewrite Hgs. unfold arrays_after_unregister.
      destruct (index A SlotActive =? Inactive) eqn:E; [ apply Z.eqb_eq in E; congruence | ].
      rewrite removeBySwappingToBack_length.
      - rewrite Harr. cbn [arrays set_minExpires].
        apply lookup_lt_Some in Hi. lia.
      - rewrite Harr. cbn [arrays set_minExpires]. intros Hnil. rewrite Hnil in Hi. discriminate. }
    exists m, w'. split; [ exact Hrun | ].
    intros b B HB Hb Hlt.
    assert (Hba : b <> a).
    { intros ->. change (aurasH w !! a = Some B) with (aurasH w0 !! a = Some B) in HB.
      rewrite HA in HB. injection HB as <-.
      change (CurrentTime w0) with (CurrentTime w) in Hexp. lia. }
    destruct (Hoth b B Hba) as (f & Hf);
      [ change (aurasH w1 !! b = Some B); rewrite Ha1; exact HB | ].
    destruct (Hkept b _ Hf) as (B' & HB' & Hact' & Hexp'); [ exact Hb | | eauto ].
    rewrite (exec_time _ _ _ _ Hd'), Ht1. exact Hlt.
  - unfold getUnit. rewrite HU1'. cbn [bindR]. do 2 eexists. split; [ reflexivity | ].
    intros b B HB Hb Hlt. exists B. rewrite Ha1. auto.
Qed.

End Total.

(** C7: once the clock has reached the cached minimum of a unit's tracker,
    [tryAdvance] leaves no aura of the unit that is active, of finite
    duration and at or past its expiration, and the cached minimum it
    returns is the least expiration of the auras still in [activeAuras];
    this holds whatever the hooks do, as long as the activation of an
    exclusive effect does not call back into the API.  When hooks only
    observe, [tryAdvance] does return, and every aura that was active and
    not yet at its expiration is still so. *)
Theorem expired_auras_deactivated fuel u U (w : World) :
  (forall ee, observer (eeActivate ee)) ->
  WF w -> unitsH w !! u = Some U -> minExpires U <= CurrentTime w ->
  (forall m w', tryAdvance fuel u w = Ok (m, w') ->
     WF w' /\ CurrentTime w' = CurrentTime w /\ no_expired u w'
     /\ exists U', unitsH w' !! u = Some U' /\ minExpires U' = m
                   /\ m = fresh_minimum w' (arrays U' SlotActive))
  /\ (all_observers -> StacksInv w ->
      (length (arrays U SlotActive) < fuel)%nat -> (3 <= fuel)%nat ->
      exists m w', tryAdvance fuel u w = Ok (m, w') /\ unexpired_kept w w').
Proof.
  intros Hee HW HU Hmin.
  assert (Ht : tryAdvance fuel u w = at_advance fuel fuel u w).
  { unfold tryAdvance, getUnit. rewrite HU. cbn [bindR].
    destruct (CurrentTime w <? minExpires U) eqn:E; [ apply Z.ltb_lt in E; lia | reflexivity ]. }
  rewrite Ht. split.
  - intros m w' H. exact (at_advance_post Hee fuel fuel u w m w' HW H).
  - intros Hobs HS Hlen Hfuel.
    destruct (at_advance_total Hobs (fuel - 3) fuel u U w HW HS HU Hlen)
      as (m & w' & H1 & H2).
    replace (3 + (fuel - 3))%nat with fuel in H1 by lia. eauto.
Qed.


(** Properties of the stores of auras and units that every API call keeps
    are kept by the clock. *)
Section Stores.
Variable J : World -> Prop.
Hypothesis J_exec : forall fuel c w, J w -> post (exec fuel c w) J.
Hypothesis J_fields : forall w w' : World,
  aurasH w' = aurasH w -> unitsH w' = unitsH w -> J w -> J w'.
Hypothesis J_unit : forall u G (w : World),
  (forall U, arrays (G U) = arrays U) -> J w -> J (updUnit u G w).

Lemma runPhaseCallbacks_keeps fuel i cbs w :
  J w -> post (runPhaseCallbacks fuel i cbs w) J.
Proof.
  revert i w. induction cbs as [|cb cbs IH]; intros i w Hw; cbn [runPhaseCallbacks]; [ exact Hw | ].
  apply post_bind.
  eapply post_mono; [ | apply (runProg_keeps J (exec fuel) (J_exec fuel)) ].
  - intros [v w'] Hw'. apply IH. exact Hw'.
  - apply (J_fields w); [ reflexivity | reflexivity | exact Hw ].
Qed.

Lemma nextExecutePhase_store (w : World) :
  post (nextExecutePhase w) (fun w' => aurasH w' = aurasH w /\ unitsH w' = unitsH w).
Proof.
  unfold nextExecutePhase, setup. cbv zeta.
  repeat (destruct (_ =? _); [ cbn [post];
    try (destruct (f_gt _ _)); split; reflexivity | ]).
  exact I.
Qed.

Lemma phaseLoop_keeps fuel n w : J w -> post (phaseLoop fuel n w) J.
Proof.
  revert w. induction n as [|n IH]; intros w Hw; cbn [phaseLoop];
    destruct (_ || _); try exact Hw; try exact I.
  apply post_bind. eapply post_mono; [ | apply nextExecutePhase_store ].
  intros w1 [H1 H2]. apply post_bind.
  eapply post_mono; [ | apply runPhaseCallbacks_keeps; apply (J_fields w); auto ].
  intros w2 Hw2. apply IH. exact Hw2.
Qed.

Lemma scanActive_keeps u l w :
  J w -> post (scanActive u l w) (fun r => J r.2).
Proof.
  revert w. induction l as [|a l IH]; intros w Hw; cbn [scanActive]; [ exact Hw | ].
  apply post_bind, post_getAura. intros A _.
  destruct (_ <=? _); [ exact Hw | ].
  apply IH. apply J_unit; [ reflexivity | exact Hw ].
Qed.

Lemma at_advance_keeps fuel n u w :
  J w -> post (at_advance fuel n u w) (fun r => J r.2).
Proof.
  revert w. induction n as [|n IH]; intros w Hw; cbn [at_advance];
    apply post_bind, post_getUnit; intros U _; apply post_bind;
    (eapply post_mono; [ | apply scanActive_keeps; apply J_unit; [ reflexivity | exact Hw ] ]);
    intros [[a|] w1] Hw1; cbn in Hw1;
    try (apply post_bind, post_getUnit; intros U1 _; exact Hw1); [ exact I | ].
  apply post_bind. eapply post_mono; [ | apply J_exec; exact Hw1 ].
  intros w2 Hw2. apply IH. exact Hw2.
Qed.

Lemma tryAdvance_keeps fuel u w :
  J w -> post (tryAdvance fuel u w) (fun r => J r.2).
Proof.
  intros Hw. unfold tryAdvance. apply post_bind, post_getUnit. intros U _.
  destruct (_ <? _); [ exact Hw | apply at_advance_keeps; exact Hw ].
Qed.

Lemma advanceTrackers_keeps fuel l w :
  J w -> post (advanceTrackers fuel l w) J.
Proof.
  revert w. induction l as [|t l IH]; intros w Hw; cbn [advanceTrackers]; [ exact Hw | ].
  apply post_bind. eapply post_mono; [ | apply tryAdvance_keeps; exact Hw ].
  intros [m w'] Hw'. apply IH. apply (J_fields w'); [ reflexivity | reflexivity | exact Hw' ].
Qed.

Lemma advance_keeps fuel t w : J w -> post (advance fuel t w) J.
Proof.
  intros Hw. unfold advance. apply post_bind.
  eapply post_mono; [ | apply phaseLoop_keeps ].
  2: { apply (J_fields w); [ reflexivity | reflexivity | exact Hw ]. }
  intros w1 Hw1. destruct (_ <=? _); [ | exact Hw1 ].
  apply advanceTrackers_keeps.
  apply (J_fields w1); [ reflexivity | reflexivity | exact Hw1 ].
Qed.

Lemma sequence_keeps ops (w w' : World) :
  Forall (fun op => forall w0, J w0 -> post (op w0) J) ops ->
  J w -> sequence ops w = Ok w' -> J w'.
Proof.
  intros Hops. revert w. induction Hops as [|op ops Hop _ IH]; intros w Hw Hrun; cbn in Hrun.
  - injection Hrun as <-. exact Hw.
  - specialize (Hop w Hw). destruct (op w) as [w1| | |]; cbn in Hrun; try discriminate.
    exact (IH w1 Hop Hrun).
Qed.

End Stores.

Lemma advance_WF fuel t (w : World) :
  (forall ee, observer (eeActivate ee)) -> WF w -> post (advance fuel t w) WF.
Proof.
  intros Hee. apply advance_keeps.
  - intros f c w0. apply exec_WF. exact Hee.
  - intros w0 w' Ha Hu. apply WFx_outside; assumption.
  - intros u G w0 HG. apply WFx_updUnit. exact HG.
Qed.

Lemma advance_StacksInv fuel t (w : World) :
  StacksInv w -> post (advance fuel t w) StacksInv.
Proof.
  apply advance_keeps.
  - intros f c w0. apply (ss_inv _ (exec_stacks_safe f)).
  - intros w0 w' Ha _. apply StacksInv_outside. exact Ha.
  - intros u G w0 _. apply StacksInv_outside. reflexivity.
Qed.

End Expiry.

(** ** Randomness *)

Section RandomnessFacts.
Context {PF : Platform} {RI : RandImpl}.

(** A draw takes its value from the generator of its label, and puts the
    generator back. *)
Lemma draw_spec d (m : RandManager) :
  exists m',
    draw d m = ((draw_from d (labelRand (label_of d) m)).1, m')
    /\ isTest m' = isTest m
    /\ RandomSeed m' = RandomSeed m
    /\ labelRand (label_of d) m' = (draw_from d (labelRand (label_of d) m)).2
    /\ (isTest m = true ->
        rand m' = rand m
        /\ forall l, l <> label_of d -> labelRand l m' = labelRand l m)
    /\ (isTest m = false -> forall l, labelRand l m' = labelRand (label_of d) m').
Proof.
  assert (HF : forall l, exists m',
    RandomFloat l m = ((NextFloat64 (labelRand l m)).1, m')
    /\ isTest m' = isTest m /\ RandomSeed m' = RandomSeed m
    /\ labelRand l m' = (NextFloat64 (labelRand l m)).2
    /\ (isTest m = true ->
        rand m' = rand m /\ forall l', l' <> l -> labelRand l' m' = labelRand l' m)
    /\ (isTest m = false -> forall l', labelRand l' m' = labelRand l m')).
  { intros l. unfold RandomFloat, labelRand. destruct (isTest m) eqn:Et; cbn [negb].
    - destruct (NextFloat64 _) as [x r] eqn:En. eexists. split; [ reflexivity | ].
      cbn [isTest RandomSeed testRands rand fst snd negb].
      rewrite lookup_insert_eq. repeat split; auto; try discriminate.
      intros l' Hl'. rewrite lookup_insert_ne by congruence. reflexivity.
    - destruct (NextFloat64 (rand m)) as [x r] eqn:En. eexists. split; [ reflexivity | ].
      cbn [isTest RandomSeed testRands rand fst snd negb].
      repeat split; auto; discriminate. }
  destruct d as [l|lo hi|lo hi l|p l]; cbn [draw label_of]; unfold draw_from.
  - destruct (HF l) as (m' & -> & H). exists m'.
    destruct (NextFloat64 (labelRand l m)). cbn [fst snd] in *. split; [ reflexivity | exact H ].
  - unfold Roll, RollWithLabel. destruct (HF "Damage Roll") as (m' & -> & H). exists m'.
    destruct (NextFloat64 (labelRand "Damage Roll" m)). cbn [fst snd] in *.
    split; [ reflexivity | exact H ].
  - unfold RollWithLabel. destruct (HF l) as (m' & -> & H). exists m'.
    destruct (NextFloat64 (labelRand l m)). cbn [fst snd] in *.
    split; [ reflexivity | exact H ].
  - unfold Proc. destruct (HF l) as (m' & E & H).
    destruct (NextFloat64 (labelRand l m)) as [x r] eqn:En. cbn [fst snd] in *.
    destruct (f_ge p (f_lit 100)); [ | destruct (f_le p (f_lit 0)) ].
    + exists m. cbn [fst snd]. repeat split; auto.
      intros Et l'. unfold labelRand. rewrite Et. reflexivity.
    + exists m. cbn [fst snd]. repeat split; auto.
      intros Et l'. unfold labelRand. rewrite Et. reflexivity.
    + rewrite E. exists m'. cbn [fst snd]. split; [ reflexivity | exact H ].
Qed.


Lemma draw_same d (m1 m2 : RandManager) :
  same_generators m1 m2 ->
  (draw d m1).1 = (draw d m2).1 /\ same_generators (draw d m1).2 (draw d m2).2.
Proof.
  intros [Ht Hg].
  destruct (draw_spec d m1) as (m1' & -> & Ht1 & _ & Hl1 & Hk1 & Hn1).
  destruct (draw_spec d m2) as (m2' & -> & Ht2 & _ & Hl2 & Hk2 & Hn2).
  cbn [fst snd]. rewrite Hg. split; [ reflexivity | ].
  split; [ congruence | ].
  intros l. destruct (isTest m1) eqn:E1.
  - destruct (decide (l = label_of d)) as [->|Hne].
    + rewrite Hl1, Hl2, Hg. reflexivity.
    + destruct (Hk1 eq_refl) as [_ K1]. destruct Hk2 as [_ K2]; [ congruence | ].
      rewrite K1, K2 by exact Hne. apply Hg.
  - rewrite Hn1, Hn2 by congruence. rewrite Hl1, Hl2, Hg. reflexivity.
Qed.

Lemma draws_same ds (m1 m2 : RandManager) :
  same_generators m1 m2 -> (draws ds m1).1 = (draws ds m2).1.
Proof.
  revert m1 m2. induction ds as [|d ds IH]; intros m1 m2 H; cbn [draws]; [ reflexivity | ].
  destruct (draw_same d m1 m2 H) as [Hv Hs].
  destruct (draw d m1) as [x1 m1'], (draw d m2) as [x2 m2']. cbn [fst snd] in Hv, Hs.
  specialize (IH _ _ Hs).
  destruct (draws ds m1') as [xs1 n1], (draws ds m2') as [xs2 n2]. cbn [fst] in *.
  congruence.
Qed.

(** In test mode the draws under a label are those of the label's own
    generator, whatever is drawn under other labels in between. *)
Lemma drawn_under_stream label ds (m : RandManager) :
  isTest m = true ->
  drawn_under label ds m = stream (under label ds) (labelRand label m).
Proof.
  revert m. induction ds as [|d ds IH]; intros m Ht; cbn [drawn_under under List.filter stream];
    [ reflexivity | ].
  destruct (draw_spec d m) as (m' & -> & Ht' & _ & Hl & Hk & _).
  destruct (Hk Ht) as [_ Hoth]. rewrite Ht in Ht'.
  case_bool_decide as Hd.
  - subst label. cbn [stream]. fold (under (label_of d) ds).
    rewrite (IH m' Ht'), Hl.
    destruct (draw_from d (labelRand (label_of d) m)) as [x r]. reflexivity.
  - fold (under label ds). rewrite (IH m' Ht'), Hoth by congruence. reflexivity.
Qed.

Lemma reseed_generators i label (m : RandManager) :
  seeding_resets -> seed_is_kept ->
  labelRand label (reseedRands i m)
  = NewSplitMix (to_uint64
      (if isTest m then makeTestRandSeed (add64 (RandomSeed m) i) label
       else add64 (RandomSeed m) i)).
Proof.
  intros H1 H2. unfold labelRand, reseedRands. cbv zeta.
  destruct (isTest m) eqn:Et; cbn [isTest rand testRands negb]; rewrite ?Et; cbn [negb].
  - rewrite map_lookup_imap. destruct (testRands m !! label) as [rng|]; cbn.
    + apply H1.
    + unfold add64. rewrite H2. reflexivity.
  - apply H1.
Qed.

(** C4: if seeding a generator resets it to the state of a new one and the
    generator reports the seed last set, then (1) two managers with the
    same base seed and the same mode, reseeded for the same iteration,
    return the same values on the same sequence of draws, whatever their
    state was before; (2) in test mode the values drawn under a label after
    a reseed are those of a new generator whose seed is the hash of the
    label followed by the iteration seed in hexadecimal, the iteration seed
    being the base seed plus the iteration in int64, and that generator is
    fed with the draws under that label alone; (3) in test mode, at any
    time, two sequences of draws that agree on the draws under a label
    return the same values under that label. *)
Theorem reseed_determinism :
  seeding_resets -> seed_is_kept ->
  (forall i m1 m2 ds,
     RandomSeed m1 = RandomSeed m2 -> isTest m1 = isTest m2 ->
     (draws ds (reseedRands i m1)).1 = (draws ds (reseedRands i m2)).1)
  /\ (forall i m label ds,
        isTest m = true ->
        drawn_under label ds (reseedRands i m)
        = stream (under label ds)
            (NewSplitMix (to_uint64 (to_int64
               (hash (label +:+ FormatInt (add64 (RandomSeed m) i) 16))))))
  /\ (forall m label ds1 ds2,
        isTest m = true -> under label ds1 = under label ds2 ->
        drawn_under label ds1 m = drawn_under label ds2 m).
Proof.
  intros H1 H2. split; [ | split ].
  - intros i m1 m2 ds Hs Ht. apply draws_same. split.
    + unfold reseedRands. cbv zeta. destruct (isTest m1), (isTest m2); try discriminate; reflexivity.
    + intros l. rewrite !reseed_generators by assumption. rewrite Hs, Ht. reflexivity.
  - intros i m label ds Ht.
    rewrite drawn_under_stream.
    + rewrite reseed_generators by assumption. rewrite Ht. reflexivity.
    + unfold reseedRands. cbv zeta. rewrite Ht. reflexivity.
  - intros m label ds1 ds2 Ht Hu. rewrite !drawn_under_stream by exact Ht.
    rewrite Hu. reflexivity.
Qed.

End RandomnessFacts.

(** ** The phase ladder *)

Section Phases.
Context {PF : Platform} {PG : Program}.

Lemma same_view_refl (w : World) : same_view w w.
Proof. split; [ | split ]; reflexivity. Qed.

Lemma same_view_trans (w1 w2 w3 : World) :
  same_view w1 w2 -> same_view w2 w3 -> same_view w1 w3.
Proof.
  intros (A1 & B1 & C1) (A2 & B2 & C2). split; [ congruence | ].
  split; [ congruence | ]. etrans; eauto.
Qed.

Lemma filter_aura_events evs :
  forallb aura_event evs = true -> List.filter isPhase evs = [].
Proof.
  induction evs as [|e evs IH]; cbn; [ reflexivity | ].
  intros H. apply andb_prop in H. destruct H as [He Hevs].
  destruct e; try discriminate; cbn; auto.
Qed.

Lemma same_view_stable (w : World) : exec_stable (same_view w).
Proof.
  split; [ | split ].
  - intros w1 w2 [Ho (evs & Hl & Hevs)] (A & B & C). split; [ | split ].
    + rewrite <- A. exact (f_equal executePhase Ho).
    + rewrite Hl, List.filter_app, (filter_aura_events _ Hevs), app_nil_r. exact B.
    + replace (executePhaseCallbacks w2) with (executePhaseCallbacks w1); [ exact C | ].
      symmetry. exact (f_equal executePhaseCallbacks Ho).
  - intros call c w0 Hc (A & B & C).
    destruct (step_cmd call c w0) as [w1| | |] eqn:E; cbn [post]; auto.
    destruct (outer_cmd_shape call c w0 w1 Hc E) as (Hl & _ & _ & _ & _ & Hp & _ & _ & Hcb).
    split; [ congruence | ]. split; [ rewrite Hl; exact B | ]. etrans; eauto.
  - intros p w0 (A & B & C).
    destruct (cancel_writes_shape p w0) as (evs & -> & Hevs). split; [ exact A | ].
    split; [ | exact C ]. cbn. rewrite List.filter_app, B.
    destruct Hevs as [->|[-> _]]; apply app_nil_r.
Qed.

Lemma exec_view fuel c (w : World) : post (exec fuel c w) (same_view w).
Proof. apply exec_preserves; [ apply same_view_stable | apply same_view_refl ]. Qed.

Lemma run_view fuel p (w0 w : World) :
  same_view w0 w -> post (runProg (exec fuel) p w) (fun r => same_view w0 r.2).
Proof. apply run_preserves, same_view_stable. Qed.

Lemma same_view_fields (w w' : World) :
  executePhase w' = executePhase w -> log w' = log w ->
  executePhaseCallbacks w' = executePhaseCallbacks w -> same_view w w'.
Proof. intros A B C. split; [ exact A | ]. split; [ rewrite B | rewrite C ]; reflexivity. Qed.


Lemma runPhaseCallbacks_spec fuel i cbs (w : World) :
  post (runPhaseCallbacks fuel i cbs w) (fun w' =>
    executePhase w' = executePhase w
    /\ List.filter isPhase (log w')
       = List.filter isPhase (log w)
         ++ imap (fun j cb => EvPhase (i + j) cb (executePhase w)) cbs
    /\ executePhaseCallbacks w `prefix_of` executePhaseCallbacks w').
Proof.
  revert i w. induction cbs as [|cb cbs IH]; intros i w; cbn [runPhaseCallbacks].
  - cbn. rewrite app_nil_r. split; [ | split ]; reflexivity.
  - cbv zeta. apply post_bind.
    eapply post_mono; [ | apply (run_view fuel _ _ _ (same_view_refl _)) ].
    intros [v w1] (A & B & C). cbn [snd] in A, B, C.
    eapply post_mono; [ | apply IH ].
    intros w2 (A2 & B2 & C2). cbn [executePhase emit set_log log] in A, B, C.
    split; [ congruence | ]. split; [ | etrans; eauto ].
    rewrite B2, B, List.filter_app. cbn [List.filter isPhase].
    rewrite <- app_assoc. f_equal. cbn [imap app]. rewrite A, Nat.add_0_r. f_equal.
    apply imap_ext. intros j x _. cbn. f_equal. lia.
Qed.

Lemma nextExecutePhase_spec (w : World) :
  post (nextExecutePhase w) (fun w1 =>
    next_phase (executePhase w) = Some (executePhase w1)
    /\ log w1 = log w
    /\ executePhaseCallbacks w1 = executePhaseCallbacks w).
Proof.
  unfold nextExecutePhase, next_phase, setup. cbv zeta.
  repeat (destruct (executePhase w =? _); [ cbn [post];
    try (destruct (f_gt _ _)); repeat split | ]).
  exact I.
Qed.

Lemma last_cons {A : Type} (a d : A) l : List.last (a :: l) d = List.last l a.
Proof.
  revert a d. induction l as [|b l IH]; intros a d; [ reflexivity | ].
  change (List.last (a :: b :: l) d) with (List.last (b :: l) d).
  rewrite !IH. reflexivity.
Qed.

Lemma ladder_path_app p l1 l2 :
  ladder_path p l1 -> ladder_path (List.last l1 p) l2 -> ladder_path p (l1 ++ l2).
Proof.
  revert p. induction l1 as [|q l IH]; intros p H1 H2; [ exact H2 | ].
  destruct H1 as [Hn H1]. cbn [app ladder_path]. split; [ exact Hn | ].
  apply IH; [ exact H1 | ]. rewrite last_cons in H2. exact H2.
Qed.

Lemma last_app_cons {A : Type} (l1 l2 : list A) d :
  List.last (l1 ++ l2) d = List.last l2 (List.last l1 d).
Proof.
  revert d. induction l1 as [|q l IH]; intros d; [ reflexivity | ].
  change ((q :: l) ++ l2) with (q :: (l ++ l2)).
  rewrite !last_cons. apply IH.
Qed.

Lemma phase_rounds_nil (w w' : World) : same_view w w' -> phase_rounds [] w w'.
Proof.
  intros (A & B & C). unfold phase_rounds. cbn. rewrite app_nil_r.
  repeat split; auto.
Qed.

Lemma phase_rounds_app r1 r2 (w1 w2 w3 : World) :
  phase_rounds r1 w1 w2 -> phase_rounds r2 w2 w3 -> phase_rounds (r1 ++ r2) w1 w3.
Proof.
  intros (A1 & B1 & C1 & D1 & E1) (A2 & B2 & C2 & D2 & E2). unfold phase_rounds.
  split; [ rewrite A2, A1, flat_map_app, app_assoc; reflexivity | ].
  split; [ | split; [ | split ] ].
  - rewrite map_app. apply ladder_path_app; [ exact B1 | ]. rewrite <- C1. exact B2.
  - rewrite C2, C1, map_app, last_app_cons. reflexivity.
  - apply Forall_app. split; [ exact D1 | ].
    eapply Forall_impl; [ exact D2 | ]. intros r Hr. etrans; eauto.
  - etrans; eauto.
Qed.

Lemma phaseLoop_rounds fuel n (w : World) :
  post (phaseLoop fuel n w) (fun w' =>
    exists rounds, phase_rounds rounds w w' /\ crossed w' = false).
Proof.
  revert w. induction n as [|n IH]; intros w; cbn [phaseLoop];
    fold (crossed w); destruct (crossed w) eqn:Ec; cbn [post]; try exact I;
    try (exists []; split; [ apply phase_rounds_nil, same_view_refl | exact Ec ]).
  apply post_bind. eapply post_mono; [ | apply nextExecutePhase_spec ].
  intros w1 (Hn & Hl1 & Hc1). apply post_bind.
  eapply post_mono; [ | apply runPhaseCallbacks_spec ].
  intros w2 (Hp2 & Hl2 & Hc2).
  eapply post_mono; [ | apply IH ].
  intros w' (rounds & Hr & Hcr).
  exists ([(executePhase w1, executePhaseCallbacks w1)] ++ rounds).
  split; [ | exact Hcr ].
  eapply phase_rounds_app; [ | exact Hr ].
  unfold phase_rounds. cbn [flat_map map fst snd ladder_path List.last].
  split; [ rewrite app_nil_r, Hl2, Hl1; reflexivity | ].
  split; [ auto | ]. split; [ exact Hp2 | ].
  split; [ constructor; [ cbn [snd]; rewrite Hc1; reflexivity | constructor ] | ].
  rewrite <- Hc1. exact Hc2.
Qed.

(** The tracker loop under a property that no API call disturbs. *)
Section BlindClock.
Variable J : World -> Prop.
Hypothesis HJ : exec_stable J.

Lemma J_aura_side (w w' : World) : aura_side w w' -> J w -> J w'.
Proof. destruct HJ as [Hb _]. apply Hb. Qed.

Lemma at_advance_stable fuel n u w :
  J w -> post (at_advance fuel n u w) (fun r => J r.2).
Proof.
  revert w. induction n as [|n IH]; intros w Hw; cbn [at_advance];
    apply post_bind, post_getUnit; intros U _; apply post_bind;
    (eapply post_mono; [ | apply scanActive_side ]);
    intros [[a|] w1] Hs;
    assert (Hw1 : J w1) by
      (eapply J_aura_side; [ exact Hs | ];
       eapply J_aura_side; [ apply aura_side_updUnit | exact Hw ]);
    try (apply post_bind, post_getUnit; intros U1 _; exact Hw1); [ exact I | ].
  apply post_bind. eapply post_mono; [ | apply exec_preserves; [ exact HJ | exact Hw1 ] ].
  intros w2 Hw2. apply IH. exact Hw2.
Qed.

Lemma advanceTrackers_stable fuel l w :
  J w -> post (advanceTrackers fuel l w) J.
Proof.
  revert w. induction l as [|t l IH]; intros w Hw; cbn [advanceTrackers]; [ exact Hw | ].
  apply post_bind. unfold tryAdvance. apply post_bind, post_getUnit. intros U _.
  eapply post_mono with (P := fun r => J r.2).
  2: { destruct (_ <? _); [ exact Hw | apply at_advance_stable; exact Hw ]. }
  intros [m w'] Hw'. apply IH.
  eapply J_aura_side; [ | exact Hw' ]. apply (aura_side_reschedule m w').
Qed.

End BlindClock.

Lemma advance_rounds fuel t (w : World) :
  post (advance fuel t w) (fun w' =>
    exists rounds w1,
      phaseLoop fuel fuel (set_CurrentTime t w) = Ok w1
      /\ crossed w1 = false
      /\ phase_rounds rounds w w1 /\ same_view w1 w').
Proof.
  unfold advance. cbv zeta.
  pose proof (phaseLoop_rounds fuel fuel (set_CurrentTime t w)) as Hloop.
  destruct (phaseLoop fuel fuel (set_CurrentTime t w)) as [w1| | |]; cbn [post bindR] in *;
    try exact I.
  destruct Hloop as (rounds & Hr & Hcr).
  assert (Hr' : phase_rounds rounds w w1) by exact Hr.
  destruct (minTrackerTime w1 <=? CurrentTime w1).
  - eapply post_mono; [ | apply (advanceTrackers_stable _ (same_view_stable w1)) ].
    + intros w' Hv. exists rounds, w1. auto.
    + apply same_view_fields; reflexivity.
  - cbn [post]. exists rounds, w1. split; [ reflexivity | ]. split; [ exact Hcr | ].
    split; [ exact Hr' | apply same_view_refl ].
Qed.

Lemma ladder_descends p qs :
  ladder_path p qs -> p ∈ ladder ->
  StronglySorted (fun a b => b < a) (p :: qs) /\ Forall (fun q => q ∈ ladder) qs.
Proof.
  revert p. induction qs as [|q qs IH]; intros p Hpath Hp.
  - split; repeat constructor.
  - destruct Hpath as [Hn Hpath].
    assert (Hq : q ∈ ladder /\ q < p).
    { unfold next_phase in Hn.
      destruct (p =? 0) eqn:E0.
      { apply Z.eqb_eq in E0. subst p. unfold ladder in Hp.
        repeat (apply elem_of_cons in Hp as [Hp|Hp]; [ discriminate | ]). inversion Hp. }
      repeat (match type of Hn with
              | (if ?b then _ else _) = _ =>
                  let E := fresh "E" in
                  destruct b eqn:E;
                  [ injection Hn as <-; apply Z.eqb_eq in E; subst p;
                    split; [ unfold ladder; repeat constructor | lia ] | ]
              end).
      discriminate. }
    destruct Hq as [Hq Hlt]. destruct (IH q Hpath Hq) as [Hs Hf].
    split; [ | constructor; assumption ].
    constructor; [ exact Hs | ].
    constructor; [ exact Hlt | ].
    apply StronglySorted_inv in Hs as [_ Hall].
    eapply Forall_impl; [ exact Hall | ]. cbn. intros x Hx. lia.
Qed.

End Phases.

Section StacksTheorem.
Context {PF : Platform} {PG : Program}.

(** C5: from a state in which every aura has between zero and [MaxStacks]
    stacks, and none while inactive, every sequence of API calls, with
    whatever the hooks and callbacks do in between, leads to such a state
    again: [GetStacks] is zero on an inactive aura and never above
    [MaxStacks]. *)
Theorem stacks_invariant fuel (ops : list Cmd) (w w' : World) :
  StacksInv w ->
  sequence (map (exec fuel) ops) w = Ok w' ->
  forall a A, aurasH w' !! a = Some A ->
    (IsActive (Some A) = false -> GetStacks (Some A) = 0)
    /\ 0 <= GetStacks (Some A) <= MaxStacks A.
Proof.
  intros HS Hrun.
  assert (HS' : StacksInv w').
  { revert w HS Hrun. induction ops as [|c ops IH]; intros w HS Hrun; cbn in Hrun.
    - injection Hrun as <-. exact HS.
    - pose proof (ss_inv _ (exec_stacks_safe fuel) c w HS) as Hc.
      destruct (exec fuel c w) as [w1| | |]; try discriminate.
      cbn in Hrun. eapply IH; eauto. }
  intros a A HA. exact (StacksInv_lookup _ _ _ HS' HA).
Qed.

End StacksTheorem.

(** ** Further properties of the engine *)

Section Coverage.
Context {PF : Platform} {PG : Program}.

Lemma sequence_clock_keeps (J : World -> Prop) fuel ops (w w' : World) :
  (forall c w0, J w0 -> post (exec fuel c w0) J) ->
  (forall t w0, J w0 -> post (advance fuel t w0) J) ->
  Forall (clock_or_call fuel) ops ->
  J w -> sequence ops w = Ok w' -> J w'.
Proof.
  intros He Ha Hops. apply sequence_keeps.
  eapply Forall_impl; [ exact Hops | ].
  intros op [[t ->]|[c ->]] w0; auto.
Qed.

(** Under [WF] a dispatch array lists exactly the active auras of its unit
    that register for it, each once. *)
Lemma WF_arrays (w : World) u U s :
  WF w -> unitsH w !! u = Some U ->
  NoDup (arrays U s)
  /\ forall a, a ∈ arrays U s <->
       exists A, aurasH w !! a = Some A /\ Unit A = u /\ active A = true
                 /\ registers A s = true.
Proof.
  intros HW HU. split.
  - apply NoDup_alt. intros i j a Hi Hj.
    destruct (wf_arr _ _ HW _ _ _ _ _ HU Hi) as (A & HA & _ & Hia).
    destruct (wf_arr _ _ HW _ _ _ _ _ HU Hj) as (A' & HA' & _ & Hja).
    rewrite HA in HA'. injection HA' as <-. lia.
  - intros a. split.
    + intros Ha. apply list_elem_of_lookup_1 in Ha as [i Hi].
      destruct (wf_arr _ _ HW _ _ _ _ _ HU Hi) as (A & HA & HuA & Hia).
      exists A. split; [ exact HA | ]. split; [ exact HuA | ].
      apply (wf_act _ _ HW a A s); [ discriminate | exact HA | ].
      rewrite Hia. unfold Inactive. lia.
    + intros (A & HA & HuA & Hact & Hreg).
      assert (Hidx : index A s <> Inactive).
      { apply (wf_act _ _ HW a A s); [ discriminate | exact HA | auto ]. }
      destruct (wf_idx _ _ HW _ _ _ HA Hidx) as (U' & i & HU' & _ & Hi).
      rewrite HuA, HU in HU'. injection HU' as <-.
      eapply list_elem_of_lookup_2; eauto.
Qed.

(** X1: over any sequence of API calls and clock advances, with whatever
    the hooks do, each dispatch array of each unit holds exactly the auras
    of that unit that are active and register for the array, each of them
    once; provided that this was so at the start and that the activation of
    an exclusive effect does not call back into the API. *)
Theorem dispatch_arrays_exact fuel ops (w w' : World) :
  (forall ee, observer (eeActivate ee)) ->
  WF w ->
  Forall (clock_or_call fuel) ops -> sequence ops w = Ok w' ->
  forall u U s, unitsH w' !! u = Some U ->
    NoDup (arrays U s)
    /\ forall a, a ∈ arrays U s <->
         exists A, aurasH w' !! a = Some A /\ Unit A = u /\ active A = true
                   /\ registers A s = true.
Proof.
  intros Hee HW Hops Hrun u U s HU. apply WF_arrays; [ | exact HU ].
  apply (sequence_clock_keeps WF fuel ops w w'); auto.
  - intros c w0. apply exec_WF. exact Hee.
  - intros t w0. apply advance_WF. exact Hee.
Qed.

(** X2: the stack invariant also survives the clock: over any sequence of
    API calls and clock advances (which expire auras), every aura keeps
    between zero and [MaxStacks] stacks, and none while inactive. *)
Theorem stacks_invariant_clock fuel ops (w w' : World) :
  StacksInv w ->
  Forall (clock_or_call fuel) ops -> sequence ops w = Ok w' ->
  forall a A, aurasH w' !! a = Some A ->
    (IsActive (Some A) = false -> GetStacks (Some A) = 0)
    /\ 0 <= GetStacks (Some A) <= MaxStacks A.
Proof.
  intros HS Hops Hrun a A HA.
  assert (HS' : StacksInv w').
  { apply (sequence_clock_keeps StacksInv fuel ops w w'); auto.
    - intros c w0. apply (ss_inv _ (exec_stacks_safe fuel)).
    - intros t w0. apply advance_StacksInv. }
  exact (StacksInv_lookup _ _ _ HS' HA).
Qed.


(** *** The clock *)

Lemma time_stable t : exec_stable (fun w0 : World => CurrentTime w0 = t).
Proof.
  split; [ | split ].
  - intros w1 w2 [Ho _] H1. rewrite <- H1.
    exact (f_equal CurrentTime Ho).
  - intros call c0 w0 Hc H0.
    destruct (step_cmd call c0 w0) as [w1| | |] eqn:E; cbn [post]; auto.
    destruct (outer_cmd_shape call c0 w0 w1 Hc E) as (_ & _ & _ & _ & Ht & _).
    congruence.
  - intros p w0 H0. destruct (cancel_writes_shape p w0) as (evs & -> & _). exact H0.
Qed.

Lemma run_time fuel p (w : World) :
  post (runProg (exec fuel) p w) (fun r => CurrentTime r.2 = CurrentTime w).
Proof. apply (run_preserves _ (time_stable (CurrentTime w))). reflexivity. Qed.

Lemma nextExecutePhase_time (w : World) :
  post (nextExecutePhase w) (fun w1 => CurrentTime w1 = CurrentTime w).
Proof.
  unfold nextExecutePhase, setup. cbv zeta.
  repeat (destruct (executePhase w =? _); [ cbn [post];
    try (destruct (f_gt _ _)); reflexivity | ]).
  exact I.
Qed.

Lemma runPhaseCallbacks_time fuel i cbs (w : World) :
  post (runPhaseCallbacks fuel i cbs w) (fun w' => CurrentTime w' = CurrentTime w).
Proof.
  revert i w. induction cbs as [|cb cbs IH]; intros i w; cbn [runPhaseCallbacks];
    [ reflexivity | ].
  cbv zeta. apply post_bind. eapply post_mono; [ | apply run_time ].
  intros [v w1] H1. cbn [snd] in H1. eapply post_mono; [ | apply IH ].
  intros w2 H2. cbn in H2. rewrite H2, H1. reflexivity.
Qed.

Lemma phaseLoop_time fuel n (w : World) :
  post (phaseLoop fuel n w) (fun w' => CurrentTime w' = CurrentTime w).
Proof.
  revert w. induction n as [|n IH]; intros w; cbn [phaseLoop];
    destruct (_ || _); cbn [post]; try reflexivity; try exact I.
  apply post_bind. eapply post_mono; [ | apply nextExecutePhase_time ].
  intros w1 H1. apply post_bind. eapply post_mono; [ | apply runPhaseCallbacks_time ].
  intros w2 H2. eapply post_mono; [ | apply IH ].
  intros w3 H3. cbn in H3. congruence.
Qed.

Lemma advance_time fuel t (w : World) :
  post (advance fuel t w) (fun w' => CurrentTime w' = t).
Proof.
  unfold advance. cbv zeta. apply post_bind.
  eapply post_mono; [ | apply phaseLoop_time ].
  intros w1 H1. cbn [CurrentTime set_CurrentTime] in H1.
  destruct (_ <=? _); [ | exact H1 ].
  apply (advanceTrackers_stable _ (time_stable t)). exact H1.
Qed.

Lemma swingAll_time fuel l (w : World) :
  post (swingAll fuel l w) (fun w' => CurrentTime w' = CurrentTime w).
Proof.
  revert w. induction l as [|x l IH]; intros w; cbn [swingAll]; [ reflexivity | ].
  apply post_bind. eapply post_mono; [ | apply run_time ].
  intros [t w1] H1. cbn [snd] in H1. eapply post_mono; [ | apply IH ].
  intros w2 H2. cbn in H2. congruence.
Qed.

Lemma runTasks_time fuel l (w : World) :
  post (runTasks fuel l w) (fun w' => CurrentTime w' = CurrentTime w).
Proof.
  revert w. induction l as [|x l IH]; intros w; cbn [runTasks]; [ reflexivity | ].
  apply post_bind. eapply post_mono; [ | apply run_time ].
  intros [t w1] H1. cbn [snd] in H1. eapply post_mono; [ | apply IH ].
  intros w2 H2. cbn in H2. congruence.
Qed.

Lemma dispose_time p (w : World) : CurrentTime (dispose p w) = CurrentTime w.
Proof.
  unfold dispose. destruct (actionsH w !! p) as [PA|]; [ | reflexivity ].
  destruct (canPool PA); reflexivity.
Qed.

Lemma Step_time fuel (w : World) :
  post (Step fuel w) (fun r => CurrentTime w <= CurrentTime r.2).
Proof.
  unfold Step. destruct (last (pendingActions w)) as [p|]; [ | exact I ].
  apply post_bind. unfold getAction.
  destruct (actionsH w !! p) as [PA|]; [ cbn [post] | exact I ].
  destruct (_ && _).
  { destruct (combatOver _ _); cbn [post snd]; [ lia | ].
    apply post_bind. unfold advanceWeaponAttacks. apply post_bind.
    destruct (CurrentTime w <? minWeaponAttackTime w) eqn:E.
    - apply Z.ltb_lt in E. eapply post_mono; [ | apply advance_time ].
      intros w1 H1. cbn beta in H1. eapply post_mono; [ | apply swingAll_time ].
      intros w2 H2. cbn in H2 |- *. lia.
    - cbn [post]. eapply post_mono; [ | apply swingAll_time ].
      intros w2 H2. cbn in H2 |- *. lia. }
  destruct (_ <=? _).
  { destruct (combatOver _ _); cbn [post snd]; [ lia | ].
    apply post_bind. unfold advanceTasks. apply post_bind.
    destruct (CurrentTime w <? minTaskTime w) eqn:E.
    - apply Z.ltb_lt in E. eapply post_mono; [ | apply advance_time ].
      intros w1 H1. cbn beta in H1. eapply post_mono; [ | apply runTasks_time ].
      intros w2 H2. cbn in H2 |- *. lia.
    - cbn [post]. eapply post_mono; [ | apply runTasks_time ].
      intros w2 H2. cbn in H2 |- *. lia. }
  cbv zeta.
  destruct (cancelled PA); [ cbn [post snd]; rewrite dispose_time; cbn; lia | ].
  destruct (combatOver _ _); [ cbn [post snd]; rewrite dispose_time; cbn; lia | ].
  apply post_bind.
  match goal with |- post (if ?c then _ else _) _ => destruct c eqn:E end.
  - apply Z.ltb_lt in E. cbn [CurrentTime updAction set_actionsH set_pendingActions] in E.
    eapply post_mono; [ | apply advance_time ].
    intros w2 H2. cbn beta in H2. apply post_bind. unfold getAction.
    destruct (actionsH w2 !! p) as [PA2|]; [ cbn [post] | exact I ].
    destruct (cancelled PA2); [ cbn [post snd]; rewrite dispose_time; lia | ].
    apply post_bind. unfold runAction.
    destruct (OnAction PA2); try exact I.
    apply post_bind. eapply post_mono; [ | apply run_time ].
    intros [v w3] H3. cbn [snd post] in H3 |- *. rewrite dispose_time, H3. cbn. lia.
  - cbn [post]. apply post_bind. unfold getAction.
    match goal with |- post (match ?x with _ => _ end) _ => destruct x as [PA2|] end;
      [ cbn [post] | exact I ].
    destruct (cancelled PA2); [ cbn [post snd]; rewrite dispose_time; cbn; lia | ].
    apply post_bind. unfold runAction.
    destruct (OnAction PA2); try exact I.
    apply post_bind. eapply post_mono; [ | apply run_time ].
    intros [v w3] H3. cbn [snd post] in H3 |- *. rewrite dispose_time, H3. cbn. lia.
Qed.

(** X3: the engine does not move the clock backwards.  No call of the API
    changes the current time, whatever callbacks it runs, as long as these
    act through the API as well (in the source [CurrentTime] is an exported
    field, which a callback could also write); [advance(t)] returns with
    the current time at [t] whatever the phase callbacks and expiry hooks
    do; and the event loop never returns with the current time before what
    it started with. *)
Theorem clock_never_runs_backwards fuel :
  (forall c (w w' : World), exec fuel c w = Ok w' -> CurrentTime w' = CurrentTime w)
  /\ (forall t (w w' : World), advance fuel t w = Ok w' -> CurrentTime w' = t)
  /\ (forall n (w w' : World),
        runPendingActions fuel n w = Ok w' -> CurrentTime w <= CurrentTime w').
Proof.
  split; [ | split ].
  - intros c w w' H.
    exact (post_Ok _ _ _ (exec_preserves _ (time_stable (CurrentTime w)) fuel c w eq_refl) H).
  - intros t w w' H. exact (post_Ok _ _ _ (advance_time fuel t w) H).
  - intros n. induction n as [|n IH]; intros w w' H; cbn [runPendingActions] in H;
      [ discriminate | ].
    pose proof (Step_time fuel w) as HS.
    destruct (Step fuel w) as [[fin w1]| | |]; cbn [bindR post snd] in *; try discriminate.
    destruct fin.
    + injection H as <-. exact HS.
    + specialize (IH _ _ H). lia.
Qed.

End Coverage.

Section SwapRemove.

(** Within bounds [removeBySwappingToBack] is [delete], up to the order. *)
Lemma removeBySwappingToBack_perm (arr : list nat) (k : nat) :
  (k < length arr)%nat -> removeBySwappingToBack arr k ≡ₚ delete k arr.
Proof.
  intros Hk.
  destruct (last arr) as [x|] eqn:Hl; [ | apply last_None in Hl; subst; cbn in Hk; lia ].
  unfold removeBySwappingToBack. rewrite Hl.
  apply last_Some in Hl as [l ->]. rewrite length_app in *. cbn [length] in *.
  replace (length l + 1 - 1)%nat with (length l) by lia.
  destruct (decide (k = length l)) as [->|Hne].
  - replace (length l) with (length l + 0)%nat at 2 3 by lia.
    rewrite insert_app_r. cbn [insert list_insert].
    replace (length l + 0)%nat with (length l) by lia.
    rewrite delete_take_drop, take_app_length.
    rewrite drop_ge by (rewrite length_app; cbn; lia).
    rewrite app_nil_r. reflexivity.
  - assert (Hkl : (k < length l)%nat) by lia.
    rewrite insert_app_l by exact Hkl.
    rewrite <- (length_insert l k x) at 1. rewrite take_app_length.
    rewrite insert_take_drop by exact Hkl. rewrite delete_take_drop.
    rewrite take_app_le by lia.
    rewrite drop_app_le by lia.
    apply Permutation_app_head.
    rewrite (Permutation_app_comm _ [x]). reflexivity.
Qed.

(** X4: [removeBySwappingToBack] with an index within bounds removes
    exactly the element at that index: the result is one shorter and is a
    permutation of the array without that element; the elements before the
    index stay where they are and, unless the index was the last one, the
    last element takes the freed place. *)
Theorem swap_remove_spec (arr : list nat) (k : nat) :
  (k < length arr)%nat ->
  length (removeBySwappingToBack arr k) = (length arr - 1)%nat
  /\ removeBySwappingToBack arr k ≡ₚ delete k arr
  /\ (forall i, (i < k)%nat -> removeBySwappingToBack arr k !! i = arr !! i)
  /\ ((k < length arr - 1)%nat -> removeBySwappingToBack arr k !! k = last arr).
Proof.
  intros Hk. split; [ | split; [ apply removeBySwappingToBack_perm; exact Hk | ] ].
  - apply removeBySwappingToBack_length. intros ->. cbn in Hk. lia.
  - destruct (last arr) as [x|] eqn:Hl;
      [ | apply last_None in Hl; subst; cbn in Hk; lia ].
    assert (Hdef : removeBySwappingToBack arr k
                   = take (length arr - 1) (<[k:=x]> arr)).
    { unfold removeBySwappingToBack. rewrite Hl. reflexivity. }
    rewrite Hdef. split.
    + intros i Hi. rewrite lookup_take_lt by lia.
      rewrite list_lookup_insert_ne by lia. reflexivity.
    + intros Hlt. rewrite lookup_take_lt by lia.
      rewrite list_lookup_insert_eq by lia. reflexivity.
Qed.

(** Removing what was appended last gives the array back. *)
Lemma removeBySwappingToBack_last (l : list nat) x :
  removeBySwappingToBack (l ++ [x]) (length l) = l.
Proof.
  unfold removeBySwappingToBack. rewrite last_snoc.
  rewrite length_app. cbn [length]. replace (length l + 1 - 1)%nat with (length l) by lia.
  rewrite list_insert_id by (apply list_lookup_middle; reflexivity).
  apply take_app_length.
Qed.

End SwapRemove.

Section RoundTrip.
Context {PF : Platform} {PG : Program}.
Hypothesis Hobs : all_observers.

Lemma Refresh_spec a A U (w : World) :
  aurasH w !! a = Some A -> unitsH w !! Unit A = Some U ->
  exists w' U',
    Refresh a w = Ok w'
    /\ aurasH w' !! a = Some (set_expires (refreshed_expiry A (CurrentTime w)) A)
    /\ (forall b, b <> a -> aurasH w' !! b = aurasH w !! b)
    /\ unitsH w' !! Unit A = Some U' /\ arrays U' = arrays U
    /\ (forall u, u <> Unit A -> unitsH w' !! u = unitsH w !! u)
    /\ log w' = log w /\ CurrentTime w' = CurrentTime w.
Proof.
  intros Ha HU. unfold Refresh, getAura, getUnit, refreshed_expiry. rewrite Ha. cbn [bindR].
  destruct (Duration A =? NeverExpires).
  - exists (updAura a (set_expires NeverExpires) w), U. split; [ reflexivity | ].
    cbn. rewrite list_lookup_alter_eq, Ha. repeat split; auto.
    intros b Hb. rewrite list_lookup_alter_ne by congruence. reflexivity.
  - cbv zeta. cbn [unitsH updAura set_aurasH]. rewrite HU. cbn [bindR].
    destruct (_ <? _).
    + eexists _, _. split; [ reflexivity | ]. cbn.
      rewrite !list_lookup_alter_eq, Ha, HU. cbn. repeat split; auto.
      * intros b Hb. rewrite list_lookup_alter_ne by congruence. reflexivity.
      * intros u Hu. rewrite list_lookup_alter_ne by congruence. reflexivity.
    + eexists _, U. split; [ reflexivity | ]. cbn.
      rewrite list_lookup_alter_eq, Ha. repeat split; auto.
      intros b Hb. rewrite list_lookup_alter_ne by congruence. reflexivity.
Qed.

Lemma activateEffects_accept call acq l (w : World) :
  effects_accept l -> activateEffects call acq l w = Ok (true, w).
Proof.
  revert acq. induction l as [|ee l IH]; intros acq H; cbn [activateEffects]; [ reflexivity | ].
  apply Forall_cons in H as [(v & -> & Hv) H]. cbn [runProg bindR].
  destruct (v =? 0) eqn:E; [ apply Z.eqb_eq in E; congruence | ].
  apply IH. exact H.
Qed.

(** [Activate] on an inactive aura, when hooks only observe and the
    exclusive effects accept. *)
Lemma Activate_inactive fuel a A U (w : World) :
  aurasH w !! a = Some A -> unitsH w !! Unit A = Some U ->
  active A = false -> Duration A <> 0 -> effects_accept (ExclusiveEffects A) ->
  exists w' A' U',
    Activate (exec fuel) a w = Ok w'
    /\ log w' = log w ++ hook_event (OnGain A) (EvOnGain a)
    /\ CurrentTime w' = CurrentTime w
    /\ aurasH w' !! a = Some A'
    /\ active A' = true /\ startTime A' = CurrentTime w
    /\ expires A' = refreshed_expiry A (CurrentTime w)
    /\ stacks A' = stacks A /\ same_config A A'
    /\ (forall s, index A' s = if registers A s
                               then Z.of_nat (length (arrays U s)) else index A s)
    /\ (forall b, b <> a -> aurasH w' !! b = aurasH w !! b)
    /\ unitsH w' !! Unit A = Some U'
    /\ (forall s, arrays U' s = if registers A s then arrays U s ++ [a]
                                else arrays U s)
    /\ (forall u, u <> Unit A -> unitsH w' !! u = unitsH w !! u).
Proof.
  intros Ha HU Hact Hdur Hacc.
  unfold Activate, getAura. rewrite Ha. cbn [bindR]. cbv zeta. rewrite Hact.
  destruct (Duration A =? 0) eqn:E0; [ apply Z.eqb_eq in E0; congruence | ].
  rewrite activateEffects_accept by exact Hacc. cbn [bindR negb].
  match goal with |- context [Refresh a ?x] => set (w2 := x) end.
  set (A2 := set_startTime (CurrentTime w) (set_active true (set_Procs (Procs A + 1) A))).
  assert (HA2 : aurasH w2 !! a = Some A2).
  { unfold w2. cbn. rewrite !list_lookup_alter_eq, Ha. reflexivity. }
  assert (Hoth2 : forall b, b <> a -> aurasH w2 !! b = aurasH w !! b).
  { intros b Hb. unfold w2. cbn. rewrite !list_lookup_alter_ne by congruence. reflexivity. }
  destruct (Refresh_spec a A2 U w2 HA2 HU)
    as (w3 & U3 & -> & HA3 & Hoth3 & HU3 & Harr3 & Hun3 & Hl3 & Ht3).
  cbn [bindR].
  destruct (register_spec a _ U3 w3 HA3 HU3)
    as (w4 & f & g & -> & HA4 & Hf & Hoth4 & Hun4 & HU4 & Hg & Hout4).
  cbn [bindR]. rewrite HA4. cbn [bindR].
  destruct (runHook_observer Hobs (exec fuel) (OnGain A) [Z.of_nat a] (EvOnGain a) w4)
    as (w5 & Hrun & Hl5 & Hs5).
  change (OnGain (set_index f (set_expires (refreshed_expiry A2 (CurrentTime w2)) A2)))
    with (OnGain A).
  rewrite Hrun.
  destruct (lookup_same_store _ _ Hs5) as (Ha5 & Hu5 & _).
  assert (Hlog4 : log w4 = log w).
  { change (log w4) with (log (outside_auras w4)). rewrite Hout4. exact Hl3. }
  assert (Ht4 : CurrentTime w4 = CurrentTime w).
  { change (CurrentTime w4) with (CurrentTime (outside_auras w4)). rewrite Hout4. exact Ht3. }
  eexists w5, _, _. split; [ reflexivity | ].
  split; [ rewrite Hl5, Hlog4; reflexivity | ].
  split; [ rewrite <- Ht4; exact (f_equal CurrentTime Hs5) | ].
  split; [ rewrite Ha5; exact HA4 | ].
  split; [ reflexivity | ]. split; [ reflexivity | ]. split; [ reflexivity | ].
  split; [ reflexivity | ]. split; [ repeat split | ].
  split; [ intros s; cbn [index set_index]; rewrite Hf, Harr3; destruct s; reflexivity | ].
  split; [ intros b Hb; rewrite Ha5, Hoth4, Hoth3, Hoth2 by exact Hb; reflexivity | ].
  split; [ rewrite Hu5; exact HU4 | ].
  split; [ intros s; cbn [arrays set_arrays]; rewrite Hg, Harr3; destruct s; reflexivity | ].
  intros u Hu. rewrite Hu5, Hun4, Hun3 by exact Hu. reflexivity.
Qed.

(** Under [WF] the recorded positions are determined by the arrays. *)
Lemma WF_index_determined (w w2 : World) b B B2 :
  WF w -> WF w2 ->
  (forall u U, unitsH w !! u = Some U ->
     exists U2, unitsH w2 !! u = Some U2 /\ forall s, arrays U2 s = arrays U s) ->
  aurasH w !! b = Some B -> aurasH w2 !! b = Some B2 -> Unit B2 = Unit B ->
  forall s, index B2 s = index B s.
Proof.
  intros HW HW2 Hunits HB HB2 Hu s.
  destruct (wf_unit _ _ HW _ _ HB) as [U HU].
  destruct (Hunits _ _ HU) as (U2 & HU2 & Harr).
  destruct (Z.eq_dec (index B s) Inactive) as [e|Hne].
  - rewrite e. destruct (Z.eq_dec (index B2 s) Inactive) as [e2|Hne2]; [ exact e2 | ].
    destruct (wf_idx _ _ HW2 _ _ _ HB2 Hne2) as (U2' & i & HU2' & Hi & Hl).
    rewrite Hu, HU2 in HU2'. injection HU2' as <-. rewrite Harr in Hl.
    destruct (wf_arr _ _ HW _ _ _ _ _ HU Hl) as (B' & HB' & _ & Hi').
    rewrite HB in HB'. injection HB' as <-. rewrite e in Hi'. unfold Inactive in Hi'. lia.
  - destruct (wf_idx _ _ HW _ _ _ HB Hne) as (U' & i & HU' & Hi & Hl).
    rewrite HU in HU'. injection HU' as <-. rewrite <- Harr in Hl.
    destruct (wf_arr _ _ HW2 _ _ _ _ _ HU2 Hl) as (B' & HB' & _ & Hi').
    rewrite HB2 in HB'. injection HB' as <-. congruence.
Qed.

(** X5: [Deactivate] undoes what [Activate] did to the dispatch arrays.
    When hooks only observe and the exclusive effects accept, activating an
    inactive aura and deactivating it again succeeds, runs the gain hook and
    then the expiry hook, once each, and leaves every dispatch array of
    every unit, every recorded position and every [active] flag as they
    were. *)
Theorem activate_deactivate_round_trip fuel a A (w : World) :
  WF w -> aurasH w !! a = Some A ->
  active A = false -> stacks A = 0 -> 0 <= MaxStacks A ->
  Duration A <> 0 -> effects_accept (ExclusiveEffects A) ->
  exists w1 w2,
    exec (S fuel) (CActivate a) w = Ok w1
    /\ exec (3 + fuel) (CDeactivate a) w1 = Ok w2
    /\ IsActive (aurasH w1 !! a) = true
    /\ (forall u U, unitsH w !! u = Some U ->
          exists U2, unitsH w2 !! u = Some U2 /\ forall s, arrays U2 s = arrays U s)
    /\ (forall b B, aurasH w !! b = Some B ->
          exists B2, aurasH w2 !! b = Some B2 /\ active B2 = active B
                     /\ forall s, index B2 s = index B s)
    /\ log w2 = log w ++ [EvActivate a] ++ hook_event (OnGain A) (EvOnGain a)
                 ++ [EvDeactivate a] ++ hook_event (OnExpire A) (EvOnExpire a).
Proof.
  intros HW Ha Hact Hst Hmax Hdur Hacc.
  assert (Hee : forall ee, observer (eeActivate ee)) by apply Hobs.
  destruct (wf_unit _ _ HW _ _ Ha) as [U HU].
  destruct (Activate_inactive fuel a A U (emit (EvActivate a) w) Ha HU Hact Hdur Hacc)
    as (w1 & A1 & U1 & He1 & Hl1 & Ht1 & HA1 & Hact1 & _ & _ & Hst1 & Hcfg1 & Hidx1
        & Hoth1 & HU1 & Harr1 & Hun1).
  assert (He1' : exec (S fuel) (CActivate a) w = Ok w1) by exact He1.
  pose proof (post_Ok _ _ _ (exec_WF Hee _ _ _ HW) He1') as HW1.
  assert (HuA1 : Unit A1 = Unit A) by apply Hcfg1.
  assert (HM1 : MaxStacks A1 = MaxStacks A) by apply Hcfg1.
  destruct (Deactivate_active Hobs fuel a A1 (emit (EvDeactivate a) w1))
    as (w2 & He2 & Hl2 & _ & (A2 & HA2 & Hact2 & Hst2 & Hcfg2) & Hoth2 & _ & Hun2 & HU2);
    [ apply WF_emit; exact HW1 | exact HA1 | exact Hact1 | rewrite Hst1, Hst, HM1; lia | ].
  assert (He2' : exec (3 + fuel) (CDeactivate a) w1 = Ok w2) by exact He2.
  pose proof (post_Ok _ _ _ (exec_WF Hee _ _ _ HW1) He2') as HW2.
  assert (Hidx0 : forall s, index A s = Inactive).
  { intros s. destruct (Z.eq_dec (index A s) Inactive) as [e|Hne]; [ exact e | ].
    apply (wf_act _ _ HW a A s) in Hne; [ | discriminate | exact Ha ].
    destruct Hne as [Hne _]. congruence. }
  assert (Hunits : forall u U0, unitsH w !! u = Some U0 ->
            exists U2, unitsH w2 !! u = Some U2 /\ forall s, arrays U2 s = arrays U0 s).
  { intros u U0 HU0. destruct (decide (u = Unit A)) as [->|Hne].
    - rewrite HU in HU0. injection HU0 as <-.
      rewrite HuA1 in HU2. destruct (HU2 U1 HU1) as (g & Hg & Hgs).
      eexists. split; [ exact Hg | ]. intros s. cbn [arrays set_arrays].
      rewrite Hgs. unfold arrays_after_unregister. rewrite Hidx1, Harr1, Hidx0.
      destruct (registers A s).
      + destruct (_ =? _) eqn:E; [ apply Z.eqb_eq in E; unfold Inactive in E; lia | ].
        rewrite Nat2Z.id. apply removeBySwappingToBack_last.
      + reflexivity.
    - exists U0. split; [ | reflexivity ].
      rewrite Hun2 by (rewrite HuA1; exact Hne).
      change (unitsH (emit (EvDeactivate a) w1) !! u) with (unitsH w1 !! u).
      rewrite Hun1 by exact Hne. exact HU0. }
  exists w1, w2. split; [ exact He1' | ]. split; [ exact He2' | ].
  split; [ rewrite HA1; exact Hact1 | ]. split; [ exact Hunits | ].
  split.
  - intros b B HB. destruct (decide (b = a)) as [->|Hne].
    + rewrite Ha in HB. injection HB as <-. exists A2. split; [ exact HA2 | ].
      split; [ congruence | ].
      apply (WF_index_determined w w2 a A A2 HW HW2 Hunits Ha HA2).
      destruct Hcfg2 as [-> _]. exact HuA1.
    + assert (HB1 : aurasH (emit (EvDeactivate a) w1) !! b = Some B).
      { change (aurasH w1 !! b = Some B). rewrite Hoth1 by exact Hne. exact HB. }
      destruct (Hoth2 b B Hne HB1) as (f & Hf). exists (set_index f B).
      split; [ exact Hf | ]. split; [ reflexivity | ].
      apply (WF_index_determined w w2 b B _ HW HW2 Hunits HB Hf). reflexivity.
  - rewrite Hl2. cbn [log emit set_log]. rewrite Hl1. cbn [log emit set_log].
    unfold deactivation_events. rewrite Hst1, Hst. cbn [Z.eqb app].
    destruct Hcfg1 as (_ & _ & _ & _ & -> & _). rewrite <- !app_assoc. reflexivity.
Qed.

End RoundTrip.

Section PhaseQueriesFacts.
Context {PF : Platform} {PG : Program}.

Lemma sequence_rounds fuel ops (w w' : World) :
  Forall (clock_or_call fuel) ops -> sequence ops w = Ok w' ->
  exists rounds, phase_rounds rounds w w'.
Proof.
  intros Hops. revert w. induction Hops as [|op ops Hop _ IH]; intros w Hrun; cbn in Hrun.
  - injection Hrun as <-. exists []. apply phase_rounds_nil, same_view_refl.
  - destruct (op w) as [w1| | |] eqn:E; cbn in Hrun; try discriminate.
    destruct (IH _ Hrun) as (r2 & Hr2).
    destruct Hop as [[t ->]|[c ->]].
    + destruct (post_Ok _ _ _ (advance_rounds fuel t w) E) as (r1 & w0 & _ & _ & Hr1 & Hv).
      exists ((r1 ++ []) ++ r2). eapply phase_rounds_app; [ | exact Hr2 ].
      eapply phase_rounds_app; [ exact Hr1 | apply phase_rounds_nil, Hv ].
    + exists ([] ++ r2). eapply phase_rounds_app; [ | exact Hr2 ].
      apply phase_rounds_nil. exact (post_Ok _ _ _ (exec_view fuel c w) E).
Qed.

Lemma last_bounded p d qs :
  d <= p -> Forall (fun q => q < p) qs -> List.last qs d <= p.
Proof.
  revert d. induction qs as [|q qs IH]; intros d Hd Hall; [ exact Hd | ].
  apply Forall_cons in Hall as [Hq Hall]. rewrite last_cons.
  apply IH; [ lia | exact Hall ].
Qed.

Lemma last_descends p qs :
  StronglySorted (fun a b => b < a) (p :: qs) -> List.last qs p <= p.
Proof.
  intros Hs. apply StronglySorted_inv in Hs as [_ Hall].
  apply last_bounded; [ lia | exact Hall ].
Qed.

Lemma phase_never_rises fuel ops (w w' : World) :
  executePhase w ∈ ladder ->
  Forall (clock_or_call fuel) ops -> sequence ops w = Ok w' ->
  executePhase w' <= executePhase w /\ executePhase w' ∈ ladder.
Proof.
  intros Hp Hops Hrun.
  destruct (sequence_rounds fuel ops w w' Hops Hrun) as (rounds & Hr).
  destruct Hr as (_ & Hpath & Hlast & _).
  destruct (ladder_descends _ _ Hpath Hp) as [Hs Hf]. rewrite Hlast.
  split; [ apply last_descends; exact Hs | ].
  destruct (map fst rounds) as [|q qs] eqn:E; [ exact Hp | ].
  destruct (@List.exists_last _ (q :: qs)) as (l' & x & e); [ discriminate | ].
  rewrite e, List.last_last. rewrite e in Hf.
  apply Forall_app in Hf as [_ Hx]. apply Forall_cons in Hx as [Hx _]. exact Hx.
Qed.

(** X6: the execute-phase queries are monotone over an iteration.  From a
    phase of the ladder on, over any sequence of clock advances and API
    calls: once [IsExecutePhase20], [25], [35] or [45] returns true it keeps
    returning true, and once [IsExecutePhase90] returns false it keeps
    returning false.  At any time [IsExecutePhase20] implies [25], which
    implies [35], which implies [45], and [45] excludes [90]. *)
Theorem execute_phase_queries_monotone fuel ops (w w' : World) :
  executePhase w ∈ ladder ->
  Forall (clock_or_call fuel) ops -> sequence ops w = Ok w' ->
  (IsExecutePhase20 w = true -> IsExecutePhase20 w' = true)
  /\ (IsExecutePhase25 w = true -> IsExecutePhase25 w' = true)
  /\ (IsExecutePhase35 w = true -> IsExecutePhase35 w' = true)
  /\ (IsExecutePhase45 w = true -> IsExecutePhase45 w' = true)
  /\ (IsExecutePhase90 w = false -> IsExecutePhase90 w' = false)
  /\ (IsExecutePhase20 w' = true -> IsExecutePhase25 w' = true)
  /\ (IsExecutePhase25 w' = true -> IsExecutePhase35 w' = true)
  /\ (IsExecutePhase35 w' = true -> IsExecutePhase45 w' = true)
  /\ (IsExecutePhase45 w' = true -> IsExecutePhase90 w' = false).
Proof.
  intros Hp Hops Hrun.
  destruct (phase_never_rises fuel ops w w' Hp Hops Hrun) as [Hle _].
  unfold IsExecutePhase20, IsExecutePhase25, IsExecutePhase35, IsExecutePhase45,
    IsExecutePhase90.
  repeat split; intros H;
    repeat match goal with
    | H : (_ <=? _) = true |- _ => apply Z.leb_le in H
    | H : (_ <? _) = false |- _ => apply Z.ltb_ge in H
    | |- (_ <=? _) = true => apply Z.leb_le
    | |- (_ <? _) = false => apply Z.ltb_ge
    end; lia.
Qed.

End PhaseQueriesFacts.

Section ListsFacts.
Context {PF : Platform}.

Lemma slices_Index_None s v : slices_Index s v = None <-> v ∉ s.
Proof.
  induction s as [|x s IH]; cbn.
  - split; [ intros _ H; inversion H | reflexivity ].
  - case_bool_decide as E.
    + split; [ discriminate | ]. intros H. exfalso. apply H. subst. left.
    + rewrite not_elem_of_cons. destruct (slices_Index s v) eqn:Ei; cbn.
      * split; [ discriminate | ]. intros [_ Hn]. apply IH in Hn. discriminate.
      * split; [ | reflexivity ]. intros _. split; [ congruence | ]. apply IH. reflexivity.
Qed.

Lemma slices_Index_Some s v i :
  slices_Index s v = Some i ->
  s !! i = Some v /\ forall j, (j < i)%nat -> s !! j <> Some v.
Proof.
  revert i. induction s as [|x s IH]; intros i H; cbn in H; [ discriminate | ].
  case_bool_decide as E.
  - injection H as <-. subst. split; [ reflexivity | intros j Hj; lia ].
  - destruct (slices_Index s v) as [k|] eqn:Ek; [ | discriminate ].
    injection H as <-. destruct (IH k eq_refl) as [Hk Hlt]. split; [ exact Hk | ].
    intros [|j] Hj; cbn; [ congruence | apply Hlt; lia ].
Qed.

Lemma slices_Index_snoc s v : v ∉ s -> slices_Index (s ++ [v]) v = Some (length s).
Proof.
  induction s as [|x s IH]; intros Hn; cbn.
  - rewrite bool_decide_eq_true_2 by reflexivity. reflexivity.
  - rewrite bool_decide_eq_false_2 by (intros ->; apply Hn; left).
    rewrite IH by (intros H; apply Hn; right; exact H). reflexivity.
Qed.

Lemma remove_first_spec (s : list nat) (x : nat) :
  (x ∉ s -> slices_Index s x = None)
  /\ (x ∈ s ->
      exists i, slices_Index s x = Some i
                /\ first_removed x s (removeBySwappingToBack s i)).
Proof.
  split; [ apply slices_Index_None | ].
  intros Hin. destruct (slices_Index s x) as [i|] eqn:Hi.
  - exists i. split; [ reflexivity | ]. exists i.
    destruct (slices_Index_Some _ _ _ Hi) as [Hl Hlt].
    split; [ exact Hl | ]. split; [ exact Hlt | ].
    apply removeBySwappingToBack_perm. eapply lookup_lt_Some; eauto.
  - apply slices_Index_None in Hi. contradiction.
Qed.

(** X7: the lists of trackers, weapon attacks and tasks.  For each of the
    three: removing an entry that is not listed changes nothing; removing
    one that is listed removes its first occurrence and keeps all others
    (in some order); and removing an entry right after adding it, when it
    was not listed before, gives the list back.  Rescheduling a tracker, a
    weapon attack or a task never postpones: the cached minimum afterwards
    is at most what it was and at most the time given. *)
Theorem list_add_remove (w : World) (x : nat) :
  ((x ∉ tasks w -> RemoveTask x w = w)
   /\ (x ∉ weaponAttacks w -> removeWeaponAttack x w = w)
   /\ (x ∉ trackers w -> removeTracker x w = w))
  /\ ((x ∈ tasks w -> first_removed x (tasks w) (tasks (RemoveTask x w)))
      /\ (x ∈ weaponAttacks w ->
          first_removed x (weaponAttacks w)
            (weaponAttacks (removeWeaponAttack x w)))
      /\ (x ∈ trackers w ->
          first_removed x (trackers w) (trackers (removeTracker x w))))
  /\ ((x ∉ tasks w -> tasks (RemoveTask x (AddTask x w)) = tasks w)
      /\ (x ∉ weaponAttacks w ->
          weaponAttacks (removeWeaponAttack x (addWeaponAttack x w))
          = weaponAttacks w)
      /\ (x ∉ trackers w -> forall w',
          addTracker x w = Ok w' -> trackers (removeTracker x w') = trackers w))
  /\ (forall t,
        (minTaskTime (RescheduleTask t w) <= minTaskTime w
         /\ minTaskTime (RescheduleTask t w) <= t)
        /\ (minWeaponAttackTime (rescheduleWeaponAttack t w)
            <= minWeaponAttackTime w
            /\ minWeaponAttackTime (rescheduleWeaponAttack t w) <= t)
        /\ (minTrackerTime (rescheduleTracker t w) <= minTrackerTime w
            /\ minTrackerTime (rescheduleTracker t w) <= t)).
Proof.
  split; [ | split; [ | split ] ].
  - unfold RemoveTask, removeWeaponAttack, removeTracker.
    split; [ | split ]; intros Hn;
      rewrite (proj1 (remove_first_spec _ x) Hn); reflexivity.
  - unfold RemoveTask, removeWeaponAttack, removeTracker.
    split; [ | split ]; intros Hin;
      destruct (proj2 (remove_first_spec _ x) Hin) as (i & -> & H); exact H.
  - split; [ | split ].
    + intros Hn. unfold RemoveTask, AddTask. cbn [tasks set_tasks].
      rewrite slices_Index_snoc by exact Hn. cbn [tasks set_tasks].
      apply removeBySwappingToBack_last.
    + intros Hn. unfold removeWeaponAttack, addWeaponAttack.
      cbn [weaponAttacks set_weaponAttacks].
      rewrite slices_Index_snoc by exact Hn. cbn [weaponAttacks set_weaponAttacks].
      apply removeBySwappingToBack_last.
    + intros Hn w' H. unfold addTracker, getUnit in H.
      destruct (unitsH w !! x) as [U|]; [ | discriminate ]. injection H as <-.
      unfold removeTracker. cbn [trackers rescheduleTracker set_minTrackerTime set_trackers].
      rewrite slices_Index_snoc by exact Hn. cbn [trackers set_trackers].
      apply removeBySwappingToBack_last.
  - intros t. unfold RescheduleTask, rescheduleWeaponAttack, rescheduleTracker. cbn. lia.
Qed.

End ListsFacts.

Section SharedStream.
Context {PF : Platform} {RI : RandImpl}.

(** X8: outside test mode the label of a draw is irrelevant: all draws
    take their values from the one generator of the simulation, in the
    order of the calls, and the per-label generators are never made. *)
Theorem shared_stream_without_labels ds (m : RandManager) :
  isTest m = false ->
  (draws ds m).1 = stream ds (rand m)
  /\ testRands (draws ds m).2 = testRands m.
Proof.
  revert m. induction ds as [|d ds IH]; intros m Ht; cbn [draws stream].
  - split; reflexivity.
  - assert (Hd : exists x r, draw d m = (x, mkRands r false (testRands m) (RandomSeed m))
                             /\ draw_from d (rand m) = (x, r)).
    { unfold draw_from.
      destruct d as [l|lo hi|lo hi l|p l]; cbn [draw];
        unfold Roll, RollWithLabel, Proc, RandomFloat; rewrite Ht; cbn [negb];
        try (destruct (NextFloat64 (rand m)) as [x r]; eexists _, _; split; reflexivity).
      destruct (NextFloat64 (rand m)) as [x r].
      destruct (f_ge p (f_lit 100)); [ | destruct (f_le p (f_lit 0)) ];
        eexists _, _; (split; [ | reflexivity ]);
        try reflexivity; destruct m; cbn in *; subst; reflexivity. }
    destruct Hd as (x & r & -> & ->).
    destruct (IH (mkRands r false (testRands m) (RandomSeed m)) eq_refl) as [IH1 IH2].
    destruct (draws ds _) as [xs m2]. cbn [fst snd] in *.
    split; [ f_equal; exact IH1 | exact IH2 ].
Qed.

End SharedStream.

Section QueueInsert.
Context {PF : Platform}.

Lemma insertAction_total h PA p l :
  Forall (fun q => is_Some (h !! q)) l ->
  exists r, insertAction h PA p l = Ok r /\ r ≡ₚ p :: l.
Proof.
  induction l as [|v l IH]; intros H; cbn [insertAction]; [ eauto | ].
  apply Forall_cons in H as [[V HV] H]. rewrite HV.
  destruct (_ || _); [ eauto | ].
  destruct (IH H) as (r & -> & Hr). cbn [bindR]. eexists. split; [ reflexivity | ].
  rewrite Hr. apply perm_swap.
Qed.

(** X9: [AddPendingAction] succeeds whenever the queue holds its sentinel
    and every queued pointer and the new one are valid; it then adds the
    action exactly once and keeps all others, leaves the first entry (the
    sentinel) in place, and clears the action's [consumed] flag.  On a
    queue without the sentinel it panics. *)
Theorem AddPendingAction_succeeds p (w : World) :
  (is_Some (actionsH w !! p) ->
   pendingActions w <> [] ->
   Forall (fun q => is_Some (actionsH w !! q)) (tail (pendingActions w)) ->
   exists w',
     AddPendingAction p w = Ok w'
     /\ pendingActions w' ≡ₚ p :: pendingActions w
     /\ head (pendingActions w') = head (pendingActions w)
     /\ consumed <$> actionsH w' !! p = Some false)
  /\ (is_Some (actionsH w !! p) -> pendingActions w = [] ->
      AddPendingAction p w = Panic "slice bounds out of range").
Proof.
  split.
  - intros [PA HPA] Hne Hall. unfold AddPendingAction, getAction. rewrite HPA. cbn [bindR].
    cbn [actionsH updAction set_actionsH pendingActions].
    rewrite list_lookup_alter_eq, HPA. cbn [fmap option_fmap option_map bindR].
    destruct (pendingActions w) as [|s rest] eqn:Eq; [ congruence | ].
    destruct (insertAction_total (alter (set_consumed false) p (actionsH w))
                (set_consumed false PA) p rest) as (r & -> & Hr).
    { cbn [tail] in Hall. eapply Forall_impl; [ exact Hall | ].
      intros q [Q HQ]. destruct (decide (q = p)) as [->|Hn].
      - rewrite list_lookup_alter_eq, HQ. eauto.
      - rewrite list_lookup_alter_ne by congruence. eauto. }
    cbn [bindR]. eexists. split; [ reflexivity | ].
    cbn [pendingActions set_pendingActions actionsH updAction set_actionsH].
    split; [ rewrite Hr; apply perm_swap | ]. split; [ reflexivity | ].
    rewrite list_lookup_alter_eq, HPA. reflexivity.
  - intros [PA HPA] He. unfold AddPendingAction, getAction. rewrite HPA. cbn [bindR].
    cbn [actionsH updAction set_actionsH pendingActions].
    rewrite list_lookup_alter_eq, HPA. cbn [fmap option_fmap option_map bindR].
    rewrite He. reflexivity.
Qed.

End QueueInsert.

Section AuraHelpersFacts.
Context {PF : Platform} {PG : Program}.

Lemma wrap32_small z : - 2 ^ 31 <= z < 2 ^ 31 -> wrap32 z = z.
Proof. intros H. unfold wrap32. rewrite Z.mod_small by lia. lia. Qed.

Lemma wrap64_small z : - 2 ^ 63 <= z < 2 ^ 63 -> wrap64 z = z.
Proof. intros H. unfold wrap64. rewrite Z.mod_small by lia. lia. Qed.

Lemma add64_sub64 e t : add64 (sub64 e t) t = wrap64 e.
Proof.
  unfold add64, sub64, wrap64.
  replace ((e - t + 2 ^ 63) mod 2 ^ 64 - 2 ^ 63 + t + 2 ^ 63)
    with ((e - t + 2 ^ 63) mod 2 ^ 64 + t) by lia.
  rewrite Zplus_mod_idemp_l. f_equal. f_equal. lia.
Qed.

Lemma alter_id_ext {A : Type} (f : A -> A) (l : list A) i :
  (forall x, l !! i = Some x -> f x = x) -> alter f i l = l.
Proof.
  intros H. apply list_eq. intros j. destruct (decide (j = i)) as [->|Hne].
  - rewrite list_lookup_alter_eq. destruct (l !! i) as [x|] eqn:E; cbn; [ | reflexivity ].
    rewrite H; reflexivity.
  - rewrite list_lookup_alter_ne by congruence. reflexivity.
Qed.

Lemma set_expires_id (A : Aura) : set_expires (expires A) A = A.
Proof. destruct A; reflexivity. Qed.

(** [SetStacks] with the count the aura already has (after clamping) does
    nothing but leave its trace. *)
Lemma SetStacks_same fuel a A n (w : World) :
  aurasH w !! a = Some A ->
  (active A = true \/ n = 0) -> 0 <= n -> MaxStacks A <> 0 ->
  Z.min n (MaxStacks A) = stacks A ->
  exec (S fuel) (CSetStacks a n) w = Ok (emit (EvSetStacks a n) w).
Proof.
  intros Ha Hact Hn Hmax Hsame. cbn [exec step_cmd]. unfold SetStacks, getAura.
  cbn [aurasH emit set_log]. rewrite Ha. cbn [bindR].
  assert (E1 : negb (active A) && negb (n =? 0) = false).
  { destruct Hact as [->| ->]; [ reflexivity | ]. cbn. apply andb_false_r. }
  rewrite E1.
  destruct (n <? 0) eqn:E2; [ apply Z.ltb_lt in E2; lia | ].
  destruct (MaxStacks A =? 0) eqn:E3; [ apply Z.eqb_eq in E3; congruence | ].
  cbv zeta. rewrite Hsame, Z.eqb_refl. reflexivity.
Qed.

(** X10: edge behaviour of the stack helpers, whatever the hooks do.
    [AddStack] on an inactive aura panics; on an active aura that is at its
    maximum it changes nothing and runs no hook; [RemoveStack] on an active
    aura without stacks changes nothing either: the count never goes below
    zero. *)
Theorem stack_helpers_edges fuel a A (w : World) :
  aurasH w !! a = Some A ->
  (active A = false -> stacks A = 0 ->
   AddStack (S fuel) a w
   = Panic "Trying to set non-zero stacks on inactive aura!")
  /\ (active A = true -> stacks A = MaxStacks A ->
      0 < MaxStacks A < 2 ^ 31 - 1 ->
      AddStack (S fuel) a w
      = Ok (emit (EvSetStacks a (MaxStacks A + 1)) w))
  /\ (active A = true -> stacks A = 0 -> 0 < MaxStacks A ->
      RemoveStack (S fuel) a w = Ok (emit (EvSetStacks a 0) w)).
Proof.
  intros Ha. split; [ | split ].
  - intros Hact Hst. unfold AddStack, getAura. rewrite Ha. cbn [bindR].
    rewrite Hst. change (wrap32 (0 + 1)) with 1.
    cbn [exec step_cmd]. unfold SetStacks, getAura. cbn [aurasH emit set_log].
    rewrite Ha. cbn [bindR]. rewrite Hact. reflexivity.
  - intros Hact Hst Hmax. unfold AddStack, getAura. rewrite Ha. cbn [bindR].
    rewrite Hst, wrap32_small by lia.
    apply (SetStacks_same fuel a A); auto; lia.
  - intros Hact Hst Hmax. unfold RemoveStack, getAura. rewrite Ha. cbn [bindR].
    rewrite Hst. change (Z.max 0 (wrap32 (0 - 1))) with 0.
    apply (SetStacks_same fuel a A); auto; lia.
Qed.

(** X11: saving the state of an active aura and restoring it at once
    changes nothing and runs no hook: the expiration and the stacks are
    written back as they were. *)
Theorem save_restore_round_trip fuel a A (w : World) :
  aurasH w !! a = Some A -> active A = true ->
  - 2 ^ 63 <= expires A < 2 ^ 63 ->
  0 <= stacks A <= MaxStacks A ->
  exists st w',
    SaveState a w = Ok st
    /\ RestoreState (S fuel) a st w = Ok w'
    /\ aurasH w' = aurasH w /\ unitsH w' = unitsH w
    /\ log w' = log w ++ (if 0 <? MaxStacks A then [EvSetStacks a (stacks A)]
                          else []).
Proof.
  intros Ha Hact He Hs.
  assert (Hid : updAura a (set_expires (expires A)) w = w).
  { unfold updAura. rewrite (alter_id_ext (set_expires (expires A)) (aurasH w) a).
    - destruct w; reflexivity.
    - intros x Hx. rewrite Ha in Hx. injection Hx as <-. apply set_expires_id. }
  exists (mkAuraState (sub64 (expires A) (CurrentTime w)) (stacks A)).
  unfold SaveState, RestoreState, getAura. rewrite Ha. cbn [bindR].
  rewrite Hact. cbn [negb bindR RemainingDurationOf StacksOf].
  rewrite add64_sub64, wrap64_small by exact He.
  assert (Hupd : exec (S fuel) (CUpdateExpires a (expires A)) w = Ok w).
  { cbn [exec step_cmd]. unfold getAura. rewrite Ha. cbn [bindR].
    rewrite Hid. reflexivity. }
  rewrite Hupd. cbn [bindR]. rewrite Ha. cbn [bindR].
  destruct (0 <? MaxStacks A) eqn:Em.
  - apply Z.ltb_lt in Em.
    rewrite (SetStacks_same fuel a A) by (auto; lia).
    eexists. split; [ reflexivity | ]. split; [ reflexivity | ].
    split; [ reflexivity | ]. split; reflexivity.
  - eexists. split; [ reflexivity | ]. split; [ reflexivity | ].
    rewrite app_nil_r. split; [ reflexivity | ]. split; reflexivity.
Qed.

End AuraHelpersFacts.

Section StackSteps.
Context {PF : Platform} {PG : Program}.
Hypothesis Hobs : all_observers.

(** [SetStacks] to a new count that is not zero: the count is stored and
    the hook sees the old and the new one. *)
Lemma SetStacks_change_observed fuel a A n (w : World) :
  aurasH w !! a = Some A -> active A = true ->
  0 < n <= MaxStacks A -> n <> stacks A ->
  exists w', exec (S fuel) (CSetStacks a n) w = Ok w'
    /\ log w' = log w ++ [EvSetStacks a n]
                 ++ hook_event (OnStacksChange A) (EvOnStacksChange a (stacks A) n)
    /\ set_log [] w' = set_log [] (updAura a (set_stacks n) w).
Proof.
  intros Ha Hact Hn Hne.
  change (exec (S fuel) (CSetStacks a n) w)
    with (SetStacks (exec fuel) a n (emit (EvSetStacks a n) w)).
  unfold SetStacks, getAura. cbn [aurasH emit set_log]. rewrite Ha. cbn [bindR].
  rewrite Hact. cbn [negb andb].
  destruct (n <? 0) eqn:E2; [ apply Z.ltb_lt in E2; lia | ].
  destruct (MaxStacks A =? 0) eqn:Em; [ apply Z.eqb_eq in Em; lia | ].
  cbv zeta. rewrite Z.min_l by lia.
  destruct (stacks A =? n) eqn:Es; [ apply Z.eqb_eq in Es; lia | ].
  destruct (runHook_observer Hobs (exec fuel) (OnStacksChange A)
              [Z.of_nat a; stacks A; n] (EvOnStacksChange a (stacks A) n)
              (updAura a (set_stacks n) (emit (EvSetStacks a n) w)))
    as (w2 & -> & Hl2 & Hs2).
  cbn [bindR]. destruct (lookup_same_store _ _ Hs2) as (Ha2 & _).
  rewrite Ha2. cbn [aurasH updAura set_aurasH emit set_log].
  rewrite list_lookup_alter_eq, Ha.
  cbn [fmap option_fmap option_map bindR stacks set_stacks].
  destruct (n =? 0) eqn:E0; [ apply Z.eqb_eq in E0; lia | ].
  exists w2. split; [ reflexivity | ]. split.
  - rewrite Hl2. cbn [log updAura set_aurasH emit set_log].
    rewrite <- app_assoc. reflexivity.
  - rewrite Hs2. destruct w; reflexivity.
Qed.

(** [SetStacks(0)] on an active aura that holds stacks deactivates it. *)
Lemma SetStacks_last_observed fuel a A (w : World) :
  WF w -> aurasH w !! a = Some A -> active A = true ->
  0 < stacks A <= MaxStacks A ->
  exists w',
    exec (4 + fuel) (CSetStacks a 0) w = Ok w'
    /\ log w' = log w ++ [EvSetStacks a 0]
                 ++ hook_event (OnStacksChange A) (EvOnStacksChange a (stacks A) 0)
                 ++ [EvDeactivate a]
                 ++ hook_event (OnExpire A) (EvOnExpire a)
    /\ IsActive (aurasH w' !! a) = false
    /\ GetStacks (aurasH w' !! a) = 0.
Proof.
  intros HW Ha Hact Hr.
  change (exec (4 + fuel) (CSetStacks a 0) w)
    with (SetStacks (exec (S (S (S fuel)))) a 0 (emit (EvSetStacks a 0) w)).
  unfold SetStacks, getAura. cbn [aurasH emit set_log]. rewrite Ha. cbn [bindR].
  rewrite Hact. cbn [negb andb Z.ltb Z.compare].
  destruct (MaxStacks A =? 0) eqn:Em; [ apply Z.eqb_eq in Em; lia | ].
  cbv zeta. rewrite Z.min_l by lia.
  destruct (stacks A =? 0) eqn:Es; [ apply Z.eqb_eq in Es; lia | ].
  destruct (runHook_observer Hobs (exec (S (S (S fuel)))) (OnStacksChange A)
              [Z.of_nat a; stacks A; 0] (EvOnStacksChange a (stacks A) 0)
              (updAura a (set_stacks 0) (emit (EvSetStacks a 0) w)))
    as (w2 & -> & Hl2 & Hs2).
  cbn [bindR]. destruct (lookup_same_store _ _ Hs2) as (Ha2 & Hu2 & _).
  assert (HA2 : aurasH w2 !! a = Some (set_stacks 0 A)).
  { rewrite Ha2. cbn. rewrite list_lookup_alter_eq, Ha. reflexivity. }
  rewrite HA2. cbn [stacks set_stacks Z.eqb].
  change (exec (S (S (S fuel))) (CDeactivate a) w2)
    with (Deactivate (exec (S (S fuel))) a (emit (EvDeactivate a) w2)).
  destruct (Deactivate_active Hobs fuel a (set_stacks 0 A) (emit (EvDeactivate a) w2))
    as (w3 & -> & Hl3 & _ & (A3 & HA3 & Hact3 & Hst3 & _) & _).
  - apply WF_emit. eapply WFx_outside; [ exact Ha2 | exact Hu2 | ].
    apply WFx_updAura; [ | right; reflexivity | apply WF_emit; exact HW ].
    intros B. repeat split.
  - exact HA2.
  - exact Hact.
  - cbn. lia.
  - exists w3. split; [ reflexivity | ]. split; [ | rewrite HA3; auto ].
    rewrite Hl3. cbn [log emit set_log]. rewrite Hl2.
    cbn [log updAura set_aurasH emit set_log].
    unfold deactivation_events. cbn [stacks set_stacks Z.eqb app OnExpire].
    rewrite <- !app_assoc. reflexivity.
Qed.

(** X12: with hooks that only observe, [AddStack] on an active aura below
    its maximum adds one stack and keeps the aura active; [RemoveStack]
    after it gives the old count back. When the aura had no stack, the
    [RemoveStack] takes the last one and so deactivates the aura: the pair
    is not a round trip there. The stack hook runs once for each call. *)
Theorem add_then_remove_stack fuel a A (w : World) :
  WF w -> aurasH w !! a = Some A -> active A = true ->
  0 <= stacks A < MaxStacks A -> MaxStacks A < 2 ^ 31 ->
  exists w1 w2,
    AddStack (4 + fuel) a w = Ok w1
    /\ GetStacks (aurasH w1 !! a) = stacks A + 1
    /\ IsActive (aurasH w1 !! a) = true
    /\ RemoveStack (4 + fuel) a w1 = Ok w2
    /\ GetStacks (aurasH w2 !! a) = stacks A
    /\ IsActive (aurasH w2 !! a) = negb (stacks A =? 0)
    /\ log w2 = log w
         ++ [EvSetStacks a (stacks A + 1)]
         ++ hook_event (OnStacksChange A)
              (EvOnStacksChange a (stacks A) (stacks A + 1))
         ++ [EvSetStacks a (stacks A)]
         ++ hook_event (OnStacksChange A)
              (EvOnStacksChange a (stacks A + 1) (stacks A))
         ++ (if stacks A =? 0
             then [EvDeactivate a] ++ hook_event (OnExpire A) (EvOnExpire a)
             else []).
Proof.
  intros HW Ha Hact Hs Hmax.
  destruct (SetStacks_change_observed (3 + fuel) a A (stacks A + 1) w)
    as (w1 & H1 & Hl1 & Hs1); [ exact Ha | exact Hact | lia | lia | ].
  destruct (lookup_same_store _ _ Hs1) as (Ha1 & Hu1 & _).
  assert (HA1 : aurasH w1 !! a = Some (set_stacks (stacks A + 1) A)).
  { rewrite Ha1. cbn. rewrite list_lookup_alter_eq, Ha. reflexivity. }
  assert (HW1 : WF w1).
  { eapply WFx_outside; [ exact Ha1 | exact Hu1 | ].
    apply WFx_updAura; [ | right; reflexivity | exact HW ].
    intros B. repeat split. }
  exists w1.
  assert (Hadd : AddStack (4 + fuel) a w = Ok w1).
  { unfold AddStack, getAura. rewrite Ha. cbn [bindR].
    rewrite wrap32_small by lia. exact H1. }
  assert (Hrem : forall w2, exec (4 + fuel) (CSetStacks a (stacks A)) w1 = Ok w2 ->
                 RemoveStack (4 + fuel) a w1 = Ok w2).
  { intros w2 H2. unfold RemoveStack, getAura. rewrite HA1. cbn [bindR stacks set_stacks].
    replace (stacks A + 1 - 1) with (stacks A) by lia.
    rewrite wrap32_small by lia. rewrite Z.max_r by lia. exact H2. }
  destruct (stacks A =? 0) eqn:E0.
  - apply Z.eqb_eq in E0.
    destruct (SetStacks_last_observed fuel a (set_stacks (stacks A + 1) A) w1)
      as (w2 & H2 & Hl2 & Hi2 & Hg2);
      [ exact HW1 | exact HA1 | exact Hact | cbn; lia | ].
    exists w2. split; [ exact Hadd | ]. rewrite HA1.
    split; [ reflexivity | ]. split; [ exact Hact | ].
    split; [ apply Hrem; rewrite E0; exact H2 | ].
    split; [ rewrite Hg2; lia | ]. split; [ exact Hi2 | ].
    rewrite Hl2, Hl1. cbn [stacks set_stacks OnStacksChange OnExpire].
    rewrite E0. rewrite <- !app_assoc. reflexivity.
  - apply Z.eqb_neq in E0.
    destruct (SetStacks_change_observed (3 + fuel) a
                (set_stacks (stacks A + 1) A) (stacks A) w1)
      as (w2 & H2 & Hl2 & Hs2); [ exact HA1 | exact Hact | cbn; lia | cbn; lia | ].
    destruct (lookup_same_store _ _ Hs2) as (Ha2 & _).
    exists w2. split; [ exact Hadd | ]. rewrite HA1.
    split; [ reflexivity | ]. split; [ exact Hact | ].
    split; [ apply Hrem; exact H2 | ].
    rewrite Ha2. cbn [aurasH updAura set_aurasH].
    rewrite list_lookup_alter_eq, HA1.
    split; [ reflexivity | ]. split; [ exact Hact | ].
    rewrite Hl2, Hl1. cbn [stacks set_stacks OnStacksChange].
    rewrite app_nil_r, <- !app_assoc. reflexivity.
Qed.

End StackSteps.

Section LabelsFacts.
Context {PF : Platform}.

(** A search that finds nothing has looked at every aura of the list. *)
Lemma GetAura_None h l label :
  GetAura h l label = Ok None <->
  forall a, a ∈ l -> exists A, h !! a = Some A /\ Label A <> label.
Proof.
  induction l as [|b l IH]; cbn [GetAura].
  - split; [ intros _ a Ha; inversion Ha | reflexivity ].
  - destruct (h !! b) as [B|] eqn:Hb.
    + case_bool_decide as HL.
      * split; [ discriminate | ]. intros H.
        destruct (H b) as (B' & HB' & Hne); [ left | ]. congruence.
      * rewrite IH. split.
        -- intros H a Ha. inversion Ha; subst; eauto.
        -- intros H a Ha. apply H. right. exact Ha.
    + split; [ discriminate | ]. intros H.
      destruct (H b) as (B' & HB' & _); [ left | ]. congruence.
Qed.

(** What a search finds is the first aura of the list with the label. *)
Lemma GetAura_Some h l label a :
  GetAura h l label = Ok (Some a) <->
  exists l1 l2 A, l = l1 ++ a :: l2 /\ h !! a = Some A /\ Label A = label
    /\ forall b, b ∈ l1 -> exists B, h !! b = Some B /\ Label B <> label.
Proof.
  revert a. induction l as [|b l IH]; intros a; cbn [GetAura].
  - split; [ discriminate | ]. intros (l1 & l2 & A & H & _). destruct l1; discriminate.
  - destruct (h !! b) as [B|] eqn:Hb.
    + case_bool_decide as HL.
      * split.
        -- intros H. injection H as <-. exists [], l, B.
           repeat split; auto. intros c Hc. inversion Hc.
        -- intros (l1 & l2 & A & H & HA & HLA & Hall). destruct l1 as [|c l1].
           ++ injection H as -> _. reflexivity.
           ++ injection H as -> _. destruct (Hall c) as (C & HC & Hne); [ left | ].
              congruence.
      * rewrite IH. split.
        -- intros (l1 & l2 & A & -> & HA & HLA & Hall). exists (b :: l1), l2, A.
           repeat split; auto. intros c Hc. inversion Hc; subst; eauto.
        -- intros (l1 & l2 & A & H & HA & HLA & Hall). destruct l1 as [|c l1].
           ++ injection H as -> _. congruence.
           ++ injection H as -> ->. exists l1, l2, A.
              repeat split; auto. intros d Hd. apply Hall. right. exact Hd.
    + split; [ discriminate | ].
      intros (l1 & l2 & A & H & HA & HLA & Hall). destruct l1 as [|c l1].
      * injection H as -> _. congruence.
      * injection H as -> _. destruct (Hall c) as (C & HC & _); [ left | ]. congruence.
Qed.

(** Searching a longer store for one more aura. *)
Lemma GetAura_snoc h l N label :
  (forall a, a ∈ l -> is_Some (h !! a)) ->
  GetAura (h ++ [N]) (l ++ [length h]) label
  = match GetAura h l label with
    | Ok None => if bool_decide (Label N = label) then Ok (Some (length h))
                 else Ok None
    | r => r
    end.
Proof.
  induction l as [|b l IH]; intros Hall; cbn [GetAura app].
  - rewrite lookup_app_r by lia. rewrite Nat.sub_diag. cbn. reflexivity.
  - destruct (Hall b) as [B HB]; [ left | ].
    rewrite (lookup_app_l_Some _ _ _ _ HB), HB.
    destruct (bool_decide (Label B = label)); [ reflexivity | ].
    apply IH. intros a Ha. apply Hall. right. exact Ha.
Qed.

Lemma alter_idem {A : Type} (f : A -> A) i (l : list A) :
  (forall x, f (f x) = f x) -> alter f i (alter f i l) = alter f i l.
Proof.
  intros Hf. apply list_eq. intros j. destruct (decide (j = i)) as [->|Hne].
  - rewrite !list_lookup_alter_eq. destruct (l !! i); cbn; [ rewrite Hf | ]; reflexivity.
  - rewrite !list_lookup_alter_ne by congruence. reflexivity.
Qed.

(** What [registerAura] does when it returns. *)
Lemma registerAura_Ok u aura (w : World) a w' :
  registerAura u aura w = Ok (a, w') ->
  exists U, unitsH w !! u = Some U
    /\ GetAura (aurasH w) (auras U) (Label aura) = Ok None
    /\ Label aura <> ""
    /\ a = length (aurasH w)
    /\ w' = updUnit u (fun U => set_auras (auras U ++ [a]) U)
              (set_aurasH (aurasH w ++ [set_index (fun _ => Inactive)
                                          (set_Unit u aura)]) w).
Proof.
  unfold registerAura, getUnit. intros H.
  destruct (unitsH w !! u) as [U|] eqn:HU; [ | discriminate ].
  cbn [bindR] in H. destruct (hasEnv U && finalized w); [ discriminate | ].
  case_bool_decide as HL; [ discriminate | ].
  destruct (GetAura (aurasH w) (auras U) (Label aura)) as [[b|]| | |] eqn:HG;
    try discriminate; cbn [bindR] in H.
  rewrite bool_decide_false in H by (intros [? ?]; discriminate).
  destruct (200 <? Z.of_nat (length (auras U))); [ discriminate | ].
  injection H as <- <-. exists U. repeat split; auto.
Qed.

(** X13: an aura that [registerAura] has accepted is the one [GetAura]
    finds under its label afterwards; it is stored as configured, for the
    unit, with no position in any dispatch array, and [HasActiveAura]
    answers with its [active] field; the lookup of every other label gives
    what it gave before, and the auras registered before are untouched. *)
Theorem register_then_get u aura (w : World) a w' :
  registerAura u aura w = Ok (a, w') ->
  exists U U',
    unitsH w !! u = Some U /\ unitsH w' !! u = Some U'
    /\ GetAura (aurasH w') (auras U') (Label aura) = Ok (Some a)
    /\ aurasH w' !! a = Some (set_index (fun _ => Inactive) (set_Unit u aura))
    /\ HasActiveAura (aurasH w') (auras U') (Label aura) = Ok (active aura)
    /\ (forall label, label <> Label aura ->
          GetAura (aurasH w') (auras U') label
          = GetAura (aurasH w) (auras U) label)
    /\ (forall b B, aurasH w !! b = Some B -> aurasH w' !! b = Some B).
Proof.
  intros H. destruct (registerAura_Ok _ _ _ _ _ H) as (U & HU & HG & HL & -> & ->).
  exists U, (set_auras (auras U ++ [length (aurasH w)]) U).
  split; [ exact HU | ].
  split.
  { cbn [unitsH updUnit set_unitsH set_aurasH].
    rewrite list_lookup_alter_eq, HU. reflexivity. }
  assert (Hall : forall b, b ∈ auras U -> is_Some (aurasH w !! b)).
  { intros b Hb. destruct (proj1 (GetAura_None _ _ _) HG b Hb) as (B & HB & _). eauto. }
  cbn [aurasH updUnit set_unitsH set_aurasH auras set_auras].
  assert (Hnew : (aurasH w ++ [set_index (fun _ => Inactive) (set_Unit u aura)])
                   !! length (aurasH w)
                 = Some (set_index (fun _ => Inactive) (set_Unit u aura))).
  { rewrite lookup_app_r by lia. rewrite Nat.sub_diag. reflexivity. }
  assert (Hget : GetAura (aurasH w ++ [set_index (fun _ => Inactive) (set_Unit u aura)])
                   (auras U ++ [length (aurasH w)]) (Label aura)
                 = Ok (Some (length (aurasH w)))).
  { rewrite GetAura_snoc by exact Hall. rewrite HG.
    rewrite bool_decide_true by reflexivity. reflexivity. }
  split; [ exact Hget | ]. split; [ exact Hnew | ].
  split.
  { unfold HasActiveAura. rewrite Hget. cbn [bindR]. rewrite Hnew. reflexivity. }
  split.
  - intros label Hne. rewrite GetAura_snoc by exact Hall.
    destruct (GetAura (aurasH w) (auras U) label) as [[b|]| | |]; try reflexivity.
    rewrite bool_decide_false; [ reflexivity | ]. cbn. congruence.
  - intros b B HB. apply lookup_app_l_Some. exact HB.
Qed.

(** X14: [GetOrRegisterAura] on a label that is registered returns the
    registered aura and registers nothing, also in a finalized environment,
    where [RegisterAura] panics; a second call with the same configuration
    changes nothing more.  Of the registered aura it overwrites the ten
    event handlers from [OnCastComplete] to [OnEncounterStart] with those
    of the configuration, and keeps [OnApplyEffects] and every other field;
    it leaves the dispatch arrays alone, which keeps arrays and positions
    in agreement as long as the aura is not active. *)
Theorem GetOrRegisterAura_registered u U aura (w : World) a :
  unitsH w !! u = Some U ->
  GetAura (aurasH w) (auras U) (Label aura) = Ok (Some a) ->
  exists w',
    GetOrRegisterAura u aura w = Ok (a, w')
    /\ unitsH w' = unitsH w
    /\ length (aurasH w') = length (aurasH w)
    /\ (forall b, b <> a -> aurasH w' !! b = aurasH w !! b)
    /\ (exists A A',
          aurasH w !! a = Some A /\ aurasH w' !! a = Some A'
          /\ (forall s, s <> SlotActive -> s <> SlotApplyEffects ->
                handler A' s = handler aura s)
          /\ handler A' SlotApplyEffects = handler A SlotApplyEffects
          /\ handler A' SlotActive = handler A SlotActive
          /\ set_handler (handler A) A' = A)
    /\ GetOrRegisterAura u aura w' = Ok (a, w')
    /\ (WF w -> IsActive (aurasH w !! a) = false -> WF w').
Proof.
  intros HU HG.
  set (F := takeHandlers aura).
  exists (updAura a F w).
  assert (H1 : GetOrRegisterAura u aura w = Ok (a, updAura a F w)).
  { unfold GetOrRegisterAura, getUnit. rewrite HU. cbn [bindR]. rewrite HG. reflexivity. }
  split; [ exact H1 | ]. split; [ reflexivity | ].
  split; [ cbn; apply length_alter | ].
  split; [ intros b Hb; cbn; apply list_lookup_alter_ne; congruence | ].
  split.
  { pose proof HG as HG0.
    apply GetAura_Some in HG0 as (l1 & l2 & A & _ & HA & _).
    exists A, (F A). split; [ exact HA | ].
    split; [ cbn; rewrite list_lookup_alter_eq, HA; reflexivity | ].
    split; [ intros s H1s H2s; destruct s; try reflexivity; congruence | ].
    split; [ reflexivity | ]. split; [ reflexivity | ].
    destruct A; reflexivity. }
  split.
  - unfold GetOrRegisterAura, getUnit.
    change (unitsH (updAura a F w)) with (unitsH w). rewrite HU. cbn [bindR].
    assert (HG' : GetAura (aurasH (updAura a F w)) (auras U) (Label aura) = Ok (Some a)).
    { apply GetAura_Some. apply GetAura_Some in HG as (l1 & l2 & A & Hl & HA & HLA & Hall).
      exists l1, l2, (F A). split; [ exact Hl | ].
      split; [ rewrite (lookup_updAura_Some _ _ _ _ _ HA), decide_True by reflexivity;
               reflexivity | ].
      split; [ exact HLA | ].
      intros b Hb. destruct (Hall b Hb) as (B & HB & Hne).
      rewrite (lookup_updAura_Some _ _ _ _ _ HB).
      destruct (decide (b = a)); eexists; split; try reflexivity; exact Hne. }
    rewrite HG'. cbn [bindR].
    change (Ok (a, updAura a F (updAura a F w)) = Ok (a, updAura a F w)).
    f_equal. f_equal. unfold updAura. cbn [aurasH set_aurasH].
    rewrite alter_idem.
    + destruct w; reflexivity.
    + intros B. destruct B; reflexivity.
  - intros HW Hin.
    destruct HW as [W1 W2 W3 W4]. constructor.
    + intros b B' Hb. destruct (lookup_updAura _ _ _ _ _ Hb) as (B & HB & ->).
      change (unitsH (updAura a F w)) with (unitsH w).
      replace (Unit (if decide (b = a) then F B else B)) with (Unit B)
        by (destruct (decide (b = a)); reflexivity).
      eapply W1; eauto.
    + intros v V s i b HV Hi. change (unitsH (updAura a F w)) with (unitsH w) in HV.
      destruct (W2 _ _ _ _ _ HV Hi) as (B & HB & Hu & Hx).
      rewrite (lookup_updAura_Some _ _ _ _ _ HB).
      eexists. split; [ reflexivity | ].
      destruct (decide (b = a)); auto.
    + intros b B' s Hb Hidx. destruct (lookup_updAura _ _ _ _ _ Hb) as (B & HB & ->).
      change (unitsH (updAura a F w)) with (unitsH w).
      replace (Unit (if decide (b = a) then F B else B)) with (Unit B)
        by (destruct (decide (b = a)); reflexivity).
      replace (index (if decide (b = a) then F B else B) s) with (index B s) in *
        by (destruct (decide (b = a)); reflexivity).
      eapply W3; eauto.
    + intros b B' s Hx Hb. destruct (lookup_updAura _ _ _ _ _ Hb) as (B & HB & ->).
      destruct (decide (b = a)) as [->|Hne]; [ | apply (W4 b B s); auto ].
      rewrite HB in Hin. cbn in Hin.
      pose proof (W4 a B s Hx HB) as Hiff.
      change (index (F B) s) with (index B s).
      change (active (F B)) with (active B). rewrite Hin in *.
      split; [ intros Hi; apply Hiff in Hi as [? _]; discriminate
             | intros [? _]; discriminate ].
Qed.

End LabelsFacts.

Section TagsFacts.
Context {PF : Platform}.

Lemma filter_tagged_snoc h N l tag :
  (forall a, a ∈ l -> is_Some (h !! a)) ->
  filter (tagged (h ++ [N]) tag) (l ++ [length h])
  = filter (tagged h tag) l
    ++ (if bool_decide (Tag N = tag) then [length h] else []).
Proof.
  intros Hall. rewrite filter_app. f_equal.
  - induction l as [|a l IH]; [ reflexivity | ].
    destruct (Hall a) as [A HA]; [ left | ].
    assert (Hiff : tagged (h ++ [N]) tag a <-> tagged h tag a).
    { unfold tagged. rewrite (lookup_app_l_Some _ _ _ _ HA), HA. reflexivity. }
    destruct (decide (tagged h tag a)) as [Ht|Ht].
    + rewrite !filter_cons_True by tauto. f_equal. apply IH.
      intros b Hb. apply Hall. right. exact Hb.
    + rewrite !filter_cons_False by tauto. apply IH.
      intros b Hb. apply Hall. right. exact Hb.
  - assert (Hl : (h ++ [N]) !! length h = Some N).
    { rewrite lookup_app_r by lia. rewrite Nat.sub_diag. reflexivity. }
    case_bool_decide as HT.
    + rewrite filter_cons_True; [ reflexivity | ]. unfold tagged. rewrite Hl. cbn. congruence.
    + rewrite filter_cons_False; [ reflexivity | ]. unfold tagged. rewrite Hl. cbn. congruence.
Qed.

(** The three loops over the auras of a tag agree. *)
Lemma tag_loops h l :
  (forall a, a ∈ l -> is_Some (h !! a)) ->
  exists r b,
    firstActive h l = Ok r /\ anyActive h l = Ok b
    /\ b = bool_decide (is_Some r)
    /\ r = head (filter (fun a => IsActive (h !! a) = true) l)
    /\ (forall a, r = Some a -> a ∈ l /\ IsActive (h !! a) = true)
    /\ (r = None -> forall a, a ∈ l -> IsActive (h !! a) = false)
    /\ forall c, 0 <= c -> c + Z.of_nat (length l) < 2 ^ 31 ->
         exists n, countActive h l c = Ok n
                   /\ c <= n <= c + Z.of_nat (length l)
                   /\ (n = c <-> r = None).
Proof.
  induction l as [|a l IH]; intros Hall.
  - exists None, false. split; [ reflexivity | ]. split; [ reflexivity | ].
    split; [ reflexivity | ]. split; [ reflexivity | ]. split; [ discriminate | ].
    split; [ intros _ a Ha; inversion Ha | ].
    intros c Hc0 Hlen. exists c. cbn [length countActive] in *.
    split; [ reflexivity | ]. split; [ lia | ]. split; auto.
  - destruct (Hall a) as [A HA]; [ left | ].
    destruct IH as (r & b & H1 & H2 & Hb & Hh & Hr & Hn & Hc).
    { intros x Hx. apply Hall. right. exact Hx. }
    cbn [firstActive anyActive countActive]. rewrite HA.
    destruct (active A) eqn:Hact.
    + exists (Some a), true. split; [ reflexivity | ]. split; [ reflexivity | ].
      split; [ reflexivity | ].
      split; [ rewrite filter_cons_True by (rewrite HA; exact Hact); reflexivity | ].
      split; [ intros x Hx; injection Hx as <-; split; [ left | rewrite HA; exact Hact ] | ].
      split; [ discriminate | ].
      intros c Hc0 Hlen. cbn [length] in Hlen.
      rewrite wrap32_small by lia.
      destruct (Hc (c + 1)) as (n & Hn1 & Hn2 & _); [ lia | lia | ].
      exists n. split; [ exact Hn1 | ]. split; [ cbn [length]; lia | ].
      split; [ lia | discriminate ].
    + exists r, b. split; [ exact H1 | ]. split; [ exact H2 | ].
      split; [ exact Hb | ].
      split; [ rewrite filter_cons_False by (rewrite HA; cbn; congruence); exact Hh | ].
      split; [ intros x Hx; destruct (Hr x Hx); split; [ right | ]; assumption | ].
      split.
      * intros Hnone x Hx. inversion Hx; subst; [ rewrite HA; exact Hact | auto ].
      * intros c Hc0 Hlen. cbn [length] in Hlen.
        destruct (Hc c) as (n & Hn1 & Hn2 & Hn3); [ lia | lia | ].
        exists n. split; [ exact Hn1 | ]. split; [ cbn [length]; lia | exact Hn3 ].
Qed.

(** X15: the index by tag is kept exact by [registerAura], and so the
    queries by tag answer for the registered auras: under a tag that is not
    empty, [GetActiveAuraWithTag] returns the first registered aura with the
    tag that is active, [HasActiveAuraWithTag] says whether there is one,
    and [NumActiveAurasWithTag] is positive exactly then; auras without a
    tag are not indexed, so the queries find nothing under the empty
    tag. *)
Theorem tag_index_exact u U aura (w : World) m a w' m' :
  unitsH w !! u = Some U ->
  tags_exact (aurasH w) (auras U) m ->
  registerAuraTagged u aura w m = Ok (a, w', m') ->
  exists U',
    unitsH w' !! u = Some U'
    /\ tags_exact (aurasH w') (auras U') m'
    /\ forall tag, Z.of_nat (length (auras U')) < 2 ^ 31 ->
         exists r n b,
           GetActiveAuraWithTag (aurasH w') m' tag = Ok r
           /\ NumActiveAurasWithTag (aurasH w') m' tag = Ok n
           /\ HasActiveAuraWithTag (aurasH w') m' tag = Ok b
           /\ b = bool_decide (is_Some r) /\ (b = true <-> 0 < n)
           /\ (tag <> "" ->
               r = head (filter (fun x => IsActive (aurasH w' !! x) = true)
                           (filter (tagged (aurasH w') tag) (auras U'))))
           /\ (b = true <->
               tag <> "" /\ exists x X, x ∈ auras U' /\ aurasH w' !! x = Some X
                                        /\ Tag X = tag /\ active X = true).
Proof.
  intros HU [Hval Hex] H. unfold registerAuraTagged in H.
  destruct (registerAura u aura w) as [[a0 w0]| | |] eqn:Hreg; try discriminate.
  destruct (registerAura_Ok _ _ _ _ _ Hreg) as (U0 & HU0 & HG & HL & -> & ->).
  rewrite HU in HU0. injection HU0 as <-.
  set (N := set_index (fun _ => Inactive) (set_Unit u aura)) in *.
  set (h' := aurasH w ++ [N]).
  set (l' := auras U ++ [length (aurasH w)]).
  assert (HU' : unitsH (updUnit u (fun U => set_auras (auras U ++ [length (aurasH w)]) U)
                          (set_aurasH h' w)) !! u = Some (set_auras l' U)).
  { cbn [unitsH updUnit set_unitsH set_aurasH]. rewrite list_lookup_alter_eq, HU. reflexivity. }
  assert (Hval' : forall x, x ∈ l' -> is_Some (h' !! x)).
  { intros x Hx. apply elem_of_app in Hx as [Hx|Hx].
    - destruct (Hval x Hx) as [X HX]. exists X. apply lookup_app_l_Some. exact HX.
    - apply list_elem_of_singleton in Hx as ->. exists N. unfold h'.
      rewrite lookup_app_r by lia. rewrite Nat.sub_diag. reflexivity. }
  assert (Hex' : tags_exact h' l' m').
  { split; [ exact Hval' | ]. intros tag. unfold h', l'.
    rewrite filter_tagged_snoc by exact Hval.
    change (Tag N) with (Tag aura).
    cbn [bindR] in H. destruct (bool_decide (Tag aura = "")) eqn:Et; cbn [negb] in H;
      injection H as <- <- <-.
    - apply bool_decide_eq_true in Et. rewrite Hex.
      case_bool_decide as H0; [ reflexivity | ].
      rewrite bool_decide_false by congruence. rewrite app_nil_r. reflexivity.
    - apply bool_decide_eq_false in Et.
      destruct (decide (Tag aura = tag)) as [<-|Hne].
      + pose proof (Hex (Tag aura)) as He. unfold byTag in He |- *.
        rewrite lookup_insert_eq. cbn [default]. rewrite He.
        rewrite bool_decide_false by exact Et.
        rewrite bool_decide_true by reflexivity. reflexivity.
      + pose proof (Hex tag) as He. unfold byTag in He |- *.
        rewrite lookup_insert_ne by exact Hne. rewrite He.
        rewrite (bool_decide_false (Tag aura = tag)) by exact Hne.
        case_bool_decide; [ reflexivity | rewrite app_nil_r; reflexivity ]. }
  exists (set_auras l' U).
  assert (Hw' : w' = updUnit u (fun U => set_auras (auras U ++ [length (aurasH w)]) U)
                       (set_aurasH h' w)).
  { cbn [bindR] in H. destruct (negb (bool_decide (Tag aura = ""))); injection H as _ <- _;
      reflexivity. }
  subst w'. split; [ exact HU' | ]. split; [ exact Hex' | ].
  intros tag Hlen. change (aurasH (updUnit u _ (set_aurasH h' w))) with h'.
  change (auras (set_auras l' U)) with l' in *.
  unfold GetActiveAuraWithTag, NumActiveAurasWithTag, HasActiveAuraWithTag.
  destruct Hex' as [_ Hex'].
  assert (Hsub : forall x, x ∈ byTag m' tag ->
            tag <> "" /\ x ∈ l' /\ tagged h' tag x).
  { intros x Hx. rewrite Hex' in Hx. case_bool_decide; [ inversion Hx | ].
    apply list_elem_of_filter in Hx as [? ?]. auto. }
  assert (Hsup : forall x, tag <> "" -> x ∈ l' -> tagged h' tag x -> x ∈ byTag m' tag).
  { intros x Ht Hx Htag. rewrite Hex'. rewrite bool_decide_false by exact Ht.
    apply list_elem_of_filter. auto. }
  assert (Hlen' : (length (byTag m' tag) <= length l')%nat).
  { rewrite Hex'. destruct (bool_decide (tag = ""))%string; [ cbn; lia | apply length_filter ]. }
  destruct (tag_loops h' (byTag m' tag)) as (r & b & H1 & H2 & Hb & Hh & Hr & Hn & Hc).
  { intros x Hx. apply Hval'. apply Hsub. exact Hx. }
  destruct (Hc 0) as (n & Hn1 & Hn2 & Hn3); [ lia | lia | ].
  exists r, n, b. split; [ exact H1 | ]. split; [ exact Hn1 | ]. split; [ exact H2 | ].
  split; [ exact Hb | ].
  assert (Hbr : b = true <-> r <> None).
  { subst b. destruct r as [x|].
    - rewrite bool_decide_true by (eexists; reflexivity). split; congruence.
    - rewrite bool_decide_false by (intros [? ?]; discriminate).
      split; [ discriminate | congruence ]. }
  split.
  { rewrite Hbr. split; [ intros Hne; assert (n <> 0) by tauto; lia
                        | intros Hpos Hnone; apply Hn3 in Hnone; lia ]. }
  split.
  - intros Ht. rewrite Hh, Hex'. rewrite bool_decide_false by exact Ht. reflexivity.
  - rewrite Hbr. split.
    + intros Hne. destruct r as [x|]; [ | congruence ].
      destruct (Hr x eq_refl) as [Hx Hax].
      destruct (Hsub x Hx) as (Ht & Hxl & Htag).
      split; [ exact Ht | ]. unfold tagged in Htag.
      destruct (h' !! x) as [X|] eqn:HX; [ | discriminate ].
      exists x, X. cbn in Htag, Hax. repeat split; auto. congruence.
    + intros (Ht & x & X & Hx & HX & HT & Hact) Hnone.
      assert (Hin : x ∈ byTag m' tag).
      { apply Hsup; auto. unfold tagged. rewrite HX. cbn. congruence. }
      pose proof (Hn Hnone x Hin) as Hf. rewrite HX in Hf. cbn in Hf. congruence.
Qed.

End TagsFacts.

Section ExpireAllFacts.
Context {PF : Platform} {PG : Program}.

(** The active auras of a unit whose list of timed auras is empty are
    permanent. *)
Lemma empty_active_permanent u U (w : World) :
  WF w -> unitsH w !! u = Some U -> arrays U SlotActive = [] ->
  forall a A, aurasH w !! a = Some A -> Unit A = u -> active A = true ->
    Duration A = NeverExpires.
Proof.
  intros HW HU Hnil a A HA HuA Hact.
  destruct (Z.eq_dec (Duration A) NeverExpires) as [|Hdur]; [ assumption | exfalso ].
  assert (Hreg : registers A SlotActive = true)
    by (cbn; apply negb_true_iff, Z.eqb_neq; exact Hdur).
  assert (Hidx : index A SlotActive <> Inactive).
  { apply (wf_act _ _ HW a A SlotActive); [ discriminate | exact HA | auto ]. }
  destruct (wf_idx _ _ HW _ _ _ HA Hidx) as (U' & i & HU' & _ & Hi).
  rewrite HuA, HU in HU'. injection HU' as <-. rewrite Hnil in Hi. discriminate.
Qed.

Lemma expireAll_post fuel n u (w w' : World) :
  (forall ee, observer (eeActivate ee)) ->
  WF w -> expireAll fuel n u w = Ok w' ->
  WF w'
  /\ (exists U', unitsH w' !! u = Some U' /\ arrays U' SlotActive = []
                 /\ minExpires U' = NeverExpires)
  /\ forall a A, aurasH w' !! a = Some A -> Unit A = u -> active A = true ->
       Duration A = NeverExpires.
Proof.
  intros Hee. revert w. induction n as [|n IH]; intros w HW H;
    cbn [expireAll] in H; unfold getUnit in H;
    (destruct (unitsH w !! u) as [U|] eqn:HU; [ | discriminate ]);
    cbn [bindR] in H;
    (destruct (arrays U SlotActive) as [|a rest] eqn:Harr; [ | try discriminate ]).
  1, 2: injection H as <-;
    assert (HW' : WF (updUnit u (set_minExpires NeverExpires) w))
      by (apply WFx_updUnit; [ reflexivity | exact HW ]);
    assert (HU' : unitsH (updUnit u (set_minExpires NeverExpires) w) !! u
                  = Some (set_minExpires NeverExpires U))
      by (rewrite (lookup_updUnit_Some _ _ _ _ _ HU), decide_True by reflexivity;
          reflexivity);
    (split; [ exact HW' | ]);
    (split; [ exists (set_minExpires NeverExpires U);
              split; [ exact HU' | split; [ exact Harr | reflexivity ] ] | ]);
    apply (empty_active_permanent u _ _ HW' HU' Harr).
  destruct (exec fuel (CDeactivate a) w) as [w1| | |] eqn:Hd; try discriminate.
  cbn [bindR] in H. apply (IH w1); [ | exact H ].
  exact (post_Ok _ _ _ (exec_WF Hee _ _ _ HW) Hd).
Qed.

Section ExpireAllTotal.
Hypothesis Hobs : all_observers.

Lemma expireAll_total fuel n u U (w : World) :
  WF w -> StacksInv w -> unitsH w !! u = Some U ->
  (length (arrays U SlotActive) <= n)%nat ->
  exists w', expireAll (3 + fuel) n u w = Ok w'
    /\ forall b B, aurasH w !! b = Some B -> active B = true ->
         Duration B = NeverExpires ->
         exists B', aurasH w' !! b = Some B' /\ active B' = true
                    /\ Duration B' = NeverExpires.
Proof.
  assert (Hee : forall ee, observer (eeActivate ee)) by apply Hobs.
  revert w U. induction n as [|n IH]; intros w U HW HS HU Hlen;
    cbn [expireAll]; unfold getUnit; rewrite HU; cbn [bindR];
    (destruct (arrays U SlotActive) as [|a rest] eqn:Harr;
     [ eexists; split; [ reflexivity | ]; intros b B HB Hb Hd; exists B;
       cbn [aurasH updUnit set_unitsH]; auto | ]).
  { cbn [length] in Hlen. lia. }
  assert (Hi : arrays U SlotActive !! 0%nat = Some a) by (rewrite Harr; reflexivity).
  destruct (wf_arr _ _ HW _ _ _ _ _ HU Hi) as (A & HA & HuA & HiA).
  assert (Hidx : index A SlotActive <> Inactive) by (rewrite HiA; unfold Inactive; lia).
  destruct (proj1 (wf_act _ _ HW a A SlotActive ltac:(discriminate) HA) Hidx)
    as [Hact Hreg].
  change (exec (3 + fuel) (CDeactivate a) w)
    with (Deactivate (exec (S (S fuel))) a (emit (EvDeactivate a) w)).
  destruct (Deactivate_active Hobs fuel a A (emit (EvDeactivate a) w))
    as (w2 & Hd & _ & Hout & _ & Hoth & _ & _ & Hun);
    [ apply WF_emit; exact HW | exact HA | exact Hact
    | apply (StacksInv_lookup _ _ _ HS HA) | ].
  rewrite Hd. cbn [bindR].
  assert (Hd' : exec (3 + fuel) (CDeactivate a) w = Ok w2) by exact Hd.
  pose proof (post_Ok _ _ _ (exec_WF Hee _ _ _ HW) Hd') as HW2.
  pose proof (post_Ok _ _ _ (ss_inv _ (exec_stacks_safe _) _ _ HS) Hd') as HS2.
  rewrite HuA in Hun. destruct (Hun U HU) as (g & Hg & Hgs).
  destruct (IH w2 _ HW2 HS2 Hg) as (w' & Hrun & Hkept).
  { cbn [arrays set_arrays]. rewrite Hgs. unfold arrays_after_unregister.
    destruct (index A SlotActive =? Inactive) eqn:E; [ apply Z.eqb_eq in E; congruence | ].
    rewrite removeBySwappingToBack_length by (rewrite Harr; discriminate).
    rewrite Harr in *. cbn [length] in *. lia. }
  exists w'. split; [ exact Hrun | ].
  intros b B HB Hb Hdur.
  assert (Hba : b <> a).
  { intros ->. rewrite HA in HB. injection HB as <-.
    cbn in Hreg. apply negb_true_iff, Z.eqb_neq in Hreg. congruence. }
  destruct (Hoth b B Hba HB) as (f & Hf).
  apply (Hkept b _ Hf); [ exact Hb | exact Hdur ].
Qed.

End ExpireAllTotal.

(** X16: [expireAll] deactivates every timed aura of the unit and no other:
    when it returns, whatever the hooks did, the list of timed auras is
    empty, the cached minimum is [NeverExpires], and the auras of the unit
    that are still active are permanent ones.  With hooks that only
    observe it does return, after one [Deactivate] for each timed aura, and
    the permanent auras that were active stay active. *)
Theorem expireAll_spec fuel n u U (w : World) :
  (forall ee, observer (eeActivate ee)) ->
  WF w -> unitsH w !! u = Some U ->
  (forall w', expireAll fuel n u w = Ok w' ->
     WF w'
     /\ (exists U', unitsH w' !! u = Some U' /\ arrays U' SlotActive = []
                    /\ minExpires U' = NeverExpires)
     /\ forall a A, aurasH w' !! a = Some A -> Unit A = u ->
          active A = true -> Duration A = NeverExpires)
  /\ (all_observers -> StacksInv w ->
      (length (arrays U SlotActive) <= n)%nat -> (3 <= fuel)%nat ->
      exists w', expireAll fuel n u w = Ok w'
        /\ forall b B, aurasH w !! b = Some B -> active B = true ->
             Duration B = NeverExpires ->
             exists B', aurasH w' !! b = Some B' /\ active B' = true
                        /\ Duration B' = NeverExpires).
Proof.
  intros Hee HW HU. split.
  - intros w' H. exact (expireAll_post fuel n u w w' Hee HW H).
  - intros Hobs HS Hlen Hfuel.
    destruct (expireAll_total Hobs (fuel - 3) n u U w HW HS HU Hlen) as (w' & H & Hk).
    replace (3 + (fuel - 3))%nat with fuel in H by lia. eauto.
Qed.

End ExpireAllFacts.

Section EndOfCombat.
Context {PF : Platform} {PG : Program}.

Lemma end_stable E : exec_stable (fun w0 : World => endOfCombatDuration w0 = E).
Proof.
  split; [ | split ].
  - intros w1 w2 [Ho _] H1. rewrite <- H1.
    exact (f_equal endOfCombatDuration Ho).
  - intros call c0 w0 Hc H0.
    destruct (step_cmd call c0 w0) as [w1| | |] eqn:E0; cbn [post]; auto.
    destruct c0; try discriminate; cbn [step_cmd] in E0.
    + apply AddPendingAction_shape in E0. destruct E0 as (q & ->). exact H0.
    + apply AddPendingAction_shape in E0. destruct E0 as (q & ->). exact H0.
    + injection E0 as <-. exact H0.
    + injection E0 as <-. exact H0.
    + injection E0 as <-. exact H0.
  - intros p w0 H0. destruct (cancel_writes_shape p w0) as (evs & -> & _). exact H0.
Qed.

Lemma run_end fuel p (w : World) :
  post (runProg (exec fuel) p w)
    (fun r => endOfCombatDuration r.2 = endOfCombatDuration w).
Proof. apply (run_preserves _ (end_stable (endOfCombatDuration w))). reflexivity. Qed.

Lemma nextExecutePhase_end (w : World) :
  post (nextExecutePhase w)
    (fun w1 => endOfCombatDuration w1 = endOfCombatDuration w).
Proof.
  unfold nextExecutePhase, setup. cbv zeta.
  repeat (destruct (executePhase w =? _); [ cbn [post];
    try (destruct (f_gt _ _)); reflexivity | ]).
  exact I.
Qed.

Lemma runPhaseCallbacks_end fuel i cbs (w : World) :
  post (runPhaseCallbacks fuel i cbs w)
    (fun w' => endOfCombatDuration w' = endOfCombatDuration w).
Proof.
  revert i w. induction cbs as [|cb cbs IH]; intros i w; cbn [runPhaseCallbacks];
    [ reflexivity | ].
  cbv zeta. apply post_bind. eapply post_mono; [ | apply run_end ].
  intros [v w1] H1. cbn [snd] in H1. eapply post_mono; [ | apply IH ].
  intros w2 H2. cbn in H2. rewrite H2, H1. reflexivity.
Qed.

Lemma phaseLoop_end fuel n (w : World) :
  post (phaseLoop fuel n w)
    (fun w' => endOfCombatDuration w' = endOfCombatDuration w).
Proof.
  revert w. induction n as [|n IH]; intros w; cbn [phaseLoop];
    destruct (_ || _); cbn [post]; try reflexivity; try exact I.
  apply post_bind. eapply post_mono; [ | apply nextExecutePhase_end ].
  intros w1 H1. apply post_bind. eapply post_mono; [ | apply runPhaseCallbacks_end ].
  intros w2 H2. eapply post_mono; [ | apply IH ].
  intros w3 H3. cbn in H3. congruence.
Qed.

Lemma advance_end fuel t (w : World) :
  post (advance fuel t w)
    (fun w' => endOfCombatDuration w' = endOfCombatDuration w).
Proof.
  unfold advance. cbv zeta. apply post_bind.
  eapply post_mono; [ | apply phaseLoop_end ].
  intros w1 H1. cbn [endOfCombatDuration set_CurrentTime] in H1.
  destruct (_ <=? _); [ | exact H1 ].
  apply (advanceTrackers_stable _ (end_stable (endOfCombatDuration w))). exact H1.
Qed.

Lemma swingAll_end fuel l (w : World) :
  post (swingAll fuel l w)
    (fun w' => endOfCombatDuration w' = endOfCombatDuration w).
Proof.
  revert w. induction l as [|x l IH]; intros w; cbn [swingAll]; [ reflexivity | ].
  apply post_bind. eapply post_mono; [ | apply run_end ].
  intros [t w1] H1. cbn [snd] in H1. eapply post_mono; [ | apply IH ].
  intros w2 H2. cbn in H2. congruence.
Qed.

Lemma runTasks_end fuel l (w : World) :
  post (runTasks fuel l w)
    (fun w' => endOfCombatDuration w' = endOfCombatDuration w).
Proof.
  revert w. induction l as [|x l IH]; intros w; cbn [runTasks]; [ reflexivity | ].
  apply post_bind. eapply post_mono; [ | apply run_end ].
  intros [t w1] H1. cbn [snd] in H1. eapply post_mono; [ | apply IH ].
  intros w2 H2. cbn in H2. congruence.
Qed.

Lemma dispose_end p (w : World) :
  endOfCombatDuration (dispose p w) = endOfCombatDuration w.
Proof.
  unfold dispose. destruct (actionsH w !! p) as [PA|]; [ | reflexivity ].
  destruct (canPool PA); reflexivity.
Qed.

Lemma post_conj {A : Type} (r : Res A) (P Q : A -> Prop) :
  post r P -> post r Q -> post r (fun a => P a /\ Q a).
Proof. destruct r; simpl; auto. Qed.

Lemma combatOver_false t (w : World) :
  combatOver t w = false -> t <= endOfCombatDuration w.
Proof.
  unfold combatOver. intros H. apply orb_false_iff in H as [H _].
  apply Z.ltb_ge in H. exact H.
Qed.

(** One step of the event loop leaves the end of combat where it is and
    takes the clock to a time that is not after it, or leaves the clock. *)
Lemma Step_bound fuel (w : World) :
  post (Step fuel w)
    (fun r => endOfCombatDuration r.2 = endOfCombatDuration w
              /\ CurrentTime r.2
                 <= Z.max (CurrentTime w) (endOfCombatDuration w)).
Proof.
  unfold Step. destruct (last (pendingActions w)) as [p|]; [ | exact I ].
  apply post_bind. unfold getAction.
  destruct (actionsH w !! p) as [PA|]; [ cbn [post] | exact I ].
  destruct (_ && _).
  { destruct (combatOver _ _) eqn:Eo; cbn [post snd]; [ lia | ].
    apply combatOver_false in Eo.
    apply post_bind. unfold advanceWeaponAttacks. apply post_bind.
    destruct (CurrentTime w <? minWeaponAttackTime w) eqn:E.
    - apply Z.ltb_lt in E.
      eapply post_mono; [ | apply post_conj; [ apply advance_time | apply advance_end ] ].
      intros w1 [H1 H1']. cbn beta in H1, H1'.
      eapply post_mono; [ | apply post_conj; [ apply swingAll_time | apply swingAll_end ] ].
      intros w2 [H2 H2']. cbn in H2, H2' |- *. lia.
    - cbn [post].
      eapply post_mono; [ | apply post_conj; [ apply swingAll_time | apply swingAll_end ] ].
      intros w2 [H2 H2']. cbn in H2, H2' |- *. lia. }
  destruct (_ <=? _).
  { destruct (combatOver _ _) eqn:Eo; cbn [post snd]; [ lia | ].
    apply combatOver_false in Eo.
    apply post_bind. unfold advanceTasks. apply post_bind.
    destruct (CurrentTime w <? minTaskTime w) eqn:E.
    - apply Z.ltb_lt in E.
      eapply post_mono; [ | apply post_conj; [ apply advance_time | apply advance_end ] ].
      intros w1 [H1 H1']. cbn beta in H1, H1'.
      eapply post_mono; [ | apply post_conj; [ apply runTasks_time | apply runTasks_end ] ].
      intros w2 [H2 H2']. cbn in H2, H2' |- *. lia.
    - cbn [post].
      eapply post_mono; [ | apply post_conj; [ apply runTasks_time | apply runTasks_end ] ].
      intros w2 [H2 H2']. cbn in H2, H2' |- *. lia. }
  cbv zeta.
  destruct (cancelled PA);
    [ cbn [post snd]; rewrite dispose_time, dispose_end; cbn; lia | ].
  destruct (combatOver _ _) eqn:Eo;
    [ cbn [post snd]; rewrite dispose_time, dispose_end; cbn; lia | ].
  apply combatOver_false in Eo.
  cbn [endOfCombatDuration updAction set_actionsH set_pendingActions] in Eo.
  apply post_bind.
  match goal with |- post (if ?c then _ else _) _ => destruct c eqn:E end.
  - apply Z.ltb_lt in E. cbn [CurrentTime updAction set_actionsH set_pendingActions] in E.
    eapply post_mono; [ | apply post_conj; [ apply advance_time | apply advance_end ] ].
    intros w2 [H2 H2']. cbn beta in H2, H2'.
    cbn [endOfCombatDuration updAction set_actionsH set_pendingActions] in H2'.
    apply post_bind. unfold getAction.
    destruct (actionsH w2 !! p) as [PA2|]; [ cbn [post] | exact I ].
    destruct (cancelled PA2);
      [ cbn [post snd]; rewrite dispose_time, dispose_end; lia | ].
    apply post_bind. unfold runAction.
    destruct (OnAction PA2); try exact I.
    apply post_bind.
    eapply post_mono; [ | apply post_conj; [ apply run_time | apply run_end ] ].
    intros [v w3] [H3 H3']. cbn [snd post] in H3, H3' |- *.
    rewrite dispose_time, dispose_end, H3, H3'. cbn. lia.
  - cbn [post]. apply post_bind. unfold getAction.
    match goal with |- post (match ?x with _ => _ end) _ => destruct x as [PA2|] end;
      [ cbn [post] | exact I ].
    destruct (cancelled PA2);
      [ cbn [post snd]; rewrite dispose_time, dispose_end; cbn; lia | ].
    apply post_bind. unfold runAction.
    destruct (OnAction PA2); try exact I.
    apply post_bind.
    eapply post_mono; [ | apply post_conj; [ apply run_time | apply run_end ] ].
    intros [v w3] [H3 H3']. cbn [snd post] in H3, H3' |- *.
    rewrite dispose_time, dispose_end, H3, H3'. cbn. lia.
Qed.

(** X17: the event loop never takes the clock past the end of combat, and
    no callback can move the end of combat: when [runPendingActions] returns
    in a fight that has not reached its end, the current time is at or
    before [endOfCombatDuration], which is what it was. *)
Theorem clock_stops_at_end_of_combat fuel n (w w' : World) :
  runPendingActions fuel n w = Ok w' ->
  endOfCombatDuration w' = endOfCombatDuration w
  /\ CurrentTime w' <= Z.max (CurrentTime w) (endOfCombatDuration w)
  /\ (CurrentTime w <= endOfCombatDuration w ->
      CurrentTime w' <= endOfCombatDuration w').
Proof.
  revert w. induction n as [|n IH]; intros w H; cbn [runPendingActions] in H;
    [ discriminate | ].
  pose proof (Step_bound fuel w) as HS.
  destruct (Step fuel w) as [[fin w1]| | |]; cbn [bindR post snd] in *; try discriminate.
  destruct HS as [He Ht]. destruct fin.
  - injection H as <-. split; [ exact He | ]. split; [ exact Ht | ]. lia.
  - destruct (IH _ H) as (He' & Ht' & _).
    split; [ congruence | ]. split; lia.
Qed.

End EndOfCombat.

Section LazyExpiry.
Context {PF : Platform} {PG : Program}.
Hypothesis Hobs : all_observers.

Lemma sview_lookup (w w' : World) :
  sview w' = sview w ->
  trackers w' = trackers w /\ minTrackerTime w' = minTrackerTime w
  /\ CurrentTime w' = CurrentTime w
  /\ (forall v, minExpires <$> unitsH w' !! v = minExpires <$> unitsH w !! v)
  /\ (forall a, key <$> aurasH w' !! a = key <$> aurasH w !! a).
Proof.
  unfold sview. intros H. injection H as H1 H2 H3 H4 H5.
  repeat split; auto.
  - intros v. rewrite <- !list_lookup_fmap, H2. reflexivity.
  - intros a. rewrite <- !list_lookup_fmap, H1. reflexivity.
Qed.

Lemma sview_shrinks x (w w' : World) : sview w' = sview w -> shrinks_but x w w'.
Proof.
  intros H. pose proof (f_equal (fun v => length v.1.1.1.1) H) as Hlen.
  cbn in Hlen. rewrite !length_fmap in Hlen.
  destruct (sview_lookup _ _ H) as (H1 & H2 & H3 & H4 & H5).
  split; [ exact H1 | ]. split; [ exact H2 | ]. split; [ exact H3 | ].
  split; [ intros v _; apply H4 | ]. split; [ exact Hlen | ].
  intros a A A' HA HA'. pose proof (H5 a) as Hk. rewrite HA, HA' in Hk.
  cbn in Hk. unfold key in Hk. injection Hk as Ha Hd Hu He.
  split; [ exact Hu | ]. split; [ exact Hd | ]. intros Hact. split; congruence.
Qed.

Lemma shrinks_refl x (w : World) : shrinks_but x w w.
Proof. apply sview_shrinks. reflexivity. Qed.

Lemma shrinks_trans x (w1 w2 w3 : World) :
  shrinks_but x w1 w2 -> shrinks_but x w2 w3 -> shrinks_but x w1 w3.
Proof.
  intros (A1 & A2 & A3 & A4 & A5 & A6) (B1 & B2 & B3 & B4 & B5 & B6).
  split; [ congruence | ]. split; [ congruence | ]. split; [ congruence | ].
  split; [ intros v Hv; rewrite B4, A4 by exact Hv; reflexivity | ].
  split; [ congruence | ].
  intros a A A'' HA HA''.
  destruct (aurasH w2 !! a) as [A'|] eqn:HA'.
  - destruct (A6 _ _ _ HA HA') as (U1 & D1 & E1).
    destruct (B6 _ _ _ HA' HA'') as (U2 & D2 & E2).
    split; [ congruence | ]. split; [ congruence | ].
    intros Hact. destruct (E2 Hact) as [Hact' He]. destruct (E1 Hact') as [? ?].
    split; congruence.
  - apply lookup_lt_Some in HA. apply lookup_ge_None in HA'. lia.
Qed.

Lemma shrinks_weaken x (w w' : World) :
  shrinks_but None w w' -> shrinks_but x w w'.
Proof.
  intros (A1 & A2 & A3 & A4 & A5 & A6). repeat split; auto;
    try (intros; apply A4; discriminate); eapply A6; eauto.
Qed.

Lemma cached_min_weaken x (w : World) : cached_min None w -> cached_min x w.
Proof. intros H a A U _. apply H. discriminate. Qed.

Lemma SchedX_shrinks x (w w' : World) :
  shrinks_but None w w' -> SchedX x w -> SchedX x w'.
Proof.
  intros (A1 & A2 & A3 & A4 & A5 & A6) (S1 & S2 & S3).
  assert (Hback : forall a A', aurasH w' !! a = Some A' ->
            exists A, aurasH w !! a = Some A).
  { intros a A' HA'. apply lookup_lt_Some in HA'. rewrite A5 in HA'.
    apply lookup_lt_is_Some in HA'. exact HA'. }
  assert (Hunit : forall u U', unitsH w' !! u = Some U' ->
            exists U, unitsH w !! u = Some U /\ minExpires U = minExpires U').
  { intros u U' HU'. pose proof (A4 u ltac:(discriminate)) as Hm.
    rewrite HU' in Hm. cbn in Hm.
    destruct (unitsH w !! u) as [U|]; [ | discriminate ].
    exists U. cbn in Hm. split; congruence. }
  split; [ | split ].
  - intros a A' HA'. destruct (Hback _ _ HA') as [A HA].
    destruct (A6 _ _ _ HA HA') as (-> & _). rewrite A1. eapply S1; eauto.
  - intros u U' Hu HU'. rewrite A1 in Hu. destruct (Hunit _ _ HU') as (U & HU & <-).
    rewrite A2. eapply S2; eauto.
  - intros a A' U' Hx HA' Hact Hdur HU'. destruct (Hback _ _ HA') as [A HA].
    destruct (A6 _ _ _ HA HA') as (Hu & Hd & He). destruct (He Hact) as [Hact0 ->].
    destruct (Hunit _ _ HU') as (U & HU & <-).
    rewrite Hu in HU. eapply S3; eauto. congruence.
Qed.

Lemma no_expired_shrinks x u (w w' : World) :
  shrinks_but x w w' -> no_expired u w -> no_expired u w'.
Proof.
  intros (A1 & A2 & A3 & A4 & A5 & A6) Hn a A' HA' Hu Hact Hdur.
  assert (exists A, aurasH w !! a = Some A) as [A HA].
  { apply lookup_lt_Some in HA'. rewrite A5 in HA'.
    apply lookup_lt_is_Some in HA'. exact HA'. }
  destruct (A6 _ _ _ HA HA') as (Hu' & Hd & He). destruct (He Hact) as [Hact0 ->].
  rewrite A3. apply (Hn a A HA); congruence.
Qed.

Lemma sview_updAura a F (w : World) :
  (forall B, key (F B) = key B) -> sview (updAura a F w) = sview w.
Proof.
  intros HF. unfold sview. cbn [aurasH unitsH trackers minTrackerTime CurrentTime
                                updAura set_aurasH].
  f_equal. f_equal. f_equal. f_equal.
  apply list_eq. intros i. rewrite !list_lookup_fmap.
  destruct (decide (i = a)) as [->|Hne].
  - rewrite list_lookup_alter_eq. destruct (aurasH w !! a); cbn; [ rewrite HF | ]; reflexivity.
  - rewrite list_lookup_alter_ne by congruence. reflexivity.
Qed.

Lemma sview_updUnit u G (w : World) :
  (forall U, minExpires (G U) = minExpires U) -> sview (updUnit u G w) = sview w.
Proof.
  intros HG. unfold sview. cbn [aurasH unitsH trackers minTrackerTime CurrentTime
                                updUnit set_unitsH].
  f_equal. f_equal. f_equal. f_equal.
  apply list_eq. intros i. rewrite !list_lookup_fmap.
  destruct (decide (i = u)) as [->|Hne].
  - rewrite list_lookup_alter_eq. destruct (unitsH w !! u); cbn; [ rewrite HG | ]; reflexivity.
  - rewrite list_lookup_alter_ne by congruence. reflexivity.
Qed.

Lemma sview_same_store (w w' : World) :
  set_log [] w' = set_log [] w -> sview w' = sview w.
Proof.
  intros H. change (sview (set_log [] w') = sview (set_log [] w)). rewrite H. reflexivity.
Qed.

Lemma runProg_observer call p (w : World) :
  observer p -> exists v, runProg call p w = Ok (v, w).
Proof. intros [v ->]. exists v. reflexivity. Qed.

Lemma runHook_sview call cb args e (w : World) :
  post (runHook call cb args e w) (fun w' => sview w' = sview w).
Proof.
  destruct (runHook_observer Hobs call cb args e w) as (w' & -> & _ & Hs).
  cbn [post]. apply sview_same_store. exact Hs.
Qed.

Lemma activateEffects_observer call acq todo (w : World) :
  exists b, activateEffects call acq todo w = Ok (b, w).
Proof.
  revert acq. induction todo as [|ee todo IH]; intros acq; cbn [activateEffects];
    [ eauto | ].
  destruct Hobs as (_ & He & _). destruct (He ee) as [v ->]. cbn.
  destruct (v =? 0).
  - rewrite (deactivateEffects_observer Hobs). cbn. eauto.
  - apply IH.
Qed.

Lemma register_sview a (w : World) :
  post (register a w) (fun w' => sview w' = sview w).
Proof.
  unfold register. apply post_bind, post_getAura. intros A _.
  destruct (forallb _ _); [ reflexivity | ].
  apply post_bind, post_getUnit. intros U _. cbn [post].
  rewrite sview_updUnit by reflexivity. apply sview_updAura. reflexivity.
Qed.

Lemma unregister_sview a (w : World) :
  post (unregister a w) (fun w' => sview w' = sview w).
Proof.
  unfold unregister. apply post_bind, post_getAura. intros A _.
  destruct (forallb _ _); [ reflexivity | ].
  apply post_bind, post_getUnit. intros U _.
  destruct (negb _); [ exact I | ]. destruct (negb _); [ exact I | ]. cbn [post].
  rewrite sview_updUnit by reflexivity.
  unfold sview. cbn [aurasH unitsH trackers minTrackerTime CurrentTime set_aurasH].
  f_equal. f_equal. f_equal. f_equal.
  apply list_eq. intros i. rewrite !list_lookup_fmap, list_lookup_imap.
  destruct (aurasH w !! i); reflexivity.
Qed.

Section ShrinkBodies.
Variable call : Cmd -> World -> Res World.
Hypothesis Hcall : forall c w,
  shrink_cmd c = true -> post (call c w) (shrinks_but None w).

Lemma post_shrinks_sview (r : Res World) (w w0 : World) :
  shrinks_but None w w0 ->
  post r (fun w' => sview w' = sview w0) -> post r (shrinks_but None w).
Proof.
  intros H0. apply post_mono. intros w' Hs.
  eapply shrinks_trans; [ exact H0 | apply sview_shrinks; exact Hs ].
Qed.

Lemma SetStacks_shrinks a n (w : World) :
  post (SetStacks call a n w) (shrinks_but None w).
Proof.
  unfold SetStacks. apply post_bind, post_getAura. intros A _.
  destruct (_ && _); [ exact I | ]. destruct (_ <? _); [ exact I | ].
  destruct (_ =? _); [ exact I | ]. cbv zeta.
  destruct (_ =? _); [ apply shrinks_refl | ].
  assert (H1 : shrinks_but None w (updAura a (set_stacks (Z.min n (MaxStacks A))) w))
    by (apply sview_shrinks, sview_updAura; reflexivity).
  apply post_bind.
  eapply post_mono; [ | apply runHook_sview ].
  intros w2 H2. cbn beta in H2.
  assert (H12 : shrinks_but None w w2)
    by (eapply shrinks_trans; [ exact H1 | apply sview_shrinks; exact H2 ]).
  apply post_bind, post_getAura. intros A2 _.
  destruct (_ =? _); [ | exact H12 ].
  eapply post_mono; [ | apply Hcall; reflexivity ].
  intros w3 H3. eapply shrinks_trans; eauto.
Qed.

Lemma Deactivate_shrinks a (w : World) :
  post (Deactivate call a w) (shrinks_but None w).
Proof.
  unfold Deactivate. destruct (aurasH w !! a) as [A|] eqn:HA; [ | apply shrinks_refl ].
  destruct (negb (active A)); [ apply shrinks_refl | ]. cbv zeta.
  match goal with |- context [updAura a ?F w] => set (F0 := F) end.
  assert (H1 : shrinks_but None w (updAura a F0 w)).
  { split; [ reflexivity | ]. split; [ reflexivity | ]. split; [ reflexivity | ].
    split; [ reflexivity | ]. split; [ cbn; apply length_alter | ].
    intros b B B' HB HB'.
    rewrite (lookup_updAura_Some _ _ _ _ _ HB) in HB'. injection HB' as <-.
    destruct (decide (b = a)); [ | auto ].
    split; [ reflexivity | ]. split; [ reflexivity | ]. discriminate. }
  apply post_bind. eapply post_mono; [ | apply unregister_sview ].
  intros w2 H2. cbn beta in H2.
  assert (H12 : shrinks_but None w w2)
    by (eapply shrinks_trans; [ exact H1 | apply sview_shrinks; exact H2 ]).
  apply post_bind, post_getAura. intros A2 _.
  apply post_bind.
  apply post_mono with (P := shrinks_but None w).
  2: { destruct (_ =? _); [ exact H12 | ].
       eapply post_mono; [ | apply Hcall; reflexivity ].
       intros w3 H3. eapply shrinks_trans; eauto. }
  intros w3 H3. apply post_bind, post_getAura. intros A3 _.
  rewrite (deactivateEffects_observer Hobs). cbn [bindR].
  apply post_bind, post_getAura. intros A4 _.
  eapply post_shrinks_sview; [ exact H3 | apply runHook_sview ].
Qed.

End ShrinkBodies.

Lemma exec_shrinks fuel c (w : World) :
  shrink_cmd c = true -> post (exec fuel c w) (shrinks_but None w).
Proof.
  revert c w. induction fuel as [|n IH]; intros c w Hc; [ exact I | ].
  cbn [exec]. destruct c; try discriminate; cbn [step_cmd].
  - eapply post_mono; [ | apply Deactivate_shrinks; exact IH ].
    intros w' H. eapply shrinks_trans; [ | exact H ].
    apply sview_shrinks. reflexivity.
  - eapply post_mono; [ | apply SetStacks_shrinks; exact IH ].
    intros w' H. eapply shrinks_trans; [ | exact H ].
    apply sview_shrinks. reflexivity.
Qed.

Lemma SchedX_sview x (w w' : World) :
  sview w' = sview w -> SchedX x w -> SchedX x w'.
Proof. intros H. apply SchedX_shrinks, sview_shrinks. exact H. Qed.

Lemma Sched_weaken x (w : World) : Sched w -> SchedX x w.
Proof.
  intros (S1 & S2 & S3). split; [ exact S1 | ]. split; [ exact S2 | ].
  apply cached_min_weaken. exact S3.
Qed.

(** [Refresh] makes the caches sound for the aura it works on. *)
Lemma Refresh_fix a (w : World) :
  SchedX (Some a) w -> post (Refresh a w) Sched.
Proof.
  intros (S1 & S2 & S3). unfold Refresh. apply post_bind, post_getAura. intros A HA.
  destruct (Duration A =? NeverExpires) eqn:Ed.
  - apply Z.eqb_eq in Ed. cbn [post]. split; [ | split ].
    + intros b B' HB'. destruct (lookup_updAura _ _ _ _ _ HB') as (B & HB & ->).
      replace (Unit (if decide (b = a) then set_expires NeverExpires B else B))
        with (Unit B) by (destruct (decide (b = a)); reflexivity).
      eapply S1; eauto.
    + exact S2.
    + intros b B' U _ HB' Hact Hdur HU.
      destruct (lookup_updAura _ _ _ _ _ HB') as (B & HB & ->).
      destruct (decide (b = a)) as [->|Hne].
      * rewrite HA in HB. injection HB as <-. cbn in Hdur. congruence.
      * apply (S3 b B U); auto. congruence.
  - apply Z.eqb_neq in Ed. cbv zeta.
    set (e := add64 (CurrentTime w) (Duration A)).
    apply post_bind, post_getUnit. intros U HU.
    change (unitsH w !! Unit A = Some U) in HU.
    assert (Hlk : forall b B', aurasH (updAura a (set_expires e) w) !! b = Some B' ->
              exists B, aurasH w !! b = Some B /\ Unit B' = Unit B
                /\ active B' = active B /\ Duration B' = Duration B
                /\ expires B' = if decide (b = a) then e else expires B).
    { intros b B' HB'. destruct (lookup_updAura _ _ _ _ _ HB') as (B & HB & ->).
      exists B. destruct (decide (b = a)); repeat split; auto. }
    destruct (e <? minExpires U) eqn:El; cbn [post].
    + apply Z.ltb_lt in El. split; [ | split ].
      * intros b B' HB'. destruct (Hlk _ _ HB') as (B & HB & -> & _).
        eapply S1; eauto.
      * intros u U' Hu HU'.
        change (Z.min (minTrackerTime w) e <= minExpires U').
        change (u ∈ trackers w) in Hu.
        change (unitsH (updUnit (Unit A) (set_minExpires e)
                          (updAura a (set_expires e) w)) !! u = Some U') in HU'.
        destruct (lookup_updUnit _ _ _ _ _ HU') as (U0 & HU0 & ->).
        specialize (S2 u U0 Hu HU0).
        destruct (decide (u = Unit A)); cbn [minExpires set_minExpires]; lia.
      * intros b B' U' _ HB' Hact Hdur HU'.
        destruct (Hlk _ _ HB') as (B & HB & Hu & Ha & Hd & He).
        change (unitsH (updUnit (Unit A) (set_minExpires e)
                          (updAura a (set_expires e) w)) !! Unit B' = Some U') in HU'.
        destruct (lookup_updUnit _ _ _ _ _ HU') as (U0 & HU0 & ->).
        rewrite He. destruct (decide (b = a)) as [->|Hne].
        -- rewrite HA in HB. injection HB as <-.
           rewrite decide_True by exact Hu. cbn. lia.
        -- assert (Hb : minExpires U0 <= expires B).
           { apply (S3 b B U0); try congruence. cbn in HU0. congruence. }
           destruct (decide (Unit B' = Unit A)) as [Heq|_]; [ | exact Hb ].
           cbn [minExpires set_minExpires].
           rewrite Heq in HU0. cbn in HU0. rewrite HU in HU0. injection HU0 as <-. lia.
    + apply Z.ltb_ge in El. split; [ | split ].
      * intros b B' HB'. destruct (Hlk _ _ HB') as (B & HB & -> & _).
        eapply S1; eauto.
      * exact S2.
      * intros b B' U' _ HB' Hact Hdur HU'.
        destruct (Hlk _ _ HB') as (B & HB & Hu & Ha & Hd & He).
        change (unitsH w !! Unit B' = Some U') in HU'.
        rewrite He. destruct (decide (b = a)) as [->|Hne].
        -- rewrite HA in HB. injection HB as <-. rewrite Hu, HU in HU'.
           injection HU' as <-. exact El.
        -- apply (S3 b B U'); congruence.
Qed.

Lemma Activate_Sched call a (w : World) :
  Sched w -> post (Activate call a w) Sched.
Proof.
  intros HS. unfold Activate. apply post_bind, post_getAura. intros A HA.
  cbv zeta.
  set (w0 := updAura a (set_Procs (Procs A + 1)) w).
  assert (HS0 : Sched w0)
    by (eapply SchedX_sview; [ apply sview_updAura; reflexivity | exact HS ]).
  destruct (active A); [ apply Refresh_fix, Sched_weaken; exact HS0 | ].
  destruct (_ =? _); [ exact I | ].
  destruct (activateEffects_observer call [] (ExclusiveEffects A) w0) as [b ->].
  cbn [bindR]. destruct (negb b); [ exact HS0 | ].
  apply post_bind.
  eapply post_mono; [ | apply Refresh_fix ].
  - intros w3 HS3. cbn beta in HS3. apply post_bind.
    eapply post_mono; [ | apply register_sview ].
    intros w4 H4. cbn beta in H4.
    apply post_bind, post_getAura. intros A4 _.
    eapply post_mono; [ | apply runHook_sview ].
    intros w5 H5. cbn beta in H5.
    eapply SchedX_sview; [ exact H5 | ]. eapply SchedX_sview; [ exact H4 | exact HS3 ].
  - destruct HS0 as (S1 & S2 & S3). split; [ | split ].
    + intros b0 B' HB'. destruct (lookup_updAura _ _ _ _ _ HB') as (B & HB & ->).
      replace (Unit (if decide (b0 = a)
                     then set_startTime (CurrentTime w0) (set_active true B) else B))
        with (Unit B) by (destruct (decide (b0 = a)); reflexivity).
      eapply S1; eauto.
    + exact S2.
    + intros b0 B' U Hx HB' Hact Hdur HU.
      destruct (lookup_updAura _ _ _ _ _ HB') as (B & HB & ->).
      destruct (decide (b0 = a)) as [->|Hne]; [ congruence | ].
      apply (S3 b0 B U); auto; discriminate.
Qed.

Lemma outer_sview call c (w w' : World) :
  outer_cmd c = true -> step_cmd call c w = Ok w' -> sview w' = sview w.
Proof.
  intros Hc E0. destruct c; try discriminate; cbn [step_cmd] in E0.
  - apply AddPendingAction_shape in E0. destruct E0 as (q & ->). reflexivity.
  - apply AddPendingAction_shape in E0. destruct E0 as (q & ->). reflexivity.
  - injection E0 as <-. reflexivity.
  - injection E0 as <-. reflexivity.
  - injection E0 as <-. reflexivity.
Qed.

Lemma Cancel_sview call p (w w' : World) :
  Cancel call p w = Ok w' -> sview w' = sview w.
Proof.
  intros E0. rewrite (Cancel_observer call p w w' (proj1 Hobs) E0).
  destruct (cancel_writes_shape p w) as (evs & -> & _). reflexivity.
Qed.

Lemma exec_Sched fuel c (w : World) :
  keeps_schedule c = true -> Sched w -> post (exec fuel c w) Sched.
Proof.
  intros Hc HS. destruct fuel as [|n]; [ exact I | ].
  destruct (outer_cmd c) eqn:Ho.
  { cbn [exec]. destruct (step_cmd (exec n) c w) as [w'| | |] eqn:E; cbn [post]; auto.
    eapply SchedX_sview; [ eapply outer_sview; eauto | exact HS ]. }
  destruct c; try discriminate.
  - cbn [exec step_cmd]. apply Activate_Sched.
    eapply SchedX_sview; [ | exact HS ]. reflexivity.
  - eapply post_mono; [ | apply exec_shrinks; reflexivity ].
    intros w' H. eapply SchedX_shrinks; eauto.
  - eapply post_mono; [ | apply exec_shrinks; reflexivity ].
    intros w' H. eapply SchedX_shrinks; eauto.
  - cbn [exec step_cmd]. apply Refresh_fix, Sched_weaken. exact HS.
  - cbn [exec step_cmd]. destruct (Cancel (exec n) p w) as [w'| | |] eqn:E; cbn [post]; auto.
    eapply SchedX_sview; [ eapply Cancel_sview; eauto | exact HS ].
Qed.

(** *** The clock advance *)

Lemma nextExecutePhase_sview (w : World) :
  post (nextExecutePhase w) (fun w1 => sview w1 = sview w).
Proof.
  unfold nextExecutePhase, setup. cbv zeta.
  repeat (destruct (executePhase w =? _); [ cbn [post];
    try (destruct (f_gt _ _)); reflexivity | ]).
  exact I.
Qed.

Lemma runPhaseCallbacks_sview fuel i cbs (w : World) :
  post (runPhaseCallbacks fuel i cbs w) (fun w' => sview w' = sview w).
Proof.
  revert i w. induction cbs as [|cb cbs IH]; intros i w; cbn [runPhaseCallbacks];
    [ reflexivity | ].
  cbv zeta.
  destruct (runProg_observer (exec fuel) (code cb [executePhase w])
              (emit (EvPhase i cb (executePhase w)) w)) as [v ->];
    [ apply Hobs | ].
  cbn [bindR]. eapply post_mono; [ | apply IH ].
  intros w2 H2. cbn beta in H2. rewrite H2. reflexivity.
Qed.

Lemma phaseLoop_sview fuel n (w : World) :
  post (phaseLoop fuel n w) (fun w' => sview w' = sview w).
Proof.
  revert w. induction n as [|n IH]; intros w; cbn [phaseLoop];
    destruct (_ || _); cbn [post]; try reflexivity; try exact I.
  apply post_bind. eapply post_mono; [ | apply nextExecutePhase_sview ].
  intros w1 H1. apply post_bind. eapply post_mono; [ | apply runPhaseCallbacks_sview ].
  intros w2 H2. eapply post_mono; [ | apply IH ].
  intros w3 H3. cbn in H3. congruence.
Qed.

Lemma shrinks_updUnit u G (w : World) : shrinks_but (Some u) w (updUnit u G w).
Proof.
  split; [ reflexivity | ]. split; [ reflexivity | ]. split; [ reflexivity | ].
  split.
  - intros v Hv. cbn [unitsH updUnit set_unitsH].
    rewrite list_lookup_alter_ne by congruence. reflexivity.
  - split; [ reflexivity | ]. intros a A A' HA HA'.
    change (aurasH w !! a = Some A') in HA'. rewrite HA in HA'. injection HA' as <-.
    auto.
Qed.

Lemma scanActive_shrinks u l (w : World) :
  post (scanActive u l w) (fun r => shrinks_but (Some u) w r.2).
Proof.
  revert w. induction l as [|a l IH]; intros w; cbn [scanActive];
    [ apply shrinks_refl | ].
  apply post_bind, post_getAura. intros A _.
  destruct (_ <=? _); [ apply shrinks_refl | ].
  eapply post_mono; [ | apply IH ].
  intros r Hr. eapply shrinks_trans; [ apply shrinks_updUnit | exact Hr ].
Qed.

Lemma at_advance_shrinks fuel n u (w : World) :
  post (at_advance fuel n u w) (fun r => shrinks_but (Some u) w r.2).
Proof.
  revert w. induction n as [|n IH]; intros w; cbn [at_advance];
    apply post_bind, post_getUnit; intros U _; cbv zeta; apply post_bind;
    (eapply post_mono; [ | apply scanActive_shrinks ]);
    intros [[a|] w1] Hs; cbn [snd] in Hs;
    assert (Hw1 : shrinks_but (Some u) w w1)
      by (eapply shrinks_trans; [ apply shrinks_updUnit | exact Hs ]);
    try (apply post_bind, post_getUnit; intros U1 _; exact Hw1); [ exact I | ].
  apply post_bind. eapply post_mono; [ | apply exec_shrinks; reflexivity ].
  intros w2 Hw2. cbn beta in Hw2. eapply post_mono; [ | apply IH ].
  intros r Hr. cbn beta in Hr.
  eapply shrinks_trans; [ exact Hw1 | ].
  eapply shrinks_trans; [ apply shrinks_weaken; exact Hw2 | exact Hr ].
Qed.

Lemma fresh_minimum_le (w : World) l a A :
  a ∈ l -> aurasH w !! a = Some A -> fresh_minimum w l <= expires A.
Proof.
  unfold fresh_minimum. intros Hin HA.
  assert (Hgen : forall l m, foldl (fun m a => Z.min m (expiry_of w a)) m l <= m).
  { intros l0. induction l0 as [|b l0 IH]; intros m; cbn [foldl]; [ lia | ].
    specialize (IH (Z.min m (expiry_of w b))). lia. }
  revert Hin. generalize NeverExpires.
  induction l as [|b l IH]; intros m Hin; [ inversion Hin | ].
  cbn [foldl]. apply elem_of_cons in Hin as [<-|Hin].
  - pose proof (Hgen l (Z.min m (expiry_of w a))) as Hle.
    assert (He : expiry_of w a = expires A) by (unfold expiry_of; rewrite HA; reflexivity).
    rewrite He in *. lia.
  - apply IH. exact Hin.
Qed.

Lemma tracked_shrinks x (w w' : World) :
  shrinks_but x w w' -> tracked w -> tracked w'.
Proof.
  intros (A1 & _ & _ & _ & A5 & A6) S1 a A' HA'.
  assert (exists A, aurasH w !! a = Some A) as [A HA].
  { apply lookup_lt_Some in HA'. rewrite A5 in HA'.
    apply lookup_lt_is_Some in HA'. exact HA'. }
  destruct (A6 _ _ _ HA HA') as (-> & _). rewrite A1. eapply S1; eauto.
Qed.

(** [tryAdvance] leaves nothing expired on its unit and a sound cache. *)
Lemma tryAdvance_clean fuel u (w : World) m w' :
  WF w -> cached_min None w -> tryAdvance fuel u w = Ok (m, w') ->
  WF w' /\ shrinks_but (Some u) w w' /\ no_expired u w' /\ cached_min None w'
  /\ forall U', unitsH w' !! u = Some U' -> minExpires U' = m.
Proof.
  assert (Hee : forall ee, observer (eeActivate ee)) by apply Hobs.
  intros HW S3 H. unfold tryAdvance, getUnit in H.
  destruct (unitsH w !! u) as [U|] eqn:HU; [ cbn [bindR] in H | discriminate ].
  destruct (CurrentTime w <? minExpires U) eqn:E.
  - apply Z.ltb_lt in E. injection H as <- <-.
    split; [ exact HW | ]. split; [ apply shrinks_refl | ].
    split; [ | split; [ exact S3 | ] ].
    + intros a A HA Hu Hact Hdur. subst u.
      specialize (S3 a A U ltac:(discriminate) HA Hact Hdur HU). lia.
    + intros U' HU'. congruence.
  - pose proof (post_Ok _ _ _ (at_advance_shrinks fuel fuel u w) H) as Hsh.
    cbn [snd] in Hsh.
    destruct (at_advance_post Hee fuel fuel u w m w' HW H)
      as (HW' & Ht & Hno & U' & HU' & Hm & Hfresh).
    split; [ exact HW' | ]. split; [ exact Hsh | ]. split; [ exact Hno | ].
    split; [ | intros U0 HU0; congruence ].
    destruct Hsh as (A1 & A2 & A3 & A4 & A5 & A6).
    intros a A0 U0 _ HA0 Hact Hdur HU0.
    destruct (decide (Unit A0 = u)) as [Heq|Hne].
    + rewrite Heq, HU' in HU0. injection HU0 as <-. rewrite Hm, Hfresh.
      apply (fresh_minimum_le w' _ a A0); [ | exact HA0 ].
      assert (Hreg : registers A0 SlotActive = true)
        by (cbn; apply negb_true_iff, Z.eqb_neq; exact Hdur).
      assert (Hidx : index A0 SlotActive <> Inactive).
      { apply (wf_act _ _ HW' a A0 SlotActive); [ discriminate | exact HA0 | auto ]. }
      destruct (wf_idx _ _ HW' _ _ _ HA0 Hidx) as (U1 & i & HU1 & _ & Hi).
      rewrite Heq, HU' in HU1. injection HU1 as <-.
      eapply list_elem_of_lookup_2. exact Hi.
    + assert (exists A, aurasH w !! a = Some A) as [A HA].
      { apply lookup_lt_Some in HA0. rewrite A5 in HA0.
        apply lookup_lt_is_Some in HA0. exact HA0. }
      destruct (A6 _ _ _ HA HA0) as (Hu' & Hd & He). destruct (He Hact) as [Hact0 ->].
      pose proof (A4 (Unit A0) ltac:(congruence)) as Hmin.
      rewrite HU0 in Hmin. cbn in Hmin.
      destruct (unitsH w !! Unit A0) as [U1|] eqn:HU1; [ | discriminate ].
      cbn in Hmin. injection Hmin as ->.
      apply (S3 a A U1); try congruence; discriminate.
Qed.

Lemma advanceTrackers_inv fuel T l done (w w' : World) :
  loop_inv T done w -> advanceTrackers fuel l w = Ok w' ->
  loop_inv T (done ++ l) w'.
Proof.
  revert done w. induction l as [|t l IH]; intros done w Hinv H;
    cbn [advanceTrackers] in H.
  - injection H as <-. rewrite app_nil_r. exact Hinv.
  - destruct (tryAdvance fuel t w) as [[m w1]| | |] eqn:Ht; try discriminate.
    cbn [bindR] in H.
    destruct Hinv as (HW & S1 & S3 & HT & Hdone).
    destruct (tryAdvance_clean _ _ _ _ _ HW S3 Ht) as (HW1 & Hsh & Hno & S3' & Hm).
    replace (done ++ t :: l) with ((done ++ [t]) ++ l)
      by (rewrite <- app_assoc; reflexivity).
    refine (IH (done ++ [t]) _ _ H). clear IH H.
    pose proof Hsh as (A1 & A2 & A3 & A4 & A5 & A6).
    split; [ apply (WFx_outside None w1); [ reflexivity | reflexivity | exact HW1 ] | ].
    split; [ exact (tracked_shrinks _ _ _ Hsh S1) | ].
    split; [ exact S3' | ].
    split; [ cbn; congruence | ].
    intros u Hu. cbn [minTrackerTime set_minTrackerTime unitsH].
    destruct (decide (u = t)) as [->|Hne].
    + split; [ exact Hno | ]. intros U HU. rewrite (Hm U HU). lia.
    + apply elem_of_app in Hu as [Hu|Hu];
        [ | apply list_elem_of_singleton in Hu; congruence ].
      destruct (Hdone u Hu) as [Hn Hlow]. split.
      * exact (no_expired_shrinks _ _ _ _ Hsh Hn).
      * intros U HU. pose proof (A4 u ltac:(congruence)) as Hmin.
        change (unitsH w1 !! u = Some U) in HU. rewrite HU in Hmin. cbn in Hmin.
        destruct (unitsH w !! u) as [U0|] eqn:HU0; [ | discriminate ].
        cbn in Hmin. injection Hmin as ->.
        specialize (Hlow U0 eq_refl). lia.
Qed.

Lemma SchedX_fields x (w w' : World) :
  aurasH w' = aurasH w -> unitsH w' = unitsH w -> trackers w' = trackers w ->
  minTrackerTime w' = minTrackerTime w -> SchedX x w -> SchedX x w'.
Proof.
  intros Ha Hu Ht Hm (S1 & S2 & S3). unfold SchedX, tracked, cached_low, cached_min.
  rewrite Ha, Hu, Ht, Hm. auto.
Qed.

(** The clock advance keeps the caches sound and leaves no aura behind
    that is active, of finite duration and at or past its expiration. *)
Lemma advance_clean fuel t (w w' : World) :
  WF w -> Sched w -> advance fuel t w = Ok w' ->
  WF w' /\ Sched w' /\ forall u, no_expired u w'.
Proof.
  assert (Hee : forall ee, observer (eeActivate ee)) by apply Hobs.
  intros HW HS H.
  pose proof (post_Ok _ _ _ (advance_time fuel t w) H) as Htime.
  unfold advance in H. cbv zeta in H.
  destruct (phaseLoop fuel fuel (set_CurrentTime t w)) as [w1| | |] eqn:Hp;
    try discriminate.
  cbn [bindR] in H.
  pose proof (post_Ok _ _ _ (phaseLoop_sview fuel fuel _) Hp) as Hv.
  pose proof (post_Ok _ _ _ (phaseLoop_time fuel fuel _) Hp) as Ht1.
  cbn [CurrentTime set_CurrentTime] in Ht1.
  assert (HS1 : Sched w1).
  { eapply SchedX_sview; [ exact Hv | ].
    apply (SchedX_fields None w); auto. }
  assert (HW1 : WF w1).
  { refine (post_Ok _ _ _ (phaseLoop_keeps WF _ _ fuel fuel _ _) Hp).
    - intros f c w0. apply exec_WF. exact Hee.
    - intros w0 w0' Ha Hu. apply WFx_outside; assumption.
    - apply (WFx_outside None w); [ reflexivity | reflexivity | exact HW ]. }
  destruct HS1 as (S1 & S2 & S3).
  destruct (minTrackerTime w1 <=? CurrentTime w1) eqn:E.
  - pose proof (advanceTrackers_inv fuel (trackers w1) (trackers w1) []
                  (set_minTrackerTime NeverExpires w1) w') as Hloop.
    destruct Hloop as (HW' & T1 & T3 & TT & Tdone); [ | exact H | ].
    { split; [ apply (WFx_outside None w1); [ reflexivity | reflexivity | exact HW1 ] | ].
      split; [ exact S1 | ]. split; [ exact S3 | ]. split; [ reflexivity | ].
      intros u Hu. inversion Hu. }
    cbn [app] in Tdone.
    split; [ exact HW' | ]. split; [ split; [ exact T1 | split; [ | exact T3 ] ] | ].
    + intros u U Hu HU. rewrite TT in Hu. apply (Tdone u Hu). exact HU.
    + intros u. destruct (decide (u ∈ trackers w1)) as [Hin|Hnot];
        [ apply (Tdone u Hin) | ].
      intros a A HA HuA _ _. exfalso. apply Hnot. rewrite <- TT, <- HuA.
      eapply T1; eauto.
  - injection H as <-. apply Z.leb_gt in E.
    split; [ exact HW1 | ]. split; [ split; [ exact S1 | split; [ exact S2 | exact S3 ] ] | ].
    intros u a A HA HuA Hact Hdur.
    destruct (wf_unit _ _ HW1 _ _ HA) as [U HU].
    pose proof (S2 _ U (S1 _ _ HA) HU) as Hlow.
    pose proof (S3 a A U ltac:(discriminate) HA Hact Hdur HU) as Hmin. lia.
Qed.

Lemma sequence_clean fuel ops (w w' : World) :
  Forall (sched_op fuel) ops -> WF w -> Sched w ->
  sequence ops w = Ok w' -> WF w' /\ Sched w'.
Proof.
  assert (Hee : forall ee, observer (eeActivate ee)) by apply Hobs.
  intros Hops. revert w. induction Hops as [|op ops Hop _ IH]; intros w HW HS Hrun;
    cbn in Hrun.
  - injection Hrun as <-. auto.
  - destruct (op w) as [w1| | |] eqn:E; cbn in Hrun; try discriminate.
    apply (IH w1); [ | | exact Hrun ].
    + destruct Hop as [[t ->]|(c & _ & ->)].
      * exact (post_Ok _ _ _ (advance_WF fuel t w Hee HW) E).
      * exact (post_Ok _ _ _ (exec_WF Hee fuel c w HW) E).
    + destruct Hop as [[t ->]|(c & Hc & ->)].
      * apply (advance_clean fuel t w w1 HW HS E).
      * exact (post_Ok _ _ _ (exec_Sched fuel c w Hc HS) E).
Qed.

(** X18: the lazy expiration is exact.  With hooks that only observe, the
    caches of the trackers stay sound through activations, refreshes,
    changes of stacks, deactivations and clock advances (not through
    [UpdateExpires], which tells no tracker), and so, when [advance(t)]
    returns, no aura is active, of finite duration and at or past its
    expiration: every such aura expires after [t], and its
    [RemainingDuration] is positive. *)
Theorem lazy_expiry_exact fuel ops t (w w1 w' : World) :
  WF w -> Sched w ->
  Forall (sched_op fuel) ops -> sequence ops w = Ok w1 ->
  advance fuel t w1 = Ok w' ->
  WF w' /\ Sched w'
  /\ forall a A, aurasH w' !! a = Some A -> active A = true ->
       Duration A <> NeverExpires ->
       t < expires A
       /\ (0 <= t -> expires A < 2 ^ 63 -> 0 < RemainingDuration A w').
Proof.
  intros HW HS Hops Hseq Hadv.
  destruct (sequence_clean fuel ops w w1 Hops HW HS Hseq) as [HW1 HS1].
  destruct (advance_clean fuel t w1 w' HW1 HS1 Hadv) as (HW' & HS' & Hno).
  pose proof (post_Ok _ _ _ (advance_time fuel t w1) Hadv) as Ht.
  cbn beta in Ht.
  split; [ exact HW' | ]. split; [ exact HS' | ].
  intros a A HA Hact Hdur.
  pose proof (Hno (Unit A) a A HA eq_refl Hact Hdur) as Hlt. rewrite Ht in Hlt.
  split; [ exact Hlt | ]. intros H0 Hmax.
  unfold RemainingDuration. rewrite Ht.
  destruct (expires A =? NeverExpires); [ unfold NeverExpires; lia | ].
  unfold sub64. rewrite wrap64_small by lia. lia.
Qed.

End LazyExpiry.

(** ** The thresholds of the phases *)

Section PhaseThresholds.
Context {PF : Platform} {PG : Program}.

Lemma armed_ext (w w' : World) : phase_view w' = phase_view w -> armed w -> armed w'.
Proof.
  unfold phase_view, armed, time_threshold, damage_threshold.
  intros [= -> -> -> -> -> ->]. auto.
Qed.

Lemma phase_view_stable V : exec_stable (fun w0 : World => phase_view w0 = V).
Proof.
  split; [ | split ].
  - intros w1 w2 [Ho _] H1. rewrite <- H1. exact (f_equal phase_view Ho).
  - intros call c0 w0 Hc H0.
    destruct (step_cmd call c0 w0) as [w1| | |] eqn:E0; cbn [post]; auto.
    destruct c0; try discriminate; cbn [step_cmd] in E0.
    + apply AddPendingAction_shape in E0. destruct E0 as (q & ->). exact H0.
    + apply AddPendingAction_shape in E0. destruct E0 as (q & ->). exact H0.
    + injection E0 as <-. exact H0.
    + injection E0 as <-. exact H0.
    + injection E0 as <-. exact H0.
  - intros p w0 H0. destruct (cancel_writes_shape p w0) as (evs & -> & _). exact H0.
Qed.

Lemma armed_stable : exec_stable armed.
Proof.
  split; [ | split ].
  - intros w1 w2 [Ho _]. apply armed_ext. exact (f_equal phase_view Ho).
  - intros call c w Hc Hw.
    pose proof (proj1 (proj2 (phase_view_stable (phase_view w))) call c w Hc eq_refl) as H.
    destruct (step_cmd call c w) as [w1| | |]; cbn [post] in *; auto.
    eapply armed_ext; eauto.
  - intros p w. apply armed_ext.
    destruct (cancel_writes_shape p w) as (evs & -> & _). reflexivity.
Qed.

(** Whatever the phase, [nextExecutePhase] leaves the thresholds of the
    phase after the one it enters. *)
Lemma nextExecutePhase_arms (w : World) q :
  next_phase (executePhase w) = Some q ->
  exists w1, nextExecutePhase w = Ok w1 /\ executePhase w1 = q /\ armed w1
             /\ phase_frame w1 = phase_frame w /\ log w1 = log w.
Proof.
  unfold nextExecutePhase, next_phase. cbv zeta.
  repeat (destruct (executePhase w =? _);
    [ intros [= <-]; eexists; split; [ reflexivity | ];
      unfold setup, armed, time_threshold, damage_threshold; cbn;
      try (destruct (f_gt (EndFightAtHealth w) (f_lit 0)) eqn:Eg; cbn; rewrite ?Eg);
      repeat split | ]).
  discriminate.
Qed.

Lemma nextExecutePhase_armed (w : World) : post (nextExecutePhase w) armed.
Proof.
  destruct (next_phase (executePhase w)) as [q|] eqn:E.
  - destruct (nextExecutePhase_arms w q E) as (w1 & -> & _ & H & _). exact H.
  - unfold nextExecutePhase, next_phase in *. cbv zeta.
    repeat (destruct (executePhase w =? _); [ discriminate | ]). exact I.
Qed.

Lemma runPhaseCallbacks_armed fuel i cbs (w : World) :
  armed w -> post (runPhaseCallbacks fuel i cbs w) armed.
Proof.
  revert i w. induction cbs as [|cb cbs IH]; intros i w Hw; cbn [runPhaseCallbacks]; [ exact Hw | ].
  cbv zeta. apply post_bind.
  eapply post_mono; [ | apply (run_preserves _ armed_stable) ].
  - intros [v w1] H1. apply IH. exact H1.
  - eapply armed_ext; [ | exact Hw ]. reflexivity.
Qed.

Lemma phaseLoop_armed fuel n (w : World) : armed w -> post (phaseLoop fuel n w) armed.
Proof.
  revert w. induction n as [|n IH]; intros w Hw; cbn [phaseLoop];
    destruct (_ || _); try exact Hw; try exact I.
  apply post_bind. eapply post_mono; [ | apply nextExecutePhase_armed ].
  intros w1 H1. apply post_bind.
  eapply post_mono; [ | apply runPhaseCallbacks_armed; exact H1 ].
  intros w2 H2. apply IH. exact H2.
Qed.

Lemma advance_armed fuel t (w : World) : armed w -> post (advance fuel t w) armed.
Proof.
  intros Hw. unfold advance. cbv zeta. apply post_bind.
  eapply post_mono; [ | apply phaseLoop_armed ].
  2: { eapply armed_ext; [ | exact Hw ]. reflexivity. }
  intros w1 H1. destruct (_ <=? _); [ | exact H1 ].
  apply (advanceTrackers_stable _ armed_stable).
  eapply armed_ext; [ | exact H1 ]. reflexivity.
Qed.

Lemma reset_arms (w w' : World) :
  reset w = Ok w' ->
  armed w' /\ executePhase w' = 100 /\ executePhaseCallbacks w' = [].
Proof.
  unfold reset, nextExecutePhase. cbn. intros [= <-].
  unfold armed, setup, time_threshold, damage_threshold. cbn.
  destruct (f_gt (EndFightAtHealth w) (f_lit 0)) eqn:Eg; cbn; rewrite ?Eg; cbn;
    rewrite ?Eg; repeat split.
Qed.

(** With an armed simulation the condition of the loop of [advance] is
    that the threshold of the next phase is reached. *)
Lemma crossed_armed (w : World) :
  armed w -> CurrentTime w < NeverExpires ->
  f_ge (DamageTaken w) MaxFloat64 = false ->
  crossed w = match next_phase (executePhase w) with
              | Some q => reached w q
              | None => false
              end.
Proof.
  unfold armed, crossed, reached. intros Ha Ht Hd.
  destruct (next_phase (executePhase w)) as [q|].
  - destruct (f_gt (EndFightAtHealth w) (f_lit 0)); destruct Ha as [-> ->].
    + replace (NeverExpires <=? CurrentTime w) with false
        by (symmetry; apply Z.leb_gt; exact Ht).
      reflexivity.
    + rewrite Hd. apply orb_false_r.
  - destruct Ha as [-> ->]. rewrite Hd.
    replace (NeverExpires <=? CurrentTime w) with false
      by (symmetry; apply Z.leb_gt; exact Ht).
    reflexivity.
Qed.

Lemma reached_ext (w w' : World) q :
  phase_frame w' = phase_frame w -> reached w' q = reached w q.
Proof.
  intros H. unfold reached, time_threshold, damage_threshold.
  change (EndFightAtHealth w') with (EndFightAtHealth (phase_frame w')).
  change (DamageTaken w') with (DamageTaken (phase_frame w')).
  change (ExecuteProportion w') with (ExecuteProportion (phase_frame w')).
  change (simDuration w') with (simDuration (phase_frame w')).
  change (CurrentTime w') with (CurrentTime (phase_frame w')).
  rewrite H. reflexivity.
Qed.

Lemma reached_prefix_ext (w w' : World) qs :
  phase_frame w' = phase_frame w -> reached_prefix w' qs = reached_prefix w qs.
Proof.
  intros H. induction qs as [|q qs IH]; cbn; [ reflexivity | ].
  rewrite (reached_ext w w' q H), IH. reflexivity.
Qed.

(** Callbacks that only observe leave a round of phase events and nothing
    else. *)
Lemma runPhaseCallbacks_quiet fuel i cbs (w : World) :
  (forall cb args, observer (code cb args)) ->
  runPhaseCallbacks fuel i cbs w
  = Ok (set_log (log w ++ imap (fun j cb => EvPhase (i + j) cb (executePhase w)) cbs) w).
Proof.
  intros Hcode. revert i w. induction cbs as [|cb cbs IH]; intros i w; cbn [runPhaseCallbacks].
  - cbn. rewrite app_nil_r. destruct w; reflexivity.
  - cbv zeta. destruct (Hcode cb [executePhase w]) as [v ->]. cbn [runProg bindR].
    rewrite IH. f_equal. cbn [imap]. unfold emit.
    cbn [log set_log executePhase]. rewrite <- app_assoc. cbn [app].
    rewrite Nat.add_0_r.
    replace (imap (fun j cb0 => EvPhase (S i + j) cb0 (executePhase w)) cbs)
      with (imap ((fun j cb0 => EvPhase (i + j) cb0 (executePhase w)) ∘ S) cbs).
    + reflexivity.
    + apply imap_ext. intros j x _. cbn. f_equal. lia.
Qed.

Lemma phaseLoop_exact fuel qs :
  (forall cb args, observer (code cb args)) ->
  forall n (w : World),
    ladder_path (executePhase w) qs ->
    next_phase (List.last qs (executePhase w)) = None ->
    (length qs <= n)%nat ->
    armed w -> CurrentTime w < NeverExpires ->
    f_ge (DamageTaken w) MaxFloat64 = false ->
    exists w',
      phaseLoop fuel n w = Ok w'
      /\ log w' = log w ++ flat_map (fun q => round_events q (executePhaseCallbacks w))
                             (reached_prefix w qs)
      /\ executePhase w' = List.last (reached_prefix w qs) (executePhase w)
      /\ armed w' /\ phase_frame w' = phase_frame w.
Proof.
  intros Hcode. induction qs as [|q qs IH]; intros n w Hpath Hlast Hlen Ha Ht Hd.
  - cbn in Hlast.
    assert (Hc : crossed w = false) by (rewrite crossed_armed, Hlast; auto).
    exists w. split.
    { destruct n; cbn [phaseLoop]; fold (crossed w); rewrite Hc; reflexivity. }
    cbn. rewrite app_nil_r. auto.
  - destruct Hpath as [Hn Hpath].
    assert (Hc : crossed w = reached w q) by (rewrite crossed_armed, Hn; auto).
    cbn [reached_prefix]. destruct (reached w q) eqn:Hr.
    + destruct n as [|n]; [ cbn in Hlen; lia | ].
      cbn [phaseLoop]. fold (crossed w). rewrite Hc.
      destruct (nextExecutePhase_arms w q Hn) as (w1 & -> & Hq & Ha1 & Hf1 & Hl1).
      cbn [bindR]. rewrite runPhaseCallbacks_quiet by exact Hcode. cbn [bindR].
      assert (Hcb : executePhaseCallbacks w1 = executePhaseCallbacks w)
        by exact (f_equal executePhaseCallbacks Hf1).
      set (w2 := set_log _ w1).
      assert (Hf2 : phase_frame w2 = phase_frame w) by exact Hf1.
      destruct (IH n w2) as (w' & Hrun & Hlog & Hph & Ha' & Hf').
      * cbn. rewrite Hq. exact Hpath.
      * cbn. rewrite Hq. rewrite last_cons in Hlast. exact Hlast.
      * cbn in Hlen. lia.
      * eapply armed_ext; [ | exact Ha1 ]. reflexivity.
      * change (CurrentTime w2) with (CurrentTime (phase_frame w2)). rewrite Hf2. exact Ht.
      * change (DamageTaken w2) with (DamageTaken (phase_frame w2)). rewrite Hf2. exact Hd.
      * exists w'. split; [ exact Hrun | ].
        rewrite (reached_prefix_ext w w2 qs Hf2) in Hlog, Hph.
        split; [ | split; [ | split ] ].
        -- rewrite Hlog. unfold w2.
           cbn [log set_log flat_map executePhaseCallbacks].
           rewrite Hl1, Hq, Hcb, <- app_assoc. reflexivity.
        -- rewrite Hph. cbn [executePhase set_log w2]. rewrite Hq, last_cons. reflexivity.
        -- exact Ha'.
        -- rewrite Hf'. exact Hf2.
    + exists w. split.
      { destruct n; cbn [phaseLoop]; fold (crossed w); rewrite Hc; reflexivity. }
      cbn. rewrite app_nil_r. auto.
Qed.

Lemma descent_length n p : (length (descent n p) <= n)%nat.
Proof.
  revert p. induction n as [|n IH]; intros p; cbn; [ lia | ].
  destruct (next_phase p); cbn; [ specialize (IH z); lia | lia ].
Qed.

Lemma descent_path n p : ladder_path p (descent n p).
Proof.
  revert p. induction n as [|n IH]; intros p; cbn; [ exact I | ].
  destruct (next_phase p) as [q|] eqn:E; cbn; auto.
Qed.

Lemma below_ends p : next_phase (List.last (below p) p) = None.
Proof.
  assert (H : (p = 0 \/ p = 100 \/ p = 90 \/ p = 45 \/ p = 35 \/ p = 25)
              \/ next_phase p = None).
  { unfold next_phase.
    repeat (destruct (p =? _) eqn:Ep; [ apply Z.eqb_eq in Ep; left; tauto | clear Ep ]).
    right. reflexivity. }
  unfold below. destruct H as [H|H].
  - repeat (destruct H as [->|H]; [ reflexivity | ]). subst p. reflexivity.
  - cbn. rewrite H. cbn. exact H.
Qed.

Lemma filter_round_events q cbs :
  List.filter isPhase (round_events q cbs) = round_events q cbs.
Proof.
  unfold round_events.
  assert (H : forall f : nat -> nat -> nat,
            List.filter isPhase (imap (fun i cb => EvPhase (f i cb) cb q) cbs)
            = imap (fun i cb => EvPhase (f i cb) cb q) cbs).
  { induction cbs as [|cb cbs IH]; intros f; cbn; [ reflexivity | ].
    f_equal. apply (IH (fun i cb => f (S i) cb)). }
  apply (H (fun i _ => i)).
Qed.

Lemma filter_rounds cbs qs :
  List.filter isPhase (flat_map (fun q => round_events q cbs) qs)
  = flat_map (fun q => round_events q cbs) qs.
Proof.
  induction qs as [|q qs IH]; cbn; [ reflexivity | ].
  rewrite List.filter_app, filter_round_events, IH. reflexivity.
Qed.

(** *** The clock advance returns *)

Lemma WF_array_length (w : World) u U s :
  WF w -> unitsH w !! u = Some U ->
  (length (arrays U s) <= length (aurasH w))%nat.
Proof.
  intros HW HU. destruct (WF_arrays w u U s HW HU) as [Hnd Hin].
  assert (Hs : arrays U s ⊆+ seq 0 (length (aurasH w))).
  { apply NoDup_submseteq; [ exact Hnd | ].
    intros a Ha. apply Hin in Ha as (A & HA & _).
    apply elem_of_seq. apply lookup_lt_Some in HA. lia. }
  apply submseteq_length in Hs. rewrite length_seq in Hs. exact Hs.
Qed.

Lemma tryAdvance_total fuel u (w : World) :
  all_observers -> WF w -> StacksInv w -> is_Some (unitsH w !! u) ->
  (length (aurasH w) < fuel)%nat -> (3 <= fuel)%nat ->
  exists m w',
    tryAdvance fuel u w = Ok (m, w')
    /\ WF w' /\ StacksInv w' /\ length (aurasH w') = length (aurasH w)
    /\ forall v, is_Some (unitsH w !! v) -> is_Some (unitsH w' !! v).
Proof.
  intros Hobs HW HS [U HU] Hlen Hfuel.
  assert (Hee : forall ee, observer (eeActivate ee)) by apply Hobs.
  unfold tryAdvance, getUnit. rewrite HU. cbn [bindR].
  destruct (CurrentTime w <? minExpires U); [ exists (minExpires U), w; auto | ].
  destruct (at_advance_total Hobs (fuel - 3) fuel u U w HW HS HU) as (m & w' & Hrun & _).
  { pose proof (WF_array_length w u U SlotActive HW HU). lia. }
  replace (3 + (fuel - 3))%nat with fuel in Hrun by lia.
  exists m, w'. split; [ exact Hrun | ].
  destruct (at_advance_post Hee fuel fuel u w m w' HW Hrun) as (HW' & _ & _ & U' & HU' & _).
  split; [ exact HW' | ].
  split.
  { refine (post_Ok _ _ _ (at_advance_keeps StacksInv _ _ fuel fuel u w HS) Hrun).
    - intros f c w0. apply (ss_inv _ (exec_stacks_safe f)).
    - intros v G w0 _. apply StacksInv_outside. reflexivity. }
  pose proof (post_Ok _ _ _ (at_advance_shrinks Hobs fuel fuel u w) Hrun)
    as (_ & _ & _ & Hu & Hl & _). cbn [snd] in Hu, Hl.
  split; [ exact Hl | ].
  intros v [V HV]. destruct (decide (v = u)) as [->|Hne]; [ eauto | ].
  assert (Hv : minExpires <$> unitsH w' !! v = minExpires <$> unitsH w !! v)
    by (apply Hu; congruence).
  rewrite HV in Hv. destruct (unitsH w' !! v); [ eauto | discriminate ].
Qed.

Lemma advanceTrackers_total fuel l (w : World) :
  all_observers -> WF w -> StacksInv w ->
  Forall (fun u => is_Some (unitsH w !! u)) l ->
  (length (aurasH w) < fuel)%nat -> (3 <= fuel)%nat ->
  exists w', advanceTrackers fuel l w = Ok w'.
Proof.
  intros Hobs. revert w. induction l as [|u l IH]; intros w HW HS Hl Hlen Hfuel;
    cbn [advanceTrackers]; [ eauto | ].
  inversion Hl as [|? ? Hu Hl']; subst.
  destruct (tryAdvance_total fuel u w Hobs HW HS Hu Hlen Hfuel)
    as (m & w1 & -> & HW1 & HS1 & Hlen1 & Hunits).
  cbn [bindR]. apply IH.
  - eapply WFx_outside; [ | | exact HW1 ]; reflexivity.
  - eapply StacksInv_outside; [ | exact HS1 ]. reflexivity.
  - eapply Forall_impl; [ exact Hl' | ]. intros v Hv. apply Hunits. exact Hv.
  - cbn. lia.
  - exact Hfuel.
Qed.

Lemma advance_exact fuel t (w : World) :
  all_observers -> armed w ->
  t < NeverExpires -> f_ge (DamageTaken w) MaxFloat64 = false ->
  WF w -> StacksInv w ->
  Forall (fun u => is_Some (unitsH w !! u)) (trackers w) ->
  (length (aurasH w) < fuel)%nat -> (6 <= fuel)%nat ->
  exists w',
    advance fuel t w = Ok w'
    /\ List.filter isPhase (log w')
       = List.filter isPhase (log w)
         ++ flat_map (fun q => round_events q (executePhaseCallbacks w))
              (entered t w)
    /\ executePhase w' = List.last (entered t w) (executePhase w)
    /\ armed w' /\ CurrentTime w' = t.
Proof.
  intros Hobs Ha Ht Hd HW HS Htr Hlen Hfuel.
  set (w0 := set_CurrentTime t w).
  destruct (phaseLoop_exact fuel (below (executePhase w)) (proj1 Hobs) fuel w0)
    as (w1 & Hloop & Hlog & Hph & Ha1 & Hf1).
  { apply descent_path. }
  { apply below_ends. }
  { pose proof (descent_length 6 (executePhase w)). unfold below. lia. }
  { eapply armed_ext; [ | exact Ha ]. reflexivity. }
  { exact Ht. }
  { exact Hd. }
  assert (Hadv : exists w', advance fuel t w = Ok w').
  { unfold advance. cbv zeta. fold w0. rewrite Hloop. cbn [bindR].
    destruct (minTrackerTime w1 <=? CurrentTime w1); [ | eauto ].
    apply advanceTrackers_total; auto; try lia.
    - eapply WFx_outside; [ | | exact HW ];
        [ exact (f_equal aurasH Hf1) | exact (f_equal unitsH Hf1) ].
    - eapply StacksInv_outside; [ | exact HS ]. exact (f_equal aurasH Hf1).
    - replace (trackers w1) with (trackers w) by (symmetry; exact (f_equal trackers Hf1)).
      eapply Forall_impl; [ exact Htr | ]. intros v Hv.
      change (is_Some (unitsH w1 !! v)).
      replace (unitsH w1) with (unitsH w) by (symmetry; exact (f_equal unitsH Hf1)).
      exact Hv.
    - cbn. replace (aurasH w1) with (aurasH w) by (symmetry; exact (f_equal aurasH Hf1)).
      exact Hlen. }
  destruct Hadv as (w' & Hadv). exists w'. split; [ exact Hadv | ].
  assert (Hv : same_view w1 w' /\ armed w').
  { unfold advance in Hadv. cbv zeta in Hadv. fold w0 in Hadv. rewrite Hloop in Hadv.
    cbn [bindR] in Hadv. destruct (minTrackerTime w1 <=? CurrentTime w1).
    - split.
      + refine (post_Ok _ _ _ (advanceTrackers_stable _ (same_view_stable w1) fuel _ _ _) Hadv).
        apply same_view_fields; reflexivity.
      + refine (post_Ok _ _ _ (advanceTrackers_stable _ armed_stable fuel _ _ _) Hadv).
        eapply armed_ext; [ | exact Ha1 ]. reflexivity.
    - injection Hadv as <-. split; [ apply same_view_refl | exact Ha1 ]. }
  destruct Hv as [(V1 & V2 & _) Ha'].
  split; [ | split; [ | split ] ].
  - rewrite V2, Hlog, List.filter_app, filter_rounds. reflexivity.
  - rewrite V1, Hph. reflexivity.
  - exact Ha'.
  - exact (post_Ok _ _ _ (advance_time fuel t w) Hadv).
Qed.

Lemma sequence_armed fuel ops (w w' : World) :
  Forall (clock_or_call fuel) ops -> sequence ops w = Ok w' -> armed w -> armed w'.
Proof.
  intros Hops. revert w. induction Hops as [|op ops Hop _ IH]; intros w Hrun Hw; cbn in Hrun.
  - injection Hrun as <-. exact Hw.
  - destruct (op w) as [w1| | |] eqn:E; cbn in Hrun; try discriminate.
    apply (IH w1 Hrun). destruct Hop as [[t ->]|[c ->]].
    + exact (post_Ok _ _ _ (advance_armed fuel t w Hw) E).
    + exact (post_Ok _ _ _ (exec_preserves _ armed_stable fuel c w Hw) E).
Qed.

(** C3: over any sequence of clock advances and API calls, the phases
    entered follow [nextExecutePhase] one after the other, each is delivered
    once to every callback registered by then, in the order of
    registration, and nothing else delivers a phase; from a phase of the
    ladder on, the phases delivered are strictly descending members of the
    ladder.  Within one [advance] all rounds happen in its loop, which is
    left only when no threshold is reached any more.  The thresholds are
    those of the source: [reset] enters phase 100 and arms the thresholds
    of phase 90, and every clock advance and API call leaves the
    simulation armed with the thresholds of the phase after the current
    one, whatever the callbacks do.  With callbacks that only observe, an
    advance to time [t] returns, and the phases it enters are exactly the
    phases below the current one, in descending order, up to the first
    whose threshold is not reached at [t] and the damage taken: none when
    the next threshold is not reached, several when several are. *)
Theorem phase_ladder fuel :
  (forall ops (w w' : World),
     Forall (clock_or_call fuel) ops -> sequence ops w = Ok w' ->
     exists rounds,
       phase_rounds rounds w w'
       /\ (executePhase w ∈ ladder ->
           StronglySorted (fun a b => b < a) (executePhase w :: map fst rounds)
           /\ Forall (fun q => q ∈ ladder) (map fst rounds)))
  /\ (forall t (w w' : World),
        advance fuel t w = Ok w' ->
        exists rounds w1,
          phaseLoop fuel fuel (set_CurrentTime t w) = Ok w1
          /\ crossed w1 = false
          /\ phase_rounds rounds w w1 /\ same_view w1 w')
  /\ (forall (w w' : World),
        reset w = Ok w' ->
        armed w' /\ executePhase w' = 100 /\ executePhaseCallbacks w' = [])
  /\ (forall ops (w w' : World),
        Forall (clock_or_call fuel) ops -> sequence ops w = Ok w' ->
        armed w -> armed w')
  /\ (forall t (w : World),
        all_observers -> armed w ->
        t < NeverExpires -> f_ge (DamageTaken w) MaxFloat64 = false ->
        WF w -> StacksInv w ->
        Forall (fun u => is_Some (unitsH w !! u)) (trackers w) ->
        (length (aurasH w) < fuel)%nat -> (6 <= fuel)%nat ->
        exists w',
          advance fuel t w = Ok w'
          /\ List.filter isPhase (log w')
             = List.filter isPhase (log w)
               ++ flat_map (fun q => round_events q (executePhaseCallbacks w))
                    (entered t w)
          /\ executePhase w' = List.last (entered t w) (executePhase w)
          /\ armed w' /\ CurrentTime w' = t).
Proof.
  split; [ | split; [ | split; [ | split ] ] ].
  - intros ops w w' Hops Hrun.
    assert (H : exists rounds, phase_rounds rounds w w').
    { revert w Hrun. induction Hops as [|op ops Hop _ IH]; intros w Hrun; cbn in Hrun.
      - injection Hrun as <-. exists []. apply phase_rounds_nil, same_view_refl.
      - destruct (op w) as [w1| | |] eqn:E; cbn in Hrun; try discriminate.
        destruct (IH _ Hrun) as (r2 & Hr2).
        destruct Hop as [[t ->]|[c ->]].
        + destruct (post_Ok _ _ _ (advance_rounds fuel t w) E) as (r1 & w0 & _ & _ & Hr1 & Hv).
          exists ((r1 ++ []) ++ r2). eapply phase_rounds_app; [ | exact Hr2 ].
          eapply phase_rounds_app; [ exact Hr1 | apply phase_rounds_nil, Hv ].
        + exists ([] ++ r2). eapply phase_rounds_app; [ | exact Hr2 ].
          apply phase_rounds_nil. exact (post_Ok _ _ _ (exec_view fuel c w) E). }
    destruct H as (rounds & Hr). exists rounds. split; [ exact Hr | ].
    intros Hp. apply ladder_descends; [ apply Hr | exact Hp ].
  - intros t w w' H. exact (post_Ok _ _ _ (advance_rounds fuel t w) H).
  - intros w w'. apply reset_arms.
  - intros ops w w'. apply sequence_armed.
  - intros t w. apply advance_exact.
Qed.

End PhaseThresholds.

Section EventLoop.
Context {PF : Platform} {PG : Program}.

Section Driver.
Variable J : World -> Prop.
Hypothesis J_exec : forall fuel c w, J w -> post (exec fuel c w) J.
Hypothesis J_fields : forall w w' : World,
  aurasH w' = aurasH w -> unitsH w' = unitsH w -> J w -> J w'.
Hypothesis J_unit : forall u G (w : World),
  (forall U, arrays (G U) = arrays U) -> J w -> J (updUnit u G w).

Lemma run_keeps fuel p w :
  J w -> post (runProg (exec fuel) p w) (fun r => J r.2).
Proof. apply (runProg_keeps J (exec fuel) (J_exec fuel)). Qed.

Lemma swingAll_keeps fuel l w : J w -> post (swingAll fuel l w) J.
Proof.
  revert w. induction l as [|x l IH]; intros w Hw; cbn [swingAll]; [ exact Hw | ].
  apply post_bind. eapply post_mono; [ | apply run_keeps; exact Hw ].
  intros [t w1] H1. cbn [snd] in H1. apply IH.
  apply (J_fields w1); [ reflexivity | reflexivity | exact H1 ].
Qed.

Lemma runTasks_keeps fuel l w : J w -> post (runTasks fuel l w) J.
Proof.
  revert w. induction l as [|x l IH]; intros w Hw; cbn [runTasks]; [ exact Hw | ].
  apply post_bind. eapply post_mono; [ | apply run_keeps; exact Hw ].
  intros [t w1] H1. cbn [snd] in H1. apply IH.
  apply (J_fields w1); [ reflexivity | reflexivity | exact H1 ].
Qed.

Lemma dispose_keeps p w : J w -> J (dispose p w).
Proof.
  intros Hw. unfold dispose. destruct (actionsH w !! p) as [PA|]; [ | exact Hw ].
  destruct (canPool PA); [ | exact Hw ].
  apply (J_fields w); [ reflexivity | reflexivity | exact Hw ].
Qed.

Lemma runAction_keeps fuel f e w : J w -> post (runAction fuel f e w) J.
Proof.
  intros Hw. unfold runAction. destruct f; try exact I.
  apply post_bind. eapply post_mono; [ | apply run_keeps ].
  - intros [v w1] H1. exact H1.
  - apply (J_fields w); [ reflexivity | reflexivity | exact Hw ].
Qed.

Lemma Step_keeps fuel w : J w -> post (Step fuel w) (fun r => J r.2).
Proof.
  intros Hw. unfold Step. destruct (last (pendingActions w)) as [p|]; [ | exact I ].
  apply post_bind. unfold getAction.
  destruct (actionsH w !! p) as [PA|]; [ cbn [post] | exact I ].
  assert (Hadv : forall t w0, J w0 -> post (advance fuel t w0) J).
  { intros t w0. apply (advance_keeps J J_exec J_fields J_unit). }
  destruct (_ && _).
  { destruct (combatOver _ _); cbn [post snd]; [ exact Hw | ].
    apply post_bind. unfold advanceWeaponAttacks. apply post_bind.
    apply post_mono with (P := J).
    2: { destruct (_ <? _); [ apply Hadv; exact Hw | exact Hw ]. }
    intros w1 H1. eapply post_mono; [ | apply swingAll_keeps ].
    - intros w2 H2. exact H2.
    - apply (J_fields w1); [ reflexivity | reflexivity | exact H1 ]. }
  destruct (_ <=? _).
  { destruct (combatOver _ _); cbn [post snd]; [ exact Hw | ].
    apply post_bind. unfold advanceTasks. apply post_bind.
    apply post_mono with (P := J).
    2: { destruct (_ <? _); [ apply Hadv; exact Hw | exact Hw ]. }
    intros w1 H1. eapply post_mono; [ | apply runTasks_keeps ].
    - intros w2 H2. exact H2.
    - apply (J_fields w1); [ reflexivity | reflexivity | exact H1 ]. }
  cbv zeta.
  match goal with |- context [dispose p ?w1] => set (W1 := w1) end.
  assert (H1 : J W1) by (apply (J_fields w); [ reflexivity | reflexivity | exact Hw ]).
  destruct (cancelled PA); [ apply dispose_keeps; exact H1 | ].
  destruct (combatOver _ _); [ apply dispose_keeps; exact H1 | ].
  apply post_bind. apply post_mono with (P := J).
  2: { destruct (_ <? _); [ apply Hadv; exact H1 | exact H1 ]. }
  intros w2 H2. apply post_bind. unfold getAction.
  destruct (actionsH w2 !! p) as [PA2|]; [ cbn [post] | exact I ].
  destruct (cancelled PA2); [ apply dispose_keeps; exact H2 | ].
  apply post_bind. eapply post_mono; [ | apply runAction_keeps; exact H2 ].
  intros w3 H3. apply dispose_keeps. exact H3.
Qed.

Lemma runPendingActions_keeps fuel n w :
  J w -> post (runPendingActions fuel n w) J.
Proof.
  revert w. induction n as [|n IH]; intros w Hw; cbn [runPendingActions];
    [ exact I | ].
  apply post_bind. eapply post_mono; [ | apply Step_keeps; exact Hw ].
  intros [fin w1] H1. cbn [snd] in H1. destruct fin; [ exact H1 | apply IH; exact H1 ].
Qed.

Lemma cleanupAll_keeps fuel l w : J w -> post (cleanupAll fuel l w) J.
Proof.
  revert w. induction l as [|p l IH]; intros w Hw; cbn [cleanupAll]; [ exact Hw | ].
  apply post_bind. unfold getAction.
  destruct (actionsH w !! p) as [PA|]; [ cbn [post] | exact I ].
  apply post_bind. apply post_mono with (P := J).
  2: { destruct (CleanUp PA); try exact Hw; apply runAction_keeps; exact Hw. }
  intros w1 H1. case_bool_decide; [ | exact I ].
  apply IH. apply dispose_keeps. exact H1.
Qed.

Lemma metricsDone_keeps fuel l w : J w -> post (metricsDone fuel l w) J.
Proof.
  revert w. induction l as [|u l IH]; intros w Hw; cbn [metricsDone]; [ exact Hw | ].
  apply post_bind. eapply post_mono; [ | apply run_keeps; exact Hw ].
  intros [v w1] H1. apply IH. exact H1.
Qed.

Lemma Cleanup_keeps fuel w : J w -> post (Cleanup fuel w) J.
Proof.
  intros Hw. unfold Cleanup. cbv zeta.
  apply post_bind. eapply post_mono; [ | apply cleanupAll_keeps ].
  2: { destruct (f_eq _ _); (apply (J_fields w); [ reflexivity | reflexivity | exact Hw ]). }
  intros w2 H2. apply post_bind. eapply post_mono; [ | apply run_keeps; exact H2 ].
  intros [v3 w3] H3. apply post_bind. eapply post_mono; [ | apply run_keeps; exact H3 ].
  intros [v4 w4] H4. apply post_bind.
  eapply post_mono; [ | apply metricsDone_keeps; exact H4 ].
  intros w5 H5. apply metricsDone_keeps. exact H5.
Qed.

End Driver.

(** X19: the invariants of the auras hold through the event loop and the
    clean-up after it, whatever the actions, attacks, tasks and hooks do,
    as long as the activation of an exclusive effect does not call back
    into the API: when [runPendingActions] and then [Cleanup] return, every
    dispatch array holds, once each, the active auras of its unit that
    register for it, and every aura has a stack count within its maximum
    that is zero unless the aura is active. *)
Theorem event_loop_invariants fuel n (w w1 w2 : World) :
  (forall ee, observer (eeActivate ee)) ->
  WF w -> StacksInv w ->
  runPendingActions fuel n w = Ok w1 -> Cleanup fuel w1 = Ok w2 ->
  forall w', w' = w1 \/ w' = w2 ->
    (forall u U s, unitsH w' !! u = Some U ->
       NoDup (arrays U s)
       /\ forall a, a ∈ arrays U s <->
            exists A, aurasH w' !! a = Some A /\ Unit A = u
                      /\ active A = true /\ registers A s = true)
    /\ forall a A, aurasH w' !! a = Some A ->
         (IsActive (Some A) = false -> GetStacks (Some A) = 0)
         /\ 0 <= GetStacks (Some A) <= MaxStacks A.
Proof.
  intros Hee HW HS Hrun Hclean.
  assert (KW : forall f c w0, WF w0 -> post (exec f c w0) WF)
    by (intros f c w0; apply exec_WF; exact Hee).
  assert (FW : forall w0 w' : World,
            aurasH w' = aurasH w0 -> unitsH w' = unitsH w0 -> WF w0 -> WF w')
    by (intros w0 w' Ha Hu; apply WFx_outside; assumption).
  assert (UW : forall u G (w0 : World),
            (forall U, arrays (G U) = arrays U) -> WF w0 -> WF (updUnit u G w0))
    by (intros u G w0 HG; apply WFx_updUnit; exact HG).
  assert (KS : forall f c w0, StacksInv w0 -> post (exec f c w0) StacksInv)
    by (intros f c w0; apply (ss_inv _ (exec_stacks_safe f))).
  assert (FS : forall w0 w' : World,
            aurasH w' = aurasH w0 -> unitsH w' = unitsH w0 ->
            StacksInv w0 -> StacksInv w')
    by (intros w0 w' Ha _; apply StacksInv_outside; exact Ha).
  assert (US : forall u G (w0 : World),
            (forall U, arrays (G U) = arrays U) ->
            StacksInv w0 -> StacksInv (updUnit u G w0))
    by (intros u G w0 _; apply StacksInv_outside; reflexivity).
  pose proof (post_Ok _ _ _ (runPendingActions_keeps WF KW FW UW fuel n w HW) Hrun) as HW1.
  pose proof (post_Ok _ _ _ (runPendingActions_keeps StacksInv KS FS US fuel n w HS) Hrun)
    as HS1.
  pose proof (post_Ok _ _ _ (Cleanup_keeps WF KW FW fuel w1 HW1) Hclean) as HW2.
  pose proof (post_Ok _ _ _ (Cleanup_keeps StacksInv KS FS fuel w1 HS1) Hclean) as HS2.
  intros w' Hw'.
  assert (HW' : WF w') by (destruct Hw' as [->| ->]; assumption).
  assert (HS' : StacksInv w') by (destruct Hw' as [->| ->]; assumption).
  split.
  - intros u U s HU. apply WF_arrays; assumption.
  - intros a A HA. destruct (StacksInv_lookup _ _ _ HS' HA) as [Hz Hr].
    split; [ exact Hz | exact Hr ].
Qed.

End EventLoop.

Section AuraArraysFacts.

Lemma firstLabel_total h l :
  (forall a, Some a ∈ l -> is_Some (h !! a)) -> allNil l = false ->
  exists label, firstLabel h l = Ok label.
Proof.
  induction l as [|x l IH]; intros Hv He; [ discriminate | ].
  destruct x as [a|]; cbn [firstLabel allNil] in *.
  - destruct (Hv a) as [A HA]; [ left | ]. rewrite HA. eauto.
  - apply IH; [ | exact He ]. intros a Ha. apply Hv. right. exact Ha.
Qed.

Lemma activeAt_total h target auras :
  array_ok h target auras -> exists b, activeAt h auras target = Ok b.
Proof.
  intros [Hv Hb]. unfold activeAt, AuraArray_Get.
  destruct auras as [l|]; [ | cbn; eauto ].
  destruct (l !! target) as [x|] eqn:Hx.
  - cbn [bindR]. destruct x as [a|]; [ | eauto ].
    destruct (Hv a) as [A HA]; [ eapply list_elem_of_lookup_2; exact Hx | ].
    rewrite HA. eauto.
  - apply lookup_ge_None in Hx. specialize (Hb ltac:(discriminate)). cbn in Hb. lia.
Qed.

Lemma AnyActive_in_spec h target order :
  Forall (array_ok h target) order ->
  exists b, AnyActive_in h order target = Ok b
    /\ (b = true <-> exists auras, auras ∈ order
                                   /\ activeAt h auras target = Ok true).
Proof.
  induction 1 as [|auras order Hok _ IH]; cbn [AnyActive_in].
  - exists false. split; [ reflexivity | ]. split; [ discriminate | ].
    intros (x & Hx & _). inversion Hx.
  - destruct (activeAt_total _ _ _ Hok) as [b Hb]. rewrite Hb. cbn [bindR].
    destruct b.
    + exists true. split; [ reflexivity | ]. split; [ | reflexivity ].
      intros _. exists auras. split; [ left | exact Hb ].
    + destruct IH as (b & H1 & H2). exists b. split; [ exact H1 | ].
      rewrite H2. split.
      * intros (x & Hx & Hax). exists x. split; [ right; exact Hx | exact Hax ].
      * intros (x & Hx & Hax). apply elem_of_cons in Hx as [->|Hx];
          [ congruence | eauto ].
Qed.

(** X20: arrays of auras.  [ToMap] and [Append] never hit the panic of
    [FindLabel], which they call on arrays with an aura only; [Append]
    returns the map it was given when the array has no aura, and otherwise
    a map that holds the array under the label of its first aura, also when
    the map was nil.  [AnyActive] does not depend on the order in which the
    map is walked, as long as every array of the map has an element for the
    target: it says whether some array holds an active aura there, and a
    nil array or a nil aura counts as not active. *)
Theorem aura_arrays h target auraArrays auras :
  (forall a, Some a ∈ elements auras -> is_Some (h !! a)) ->
  (exists r, AuraArray_ToMap h auras = Ok r
     /\ (r = None <-> AuraArray_IsEmpty auras = true))
  /\ (exists r, LabeledAuraArrays_Append h auraArrays auras = Ok r
        /\ (AuraArray_IsEmpty auras = true -> r = auraArrays)
        /\ (AuraArray_IsEmpty auras = false ->
            exists label m, AuraArray_FindLabel h auras = Ok label
              /\ r = Some m /\ m !! label = Some auras
              /\ forall l, l <> label ->
                   m !! l = match auraArrays with
                            | None => None
                            | Some m0 => m0 !! l
                            end))
  /\ forall order1 order2,
       walks auraArrays order1 -> walks auraArrays order2 ->
       Forall (array_ok h target) order1 ->
       exists b,
         AnyActive_in h order1 target = Ok b
         /\ AnyActive_in h order2 target = Ok b
         /\ (b = true <-> exists x, x ∈ order1
                                    /\ activeAt h x target = Ok true).
Proof.
  intros Hv. split; [ | split ].
  - unfold AuraArray_ToMap. destruct (AuraArray_IsEmpty auras) eqn:He.
    + exists None. split; [ reflexivity | ]. split; reflexivity.
    + destruct (firstLabel_total h (elements auras) Hv He) as [label Hl].
      unfold AuraArray_FindLabel. rewrite Hl. cbn [bindR].
      eexists. split; [ reflexivity | ]. split; discriminate.
  - unfold LabeledAuraArrays_Append. destruct (AuraArray_IsEmpty auras) eqn:He.
    + exists auraArrays. split; [ reflexivity | ]. split; [ reflexivity | discriminate ].
    + destruct (firstLabel_total h (elements auras) Hv He) as [label Hl].
      unfold AuraArray_FindLabel. cbv zeta. rewrite Hl. cbn [bindR].
      eexists. split; [ reflexivity | ]. split; [ discriminate | ].
      intros _. exists label. eexists. split; [ reflexivity | ].
      split; [ reflexivity | ]. split; [ apply lookup_insert_eq | ].
      intros l Hne. rewrite lookup_insert_ne by congruence.
      destruct auraArrays; [ reflexivity | apply lookup_empty ].
  - intros order1 order2 H1 H2 Hok.
    assert (Hp : order1 ≡ₚ order2) by (unfold walks in *; rewrite H1, H2; reflexivity).
    assert (Hok2 : Forall (array_ok h target) order2) by (rewrite <- Hp; exact Hok).
    destruct (AnyActive_in_spec h target order1 Hok) as (b1 & E1 & I1).
    destruct (AnyActive_in_spec h target order2 Hok2) as (b2 & E2 & I2).
    assert (Hb : b1 = b2).
    { destruct b1, b2; try reflexivity.
      - destruct (proj1 I1 eq_refl) as (x & Hx & Hax).
        symmetry. apply I2. exists x. split; [ rewrite <- Hp; exact Hx | exact Hax ].
      - destruct (proj1 I2 eq_refl) as (x & Hx & Hax).
        apply I1. exists x. split; [ rewrite Hp; exact Hx | exact Hax ]. }
    subst b2. exists b1. auto.
Qed.

End AuraArraysFacts.
Section TrackerResetFacts.
Context {PF : Platform} {PG : Program}.
Hypothesis Hobs : all_observers.

Lemma runResetEffects_observer fuel l (w : World) :
  runResetEffects fuel l w = Ok w.
Proof.
  induction l as [|cb l IH]; cbn [runResetEffects]; [ reflexivity | ].
  destruct Hobs as (Hc & _). destruct (Hc cb []) as [v ->]. cbn. exact IH.
Qed.

Lemma was_reset_idem (A : Aura) : was_reset (was_reset A) = was_reset A.
Proof. destruct A; reflexivity. Qed.

Lemma set_initialized_id (A : Aura) :
  initialized A = true -> set_initialized true A = A.
Proof. destruct A; cbn. intros ->. reflexivity. Qed.

(** [aura.reset] on an aura that is inactive and without stacks. *)
Lemma aura_reset_ok fuel a A (w : World) :
  aurasH w !! a = Some A -> active A = false -> stacks A = 0 ->
  exists w',
    aura_reset fuel a w = Ok w'
    /\ unitsH w' = unitsH w /\ CurrentTime w' = CurrentTime w
    /\ aurasH w' = alter was_reset a (aurasH w)
    /\ log w' = log w
         ++ (if initialized A then []
             else hook_event (OnInit A) (EvOnInit a))
         ++ hook_event (OnReset A) (EvOnReset a).
Proof.
  intros HA Hact Hst. unfold aura_reset.
  assert (Hinit : exists w1,
            aura_init fuel a w = Ok w1
            /\ set_log [] w1 = set_log [] (updAura a (set_initialized true) w)
            /\ log w1 = log w ++ (if initialized A then []
                                  else hook_event (OnInit A) (EvOnInit a))).
  { unfold aura_init, getAura. rewrite HA. cbn [bindR].
    destruct (initialized A) eqn:Hi.
    - exists w. split; [ reflexivity | ]. split; [ | rewrite app_nil_r; reflexivity ].
      unfold updAura. rewrite alter_id_ext; [ destruct w; reflexivity | ].
      intros x Hx. rewrite HA in Hx. injection Hx as <-.
      apply set_initialized_id. exact Hi.
    - destruct (runHook_observer Hobs (exec fuel) (OnInit A) [Z.of_nat a]
                  (EvOnInit a) (updAura a (set_initialized true) w))
        as (w1 & H1 & Hl1 & Hs1).
      exists w1. split; [ exact H1 | ]. split; [ exact Hs1 | exact Hl1 ]. }
  destruct Hinit as (w1 & -> & Hs1 & Hl1). cbn [bindR].
  destruct (lookup_same_store _ _ Hs1) as (Ha1 & Hu1 & _).
  assert (HA1 : aurasH w1 !! a = Some (set_initialized true A)).
  { rewrite Ha1. cbn. rewrite list_lookup_alter_eq, HA. reflexivity. }
  unfold getAura. rewrite HA1. cbn [bindR active set_initialized stacks].
  rewrite Hact, Hst. cbn [negb Z.eqb].
  destruct (runHook_observer Hobs (exec fuel) (OnReset A) [Z.of_nat a]
              (EvOnReset a) (updAura a (set_fadeTime (neg64 NeverExpires)) w1))
    as (w2 & H2 & Hl2 & Hs2).
  change (OnReset (set_initialized true A)) with (OnReset A).
  rewrite H2. exists w2. split; [ reflexivity | ].
  destruct (lookup_same_store _ _ Hs2) as (Ha2 & Hu2 & _).
  split; [ rewrite Hu2; exact Hu1 | ].
  split.
  { pose proof (f_equal CurrentTime Hs2) as Ht2.
    pose proof (f_equal CurrentTime Hs1) as Ht1. cbn in Ht1, Ht2. congruence. }
  split.
  - rewrite Ha2. cbn [aurasH updAura set_aurasH]. rewrite Ha1.
    cbn [aurasH updAura set_aurasH].
    apply list_eq. intros i. destruct (decide (i = a)) as [->|Hne].
    + rewrite !list_lookup_alter_eq. destruct (aurasH w !! a); reflexivity.
    + rewrite !list_lookup_alter_ne by congruence. reflexivity.
  - rewrite Hl2. cbn [log updAura set_aurasH]. rewrite Hl1, <- app_assoc. reflexivity.
Qed.

(** [aura.reset] returns on such auras only. *)
Lemma aura_reset_Ok_inv fuel a A (w w' : World) :
  aurasH w !! a = Some A -> aura_reset fuel a w = Ok w' ->
  active A = false /\ stacks A = 0.
Proof.
  intros HA H. unfold aura_reset in H.
  destruct (aura_init fuel a w) as [w1| | |] eqn:Hi; try discriminate.
  cbn [bindR] in H.
  assert (HA1 : exists A1, aurasH w1 !! a = Some A1
                           /\ active A1 = active A /\ stacks A1 = stacks A).
  { unfold aura_init, getAura in Hi. rewrite HA in Hi. cbn [bindR] in Hi.
    destruct (initialized A).
    - injection Hi as <-. eauto.
    - destruct (runHook_observer Hobs (exec fuel) (OnInit A) [Z.of_nat a]
                  (EvOnInit a) (updAura a (set_initialized true) w))
        as (w1' & H1 & _ & Hs1).
      rewrite H1 in Hi. injection Hi as <-.
      destruct (lookup_same_store _ _ Hs1) as (Ha1 & _).
      rewrite Ha1. cbn. rewrite list_lookup_alter_eq, HA. cbn. eauto. }
  destruct HA1 as (A1 & HA1 & Hact & Hst).
  unfold getAura in H. rewrite HA1 in H. cbn [bindR] in H.
  destruct (active A1) eqn:E1.
  - destruct (getUnit (Unit A1) w1); discriminate.
  - destruct (stacks A1 =? 0) eqn:E2; [ | discriminate ].
    apply Z.eqb_eq in E2. split; congruence.
Qed.

Lemma resetAuras_ok fuel l (w : World) :
  (forall a, a ∈ l -> exists A, aurasH w !! a = Some A
                                /\ active A = false /\ stacks A = 0) ->
  exists w',
    resetAuras fuel l w = Ok w'
    /\ unitsH w' = unitsH w /\ CurrentTime w' = CurrentTime w
    /\ length (aurasH w') = length (aurasH w)
    /\ forall b B, aurasH w !! b = Some B ->
         aurasH w' !! b = Some (if decide (b ∈ l) then was_reset B else B).
Proof.
  revert w. induction l as [|a l IH]; intros w Hall; cbn [resetAuras].
  - exists w. split; [ reflexivity | ]. split; [ reflexivity | ].
    split; [ reflexivity | ]. split; [ reflexivity | ]. intros b B HB.
    rewrite decide_False by (intros Hin; inversion Hin). exact HB.
  - destruct (Hall a) as (A & HA & Hact & Hst); [ left | ].
    destruct (aura_reset_ok fuel a A w HA Hact Hst) as (w1 & -> & Hu1 & Ht1 & Ha1 & _).
    cbn [bindR].
    destruct (IH w1) as (w' & H' & Hu' & Ht' & Hl' & Ha').
    { intros b Hb. destruct (Hall b) as (B & HB & HBa & HBs); [ right; exact Hb | ].
      rewrite Ha1. destruct (decide (b = a)) as [->|Hne].
      - rewrite list_lookup_alter_eq, HB. cbn. eexists. split; [ reflexivity | ].
        destruct B; cbn in *; auto.
      - rewrite list_lookup_alter_ne by congruence. eauto. }
    exists w'. split; [ exact H' | ]. split; [ congruence | ]. split; [ congruence | ].
    split; [ rewrite Hl', Ha1; apply length_alter | ].
    intros b B HB. destruct (decide (b = a)) as [->|Hne].
    + rewrite decide_True by left.
      rewrite (Ha' a (was_reset B)) by (rewrite Ha1, list_lookup_alter_eq, HB; reflexivity).
      destruct (decide (a ∈ l)); [ rewrite was_reset_idem | ]; reflexivity.
    + rewrite (Ha' b B) by (rewrite Ha1, list_lookup_alter_ne by congruence; exact HB).
      destruct (decide (b ∈ l)) as [Hin|Hnot].
      * rewrite decide_True by (right; exact Hin). reflexivity.
      * rewrite decide_False; [ reflexivity | ].
        intros Hin. apply elem_of_cons in Hin as [?|?]; congruence.
Qed.

Lemma resetAuras_Ok_inv fuel l (w w' : World) :
  resetAuras fuel l w = Ok w' ->
  forall a A, a ∈ l -> aurasH w !! a = Some A -> active A = false /\ stacks A = 0.
Proof.
  revert w. induction l as [|a l IH]; intros w H b B Hb HB; [ inversion Hb | ].
  cbn [resetAuras] in H.
  destruct (aura_reset fuel a w) as [w1| | |] eqn:Hr; try discriminate.
  cbn [bindR] in H.
  destruct (aurasH w !! a) as [A|] eqn:HA.
  - destruct (aura_reset_Ok_inv _ _ _ _ _ HA Hr) as [Hact Hst].
    apply elem_of_cons in Hb as [->|Hb]; [ rewrite HA in HB; injection HB as <-; auto | ].
    destruct (aura_reset_ok fuel a A w HA Hact Hst) as (w1' & Hr' & _ & _ & Ha1 & _).
    rewrite Hr in Hr'. injection Hr' as <-.
    destruct (decide (b = a)) as [->|Hne];
      [ rewrite HA in HB; injection HB as <-; auto | ].
    apply (IH w1 H b B Hb). rewrite Ha1, list_lookup_alter_ne by congruence. exact HB.
  - unfold aura_reset, aura_init, getAura in Hr. rewrite HA in Hr. discriminate.
Qed.

(** X21: the reset of a tracker, with hooks that only observe.  It returns
    exactly when every registered aura of the unit is inactive and without
    stacks.  It then leaves the dispatch arrays of the unit empty and the
    cached minimum at [NeverExpires], marks every registered aura as
    initialized and without a fade time, so that [TimeInactive] is
    [NeverExpires] and [TimeActive] is zero, touches no other aura and no
    other unit, and keeps dispatch arrays and recorded positions in
    agreement when all auras of the unit are registered with its tracker. *)
Theorem tracker_reset_spec fuel u U effs (w : World) :
  unitsH w !! u = Some U ->
  (forall a, a ∈ auras U -> is_Some (aurasH w !! a)) ->
  ((exists w', at_reset fuel u effs w = Ok w') <->
   forall a A, a ∈ auras U -> aurasH w !! a = Some A ->
     active A = false /\ stacks A = 0)
  /\ forall w', at_reset fuel u effs w = Ok w' ->
       unitsH w' !! u
       = Some (set_minExpires NeverExpires (set_arrays (fun _ => []) U))
       /\ (forall v, v <> u -> unitsH w' !! v = unitsH w !! v)
       /\ (forall b B, aurasH w !! b = Some B ->
             aurasH w' !! b
             = Some (if decide (b ∈ auras U) then was_reset B else B))
       /\ (forall a A', a ∈ auras U -> aurasH w' !! a = Some A' ->
             initialized A' = true
             /\ TimeInactive (Some A') w' = NeverExpires
             /\ TimeActive (Some A') w' = 0)
       /\ (WF w ->
           (forall a A, aurasH w !! a = Some A -> Unit A = u -> a ∈ auras U) ->
           WF w').
Proof.
  intros HU Hval.
  set (w3 := updUnit u (set_minExpires NeverExpires)
               (updUnit u (set_arrays (fun _ => [])) w)).
  assert (HU3 : unitsH w3 !! u
                = Some (set_minExpires NeverExpires (set_arrays (fun _ => []) U))).
  { unfold w3. cbn [unitsH updUnit set_unitsH].
    rewrite !list_lookup_alter_eq, HU. reflexivity. }
  assert (Hother : forall v, v <> u -> unitsH w3 !! v = unitsH w !! v).
  { intros v Hv. unfold w3. cbn [unitsH updUnit set_unitsH].
    rewrite !list_lookup_alter_ne by congruence. reflexivity. }
  assert (Hred : at_reset fuel u effs w = resetAuras fuel (auras U) w3).
  { unfold at_reset, getUnit. rewrite HU. cbn [bindR]. cbv zeta.
    rewrite runResetEffects_observer. cbn [bindR].
    cbn [unitsH updUnit set_unitsH]. rewrite list_lookup_alter_eq, HU.
    cbn [bindR option_map fmap option_fmap].
    fold w3. rewrite list_lookup_alter_eq, list_lookup_alter_eq, HU.
    reflexivity. }
  rewrite Hred.
  assert (Hpost : forall w', resetAuras fuel (auras U) w3 = Ok w' ->
            (forall a A, a ∈ auras U -> aurasH w !! a = Some A ->
               active A = false /\ stacks A = 0)
            /\ unitsH w' = unitsH w3 /\ CurrentTime w' = CurrentTime w
            /\ length (aurasH w') = length (aurasH w)
            /\ forall b B, aurasH w !! b = Some B ->
                 aurasH w' !! b
                 = Some (if decide (b ∈ auras U) then was_reset B else B)).
  { intros w' H.
    pose proof (resetAuras_Ok_inv _ _ _ _ H) as Hinv.
    split; [ exact Hinv | ].
    destruct (resetAuras_ok fuel (auras U) w3) as (w'' & H'' & Hu & Ht & Hl & Ha).
    { intros a Ha. destruct (Hval a Ha) as [A HA]. exists A.
      split; [ exact HA | exact (Hinv a A Ha HA) ]. }
    rewrite H in H''. injection H'' as <-. auto. }
  split.
  - split.
    + intros [w' H]. apply (Hpost w' H).
    + intros Hall. destruct (resetAuras_ok fuel (auras U) w3) as (w' & H & _).
      * intros a Ha. destruct (Hval a Ha) as [A HA]. exists A.
        split; [ exact HA | exact (Hall a A Ha HA) ].
      * eauto.
  - intros w' H. destruct (Hpost w' H) as (Hinv & Hu & Ht & Hl & Ha).
    split; [ rewrite Hu; exact HU3 | ].
    split; [ intros v Hv; rewrite Hu; apply Hother; exact Hv | ].
    split; [ exact Ha | ].
    split.
    + intros a A' Hin HA'. destruct (Hval a Hin) as [A HA].
      rewrite (Ha a A HA), decide_True in HA' by exact Hin. injection HA' as <-.
      destruct (Hinv a A Hin HA) as [Hact _].
      split; [ reflexivity | ]. unfold TimeInactive, TimeActive.
      cbn [active was_reset set_fadeTime set_initialized fadeTime]. rewrite Hact.
      split; reflexivity.
    + intros HW Hreg.
      assert (Hback : forall b B', aurasH w' !! b = Some B' ->
                exists B, aurasH w !! b = Some B
                  /\ Unit B' = Unit B /\ active B' = active B
                  /\ (forall s, index B' s = index B s)
                  /\ (forall s, registers B' s = registers B s)).
      { intros b B' HB'. destruct (aurasH w !! b) as [B|] eqn:HB.
        - rewrite (Ha b B HB) in HB'. injection HB' as <-. exists B.
          split; [ reflexivity | ].
          destruct (decide (b ∈ auras U)); repeat split; reflexivity.
        - apply lookup_ge_None in HB. apply lookup_lt_Some in HB'. lia. }
      assert (Hfwd : forall b B, aurasH w !! b = Some B ->
                exists B', aurasH w' !! b = Some B'
                  /\ Unit B' = Unit B /\ forall s, index B' s = index B s).
      { intros b B HB. rewrite (Ha b B HB). eexists. split; [ reflexivity | ].
        destruct (decide (b ∈ auras U)); split; reflexivity. }
      assert (Hunit : forall v V, unitsH w !! v = Some V ->
                exists V', unitsH w' !! v = Some V'
                  /\ forall s, arrays V' s = if decide (v = u) then [] else arrays V s).
      { intros v V HV. rewrite Hu. destruct (decide (v = u)) as [->|Hne].
        - rewrite HU3. eexists. split; reflexivity.
        - rewrite (Hother v Hne), HV. eexists. split; reflexivity. }
      assert (Hidle : forall b B s, aurasH w !! b = Some B -> Unit B = u ->
                index B s = Inactive).
      { intros b B s HB HuB. destruct (Z.eq_dec (index B s) Inactive) as [|Hne];
          [ assumption | exfalso ].
        destruct (proj1 (wf_act _ _ HW b B s ltac:(discriminate) HB) Hne) as [Hact _].
        destruct (Hinv b B (Hreg b B HB HuB) HB) as [Hf _]. congruence. }
      constructor.
      * intros b B' HB'. destruct (Hback b B' HB') as (B & HB & -> & _).
        destruct (wf_unit _ _ HW _ _ HB) as [V HV].
        destruct (Hunit _ _ HV) as (V' & HV' & _). eauto.
      * intros v V' s i a0 HV' Hi.
        assert (exists V, unitsH w !! v = Some V) as [V HV].
        { apply lookup_lt_Some in HV'. rewrite Hu in HV'. unfold w3 in HV'.
          cbn [unitsH updUnit set_unitsH] in HV'. rewrite !length_alter in HV'.
          apply lookup_lt_is_Some in HV'. exact HV'. }
        destruct (Hunit _ _ HV) as (V'' & HV'' & Harr).
        rewrite HV' in HV''. injection HV'' as <-. rewrite Harr in Hi.
        destruct (decide (v = u)); [ discriminate | ].
        destruct (wf_arr _ _ HW _ _ _ _ _ HV Hi) as (A & HA & HuA & HiA).
        destruct (Hfwd _ _ HA) as (A' & HA' & Hu' & Hi').
        exists A'. split; [ exact HA' | ]. split; [ congruence | ].
        rewrite Hi'. exact HiA.
      * intros a0 A' s HA' Hidx.
        destruct (Hback a0 A' HA') as (A & HA & HuA & _ & HiA & _).
        rewrite HiA in Hidx |- *. rewrite HuA.
        destruct (wf_idx _ _ HW _ _ _ HA Hidx) as (V & i & HV & Hi & Hai).
        destruct (Hunit _ _ HV) as (V' & HV' & Harr).
        destruct (decide (Unit A = u)) as [Heq|Hne];
          [ exfalso; apply Hidx; apply (Hidle a0 A s HA Heq) | ].
        exists V', i. split; [ exact HV' | ]. split; [ exact Hi | ].
        rewrite Harr. exact Hai.
      * intros a0 A' s Hx HA'.
        destruct (Hback a0 A' HA') as (A & HA & _ & Hact & HiA & Hreg').
        rewrite HiA, Hact, Hreg'. apply (wf_act _ _ HW a0 A s Hx HA).
Qed.

End TrackerResetFacts.


(** [stacks_invariant] on an aura of at most three stacks: activated, set
    to five stacks (clamped to three) and deactivated. *)
Lemma stacks_invariant_witness :
  StacksInv (fresh [buff] [])
  /\ exists w',
       sequence (map (exec (PG := Quiet) 4)
                   [CActivate 0%nat; CSetStacks 0%nat 5; CDeactivate 0%nat])
         (fresh [buff] []) = Ok w'
       /\ forall a A, aurasH w' !! a = Some A ->
            (IsActive (Some A) = false -> GetStacks (Some A) = 0)
            /\ 0 <= GetStacks (Some A) <= MaxStacks A.
Proof.
  assert (H0 : StacksInv (fresh [buff] [])).
  { repeat constructor; cbn; lia. }
  split; [ exact H0 | ].
  eexists. split; [ vm_compute; reflexivity | ].
  refine (stacks_invariant (PG := Quiet) 4%nat
            [CActivate 0%nat; CSetStacks 0%nat 5; CDeactivate 0%nat] _ _ H0 _).
  vm_compute. reflexivity.
Defined.

(** C5, as stated, fails for an aura whose [MaxStacks] is negative:
    [SetStacks(5)] stores [min(5, -1) = -1], and the [SetStacks(0)] of
    [Deactivate] computes [min(0, -1) = -1] again, finds the count unchanged
    and returns; the aura ends inactive with [-1] stacks. *)
Lemma negative_cap_leaves_stacks :
  exists w',
    sequence (map (exec (PG := Quiet) 4)
                [CActivate 0%nat; CSetStacks 0%nat 5; CDeactivate 0%nat])
      (fresh [jinx] []) = Ok w'
    /\ IsActive (aurasH w' !! 0%nat) = false
    /\ GetStacks (aurasH w' !! 0%nat) = -1.
Proof.
  eexists. split; [ vm_compute; reflexivity | ]. split; reflexivity.
Qed.

Lemma Quiet_observers : all_observers (PG := Quiet).
Proof. repeat split; intros; eexists; reflexivity. Qed.

(** A simulation that has just been reset has empty dispatch arrays. *)
Lemma WF_fresh auras actions :
  Forall (fun A => active A = false /\ Unit A = 0%nat
                   /\ forall s, index A s = Inactive) auras ->
  WF (fresh auras actions).
Proof.
  intros H. rewrite Forall_lookup in H. constructor.
  - intros a A Ha. destruct (H _ _ Ha) as (_ & -> & _). cbn. eauto.
  - intros u U s i a Hu Hi. cbn in Hu. destruct u as [|u]; [ | discriminate ].
    injection Hu as <-. cbn in Hi. discriminate.
  - intros a A s Ha Hs. destruct (H _ _ Ha) as (_ & _ & Hi). destruct (Hs (Hi s)).
  - intros a A s _ Ha. destruct (H _ _ Ha) as (Hact & _ & Hi). split.
    + intros Hs. destruct (Hs (Hi s)).
    + intros [Ht _]. congruence.
Qed.

(** [set_stacks_to_zero] on the scenario of the specification: an active
    aura with three stacks and all hooks set. *)
Lemma set_stacks_to_zero_witness :
  exists w1,
    sequence (map (exec (PG := Quiet) 4) [CActivate 0%nat; CSetStacks 0%nat 3])
      (fresh [buff] []) = Ok w1
    /\ exists w2,
         exec (PG := Quiet) 4 (CSetStacks 0%nat 0) w1 = Ok w2
         /\ log w2 = log w1 ++ [EvSetStacks 0%nat 0; EvOnStacksChange 0%nat 3 0;
                                EvDeactivate 0%nat; EvOnExpire 0%nat]
         /\ IsActive (aurasH w2 !! 0%nat) = false
         /\ GetStacks (aurasH w2 !! 0%nat) = 0.
Proof.
  eexists. split; [ vm_compute; reflexivity | ].
  match goal with |- exists w2, exec _ _ ?w = _ /\ _ => pose (W := w) end.
  pose (A0 := match aurasH W !! 0%nat with Some A => A | None => buff end).
  assert (HW : WF W).
  { apply (sequence_WF (PG := Quiet) 4 [CActivate 0%nat; CSetStacks 0%nat 3]
             (fresh [buff] [])).
    - intros ee. eexists. reflexivity.
    - apply WF_fresh. repeat constructor.
    - vm_compute. reflexivity. }
  destruct (set_stacks_to_zero (PG := Quiet) Quiet_observers 0%nat 0%nat A0 W HW)
    as (w2 & He & Hl & Hi & Hg);
    [ reflexivity | reflexivity | vm_compute; split; [ reflexivity | discriminate ] | ].
  exists w2. split; [ exact He | ]. split; [ rewrite Hl; reflexivity | ]. auto.
Defined.

(** [expired_auras_deactivated] on the scenario of the specification: a
    five-second aura activated at 0s and again at 3s expires at 8s; it is
    active when the clock is at 7.9s and inactive once the clock is at 8s. *)
Lemma expired_auras_deactivated_witness :
  exists w1,
    sequence [exec (PG := Quiet) 4 (CActivate 0%nat);
              advance (PG := Quiet) 4 (3 * Second);
              exec (PG := Quiet) 4 (CActivate 0%nat);
              advance (PG := Quiet) 4 7900000000] (fresh [buff] []) = Ok w1
    /\ ExpiresAt <$> aurasH w1 !! 0%nat = Some (8 * Second)
    /\ IsActive (aurasH w1 !! 0%nat) = true
    /\ (exists w2, advance (PG := Quiet) 4 (8 * Second) w1 = Ok w2
                   /\ IsActive (aurasH w2 !! 0%nat) = false)
    /\ exists m w3,
         tryAdvance (PG := Quiet) 4 0%nat (set_CurrentTime (8 * Second) w1)
         = Ok (m, w3)
         /\ no_expired 0%nat w3 /\ unexpired_kept (set_CurrentTime (8 * Second) w1) w3.
Proof.
  eexists. split; [ vm_compute; reflexivity | ].
  match goal with |- _ /\ IsActive (aurasH ?w !! _) = _ /\ _ => pose (W := w) end.
  split; [ reflexivity | ]. split; [ reflexivity | ].
  split; [ eexists; split; [ vm_compute; reflexivity | reflexivity ] | ].
  assert (Hee : forall ee : nat, observer (eeActivate (Program := Quiet) ee)).
  { intros ee. eexists. reflexivity. }
  assert (Hops : forall J : World -> Prop,
            (forall f c w, J w -> post (exec (PG := Quiet) f c w) J) ->
            (forall f t w, J w -> post (advance (PG := Quiet) f t w) J) ->
            J (fresh [buff] []) -> J W).
  { intros J H1 H2 H0.
    refine (sequence_keeps J
              [exec (PG := Quiet) 4 (CActivate 0%nat);
               advance (PG := Quiet) 4 (3 * Second);
               exec (PG := Quiet) 4 (CActivate 0%nat);
               advance (PG := Quiet) 4 7900000000] (fresh [buff] []) W _ H0 _);
      [ repeat (constructor; [ intros w0; first [ apply H1 | apply H2 ] | ]);
        constructor
      | vm_compute; reflexivity ]. }
  assert (HW : WF (set_CurrentTime (8 * Second) W)).
  { apply (WFx_outside None W); [ reflexivity | reflexivity | ].
    apply (Hops WF).
    - intros f c w0. apply exec_WF. exact Hee.
    - intros f t w0. apply advance_WF. exact Hee.
    - apply WF_fresh. repeat constructor. }
  assert (HS : StacksInv (set_CurrentTime (8 * Second) W)).
  { apply (StacksInv_outside W); [ reflexivity | ].
    apply (Hops StacksInv).
    - intros f c w0. apply (ss_inv _ (exec_stacks_safe f)).
    - intros f t w0. apply advance_StacksInv.
    - repeat constructor; cbn; lia. }
  pose (U0 := match unitsH W !! 0%nat with Some U => U | None => player [] end).
  destruct (expired_auras_deactivated (PG := Quiet) 4 0%nat U0
              (set_CurrentTime (8 * Second) W) Hee HW) as [Hpart Htot];
    [ reflexivity | vm_compute; discriminate | ].
  destruct (Htot Quiet_observers HS) as (m & w3 & Hrun & Hkept);
    [ vm_compute; lia | lia | ].
  destruct (Hpart m w3 Hrun) as (_ & _ & Hno & _).
  exists m, w3. auto.
Defined.

Lemma wrap64_uint64 z : wrap64 (to_uint64 (wrap64 z)) = wrap64 z.
Proof.
  unfold wrap64, to_uint64.
  rewrite Zplus_mod_idemp_l.
  replace ((z + 2 ^ 63) mod 2 ^ 64 - 2 ^ 63 + 2 ^ 63) with ((z + 2 ^ 63) mod 2 ^ 64) by lia.
  rewrite Z.mod_mod by lia. reflexivity.
Qed.

(** [reseed_determinism] on two managers in test mode with base seed 42,
    reseeded for iteration 7: the iteration seed is 49, 31 in hexadecimal,
    and the draws under "crit" are those of a generator seeded by the hash
    of "crit31", whatever is drawn under "miss" in between.  Another label
    or another iteration gives another stream. *)
Lemma reseed_determinism_witness :
  seeding_resets (RI := Lcg) /\ seed_is_kept (RI := Lcg)
  /\ (draws swing_draws (reseedRands 7 new_manager)).1
     = (draws swing_draws (reseedRands 7 used_manager)).1
  /\ drawn_under "crit" swing_draws_with_miss (reseedRands 7 used_manager)
     = stream [@DProc FixedPoint 50 "crit"; @DRandomFloat FixedPoint "crit"]
         (NewSplitMix (RandImpl := Lcg)
            (to_uint64 (to_int64 (toy_hash "crit31"))))
  /\ toy_hash "crit31" = 6951371544315
  /\ drawn_under "crit" swing_draws_with_miss (reseedRands 7 used_manager)
     = [@DrawnBool FixedPoint true; @DrawnFloat FixedPoint 12]
  /\ drawn_under "crit" swing_draws_with_miss (reseedRands 8 used_manager)
     = [@DrawnBool FixedPoint true; @DrawnFloat FixedPoint 98]
  /\ drawn_under "miss" swing_draws_with_miss (reseedRands 7 used_manager)
     = [@DrawnFloat FixedPoint 18]
  /\ drawn_under "crit" swing_draws new_manager
     = drawn_under "crit" swing_draws_with_miss new_manager.
Proof.
  assert (H1 : seeding_resets (RI := Lcg)) by (intros s r; reflexivity).
  assert (H2 : seed_is_kept (RI := Lcg)) by (intros s r; apply wrap64_uint64).
  destruct (reseed_determinism (RI := Lcg) H1 H2) as (A & B & C).
  split; [ exact H1 | ]. split; [ exact H2 | ].
  split; [ apply A; reflexivity | ].
  split; [ rewrite (B 7 used_manager "crit" swing_draws_with_miss eq_refl); reflexivity | ].
  split; [ vm_compute; reflexivity | ].
  split; [ rewrite (B 7 used_manager "crit" swing_draws_with_miss eq_refl);
           vm_compute; reflexivity | ].
  split; [ rewrite (B 8 used_manager "crit" swing_draws_with_miss eq_refl);
           vm_compute; reflexivity | ].
  split; [ rewrite (B 7 used_manager "miss" swing_draws_with_miss eq_refl);
           vm_compute; reflexivity | ].
  apply C; reflexivity.
Defined.

(** [swap_remove_spec] on an array of four. *)
Lemma swap_remove_spec_witness :
  (2 < length [10; 11; 12; 13; 14])%nat
  /\ removeBySwappingToBack [10; 11; 12; 13; 14]%nat 2 = [10; 11; 14; 13]%nat
  /\ removeBySwappingToBack [10; 11; 14; 13]%nat 2 ≡ₚ delete 2%nat [10; 11; 14; 13]%nat.
Proof.
  split; [ cbn; lia | ]. split; [ reflexivity | ].
  refine (proj1 (proj2 (swap_remove_spec [10; 11; 14; 13]%nat 2 _))). cbn; lia.
Defined.

(** [activate_deactivate_round_trip] on a five-second aura with hooks, beside
    a permanent one. *)
Lemma activate_deactivate_round_trip_witness :
  exists w1 w2,
    exec (PG := Quiet) 1 (CActivate 0%nat) (fresh [buff; stance] []) = Ok w1
    /\ exec (PG := Quiet) 3 (CDeactivate 0%nat) w1 = Ok w2
    /\ IsActive (aurasH w1 !! 0%nat) = true
    /\ log w2 = [EvActivate 0%nat; EvOnGain 0%nat; EvDeactivate 0%nat; EvOnExpire 0%nat]
    /\ forall u U, unitsH (fresh [buff; stance] []) !! u = Some U ->
         exists U2, unitsH w2 !! u = Some U2 /\ forall s, arrays U2 s = arrays U s.
Proof.
  destruct (activate_deactivate_round_trip (PG := Quiet) Quiet_observers 0%nat 0%nat
              buff (fresh [buff; stance] []))
    as (w1 & w2 & H1 & H2 & H3 & H4 & _ & H6).
  - apply WF_fresh. repeat constructor.
  - reflexivity.
  - reflexivity.
  - reflexivity.
  - cbn. lia.
  - discriminate.
  - constructor.
  - exists w1, w2. repeat split; auto.
Defined.

(** [execute_phase_queries_monotone] on a fight whose thresholds all lie at
    162s: at 100s no execute phase has begun, at 170s all have. *)
Lemma execute_phase_queries_monotone_witness :
  exists w1 w2,
    advance (PG := Quiet) 7 (100 * Second) (fresh [] []) = Ok w1
    /\ advance (PG := Quiet) 7 (170 * Second) w1 = Ok w2
    /\ IsExecutePhase90 w1 = true /\ IsExecutePhase35 w1 = false
    /\ IsExecutePhase35 w2 = true
    /\ (IsExecutePhase90 w1 = false -> IsExecutePhase90 w2 = false)
    /\ (IsExecutePhase35 w2 = true -> IsExecutePhase45 w2 = true).
Proof.
  eexists. eexists. split; [ vm_compute; reflexivity | ].
  match goal with |- advance _ _ ?w = Ok ?w' /\ _ => pose (W1 := w) end.
  split; [ vm_compute; reflexivity | ].
  match goal with |- _ /\ _ /\ IsExecutePhase35 ?w = _ /\ _ => pose (W2 := w) end.
  split; [ reflexivity | ]. split; [ reflexivity | ]. split; [ reflexivity | ].
  destruct (execute_phase_queries_monotone (PG := Quiet) 7
              [advance (PG := Quiet) 7 (170 * Second)] W1 W2)
    as (_ & _ & _ & _ & H90 & _ & _ & H35 & _).
  - unfold ladder. repeat constructor.
  - constructor; [ left; eexists; reflexivity | constructor ].
  - vm_compute. reflexivity.
  - split; assumption.
Defined.

(** [list_add_remove] on a simulation with tasks 4, 7, 5, 7, weapon
    attacks 1, 2, 3 and trackers 0, 1, 2: removing task 7 removes the first
    of the two, the last entry taking its place; removing weapon attack 2
    and tracker 0 likewise; removing what is not listed changes nothing;
    tracker 3, added and removed, leaves the trackers as they were. *)
Lemma list_add_remove_witness :
  tasks (RemoveTask 7 scheduled) = [4; 7; 5]%nat
  /\ first_removed 7 [4; 7; 5; 7]%nat [4; 7; 5]%nat
  /\ weaponAttacks (removeWeaponAttack 2 scheduled) = [1; 3]%nat
  /\ first_removed 2 [1; 2; 3]%nat [1; 3]%nat
  /\ trackers (removeTracker 0 scheduled) = [2; 1]%nat
  /\ first_removed 0 [0; 1; 2]%nat [2; 1]%nat
  /\ RemoveTask 9 scheduled = scheduled
  /\ removeWeaponAttack 9 scheduled = scheduled
  /\ removeTracker 9 scheduled = scheduled
  /\ (exists w', addTracker 3 scheduled = Ok w'
                 /\ trackers w' = [0; 1; 2; 3]%nat
                 /\ trackers (removeTracker 3 w') = [0; 1; 2]%nat)
  /\ minWeaponAttackTime (rescheduleWeaponAttack (3 * Second) scheduled)
     <= 3 * Second.
Proof.
  pose proof (list_add_remove scheduled 7%nat) as (_ & (T7 & _ & _) & _ & _).
  pose proof (list_add_remove scheduled 2%nat) as (_ & (_ & A2 & _) & _ & _).
  pose proof (list_add_remove scheduled 0%nat) as (_ & (_ & _ & K0) & _ & _).
  pose proof (list_add_remove scheduled 9%nat) as ((N1 & N2 & N3) & _ & _ & _).
  pose proof (list_add_remove scheduled 3%nat) as (_ & _ & (_ & _ & R3) & Ht).
  assert (Hn : forall l : list nat, 9%nat ∉ l <-> Forall (fun y => y <> 9%nat) l).
  { intros l. rewrite Forall_forall. split; [ intros H y Hy -> | intros H Hin ]; eauto.
    exact (H _ Hin eq_refl). }
  split; [ reflexivity | ].
  split; [ apply T7; right; left | ].
  split; [ reflexivity | ].
  split; [ apply A2; right; left | ].
  split; [ reflexivity | ].
  split; [ apply K0; left | ].
  split; [ apply N1, Hn; repeat constructor; discriminate | ].
  split; [ apply N2, Hn; repeat constructor; discriminate | ].
  split; [ apply N3, Hn; repeat constructor; discriminate | ].
  split.
  - eexists. split; [ reflexivity | ]. split; [ reflexivity | ].
    apply R3; [ | reflexivity ].
    intros Hin. repeat (apply elem_of_cons in Hin; destruct Hin as [Hin|Hin]; [ discriminate | ]).
    inversion Hin.
  - apply (proj1 (proj2 (Ht (3 * Second)))).
Defined.

(** [AddPendingAction_succeeds] on the queue of a fresh simulation. *)
Lemma AddPendingAction_succeeds_witness :
  exists w',
    AddPendingAction 1%nat (fresh [] [canceller]) = Ok w'
    /\ pendingActions w' ≡ₚ 1%nat :: pendingActions (fresh [] [canceller])
    /\ head (pendingActions w') = Some sentinel.
Proof.
  destruct (proj1 (AddPendingAction_succeeds 1%nat (fresh [] [canceller])))
    as (w' & H1 & H2 & H3 & _).
  - eexists. reflexivity.
  - discriminate.
  - constructor.
  - exists w'. auto.
Defined.

(** [stack_helpers_edges] on a registered aura that is not active. *)
Lemma stack_helpers_edges_witness :
  AddStack (PG := Quiet) 1 0%nat (fresh [buff] [])
  = Panic "Trying to set non-zero stacks on inactive aura!".
Proof.
  refine (proj1 (stack_helpers_edges (PG := Quiet) 0%nat 0%nat buff
                   (fresh [buff] []) _) _ _); reflexivity.
Defined.

(** [save_restore_round_trip] on an aura with two of three stacks. *)
Lemma save_restore_round_trip_witness :
  exists w0,
    sequence (map (exec (PG := Quiet) 4) [CActivate 0%nat; CSetStacks 0%nat 2])
      (fresh [buff] []) = Ok w0
    /\ exists st w',
         SaveState 0%nat w0 = Ok st
         /\ RestoreState (PG := Quiet) 1 0%nat st w0 = Ok w'
         /\ aurasH w' = aurasH w0.
Proof.
  eexists. split; [ vm_compute; reflexivity | ].
  match goal with |- exists st w', SaveState _ ?w = _ /\ _ => pose (W := w) end.
  pose (A0 := match aurasH W !! 0%nat with Some A => A | None => buff end).
  destruct (save_restore_round_trip (PG := Quiet) 0%nat 0%nat A0 W)
    as (st & w' & H1 & H2 & H3 & _);
    [ reflexivity | reflexivity | vm_compute; split; [ discriminate | reflexivity ]
    | vm_compute; split; discriminate | ].
  exists st, w'. auto.
Defined.

(** [add_then_remove_stack] on a buff that has just been activated: the
    pair of calls leaves it inactive. *)
Lemma add_then_remove_stack_witness :
  exists w0,
    exec (PG := Quiet) 4 (CActivate 0%nat) (fresh [buff] []) = Ok w0
    /\ exists w1 w2,
         AddStack (PG := Quiet) 4 0%nat w0 = Ok w1
         /\ RemoveStack (PG := Quiet) 4 0%nat w1 = Ok w2
         /\ IsActive (aurasH w2 !! 0%nat) = false.
Proof.
  eexists. split; [ vm_compute; reflexivity | ].
  match goal with |- exists w1 w2, AddStack _ _ ?w = _ /\ _ => pose (W := w) end.
  pose (A0 := match aurasH W !! 0%nat with Some A => A | None => buff end).
  assert (HW : WF W).
  { assert (H0 : exec (PG := Quiet) 4 (CActivate 0%nat) (fresh [buff] []) = Ok W)
      by (vm_compute; reflexivity).
    pose proof (exec_WF (PG := Quiet) (fun ee => proj1 (proj2 Quiet_observers) ee)
                  4%nat (CActivate 0%nat) (fresh [buff] [])) as HP.
    rewrite H0 in HP. apply HP. apply WF_fresh.
    repeat constructor. }
  destruct (add_then_remove_stack (PG := Quiet) Quiet_observers 0%nat 0%nat A0 W HW)
    as (w1 & w2 & H1 & _ & _ & H2 & _ & H3 & _);
    [ reflexivity | reflexivity | vm_compute; split; [ discriminate | reflexivity ]
    | reflexivity | ].
  exists w1, w2. split; [ exact H1 | ]. split; [ exact H2 | exact H3 ].
Defined.

(** [dispatch_arrays_exact] after a buff and a stance were activated and the
    buff has expired while the clock advanced. *)
Lemma dispatch_arrays_exact_witness :
  exists w',
    sequence [exec (PG := Quiet) 5 (CActivate 0%nat);
              exec (PG := Quiet) 5 (CActivate 1%nat);
              advance (PG := Quiet) 5 (6 * Second)] (fresh [buff; stance] [])
    = Ok w'
    /\ (forall U, unitsH w' !! 0%nat = Some U -> arrays U SlotActive = [])
    /\ forall u U s, unitsH w' !! u = Some U ->
         NoDup (arrays U s)
         /\ forall a, a ∈ arrays U s <->
              exists A, aurasH w' !! a = Some A /\ Unit A = u
                        /\ active A = true /\ registers A s = true.
Proof.
  eexists. split; [ vm_compute; reflexivity | ].
  split; [ intros U HU; vm_compute in HU; injection HU as <-; reflexivity | ].
  refine (dispatch_arrays_exact (PG := Quiet) 5%nat
            [exec (PG := Quiet) 5 (CActivate 0%nat);
             exec (PG := Quiet) 5 (CActivate 1%nat);
             advance (PG := Quiet) 5 (6 * Second)] (fresh [buff; stance] []) _
            (fun ee => proj1 (proj2 Quiet_observers) ee) _ _ _).
  - apply WF_fresh. repeat constructor.
  - repeat (constructor; [ first [ left; eexists; reflexivity
                                 | right; eexists; reflexivity ] | ]).
    constructor.
  - vm_compute. reflexivity.
Defined.

(** [stacks_invariant_clock] on a buff whose stacks are lost when it expires
    under the clock. *)
Lemma stacks_invariant_clock_witness :
  exists w',
    sequence [exec (PG := Quiet) 5 (CActivate 0%nat);
              exec (PG := Quiet) 5 (CSetStacks 0%nat 2);
              advance (PG := Quiet) 5 (6 * Second)] (fresh [buff] []) = Ok w'
    /\ GetStacks (aurasH w' !! 0%nat) = 0
    /\ forall a A, aurasH w' !! a = Some A ->
         (IsActive (Some A) = false -> GetStacks (Some A) = 0)
         /\ 0 <= GetStacks (Some A) <= MaxStacks A.
Proof.
  eexists. split; [ vm_compute; reflexivity | ].
  split; [ reflexivity | ].
  refine (stacks_invariant_clock (PG := Quiet) 5%nat
            [exec (PG := Quiet) 5 (CActivate 0%nat);
             exec (PG := Quiet) 5 (CSetStacks 0%nat 2);
             advance (PG := Quiet) 5 (6 * Second)] (fresh [buff] []) _ _ _ _).
  - repeat constructor; cbn; lia.
  - repeat (constructor; [ first [ left; eexists; reflexivity
                                 | right; eexists; reflexivity ] | ]).
    constructor.
  - vm_compute. reflexivity.
Defined.

(** [shared_stream_without_labels] on the draws of a swing. *)
Lemma shared_stream_without_labels_witness :
  (draws swing_draws (@mkRands FixedPoint Lcg 1 false ∅ 42)).1
  = stream swing_draws (1 : @Rand FixedPoint Lcg)
  /\ testRands (draws swing_draws (@mkRands FixedPoint Lcg 1 false ∅ 42)).2 = ∅.
Proof.
  exact (shared_stream_without_labels (RI := Lcg) swing_draws
           (@mkRands FixedPoint Lcg 1 false ∅ 42) eq_refl).
Defined.

(** [register_then_get] on the first aura of a unit. *)
Lemma register_then_get_witness :
  exists a w',
    registerAura 0%nat buff detached = Ok (a, w')
    /\ exists U', unitsH w' !! 0%nat = Some U'
         /\ GetAura (aurasH w') (auras U') "Buff" = Ok (Some a).
Proof.
  do 2 eexists. split; [ vm_compute; reflexivity | ].
  match goal with |- exists U', unitsH ?w !! _ = _ /\ _ => pose (W := w) end.
  destruct (register_then_get 0%nat buff detached 0%nat W)
    as (U & U' & _ & HU' & HG & _); [ vm_compute; reflexivity | ].
  exists U'. split; [ exact HU' | exact HG ].
Defined.

(** [GetOrRegisterAura_registered] in a finalized environment, on the
    label of a registered aura without handlers and a configuration with
    two: the aura takes over the handler for completed casts, not the one
    for applied effects, and keeps its hooks. *)
Lemma GetOrRegisterAura_registered_witness :
  finalized (fresh [buff] []) = true
  /\ handler buff SlotCastComplete = None
  /\ exists w' A',
       GetOrRegisterAura 0%nat buff_with_handlers (fresh [buff] []) = Ok (0%nat, w')
       /\ aurasH w' !! 0%nat = Some A'
       /\ handler A' SlotCastComplete = Some 4%nat
       /\ handler A' SlotApplyEffects = None
       /\ OnGain A' = Some 1%nat
       /\ WF w'.
Proof.
  split; [ reflexivity | ]. split; [ reflexivity | ].
  destruct (GetOrRegisterAura_registered 0%nat (player [0%nat]) buff_with_handlers
              (fresh [buff] []) 0%nat)
    as (w' & H1 & _ & _ & _ & (A & A' & HA & HA' & Hh & Ha & _ & Hset) & _ & HW);
    [ reflexivity | vm_compute; reflexivity | ].
  injection HA as <-.
  exists w', A'. split; [ exact H1 | ]. split; [ exact HA' | ].
  split; [ rewrite Hh by discriminate; reflexivity | ].
  split; [ rewrite Ha; reflexivity | ].
  split; [ change (OnGain A') with (OnGain (set_handler (handler buff) A'));
           rewrite Hset; reflexivity | ].
  apply HW; [ | reflexivity ].
  apply WF_fresh. repeat constructor.
Defined.

(** [tag_index_exact] on the second aura registered under a tag. *)
Lemma tag_index_exact_witness :
  exists a1 w1 m1 a2 w2 m2,
    registerAuraTagged 0%nat sealA detached ∅ = Ok (a1, w1, m1)
    /\ registerAuraTagged 0%nat sealB w1 m1 = Ok (a2, w2, m2)
    /\ GetAurasWithTag m2 "Seal" = [a1; a2]
    /\ exists U', unitsH w2 !! 0%nat = Some U'
                  /\ tags_exact (aurasH w2) (auras U') m2.
Proof.
  do 6 eexists. split; [ vm_compute; reflexivity | ].
  split; [ vm_compute; reflexivity | ].
  split; [ vm_compute; reflexivity | ].
  match goal with |- exists U', unitsH ?w !! _ = _ /\ tags_exact _ _ ?m =>
    pose (W2 := w); pose (M2 := m) end.
  pose (W1 := match registerAuraTagged 0%nat sealA detached ∅ with
              | Ok (_, w, m) => (w, m) | _ => (detached, ∅) end).
  pose (U1 := match unitsH W1.1 !! 0%nat with Some U => U | None => player [] end).
  destruct (tag_index_exact 0%nat U1 sealB W1.1 W1.2 1%nat W2 M2)
    as (U' & HU' & Hex & _).
  - vm_compute. reflexivity.
  - split.
    + intros a Ha. vm_compute in Ha. apply list_elem_of_singleton in Ha as ->.
      vm_compute. eauto.
    + intros tag. destruct (decide (tag = "Seal")) as [->|Hne].
      * vm_compute. reflexivity.
      * unfold byTag. replace (W1.2) with (<["Seal" := [0%nat]]> (∅ : gmap string (list AuraId)))
          by (vm_compute; reflexivity).
        rewrite lookup_insert_ne by congruence. rewrite lookup_empty. cbn [default].
        case_bool_decide; [ reflexivity | ].
        replace (auras U1) with [0%nat] by (vm_compute; reflexivity).
        rewrite filter_cons_False; [ reflexivity | ].
        unfold tagged. replace (aurasH W1.1 !! 0%nat) with (Some sealA)
          by (vm_compute; reflexivity).
        cbn. congruence.
  - vm_compute. reflexivity.
  - exists U'. split; [ exact HU' | exact Hex ].
Defined.

(** [expireAll_spec] on a unit with an active buff and an active stance:
    the buff is deactivated and the stance is not. *)
Lemma expireAll_spec_witness :
  exists w0,
    sequence (map (exec (PG := Quiet) 4) [CActivate 0%nat; CActivate 1%nat])
      (fresh [buff; stance] []) = Ok w0
    /\ exists w',
         expireAll (PG := Quiet) 4 2 0%nat w0 = Ok w'
         /\ map active (aurasH w') = [false; true]
         /\ WF w'.
Proof.
  eexists. split; [ vm_compute; reflexivity | ].
  match goal with |- exists w', expireAll _ _ _ ?w = _ /\ _ => pose (W := w) end.
  pose (U0 := match unitsH W !! 0%nat with Some U => U | None => player [] end).
  assert (HW : WF W).
  { assert (H0 : sequence (map (exec (PG := Quiet) 4) [CActivate 0%nat; CActivate 1%nat])
                   (fresh [buff; stance] []) = Ok W) by (vm_compute; reflexivity).
    refine (sequence_WF (PG := Quiet) 4%nat [CActivate 0%nat; CActivate 1%nat]
              _ _ (fun ee => proj1 (proj2 Quiet_observers) ee) _ H0).
    apply WF_fresh. repeat constructor. }
  destruct (expireAll_spec (PG := Quiet) 4 2 0%nat U0 W
              (fun ee => proj1 (proj2 Quiet_observers) ee) HW eq_refl)
    as [Hpost _].
  eexists. split; [ vm_compute; reflexivity | ].
  split; [ reflexivity | ].
  refine (proj1 (Hpost _ _)). vm_compute. reflexivity.
Defined.

(** [clock_stops_at_end_of_combat] on a run with two actions at 10s in a
    fight of 180s. *)
Lemma clock_stops_at_end_of_combat_witness :
  exists w1 w2,
    AddPendingAction 1%nat (fresh [] [low_priority_action]) = Ok w1
    /\ runPendingActions (PG := Busy) 5 10 w1 = Ok w2
    /\ CurrentTime w2 = 10 * Second
    /\ CurrentTime w2 <= endOfCombatDuration w2.
Proof.
  eexists; eexists.
  split; [ vm_compute; reflexivity | ].
  split; [ vm_compute; reflexivity | ].
  split; [ reflexivity | ].
  match goal with |- CurrentTime ?w <= _ => pose (W2 := w) end.
  pose (W1 := match AddPendingAction 1%nat (fresh [] [low_priority_action]) with
              | Ok w => w | _ => fresh [] [] end).
  refine (proj2 (proj2 (clock_stops_at_end_of_combat (PG := Busy) 5 10 W1 W2 _)) _).
  - vm_compute. reflexivity.
  - vm_compute. discriminate.
Defined.

(** A simulation that has just been reset has sound caches. *)
Lemma Sched_fresh auras actions :
  Forall (fun A => active A = false /\ Unit A = 0%nat) auras ->
  Sched (fresh auras actions).
Proof.
  intros Hall. rewrite Forall_lookup in Hall. split; [ | split ].
  - intros a A HA. destruct (Hall a A HA) as [_ ->]. left.
  - intros u U Hu HU. apply list_elem_of_singleton in Hu as ->.
    cbn in HU. injection HU as <-. cbn. lia.
  - intros a A U _ HA Hact. destruct (Hall a A HA) as [Hin _]. congruence.
Qed.

(** [lazy_expiry_exact] on a buff of five seconds and a stance: at 3s the
    buff is active, at 6s it is not. *)
Lemma lazy_expiry_exact_witness :
  exists w1 w',
    sequence [exec (PG := Quiet) 5 (CActivate 0%nat);
              exec (PG := Quiet) 5 (CActivate 1%nat);
              advance (PG := Quiet) 5 (3 * Second)] (fresh [buff; stance] [])
    = Ok w1
    /\ advance (PG := Quiet) 5 (6 * Second) w1 = Ok w'
    /\ map active (aurasH w1) = [true; true]
    /\ map active (aurasH w') = [false; true]
    /\ forall a A, aurasH w' !! a = Some A -> active A = true ->
         Duration A <> NeverExpires -> 6 * Second < expires A.
Proof.
  eexists; eexists.
  split; [ vm_compute; reflexivity | ].
  split; [ vm_compute; reflexivity | ].
  split; [ reflexivity | ]. split; [ reflexivity | ].
  match goal with |- forall a A, aurasH ?w !! a = _ -> _ => pose (W' := w) end.
  pose (W1 := match sequence [exec (PG := Quiet) 5 (CActivate 0%nat);
                              exec (PG := Quiet) 5 (CActivate 1%nat);
                              advance (PG := Quiet) 5 (3 * Second)]
                      (fresh [buff; stance] []) with
              | Ok w => w | _ => fresh [] [] end).
  intros a A HA Hact Hdur.
  refine (proj1 (proj2 (proj2
            (lazy_expiry_exact (PG := Quiet) Quiet_observers 5%nat
               [exec (PG := Quiet) 5 (CActivate 0%nat);
                exec (PG := Quiet) 5 (CActivate 1%nat);
                advance (PG := Quiet) 5 (3 * Second)] (6 * Second)
               (fresh [buff; stance] []) W1 W' _ _ _ _ _)) a A HA Hact Hdur)).
  - apply WF_fresh. repeat constructor.
  - apply Sched_fresh. repeat constructor.
  - constructor; [ right; exists (CActivate 0%nat); split; reflexivity | ].
    constructor; [ right; exists (CActivate 1%nat); split; reflexivity | ].
    constructor; [ left; eexists; reflexivity | ]. constructor.
  - vm_compute. reflexivity.
  - vm_compute. reflexivity.
Defined.

(** [aura_arrays] on the array of the buff for one unit, appended to the nil
    map. *)
Lemma aura_arrays_witness :
  exists r,
    LabeledAuraArrays_Append [buff] None (Some [Some 0%nat])
    = Ok (Some r)
    /\ r !! "Buff" = Some (Some [Some 0%nat]).
Proof.
  destruct (aura_arrays [buff] 0%nat None (Some [Some 0%nat]))
    as (_ & (r & Hr & _ & Hne) & _).
  - intros a Ha. apply list_elem_of_singleton in Ha. injection Ha as ->.
    eexists. reflexivity.
  - destruct (Hne eq_refl) as (label & m & Hl & -> & Hm & _).
    exists m. split; [ exact Hr | ].
    vm_compute in Hl. injection Hl as <-. exact Hm.
Defined.

(** [tracker_reset_spec] on a unit with a buff and a stance, both
    inactive. *)
Lemma tracker_reset_spec_witness :
  exists w',
    at_reset (PG := Quiet) 1 0%nat [11%nat] (fresh [buff; stance] []) = Ok w'
    /\ WF w'
    /\ fadeTime <$> aurasH w' !! 0%nat = Some (- NeverExpires).
Proof.
  eexists. split; [ vm_compute; reflexivity | ].
  match goal with |- WF ?w /\ _ => pose (W := w) end.
  split; [ | reflexivity ].
  refine (proj2 (proj2 (proj2 (proj2
            (proj2 (tracker_reset_spec (PG := Quiet) Quiet_observers 1 0%nat
                      (player [0%nat; 1%nat]) [11%nat] (fresh [buff; stance] [])
                      eq_refl _) W _)))) _ _).
  - intros a Ha. apply elem_of_cons in Ha as [->|Ha]; [ eexists; reflexivity | ].
    apply list_elem_of_singleton in Ha as ->. eexists. reflexivity.
  - vm_compute. reflexivity.
  - apply WF_fresh. repeat constructor.
  - intros a A HA _. apply lookup_lt_Some in HA. cbn in HA.
    destruct a as [|[|a]]; [ left | right; left | lia ].
Defined.

(** [clock_never_runs_backwards] on runs in which callbacks act: the
    cancellation of an action whose clean-up activates an aura and gives it
    stacks leaves the clock at 0s; an advance to 170s that delivers five
    phases to a callback that activates an aura returns at 170s; and the
    event loop of the fight above, with its action, swing and task, takes
    the clock from 0s to 4s. *)
Lemma clock_never_runs_backwards_witness :
  (exists w',
     exec (PG := Lively) 6 (CCancel 3%nat) battle = Ok w'
     /\ log w' = [EvCleanUp 3%nat; EvActivate 0%nat; EvOnGain 0%nat;
                  EvSetStacks 0%nat 3; EvOnStacksChange 0%nat 0 3]
     /\ CurrentTime w' = CurrentTime battle)
  /\ (exists w1 w',
        exec (PG := Lively) 6 (CRegisterExecutePhaseCallback 22%nat) battle = Ok w1
        /\ advance (PG := Lively) 6 (170 * Second) w1 = Ok w'
        /\ log w' = [EvPhase 0 22 90; EvActivate 0%nat; EvOnGain 0%nat;
                     EvPhase 0 22 45; EvActivate 0%nat; EvPhase 0 22 35;
                     EvActivate 0%nat; EvPhase 0 22 25; EvActivate 0%nat;
                     EvPhase 0 22 20; EvActivate 0%nat]
        /\ CurrentTime w' = 170 * Second)
  /\ (exists w0 w',
        sequence [AddPendingAction 1%nat; AddPendingAction 2%nat;
                  AddPendingAction 3%nat] battle = Ok w0
        /\ runPendingActions (PG := Lively) 6 10 w0 = Ok w'
        /\ CurrentTime w0 <= CurrentTime w'
        /\ CurrentTime w0 = 0 /\ CurrentTime w' = 4 * Second).
Proof.
  destruct (clock_never_runs_backwards (PG := Lively) 6%nat) as (H1 & H2 & H3).
  split; [ | split ].
  - eexists. split; [ vm_compute; reflexivity | ]. split; [ reflexivity | ].
    apply (H1 (CCancel 3%nat)). vm_compute. reflexivity.
  - eexists; eexists. split; [ vm_compute; reflexivity | ].
    split; [ vm_compute; reflexivity | ]. split; [ reflexivity | ].
    match goal with |- CurrentTime ?w = _ => pose (W := w) end.
    apply (H2 (170 * Second)
              (set_executePhaseCallbacks [22%nat] battle) W).
    vm_compute. reflexivity.
  - eexists; eexists. split; [ vm_compute; reflexivity | ].
    match goal with |- runPendingActions _ _ ?w = _ /\ _ => pose (W0 := w) end.
    split; [ vm_compute; reflexivity | ].
    match goal with |- _ <= CurrentTime ?w /\ _ => pose (W1 := w) end.
    split; [ | split; reflexivity ].
    apply (H3 10%nat W0 W1). vm_compute. reflexivity.
Defined.

(** [event_loop_invariants] on a fight in which the action at 1s activates
    a buff and a stance and gives the buff two stacks, the swing at 2s
    takes one stack off, and the task at 4s ends the loop with the buff
    still active.  [Cleanup] finds one action queued, whose clean-up
    refreshes the buff and gives it three stacks, and then the raid
    deactivates both auras. *)
Lemma event_loop_invariants_witness :
  exists w0 w1 w2,
    sequence [AddPendingAction 1%nat; AddPendingAction 2%nat;
              AddPendingAction 3%nat] battle = Ok w0
    /\ runPendingActions (PG := Lively) 6 10 w0 = Ok w1
    /\ Cleanup (PG := Lively) 6 w1 = Ok w2
    /\ pendingActions w1 = [sentinel; 3%nat]
    /\ map (fun A => (active A, stacks A)) (aurasH w1) = [(true, 1); (true, 0)]
    /\ (fun U => arrays U SlotActive) <$> unitsH w1 = [[0%nat]]
    /\ drop (length (log w1)) (log w2)
       = [EvCleanUp 3%nat; EvActivate 0%nat; EvSetStacks 0%nat 3;
          EvOnStacksChange 0%nat 1 3; EvDeactivate 0%nat; EvSetStacks 0%nat 0;
          EvOnStacksChange 0%nat 3 0; EvDeactivate 0%nat; EvOnExpire 0%nat;
          EvDeactivate 1%nat; EvOnExpire 1%nat]
    /\ map (fun A => (active A, stacks A)) (aurasH w2) = [(false, 0); (false, 0)]
    /\ forall w', w' = w1 \/ w' = w2 ->
         (forall u U s, unitsH w' !! u = Some U ->
            NoDup (arrays U s)
            /\ forall a, a ∈ arrays U s <->
                 exists A, aurasH w' !! a = Some A /\ Unit A = u
                           /\ active A = true /\ registers A s = true)
         /\ forall a A, aurasH w' !! a = Some A ->
              (IsActive (Some A) = false -> GetStacks (Some A) = 0)
              /\ 0 <= GetStacks (Some A) <= MaxStacks A.
Proof.
  eexists; eexists; eexists.
  split; [ vm_compute; reflexivity | ].
  match goal with |- runPendingActions _ _ ?w = _ /\ _ => pose (W0 := w) end.
  split; [ vm_compute; reflexivity | ].
  match goal with |- Cleanup _ ?w = _ /\ _ => pose (W1 := w) end.
  split; [ vm_compute; reflexivity | ].
  match goal with |- pendingActions _ = _ /\ _ /\ _ /\ drop _ (log ?w) = _ /\ _ =>
    pose (W2 := w) end.
  split; [ reflexivity | ]. split; [ reflexivity | ]. split; [ reflexivity | ].
  split; [ reflexivity | ]. split; [ reflexivity | ].
  refine (event_loop_invariants (PG := Lively) 6 10 W0 W1 W2 _ _ _ _ _).
  - intros ee. exists 1. reflexivity.
  - apply (WFx_outside None (fresh [buff; stance] [opener; straggler; leftover]));
      [ reflexivity | reflexivity | ].
    apply WF_fresh. repeat constructor.
  - repeat constructor; cbn; lia.
  - vm_compute. reflexivity.
  - vm_compute. reflexivity.
Defined.

(** [phase_ladder] on a fight of 180s whose phases 90, 45, 35, 25 and 20
    begin at 18s, 99s, 117s, 135s and 144s.  After the reset the simulation
    is in phase 100 and waits for 18s.  With one callback registered, the
    advance to 10s delivers nothing, the advance to 100s delivers the
    phases 90 and 45 and waits for 117s, and the advance to 170s delivers
    35, 25 and 20.  In a fight that ends at 1000 damage taken, with 600
    taken, the advance to 1s delivers the phases 90 and 45, whose thresholds
    are 100 and 550. *)
Lemma phase_ladder_witness :
  (exists w0 w1 w2 w3 w4,
     reset (arena (fun q => q) 0) = Ok w0
     /\ (armed w0 /\ executePhase w0 = 100 /\ executePhaseCallbacks w0 = [])
     /\ nextExecuteDuration w0 = 18 * Second
     /\ exec (PG := Quiet) 7 (CRegisterExecutePhaseCallback 5%nat) w0 = Ok w1
     /\ advance (PG := Quiet) 7 (10 * Second) w1 = Ok w2
     /\ List.filter isPhase (log w2) = []
     /\ executePhase w2 = 100
     /\ advance (PG := Quiet) 7 (100 * Second) w2 = Ok w3
     /\ List.filter isPhase (log w3) = [EvPhase 0 5 90; EvPhase 0 5 45]
     /\ executePhase w3 = 45
     /\ nextExecuteDuration w3 = 117 * Second
     /\ advance (PG := Quiet) 7 (170 * Second) w3 = Ok w4
     /\ List.filter isPhase (log w4)
        = [EvPhase 0 5 90; EvPhase 0 5 45; EvPhase 0 5 35; EvPhase 0 5 25;
           EvPhase 0 5 20]
     /\ executePhase w4 = 20
     /\ exists rounds,
          phase_rounds rounds w0 w4
          /\ StronglySorted (fun a b => b < a) (100 :: map fst rounds)
          /\ Forall (fun q => q ∈ ladder) (map fst rounds))
  /\ (exists v0 v1 v2,
        reset (arena (fun q => q) 100000) = Ok v0
        /\ nextExecuteDamage v0 = (10000 : @float64 FixedPoint)
        /\ sequence [exec (PG := Quiet) 7 (CRegisterExecutePhaseCallback 5%nat);
                     exec (PG := Quiet) 7
                       (CSetDamageTaken (60000 : @float64 FixedPoint))] v0
           = Ok v1
        /\ advance (PG := Quiet) 7 (1 * Second) v1 = Ok v2
        /\ List.filter isPhase (log v2) = [EvPhase 0 5 90; EvPhase 0 5 45]
        /\ executePhase v2 = 45
        /\ nextExecuteDamage v2 = (65000 : @float64 FixedPoint)).
Proof.
  destruct (phase_ladder (PG := Quiet) 7) as (P1 & _ & P3 & P4 & P5).
  assert (Hobs : all_observers (PG := Quiet))
    by (repeat split; intros; eexists; reflexivity).
  assert (HWF : forall w : @World FixedPoint,
            aurasH w = [] -> unitsH w = [player []] -> WF w).
  { intros w Ha Hu. apply (WFx_outside None (fresh [] [])); [ exact Ha | exact Hu | ].
    apply WF_fresh. constructor. }
  assert (HSI : forall w : @World FixedPoint, aurasH w = [] -> StacksInv w).
  { intros w Ha. apply (StacksInv_outside (fresh [] [])); [ exact Ha | constructor ]. }
  assert (Hstep : forall t (w w' : @World FixedPoint),
            armed w -> t < NeverExpires -> DamageTaken w < 2 ^ 1030 ->
            aurasH w = [] -> unitsH w = [player []] -> trackers w = [] ->
            advance (PG := Quiet) 7 t w = Ok w' ->
            List.filter isPhase (log w')
            = List.filter isPhase (log w)
              ++ flat_map (fun q => round_events q (executePhaseCallbacks w))
                   (entered t w)
            /\ executePhase w' = List.last (entered t w) (executePhase w)
            /\ armed w').
  { intros t w w' Ha Ht Hd Hau Hun Htr Hadv.
    destruct (P5 t w Hobs Ha Ht) as (w'' & Hadv' & Hf & Hp & Ha' & _).
    - apply Z.leb_gt. exact Hd.
    - apply HWF; assumption.
    - apply HSI; assumption.
    - rewrite Htr. constructor.
    - rewrite Hau. cbn. lia.
    - lia.
    - rewrite Hadv in Hadv'. injection Hadv' as <-. auto. }
  split.
  - eexists; eexists; eexists; eexists; eexists.
    split; [ vm_compute; reflexivity | ].
    match goal with |- (armed ?w /\ _) /\ _ => pose (W0 := w) end.
    destruct (P3 (arena (fun q => q) 0) W0 eq_refl) as (A0 & Hp0 & Hc0).
    split; [ auto | ]. split; [ reflexivity | ].
    split; [ vm_compute; reflexivity | ].
    match goal with |- advance _ _ ?w = _ /\ _ => pose (W1 := w) end.
    assert (A1 : armed W1).
    { apply (P4 [exec (PG := Quiet) 7 (CRegisterExecutePhaseCallback 5%nat)] W0 W1);
        [ repeat (constructor; [ right; eexists; reflexivity | ]); constructor
        | reflexivity | exact A0 ]. }
    split; [ vm_compute; reflexivity | ].
    match goal with |- List.filter _ (log ?w) = _ /\ _ => pose (W2 := w) end.
    destruct (Hstep (10 * Second) W1 W2 A1) as (F2 & E2 & A2);
      [ reflexivity | reflexivity | reflexivity | reflexivity | reflexivity
      | vm_compute; reflexivity | ].
    split; [ exact (eq_trans F2 eq_refl) | ]. split; [ exact (eq_trans E2 eq_refl) | ].
    split; [ vm_compute; reflexivity | ].
    match goal with |- List.filter _ (log ?w) = _ /\ _ => pose (W3 := w) end.
    destruct (Hstep (100 * Second) W2 W3 A2) as (F3 & E3 & A3);
      [ reflexivity | reflexivity | reflexivity | reflexivity | reflexivity
      | vm_compute; reflexivity | ].
    split; [ exact (eq_trans F3 eq_refl) | ]. split; [ exact (eq_trans E3 eq_refl) | ].
    split; [ reflexivity | ].
    split; [ vm_compute; reflexivity | ].
    match goal with |- List.filter _ (log ?w) = _ /\ _ => pose (W4 := w) end.
    destruct (Hstep (170 * Second) W3 W4 A3) as (F4 & E4 & A4);
      [ reflexivity | reflexivity | reflexivity | reflexivity | reflexivity
      | vm_compute; reflexivity | ].
    split; [ exact (eq_trans F4 eq_refl) | ]. split; [ exact (eq_trans E4 eq_refl) | ].
    destruct (P1 [exec (PG := Quiet) 7 (CRegisterExecutePhaseCallback 5%nat);
                  advance (PG := Quiet) 7 (10 * Second);
                  advance (PG := Quiet) 7 (100 * Second);
                  advance (PG := Quiet) 7 (170 * Second)] W0 W4)
      as (rounds & Hr & Hs).
    + repeat (constructor; [ first [ left; eexists; reflexivity
                                   | right; eexists; reflexivity ] | ]).
      constructor.
    + vm_compute. reflexivity.
    + exists rounds. split; [ exact Hr | ]. apply Hs. change (100 ∈ ladder). left.
  - eexists; eexists; eexists.
    split; [ vm_compute; reflexivity | ].
    match goal with |- nextExecuteDamage ?w = _ /\ _ => pose (V0 := w) end.
    destruct (P3 (arena (fun q => q) 100000) V0 eq_refl) as (A0 & _).
    split; [ reflexivity | ].
    split; [ vm_compute; reflexivity | ].
    match goal with |- advance _ _ ?w = _ /\ _ => pose (V1 := w) end.
    assert (A1 : armed V1).
    { apply (P4 [exec (PG := Quiet) 7 (CRegisterExecutePhaseCallback 5%nat);
                 exec (PG := Quiet) 7 (CSetDamageTaken (60000 : @float64 FixedPoint))]
                V0 V1);
        [ repeat (constructor; [ right; eexists; reflexivity | ]); constructor
        | reflexivity | exact A0 ]. }
    split; [ vm_compute; reflexivity | ].
    match goal with |- List.filter _ (log ?w) = _ /\ _ => pose (V2 := w) end.
    destruct (Hstep (1 * Second) V1 V2 A1) as (F2 & E2 & A2);
      [ reflexivity | reflexivity | reflexivity | reflexivity | reflexivity
      | vm_compute; reflexivity | ].
    split; [ exact (eq_trans F2 eq_refl) | ]. split; [ exact (eq_trans E2 eq_refl) | ].
    reflexivity.
Defined.
